(* ===== verification/_CoqProject ===== *)
-Q . S2P
Prelude.v
Bytes.v
Crypto.v
Segment.v
SegmentImage.v
SegmentScan.v
SegmentWrite.v
Models.v
SegmentSpec.v
SegmentSafety.v
Chunk.v
ChunkModel.v
Index.v
IndexProofs.v
IndexSearch.v
CText.v
Entry.v
Store.v
StoreProofs.v
Json.v
Boots.v
BootsProofs.v
Config.v
ConfigProofs.v
Modifiers.v
ModifiersProofs.v
Builds.v
Fallback.v
FallbackProofs.v
Retention.v
RetentionProofs.v
Writer.v
WriterProofs.v
Recorder.v
Intake.v
RecorderProofs.v
RecorderInv.v
RecorderLogs.v
IntakeProofs.v
IntakeRounds.v
RecorderDemo.v
IntakeDemo.v
ScriptWorker.v
ScriptWorkerProofs.v
Player.v
PlayerCursor.v
PlayerFollow.v
PlayerSource.v
PlayerIter.v
PlayerOrder.v
PlayerViews.v
PlayerIterProofs.v
PlayerSegments.v
PlayerMerge.v
ReadBack.v
PlayerHeap.v
PlayerMergeProofs.v
BatchReader.v
BatchProofs.v
PlayerDemo.v
ReadBackDemo.v
Dirs.v
Startup.v
StartupProofs.v
StartupDemo.v
CliOptions.v
CliOutput.v
CliBoots.v
CliStats.v
CliMain.v
CliProofs.v
CliBatch.v
CliDemo.v
Received.v
