(* ===== verification/Prelude.v ===== *)
(** * A log recorder that keeps its entries in segment files

    Model and proofs for src/src: recorder.c (the daemon), segment.c (the segment
    format), index.c (the per-segment index), recorder_crypto.c, helper.c,
    fallback_source.c, script_worker.c, librecorder.c (the reader library),
    batch_reader.c and player.c (its programs), and the schema recorder.fbs.

    ** The program and its parts

    The recorder reads entries from journald, or from a syslog socket and
    /dev/kmsg, applies configured modifiers, and appends each entry to the open
    segment of its priority group.  A segment is a header, an optional
    dictionary, frames (chunks of up to 512 entries, compressed and possibly
    encrypted, each with a CRC) and a footer; next to it grows an index with one
    record per frame.  Segments rotate on size, age, boot, time zone and clock
    jumps; closed segments are removed by retention.  After every pass over the
    journal all chunks are flushed and the journal cursor is written, so that a
    restart resumes behind the last stored entry.  At start-up torn segments are
    truncated to their last complete frame.  Script modifiers run in a worker with
    a bounded queue.

    The reader library opens a store or a segment, scans it or merges the groups
    entry by entry in both directions, seeks by time and by cursor, repairs
    indexes and follows a store that grows.  The batch reader and the player print
    what it delivers; the player also lists boots, counts, measures and rebuilds
    indexes.

    ** Files

    - Prelude: options, results ([Res], [let?]), lists with integer positions,
      widths of integers, shared lemmas, hints and tactics.
    - Bytes (helper.c): little-endian numbers, CRC-32, framed chunks; [File] is a
      stdio stream with the room that is left on the disk.
    - Crypto (recorder_crypto.c), over the class [OpenSSL].
    - Segment (segment.c, segment.h): writer, scanner, random-access reader.
      SegmentImage, SegmentScan and SegmentWrite hold the lemmas (byte images,
      loop invariants), SegmentSpec the contract on requests, SegmentSafety what
      holds for arbitrary bytes.
    - Chunk (recorder.fbs): the tables, and the generated accessors as the class
      [FlatCC].  Models and ChunkModel: small instances of the classes, which
      show that their laws can hold together.
    - Index (index.c), IndexProofs, IndexSearch.
    - CText: [strtoull] and the printing of numbers.  Json: documents and
      accessors of libjansson, parsing and printing as the class [Jansson].
    - Entry: [LogEntry] and its two table forms.
    - Store: the log directory, names, sequence numbers, atomic state files,
      start-up recovery; StoreProofs.
    - Boots: the boot registry; BootsProofs.
    - Config: defaults, JSON keys, modifiers, priority groups, fragments;
      ConfigProofs.
    - Modifiers: from a journal record to the modified entry; ModifiersProofs.
      Builds: the modifier loops of the builds without PCRE2, and where they agree
      with it.  Received: the echo of received entries with -vv.
    - Fallback (fallback_source.c): the input without journald; FallbackProofs.
    - Retention: which closed segments go; RetentionProofs.
    - Writer: the [PriorityWriter] of one group; WriterProofs.
    - Recorder: opening, rotating, submitting with recovery, flushing, shutdown;
      RecorderProofs (writers and logs, rotation), RecorderInv (invariants of
      every run), RecorderLogs (the logs in the store: submitting, shutdown).
    - Intake: the journal position, the cursor files, [recorder_step], the loop of
      main and resuming; IntakeProofs (one pass), IntakeRounds (rounds, crash,
      reboot and restart).
    - RecorderDemo, IntakeDemo: concrete runs, with the witnesses of the
      properties whose hypotheses need a running recorder.
    - ScriptWorker (script_worker.c): the copied jobs, the linked queue, the
      threads as turns between critical sections, one run of a script;
      ScriptWorkerProofs.
    - Dirs (helper.c): [mkdir_p] over a tree of directories.  Startup: the rest of
      recorder.c, from the command line to the exit status ([recorder_main]);
      StartupProofs, StartupDemo.
    - Player (librecorder.c): paths, group names, entries and their orders, the
      state monad [SM] over the reader and the world.  PlayerCursor: cursor text
      and the store id.  PlayerFollow: scans of one file and of new segments,
      lists of groups.  PlayerSource: one group's segments, frames and indexes.
      PlayerIter: the merging iterator and its seeks.  PlayerMerge: the
      wall-clock scan with its heap.
    - PlayerOrder (comparisons as total orders), PlayerViews (what a source
      delivers), PlayerIterProofs, PlayerSegments (index against scan),
      PlayerHeap and PlayerMergeProofs, PlayerDemo (a small store, and the
      witnesses of the reader's properties).
    - ReadBack: what the recorder wrote is what the library reads; ReadBackDemo.
    - BatchReader (batch_reader.c), BatchProofs.
    - CliOptions, CliOutput, CliBoots, CliStats, CliMain (player.c): arguments and
      times, output, boots, statistics and repair, scans and main; CliProofs,
      CliBatch (batches against one pass of the library), CliDemo.

    A definition has the name of the C function, type or macro it models; a
    helper that models a part of a function (a loop, a block) says so.  State is a
    record with the struct's fields: [PriorityWriter], [Recorder], [Intake]
    (the fields of the struct Recorder that the loop of main uses, with the
    position in the journal and the two cursor files), [Store], [RecorderPlayer],
    [IteratorSource], [PlayerOptions].  What the system answers to the calls of
    one operation is an argument of the operation (records named [...Io] and
    [...Env]), and theorems quantify over it.

    ** How the parts meet

    The writer produces segments through Segment.v and index records through
    Index.v; the store sees the bytes of an open file when they are published
    (RecorderInv: [published]).  RecorderProofs relates a writer to an abstract
    log ([group_repr]: closed segments with their entries, then the entries of the
    open one), where the data of a closed segment is a header, frames with its
    entries and their footer.  RecorderLogs ties the logs to the store
    ([logs_stored]): the file of every closed segment has exactly its data, unless
    the system let it be unlinked.  A submitted entry is appended to its log
    whatever rotation it causes, and the logs stay in the store.  IntakeProofs composes extraction, tie order, modifiers and
    submission; a pass is described by its trace, the list of journal entries
    with what became of each ([Outcome]).  [recorder_main] composes everything
    from the arguments on.  The reader goes through Segment.v's scanner and frame
    reader and Index.v's search, sees the files as a function from paths
    ([ReadFs]), and its programs call it as the C code does, in the monad [SM].

    ** What the groups of theorems show

    - Segments: what is written is read back, plain or encrypted; a cut anywhere
      behind the header leaves exactly the complete frames; a scan of arbitrary
      bytes ends and stays inside the buffer; a damaged frame and all behind it
      are not delivered; random access agrees with the scan; nonces are not
      repeated within a segment.
    - Index: records cover their frames, a rebuilt index opens, searches by
      offset and by time find what they should.
    - Store, boots, configuration: atomic state files, names and states that read
      back, recovery that keeps complete frames and leaves settled segments, a
      registry with distinct ids, configurations that partition the priorities.
      State files are those whose temporary path fits its 512 bytes, group names
      those that fit their 64 bytes, which the program does not check.
    - Retention: limits are enforced (for the 4096 closed segments that the
      program can collect), the order is right, open segments are spared whatever
      fails.
    - Writer and recorder: submission refines appending to a log; a segment fits
      its entries; a closed segment scans back to all of them with a true footer;
      shutdown closes everything, and all of it is in the store; in every run,
      whatever fails, numbers are fresh and the files of open segments hold what
      was written.  Where compression is on, [compress_if_smaller] is asked for.
    - Intake: modifiers keep entries well formed and route them to a group that
      settles; nothing is skipped; a good round leaves the logs on disk; a crash and a restart,
      or a shutdown and a reboot, lose and double nothing.
    - Recorder to reader: the reader's scan of a closed segment delivers exactly
      the entries that were submitted to it, and a scan of an open segment that
      has been flushed delivers all of them.
    - Start: only the holder of the lock touches a store; the reader library reads
      the store id that the recorder writes; namespaces have cursor files of their
      own; mkdir_p makes exactly the missing directories; options are read in
      whatever form they are written.
    - Script worker: jobs start in order and at most once, the queue is bounded, a
      stopped worker drains, a run ends.
    - Reader: iterating delivers every entry of every group exactly once, merged
      in order; reading through an index is reading by a scan; the heap of the
      wall-clock scan delivers a sorted merge; cursors parse back; batches that
      resume from cursors lose and repeat nothing.
    - Player: exactly the options that fit together are accepted, printed times parse back, sanitized lines are
      clean, the lines of -n and -f are the right ones, -b selects the right boot,
      the boots listed cover the segments, measuring ends, and all
      batch sizes print the same.

    ** Bounds and fuel

    [scan_loop] takes the buffer's size plus one as fuel: every frame is at least
    32 bytes long, and SegmentSafety.scan_total_in_bounds proves that it is
    enough.  [recorder_step_loop] counts the 512 iterations the code allows.
    So a round opens at most 512 segments ([ROUND_SEGMENTS]); theorems about rounds
    ask for so many segment numbers below 2^64.
    [reroute_loop] counts the code's own limit of eight, which
    ModifiersProofs.modifiers_route proves is never the reason to stop.  The
    bisections recurse on the length of the interval.  Loops of the reader that
    end with the data (over frames, segments and groups) take a fuel argument and
    answer with the error EOTHER without it; the theorems about them state that
    the result is delivered for every fuel above an explicit bound or for the
    given plain reading.  Loops that end with the user take the list of the
    system's answers.  [disk_usage_path] takes a depth, of which
    CliProofs.disk_usage_depth proves that 512 is enough.  Integers wrap where the
    C types do ([u8], [u16], [u32], [u64]).

    ** Assumptions

    OpenSSL, zstd, flatcc, libjansson, the regular expressions and libsystemd are
    classes; their laws ([OpenSSL_ok], [WriterLib_ok], [FlatCC_ok], [Jansson_ok],
    [SdJournal_ok]) state documented behaviour.  The order in which qsort leaves
    equal elements and the calendar functions of the C library are classes too
    ([CLib], [CTime]); sscanf, strftime, strtoull and getopt_long are written out
    for what the sources use of them, without POSIXLY_CORRECT.  The build has
    libsystemd, PCRE2 and OpenSSL, except in Builds.  Memory allocation and ftello succeed, and the
    clock does not change within one operation.  Files do not change while the
    reader scans, only between scans.

    ** Not modelled

    - The generated FlatBuffers code (flatbuffers_common_*.h, recorder_*.h): seen
      through [FlatCC].
    - Messages on stderr, what is freed, and the child of a script between fork
      and execve.  A signal is the end of the list of rounds.
    - The block of librecorder.c under #if 0, and the last branch of the player's
      scan_log_once, which no options reach.
    - In player.c the functions valid_group_name and segment_seq_from_name have
      the text of librecorder.c's, whose definitions they share.
    - smoke_test.c and sort_test.c are tests. *)
From stdpp Require Export base numbers list option strings gmap sorting.
From Stdlib Require Export ZArith Lia.

#[global] Open Scope Z_scope.

(** * Machine integers

    A w-bit unsigned integer is a [Z] in [0, 2^w); the functions below are the
    C conversions to the unsigned types. *)
Definition UINT16_MAX : Z := 65535.
Definition UINT32_MAX : Z := 4294967295.
Definition UINT64_MAX : Z := 18446744073709551615.
Definition SIZE_MAX : Z := UINT64_MAX.

Definition u8 (x : Z) : Z := x mod 256.
Definition u16 (x : Z) : Z := x mod 65536.
Definition u32 (x : Z) : Z := x mod 4294967296.
Definition u64 (x : Z) : Z := x mod 18446744073709551616.

Definition is_u8 (x : Z) : Prop := 0 <= x < 256.
Definition is_u16 (x : Z) : Prop := 0 <= x < 65536.
Definition is_u32 (x : Z) : Prop := 0 <= x < 4294967296.
Definition is_u64 (x : Z) : Prop := 0 <= x < 18446744073709551616.

(** Signed 64-bit conversion (two's complement), for [int64_t] and [time_t]. *)
Definition s64 (x : Z) : Z :=
  let y := u64 x in if y <? 9223372036854775808 then y else y - 18446744073709551616.

Lemma u32_id x : is_u32 x → u32 x = x.
Proof. unfold is_u32, u32. intros. by rewrite Z.mod_small. Qed.
Lemma u64_id x : is_u64 x → u64 x = x.
Proof. unfold is_u64, u64. intros. by rewrite Z.mod_small. Qed.
Lemma u32_range x : is_u32 (u32 x).
Proof. unfold is_u32, u32. by apply Z.mod_pos_bound. Qed.
Lemma u64_range x : is_u64 (u64 x).
Proof. unfold is_u64, u64. by apply Z.mod_pos_bound. Qed.
Lemma u8_range x : is_u8 (u8 x).
Proof. unfold is_u8, u8. by apply Z.mod_pos_bound. Qed.

(** * Buffers

    A byte buffer is a [list Z]; offsets and sizes are [size_t] values, hence
    [Z].  [zdrop off buf] is the C pointer [buf + off], [zlen buf] the number of
    bytes that exist from there on. *)
Abbreviation bytes := (list Z).

Definition zlen {A} (l : list A) : Z := Z.of_nat (length l).
Definition zdrop {A} (n : Z) (l : list A) : list A := drop (Z.to_nat n) l.
Definition ztake {A} (n : Z) (l : list A) : list A := take (Z.to_nat n) l.
Definition slice {A} (off n : Z) (l : list A) : list A := ztake n (zdrop off l).
(** [p[i]]; the default only matters past the end of the buffer. *)
Definition byte_at (p : bytes) (i : Z) : Z := nth (Z.to_nat i) p 0.

Definition bytes_ok (l : bytes) : Prop := Forall is_u8 l.

(** A C string literal as the bytes before its terminator. *)
Definition C (s : string) : bytes :=
  map (λ a, Z.of_N (Ascii.N_of_ascii a)) (String.list_ascii_of_string s).

(** The C string held by a char array: the bytes before the first NUL. *)
Fixpoint cstr (l : bytes) : bytes :=
  match l with
  | [] => []
  | b :: l' => if b =? 0 then [] else b :: cstr l'
  end.

Definition beq (a b : bytes) : bool := bool_decide (a = b).

Lemma beq_true a b : beq a b = true ↔ a = b.
Proof. apply bool_decide_eq_true. Qed.
Lemma beq_false a b : beq a b = false ↔ a ≠ b.
Proof. apply bool_decide_eq_false. Qed.
Lemma beq_refl a : beq a a = true.
Proof. by apply beq_true. Qed.

Section zlist.
Context {A : Type}.
Implicit Types l k : list A.

Lemma zlen_nonneg l : 0 <= zlen l.
Proof. unfold zlen. lia. Qed.
Lemma zlen_nil : zlen (@nil A) = 0.
Proof. done. Qed.
Lemma zlen_cons x l : zlen (x :: l) = 1 + zlen l.
Proof. unfold zlen. simpl. lia. Qed.
Lemma zlen_app l k : zlen (l ++ k) = zlen l + zlen k.
Proof. unfold zlen. rewrite length_app. lia. Qed.
Lemma zlen_zdrop n l : 0 <= n <= zlen l → zlen (zdrop n l) = zlen l - n.
Proof. unfold zlen, zdrop. intros. rewrite length_drop. lia. Qed.
Lemma zlen_ztake n l : 0 <= n <= zlen l → zlen (ztake n l) = n.
Proof. unfold zlen, ztake. intros. rewrite length_take. lia. Qed.
Lemma zlen_ztake_min n l : 0 <= n → zlen (ztake n l) = n `min` zlen l.
Proof. unfold zlen, ztake. intros. rewrite length_take. lia. Qed.
Lemma zlen_slice o n l : 0 <= o → 0 <= n → o + n <= zlen l → zlen (slice o n l) = n.
Proof. intros. unfold slice. rewrite zlen_ztake; [done|]. rewrite zlen_zdrop; lia. Qed.

Lemma zdrop_0 l : zdrop 0 l = l.
Proof. done. Qed.
Lemma ztake_0 l : ztake 0 l = [].
Proof. done. Qed.
Lemma zdrop_zdrop n m l : 0 <= n → 0 <= m → zdrop n (zdrop m l) = zdrop (m + n) l.
Proof. intros. unfold zdrop. rewrite drop_drop. f_equal. lia. Qed.
Lemma zdrop_app_ge n l k : zlen l <= n → zdrop n (l ++ k) = zdrop (n - zlen l) k.
Proof. unfold zdrop, zlen. intros. rewrite drop_app_ge by lia. f_equal. lia. Qed.
Lemma zdrop_app_le n l k : n <= zlen l → zdrop n (l ++ k) = zdrop n l ++ k.
Proof. unfold zdrop, zlen. intros. by rewrite drop_app_le by lia. Qed.
Lemma zdrop_app_eq n l k : zlen l = n → zdrop n (l ++ k) = k.
Proof. intros. rewrite zdrop_app_ge by lia. replace (n - zlen l) with 0 by lia. done. Qed.
Lemma zdrop_ge n l : zlen l <= n → zdrop n l = [].
Proof. unfold zdrop, zlen. intros. apply drop_ge. lia. Qed.
Lemma ztake_app_ge n l k : zlen l <= n → ztake n (l ++ k) = l ++ ztake (n - zlen l) k.
Proof. unfold ztake, zlen. intros. rewrite take_app_ge by lia. do 2 f_equal. lia. Qed.
Lemma ztake_app_le n l k : n <= zlen l → ztake n (l ++ k) = ztake n l.
Proof. unfold ztake, zlen. intros. by rewrite take_app_le by lia. Qed.
Lemma ztake_app_eq n l k : zlen l = n → ztake n (l ++ k) = l.
Proof.
  intros. rewrite ztake_app_ge by lia. replace (n - zlen l) with 0 by lia.
  rewrite ztake_0. apply app_nil_r.
Qed.
Lemma ztake_ge n l : zlen l <= n → ztake n l = l.
Proof. unfold ztake, zlen. intros. apply take_ge. lia. Qed.
Lemma ztake_zdrop n l : ztake n l ++ zdrop n l = l.
Proof. apply take_drop. Qed.
Lemma ztake_ztake n m l : n <= m → ztake n (ztake m l) = ztake n l.
Proof. unfold ztake. intros. rewrite take_take. f_equal. lia. Qed.
Lemma zdrop_ztake n m l : 0 <= n → n <= m → zdrop n (ztake m l) = ztake (m - n) (zdrop n l).
Proof.
  unfold ztake, zdrop. intros. rewrite take_drop_commute. do 2 f_equal. lia.
Qed.
Lemma slice_ztake o n m l : 0 <= o → 0 <= n → o + n <= m → slice o n (ztake m l) = slice o n l.
Proof. intros. unfold slice. rewrite zdrop_ztake by lia. by rewrite ztake_ztake by lia. Qed.
Lemma slice_app_mid (a b c : list A) n : zlen b = n → slice (zlen a) n (a ++ b ++ c) = b.
Proof. intros. unfold slice. rewrite zdrop_app_eq by done. by apply ztake_app_eq. Qed.
Lemma zlen_replicate n (x : A) : 0 <= n → zlen (replicate (Z.to_nat n) x) = n.
Proof. intros. unfold zlen. rewrite length_replicate. lia. Qed.
End zlist.

(** Length bookkeeping: rewrite every [zlen] of a concatenation with the lemmas
    of database [len], then [lia]. *)
Create Rewrite HintDb len.
#[export] Hint Rewrite @zlen_nil @zlen_cons @zlen_app : len.

Ltac zlen_norm := autorewrite with len in *.
Ltac solve_len :=
  zlen_norm; repeat match goal with
  | |- context [zlen ?l] => lazymatch goal with
      | _ : 0 <= zlen l |- _ => fail
      | _ => pose proof (zlen_nonneg l) end
  | _ : context [zlen ?l] |- _ => lazymatch goal with
      | _ : 0 <= zlen l |- _ => fail
      | _ => pose proof (zlen_nonneg l) end
  end; lia.

(** * Results with an [errno]

    C functions that return [0]/[-1] and leave a reason in [errno]; [EUNSET] is
    a [-1] after which [errno] keeps its previous value. *)
Inductive Errno :=
  | EUNSET | EINVAL | EOVERFLOW | EIO | EACCES | ENOTSUP | ENOENT | ENOSPC
  | EDQUOT | ESTALE | EPROTONOSUPPORT | ENAMETOOLONG | EAGAIN | ENOMEM | EOTHER.
#[export] Instance Errno_eq_dec : EqDecision Errno.
Proof. solve_decision. Defined.

Inductive Res (A : Type) :=
  | Ok (a : A)
  | Err (e : Errno).
Arguments Ok {A} a.
Arguments Err {A} e.

Definition rbind {A B} (r : Res A) (f : A → Res B) : Res B :=
  match r with Ok a => f a | Err e => Err e end.
Definition guard_res (b : bool) (e : Errno) : Res unit := if b then Ok tt else Err e.

Declare Scope rec_scope.
Delimit Scope rec_scope with rec.
Notation "'let?' x := r 'in' k" := (rbind r (λ x, k))
  (at level 10, x pattern, r at level 100, k at level 200) : rec_scope.
Notation "'require' b 'else' e ; k" := (rbind (guard_res b e) (λ _, k))
  (at level 10, b at level 99, e at level 0, k at level 200) : rec_scope.
#[global] Open Scope rec_scope.

Lemma rbind_ok {A B} (r : Res A) (f : A → Res B) b :
  rbind r f = Ok b → ∃ a, r = Ok a ∧ f a = Ok b.
Proof. destruct r; simpl; [eauto|done]. Qed.

(** Split a successful run of a chain of checks into one hypothesis per check. *)
Ltac inv_ok H :=
  repeat (let a := fresh "a" in let Ha := fresh "Hr" in
          apply rbind_ok in H as (a & Ha & H)).

(** * Flag tests *)
Definition has_flag (flags bit : Z) : bool := negb (Z.land flags bit =? 0).

(** Boolean guards to propositions, then arithmetic. *)
Ltac bool_lia :=
  repeat match goal with
  | H : (_ && _) = true |- _ => apply andb_true_iff in H as [? ?]
  | H : (_ || _) = false |- _ => apply orb_false_iff in H as [? ?]
  | H : negb _ = true |- _ => apply negb_true_iff in H
  | H : negb _ = false |- _ => apply negb_false_iff in H
  | H : (_ <? _) = true |- _ => apply Z.ltb_lt in H
  | H : (_ <? _) = false |- _ => apply Z.ltb_ge in H
  | H : (_ <=? _) = true |- _ => apply Z.leb_le in H
  | H : (_ <=? _) = false |- _ => apply Z.leb_gt in H
  | H : (_ =? _) = true |- _ => apply Z.eqb_eq in H
  | H : (_ =? _) = false |- _ => apply Z.eqb_neq in H
  end; lia.
