(* ===== verification/Bytes.v ===== *)
(** * Byte codecs and checksum (src/src/helper.c)

    Little-endian stores and loads, the CRC-32 every on-disk structure is
    guarded with, and the framed-chunk header helpers.  [read_u32_le p] reads the
    four bytes at the pointer [p]; [write_u32_le v] is the four bytes stored. *)
From S2P Require Import Prelude.

Definition read_u32_le (p : bytes) : Z :=
  Z.lor (byte_at p 0)
    (Z.lor (Z.shiftl (byte_at p 1) 8)
      (Z.lor (Z.shiftl (byte_at p 2) 16) (Z.shiftl (byte_at p 3) 24))).

Definition read_u64_le (p : bytes) : Z :=
  Z.lor (byte_at p 0)
    (Z.lor (Z.shiftl (byte_at p 1) 8)
      (Z.lor (Z.shiftl (byte_at p 2) 16)
        (Z.lor (Z.shiftl (byte_at p 3) 24)
          (Z.lor (Z.shiftl (byte_at p 4) 32)
            (Z.lor (Z.shiftl (byte_at p 5) 40)
              (Z.lor (Z.shiftl (byte_at p 6) 48) (Z.shiftl (byte_at p 7) 56))))))).

Definition write_u32_le (value : Z) : bytes :=
  [ Z.land value 255;
    Z.land (Z.shiftr value 8) 255;
    Z.land (Z.shiftr value 16) 255;
    Z.land (Z.shiftr value 24) 255 ].

Definition write_u64_le (value : Z) : bytes :=
  [ Z.land value 255;
    Z.land (Z.shiftr value 8) 255;
    Z.land (Z.shiftr value 16) 255;
    Z.land (Z.shiftr value 24) 255;
    Z.land (Z.shiftr value 32) 255;
    Z.land (Z.shiftr value 40) 255;
    Z.land (Z.shiftr value 48) 255;
    Z.land (Z.shiftr value 56) 255 ].

(** ** CRC-32 *)

(** One turn of the inner loop:
    [crc = (crc >> 1) ^ (0xedb88320u & (uint32_t)-(int32_t)(crc & 1u))]. *)
Definition crc_bit (crc : Z) : Z :=
  Z.lxor (Z.shiftr crc 1) (Z.land 3988292384 (u32 (- Z.land crc 1))).

Definition crc_byte (crc b : Z) : Z := Nat.iter 8 crc_bit (Z.lxor crc b).

Arguments crc_bit : simpl never.
Arguments crc_byte : simpl never.

Definition recorder_crc32 (data : bytes) (len : Z) : Z :=
  u32 (Z.lnot (fold_left crc_byte (ztake len data) 4294967295)).

(** ** Output files

    A [FILE *] open for writing: what was written so far and how many bytes the
    device still accepts. *)
Record File := mkFile {
  f_data : bytes;
  f_budget : Z;        (* bytes the device still accepts *)
  f_errno : Errno;     (* what it reports once the budget is exhausted *)
}.

(** [write_all]: [fwrite(buf, 1, len, fp) == len]; a short write leaves the
    prefix that was accepted. *)
Definition write_all (fp : File) (buf : bytes) : Res unit * File :=
  if zlen buf <=? f_budget fp
  then (Ok tt, mkFile (f_data fp ++ buf) (f_budget fp - zlen buf) (f_errno fp))
  else (Err (f_errno fp), mkFile (f_data fp ++ ztake (f_budget fp) buf) 0 (f_errno fp)).

(** [a || b || c] over [write_all] calls: stop at the first failure. *)
Fixpoint write_each (fp : File) (bufs : list bytes) : Res unit * File :=
  match bufs with
  | [] => (Ok tt, fp)
  | b :: bufs' =>
      match write_all fp b with
      | (Ok _, fp') => write_each fp' bufs'
      | (Err e, fp') => (Err e, fp')
      end
  end.

(** ** Framed chunks *)
Definition RECORDER_FRAME_HEADER_SIZE : Z := 8.

Definition write_framed_chunk (fp : File) (buf : bytes) (size : Z) : Res unit * File :=
  write_each fp [write_u32_le size ++ write_u32_le 0; ztake size buf].

Definition read_framed_chunk_header (buf : bytes) (remaining : Z) : Res (Z * Z) :=
  if remaining <? RECORDER_FRAME_HEADER_SIZE then Err EUNSET
  else Ok (read_u32_le buf, RECORDER_FRAME_HEADER_SIZE).

Arguments write_u32_le value : simpl never.
Arguments write_u64_le value : simpl never.
Arguments read_u32_le p : simpl never.
Arguments read_u64_le p : simpl never.
Arguments recorder_crc32 data len : simpl never.

(** ** Codec lemmas *)

Lemma zlen_write_u32_le v : zlen (write_u32_le v) = 4.
Proof. done. Qed.
Lemma zlen_write_u64_le v : zlen (write_u64_le v) = 8.
Proof. done. Qed.
#[export] Hint Rewrite zlen_write_u32_le zlen_write_u64_le : len.

Lemma land_255_u8 x : is_u8 (Z.land x 255).
Proof. change 255 with (Z.ones 8). rewrite Z.land_ones by done. by apply Z.mod_pos_bound. Qed.

Lemma write_u32_le_ok v : bytes_ok (write_u32_le v).
Proof. repeat constructor; apply land_255_u8. Qed.
Lemma write_u64_le_ok v : bytes_ok (write_u64_le v).
Proof. repeat constructor; apply land_255_u8. Qed.

(** Bit [i] of byte [k] of a value is bit [8k+i] of the value. *)
Lemma testbit_byte v k i :
  0 <= k → 0 <= i → Z.testbit (Z.land (Z.shiftr v k) 255) i = (i <? 8) && Z.testbit v (i + k).
Proof.
  intros. rewrite Z.land_spec, Z.shiftr_spec by done. change 255 with (Z.ones 8).
  rewrite Z.testbit_ones_nonneg by lia. by rewrite andb_comm.
Qed.

(** The bits of the codecs, position by position. *)
Ltac byte_bits i :=
  repeat rewrite ?Z.lor_spec, ?Z.shiftl_spec by lia;
  repeat match goal with
  | |- context [Z.testbit (Z.land ?v 255) ?j] =>
      lazymatch v with
      | Z.shiftr _ _ => fail
      | _ => replace (Z.land v 255) with (Z.land (Z.shiftr v 0) 255) by (by rewrite Z.shiftr_0_r)
      end
  end;
  repeat match goal with
  | |- context [Z.testbit (Z.land (Z.shiftr ?v ?k) 255) ?j] =>
      first
        [ rewrite (testbit_byte v k j) by lia
        | rewrite (Z.testbit_neg_r (Z.land (Z.shiftr v k) 255) j) by lia ]
  end;
  repeat match goal with |- context [?a <? ?b] => destruct (Z.ltb_spec a b); try lia end;
  rewrite ?orb_false_r, ?orb_false_l; simpl.

(** The positions below [n], then the rest. *)
Ltac le_below i n :=
  destruct (decide (i < n));
  [byte_bits i; rewrite ?andb_true_r, ?andb_false_r; first [done | f_equal; lia]|].
Ltac le_codec i :=
  apply Z.bits_inj'; intros i ?; rewrite Z.land_spec, Z.testbit_ones_nonneg by lia.

Lemma read_write_u32_le v rest : read_u32_le (write_u32_le v ++ rest) = u32 v.
Proof.
  unfold read_u32_le, byte_at. simpl. unfold u32. change 4294967296 with (2 ^ 32).
  rewrite <- Z.land_ones by done. le_codec i.
  le_below i 8. le_below i 16. le_below i 24. le_below i 32.
  byte_bits i; by rewrite ?andb_false_r.
Qed.

Lemma read_write_u64_le v rest : read_u64_le (write_u64_le v ++ rest) = u64 v.
Proof.
  unfold read_u64_le, byte_at. simpl. unfold u64. change 18446744073709551616 with (2 ^ 64).
  rewrite <- Z.land_ones by done. le_codec i.
  le_below i 8. le_below i 16. le_below i 24. le_below i 32.
  le_below i 40. le_below i 48. le_below i 56. le_below i 64.
  byte_bits i; by rewrite ?andb_false_r.
Qed.

(** Loads see only the bytes they name. *)
Lemma byte_at_ztake p i n : 0 <= i < n → byte_at (ztake n p) i = byte_at p i.
Proof.
  intros. unfold byte_at, ztake. rewrite !nth_lookup, lookup_take.
  by rewrite decide_True by lia.
Qed.

Lemma read_u32_le_ztake p n : 4 <= n → read_u32_le (ztake n p) = read_u32_le p.
Proof. intros. unfold read_u32_le. by rewrite !byte_at_ztake by lia. Qed.
Lemma read_u64_le_ztake p n : 8 <= n → read_u64_le (ztake n p) = read_u64_le p.
Proof. intros. unfold read_u64_le. by rewrite !byte_at_ztake by lia. Qed.

Lemma byte_at_app_l p q i : 0 <= i < zlen p → byte_at (p ++ q) i = byte_at p i.
Proof. intros. unfold byte_at, zlen in *. apply app_nth1. lia. Qed.
Lemma read_u32_le_app p q : 4 <= zlen p → read_u32_le (p ++ q) = read_u32_le p.
Proof. intros. unfold read_u32_le. by rewrite !byte_at_app_l by lia. Qed.
Lemma read_u64_le_app p q : 8 <= zlen p → read_u64_le (p ++ q) = read_u64_le p.
Proof. intros. unfold read_u64_le. by rewrite !byte_at_app_l by lia. Qed.

Lemma byte_at_range p i : bytes_ok p → is_u8 (byte_at p i).
Proof.
  intros Hp. unfold byte_at. destruct (decide (Z.to_nat i < length p)%nat) as [Hi|Hi].
  - unfold bytes_ok in Hp. rewrite Forall_forall in Hp. apply Hp.
    apply list_elem_of_In, nth_In. done.
  - rewrite nth_overflow by lia. done.
Qed.

(** A value whose high bits are clear is below the power of two. *)
Lemma bits_range n x : 0 <= n → 0 <= x → (∀ i, n <= i → Z.testbit x i = false) → 0 <= x < 2 ^ n.
Proof.
  intros Hn Hx Hb. split; [done|].
  assert (Z.land x (Z.ones n) = x) as <-; [|rewrite Z.land_ones by done; by apply Z.mod_pos_bound, Z.pow_pos_nonneg].
  apply Z.bits_inj'. intros i Hi. rewrite Z.land_spec, Z.testbit_ones_nonneg by lia.
  destruct (Z.ltb_spec i n); [by rewrite andb_true_r|]. by rewrite Hb, andb_false_l by lia.
Qed.

Lemma testbit_high n x i : 0 <= n → 0 <= x < 2 ^ n → n <= i → Z.testbit x i = false.
Proof.
  intros. rewrite <- (Z.mod_small x (2 ^ n)) by done. by apply Z.mod_pow2_bits_high.
Qed.

Lemma lor_range n x y : 0 <= n → 0 <= x < 2 ^ n → 0 <= y < 2 ^ n → 0 <= Z.lor x y < 2 ^ n.
Proof.
  intros. apply bits_range; [lia|apply Z.lor_nonneg; lia|].
  intros i Hi. rewrite Z.lor_spec. by rewrite !(testbit_high n) by lia.
Qed.

(** A byte shifted into a wider word stays inside it. *)
Lemma shiftl_byte_range n k b : is_u8 b → 0 <= k → k + 8 <= n → 0 <= Z.shiftl b k < 2 ^ n.
Proof.
  intros Hb Hk Hn. unfold is_u8 in Hb. apply bits_range; [lia|apply Z.shiftl_nonneg; lia|].
  intros i Hi. rewrite Z.shiftl_spec by lia. apply (testbit_high 8); lia.
Qed.

Lemma byte_range n b : is_u8 b → 8 <= n → 0 <= b < 2 ^ n.
Proof. intros. rewrite <- (Z.shiftl_0_r b). by apply shiftl_byte_range. Qed.

Ltac le_range :=
  repeat (apply lor_range; [done| |]);
  first [by apply byte_range; [apply byte_at_range|] | by apply shiftl_byte_range; [apply byte_at_range|..]].

Lemma read_u32_le_range p : bytes_ok p → is_u32 (read_u32_le p).
Proof.
  intros Hp. unfold is_u32, read_u32_le. change 4294967296 with (2 ^ 32).
  le_range.
Qed.

Lemma read_u64_le_range p : bytes_ok p → is_u64 (read_u64_le p).
Proof.
  intros Hp. unfold is_u64, read_u64_le. change 18446744073709551616 with (2 ^ 64).
  le_range.
Qed.

(** ** CRC lemmas *)

(** The mask selects the whole polynomial or nothing, by the low bit. *)
Lemma crc_bit_spec crc :
  crc_bit crc = Z.lxor (Z.shiftr crc 1) (if Z.odd crc then 3988292384 else 0).
Proof.
  unfold crc_bit. f_equal. change 1 with (Z.ones 1). rewrite Z.land_ones by done.
  change (2 ^ 1) with 2. rewrite Zmod_odd. by destruct (Z.odd crc).
Qed.

Lemma crc_bit_range crc : is_u32 crc → is_u32 (crc_bit crc).
Proof.
  intros Hc. unfold is_u32 in *. rewrite crc_bit_spec. change 4294967296 with (2 ^ 32) in *.
  assert (Hp : 0 <= (if Z.odd crc then 3988292384 else 0) < 2 ^ 32) by (by destruct (Z.odd crc)).
  apply bits_range; [lia| |].
  - apply Z.lxor_nonneg. rewrite Z.shiftr_nonneg. lia.
  - intros i Hi. rewrite Z.lxor_spec, Z.shiftr_spec by lia.
    by rewrite !(testbit_high 32) by lia.
Qed.

(** The polynomial's top bit records the bit shifted out, so a turn loses
    nothing. *)
Lemma crc_bit_top crc : is_u32 crc → Z.testbit (crc_bit crc) 31 = Z.odd crc.
Proof.
  intros Hc. rewrite crc_bit_spec, Z.lxor_spec, Z.shiftr_spec by lia.
  rewrite (testbit_high 32) by (unfold is_u32 in Hc; lia). by destruct (Z.odd crc).
Qed.

Lemma crc_bit_inj x y : is_u32 x → is_u32 y → crc_bit x = crc_bit y → x = y.
Proof.
  intros Hx Hy He.
  assert (Ho : Z.odd x = Z.odd y) by (by rewrite <- crc_bit_top, He, crc_bit_top).
  rewrite !crc_bit_spec, Ho in He.
  assert (Hs : Z.shiftr x 1 = Z.shiftr y 1).
  { apply (f_equal (λ z, Z.lxor z (if Z.odd y then 3988292384 else 0))) in He.
    by rewrite !Z.lxor_assoc, Z.lxor_nilpotent, !Z.lxor_0_r in He. }
  rewrite !Z.shiftr_div_pow2 in Hs by done. change (2 ^ 1) with 2 in Hs.
  rewrite (Z.div_mod x 2), (Z.div_mod y 2), !Zmod_odd by done. by rewrite Hs, Ho.
Qed.

Lemma crc_iter_range n x : is_u32 x → is_u32 (Nat.iter n crc_bit x).
Proof. intros. induction n; simpl; [done|by apply crc_bit_range]. Qed.
Lemma crc_iter_inj n x y :
  is_u32 x → is_u32 y → Nat.iter n crc_bit x = Nat.iter n crc_bit y → x = y.
Proof.
  intros Hx Hy. induction n; simpl; [done|]. intros He.
  apply IHn, crc_bit_inj; auto using crc_iter_range.
Qed.

Lemma lxor_u32 x y : is_u32 x → is_u32 y → is_u32 (Z.lxor x y).
Proof.
  unfold is_u32. change 4294967296 with (2 ^ 32). intros. apply bits_range; [lia| |].
  - apply Z.lxor_nonneg. lia.
  - intros i Hi. rewrite Z.lxor_spec. by rewrite !(testbit_high 32) by lia.
Qed.
Lemma u8_u32 b : is_u8 b → is_u32 b.
Proof. unfold is_u8, is_u32. lia. Qed.

Lemma lxor_cancel_r x y c : Z.lxor x c = Z.lxor y c → x = y.
Proof.
  intros He. apply (f_equal (λ z, Z.lxor z c)) in He.
  by rewrite !Z.lxor_assoc, Z.lxor_nilpotent, !Z.lxor_0_r in He.
Qed.

Lemma crc_byte_range c b : is_u32 c → is_u8 b → is_u32 (crc_byte c b).
Proof. intros. unfold crc_byte. apply crc_iter_range, lxor_u32; auto using u8_u32. Qed.
Lemma crc_byte_inj_state c c' b :
  is_u32 c → is_u32 c' → is_u8 b → crc_byte c b = crc_byte c' b → c = c'.
Proof.
  unfold crc_byte. intros ??? He. apply crc_iter_inj in He; auto using lxor_u32, u8_u32.
  by apply lxor_cancel_r in He.
Qed.
Lemma crc_byte_inj_byte c b b' :
  is_u32 c → is_u8 b → is_u8 b' → crc_byte c b = crc_byte c b' → b = b'.
Proof.
  unfold crc_byte. intros ??? He. apply crc_iter_inj in He; auto using lxor_u32, u8_u32.
  rewrite (Z.lxor_comm c b), (Z.lxor_comm c b') in He. by apply lxor_cancel_r in He.
Qed.

(** Folds of a step that is injective in its state and in its byte, over an
    abstract step so that the kernel never unfolds the checksum. *)
Section injective_fold.
Context (f : Z → Z → Z) (P Q : Z → Prop).
Hypothesis f_range : ∀ c b, P c → Q b → P (f c b).
Hypothesis f_inj_state : ∀ c c' b, P c → P c' → Q b → f c b = f c' b → c = c'.
Hypothesis f_inj_byte : ∀ c b b', P c → Q b → Q b' → f c b = f c b' → b = b'.

Lemma fold_range l c : Forall Q l → P c → P (fold_left f l c).
Proof. intros Hl. revert c. induction Hl; simpl; auto. Qed.

Lemma fold_inj l c c' :
  Forall Q l → P c → P c' → fold_left f l c = fold_left f l c' → c = c'.
Proof.
  intros Hl. revert c c'. induction Hl; simpl; [done|]. intros c c' Hc Hc' He.
  apply IHHl in He; eauto.
Qed.

Lemma fold_one_byte a x y b c :
  Forall Q a → Forall Q b → Q x → Q y → P c →
  fold_left f (a ++ x :: b) c = fold_left f (a ++ y :: b) c → x = y.
Proof.
  intros Ha Hb Hx Hy Hc. rewrite !fold_left_app. simpl. intros He.
  assert (P (fold_left f a c)) by (by apply fold_range).
  apply fold_inj in He; eauto.
Qed.
End injective_fold.

Lemma lnot_u32_inj x y : is_u32 x → is_u32 y → u32 (Z.lnot x) = u32 (Z.lnot y) → x = y.
Proof.
  unfold is_u32, u32, Z.lnot. intros ?? He.
  assert (Hn : ∀ z, 0 <= z < 4294967296 → Z.pred (- z) mod 4294967296 = 4294967295 - z).
  { intros z Hz. symmetry. apply (Z.mod_unique_pos _ _ (-1)); lia. }
  rewrite !Hn in He by done. lia.
Qed.

Lemma recorder_crc32_range data len : is_u32 (recorder_crc32 data len).
Proof. apply u32_range. Qed.

Lemma recorder_crc32_all data : recorder_crc32 data (zlen data) = u32 (Z.lnot (fold_left crc_byte data 4294967295)).
Proof. unfold recorder_crc32. by rewrite ztake_ge. Qed.

Lemma recorder_crc32_ztake data n m : n <= m → recorder_crc32 (ztake m data) n = recorder_crc32 data n.
Proof. intros. unfold recorder_crc32. by rewrite ztake_ztake. Qed.

Lemma recorder_crc32_app a b n : zlen a = n → recorder_crc32 (a ++ b) n = recorder_crc32 a n.
Proof. intros. unfold recorder_crc32. by rewrite ztake_app_eq, ztake_ge by lia. Qed.

(** A checksum over a span of bytes tells apart two spans that differ in one byte. *)
Lemma crc32_one_byte a x y b :
  bytes_ok a → bytes_ok b → is_u8 x → is_u8 y →
  recorder_crc32 (a ++ x :: b) (zlen (a ++ x :: b)) = recorder_crc32 (a ++ y :: b) (zlen (a ++ y :: b)) →
  x = y.
Proof.
  intros Ha Hb Hx Hy. rewrite !recorder_crc32_all. intros He.
  apply lnot_u32_inj in He; [|apply (fold_range crc_byte is_u32 is_u8)..];
    try apply Forall_app_2; try apply Forall_cons_2; auto using crc_byte_range; try done.
  by apply (fold_one_byte crc_byte is_u32 is_u8) in He;
    eauto using crc_byte_range, crc_byte_inj_state, crc_byte_inj_byte.
Qed.

Lemma recorder_crc32_local p q n : ztake n p = ztake n q → recorder_crc32 p n = recorder_crc32 q n.
Proof. unfold recorder_crc32. by intros ->. Qed.

(** From here on a checksum is compared by its arguments, never by unfolding it. *)
#[global] Opaque recorder_crc32.

(** ** Writing to a file with room *)
Lemma write_all_room fp b :
  zlen b <= f_budget fp →
  write_all fp b = (Ok tt, mkFile (f_data fp ++ b) (f_budget fp - zlen b) (f_errno fp)).
Proof. intros. unfold write_all. destruct (Z.leb_spec (zlen b) (f_budget fp)); [done|lia]. Qed.

Lemma write_each_ok fp bufs fp' :
  write_each fp bufs = (Ok tt, fp') →
  f_data fp' = f_data fp ++ concat bufs.
Proof.
  revert fp. induction bufs as [|b bufs IH]; intros fp; simpl.
  { intros [= <-]. by rewrite app_nil_r. }
  unfold write_all. destruct (zlen b <=? f_budget fp); [|done].
  intros H. apply IH in H. rewrite H. simpl. by rewrite app_assoc.
Qed.

Lemma write_each_room fp bufs :
  zlen (concat bufs) <= f_budget fp →
  write_each fp bufs =
    (Ok tt, mkFile (f_data fp ++ concat bufs) (f_budget fp - zlen (concat bufs)) (f_errno fp)).
Proof.
  revert fp. induction bufs as [|b bufs IH]; intros fp; simpl.
  { intros _. rewrite app_nil_r, Z.sub_0_r. by destruct fp. }
  rewrite zlen_app. intros. rewrite write_all_room by solve_len.
  rewrite IH by (simpl; lia). simpl. rewrite app_assoc. do 2 f_equal. lia.
Qed.

(** Whatever happens, the file keeps what it had and grows by a prefix of what
    was asked for. *)
Lemma write_each_prefix fp bufs r fp' :
  0 <= f_budget fp → write_each fp bufs = (r, fp') →
  ∃ k, 0 <= k ∧ f_data fp' = f_data fp ++ ztake k (concat bufs).
Proof.
  revert fp. induction bufs as [|b bufs IH]; intros fp Hb; simpl.
  { intros [= _ <-]. exists 0. rewrite ztake_0, app_nil_r. done. }
  unfold write_all. destruct (Z.leb_spec (zlen b) (f_budget fp)).
  - intros H'. apply IH in H' as (k & Hk & ->); [|simpl; lia]. simpl.
    exists (zlen b + k). split; [solve_len|].
    rewrite ztake_app_ge by lia. rewrite <-app_assoc. do 3 f_equal. lia.
  - intros [= _ <-]. simpl. exists (f_budget fp). split; [done|].
    by rewrite ztake_app_le by lia.
Qed.

(** A chunk framed by [write_framed_chunk] on a file with room for it is found
    again by [read_framed_chunk_header] at the position it was written to: the
    header gives its size, and its bytes follow the 8 header bytes. *)
Theorem framed_chunk_round_trip fp buf rest :
  zlen buf <= UINT32_MAX → 8 + zlen buf <= f_budget fp →
  ∃ fp', write_framed_chunk fp buf (zlen buf) = (Ok tt, fp') ∧
    let p := zdrop (zlen (f_data fp)) (f_data fp' ++ rest) in
    read_framed_chunk_header p (zlen p) = Ok (zlen buf, 8) ∧ slice 8 (zlen buf) p = buf.
Proof.
  intros Hu Hb. unfold write_framed_chunk. eexists. split.
  { apply write_each_room. simpl. rewrite ztake_ge by lia. solve_len. }
  cbn [f_data concat]. cbv zeta. rewrite ztake_ge, app_nil_r by lia. rewrite <-!app_assoc, zdrop_app_eq by done.
  unfold read_framed_chunk_header, RECORDER_FRAME_HEADER_SIZE.
  rewrite read_write_u32_le, u32_id by (unfold is_u32, UINT32_MAX in *; solve_len).
  destruct (Z.ltb_spec (zlen (write_u32_le (zlen buf) ++ write_u32_le 0 ++ buf ++ rest)) 8);
    [solve_len|]. split; [done|].
  rewrite app_assoc. by apply (slice_app_mid (write_u32_le (zlen buf) ++ write_u32_le 0)).
Qed.

Lemma framed_chunk_round_trip_witness :
  ∃ fp', write_framed_chunk (mkFile [9] 11 ENOSPC) [1; 2; 3] 3 = (Ok tt, fp') ∧
    let p := zdrop 1 (f_data fp' ++ [7]) in
    read_framed_chunk_header p (zlen p) = Ok (3, 8) ∧ slice 8 3 p = [1; 2; 3].
Proof.
  apply (framed_chunk_round_trip (mkFile [9] 11 ENOSPC) [1; 2; 3] [7]); vm_compute; congruence.
Defined.
