(* ===== verification/Crypto.v ===== *)
(** * Key wrapping and frame encryption (src/src/recorder_crypto.c)

    OpenSSL is outside the repository: the class [OpenSSL] lists the calls
    recorder_crypto.c makes, and [OpenSSL_ok] states the documented behaviour
    the format relies on (a sealed message opens to itself, an RSA-OAEP wrapped
    key unwraps under the matching private key).  Pointers that the callers
    never pass as NULL are plain values here, and allocation succeeds. *)
From S2P Require Import Prelude.

Definition INT_MAX : Z := 2147483647.
Definition RECORDER_CRYPTO_DEK_SIZE : Z := 32.
Definition RECORDER_CRYPTO_GCM_NONCE_SIZE : Z := 12.
Definition RECORDER_CRYPTO_GCM_TAG_SIZE : Z := 16.

Inductive RecorderCryptoStatus :=
  | RECORDER_CRYPTO_OK
  | RECORDER_CRYPTO_ERR_ARGUMENT
  | RECORDER_CRYPTO_ERR_MEMORY
  | RECORDER_CRYPTO_ERR_IO
  | RECORDER_CRYPTO_ERR_KEY_FORMAT
  | RECORDER_CRYPTO_ERR_KEY_TYPE
  | RECORDER_CRYPTO_ERR_LENGTH
  | RECORDER_CRYPTO_ERR_RANDOM
  | RECORDER_CRYPTO_ERR_ENCRYPT
  | RECORDER_CRYPTO_ERR_DECRYPT
  | RECORDER_CRYPTO_ERR_AUTHENTICATION
  | RECORDER_CRYPTO_ERR_WRAPPED_KEY.

(** How [EVP_DecryptUpdate]/[EVP_DecryptFinal_ex] end: a processing error, a tag
    mismatch in the final call, or a plaintext. *)
Inductive GcmOpen :=
  | GcmProcessingError
  | GcmTagMismatch
  | GcmPlaintext (plaintext : bytes).

(** The OpenSSL entry points.  [nat] arguments number the draws from the
    library's random generator. *)
Class OpenSSL := {
  EVP_PKEY : Type;
  BIO : Type;
  BIO_new_file : bytes → option BIO;
  PEM_read_bio_PUBKEY : BIO → option EVP_PKEY;
  PEM_read_bio_PrivateKey : BIO → option EVP_PKEY;
  EVP_PKEY_is_rsa : EVP_PKEY → bool;
  RAND_bytes : nat → Z → option bytes;
  (* size query (NULL output), then the operation *)
  EVP_PKEY_encrypt_size : EVP_PKEY → bytes → option Z;
  EVP_PKEY_encrypt : nat → EVP_PKEY → bytes → option bytes;
  EVP_PKEY_decrypt_size : EVP_PKEY → bytes → option Z;
  EVP_PKEY_decrypt : EVP_PKEY → bytes → option bytes;
  EVP_aes_256_gcm_seal : bytes → bytes → bytes → bytes → option (bytes * bytes);
  EVP_aes_256_gcm_open : bytes → bytes → bytes → bytes → bytes → GcmOpen;
}.

Section crypto.
Context `{OpenSSL}.

Definition pkey_is_rsa (pkey : option EVP_PKEY) : bool :=
  match pkey with Some k => EVP_PKEY_is_rsa k | None => false end.

Definition recorder_public_key_load_pem (path : bytes) : RecorderCryptoStatus * option EVP_PKEY :=
  match BIO_new_file path with
  | None => (RECORDER_CRYPTO_ERR_IO, None)
  | Some bio =>
      match PEM_read_bio_PUBKEY bio with
      | None => (RECORDER_CRYPTO_ERR_KEY_FORMAT, None)
      | Some pkey =>
          if pkey_is_rsa (Some pkey) then (RECORDER_CRYPTO_OK, Some pkey)
          else (RECORDER_CRYPTO_ERR_KEY_TYPE, None)
      end
  end.

Definition recorder_private_key_load_pem (path : bytes) : RecorderCryptoStatus * option EVP_PKEY :=
  match BIO_new_file path with
  | None => (RECORDER_CRYPTO_ERR_IO, None)
  | Some bio =>
      match PEM_read_bio_PrivateKey bio with
      | None => (RECORDER_CRYPTO_ERR_KEY_FORMAT, None)
      | Some pkey =>
          if pkey_is_rsa (Some pkey) then (RECORDER_CRYPTO_OK, Some pkey)
          else (RECORDER_CRYPTO_ERR_KEY_TYPE, None)
      end
  end.

(** Draw [len] bytes in chunks of at most [INT_MAX]; [fuel] bounds the chunks. *)
Fixpoint crypto_random_loop (fuel : nat) (draw : nat) (len : Z) (acc : bytes)
  : RecorderCryptoStatus * bytes * nat :=
  match fuel with
  | O => (RECORDER_CRYPTO_OK, acc, draw)
  | S fuel' =>
      if len =? 0 then (RECORDER_CRYPTO_OK, acc, draw)
      else
        let chunk := if INT_MAX <? len then INT_MAX else len in
        match RAND_bytes draw chunk with
        | None => (RECORDER_CRYPTO_ERR_RANDOM, acc, S draw)
        | Some b => crypto_random_loop fuel' (S draw) (len - chunk) (acc ++ b)
        end
  end.

Definition recorder_crypto_random (draw : nat) (len : Z) : RecorderCryptoStatus * bytes * nat :=
  crypto_random_loop (S (Z.to_nat (len / INT_MAX + 1))) draw len [].

Definition recorder_crypto_wrap_dek (draw : nat) (key : EVP_PKEY) (dek : bytes)
  : RecorderCryptoStatus * bytes * nat :=
  match EVP_PKEY_encrypt_size key dek with
  | None => (RECORDER_CRYPTO_ERR_ENCRYPT, [], draw)
  | Some _ =>
      match EVP_PKEY_encrypt draw key dek with
      | None => (RECORDER_CRYPTO_ERR_ENCRYPT, [], S draw)
      | Some wrapped => (RECORDER_CRYPTO_OK, wrapped, S draw)
      end
  end.

Definition recorder_crypto_unwrap_dek (key : EVP_PKEY) (wrapped : bytes)
  : RecorderCryptoStatus * bytes :=
  let cleansed := replicate 32 0 in
  if zlen wrapped =? 0 then (RECORDER_CRYPTO_ERR_ARGUMENT, cleansed)
  else
    match EVP_PKEY_decrypt_size key wrapped with
    | None => (RECORDER_CRYPTO_ERR_DECRYPT, cleansed)
    | Some _ =>
        match EVP_PKEY_decrypt key wrapped with
        | None => (RECORDER_CRYPTO_ERR_WRAPPED_KEY, cleansed)
        | Some clear =>
            if negb (zlen clear =? RECORDER_CRYPTO_DEK_SIZE)
            then (RECORDER_CRYPTO_ERR_WRAPPED_KEY, cleansed)
            else (RECORDER_CRYPTO_OK, clear)
        end
    end.

Definition lengths_fit_evp (aad_len input_len : Z) : bool :=
  (aad_len <=? INT_MAX) && (input_len <=? INT_MAX).

(** Ciphertext and tag; both cleansed (zero) on failure. *)
Definition recorder_crypto_aes_gcm_encrypt (dek nonce aad plaintext : bytes)
  : RecorderCryptoStatus * bytes * bytes :=
  let zeros := replicate (length plaintext) 0 in
  let zero_tag := replicate 16 0 in
  if negb (lengths_fit_evp (zlen aad) (zlen plaintext))
  then (RECORDER_CRYPTO_ERR_LENGTH, zeros, zero_tag)
  else
    match EVP_aes_256_gcm_seal dek nonce aad plaintext with
    | None => (RECORDER_CRYPTO_ERR_ENCRYPT, zeros, zero_tag)
    | Some (ciphertext, tag) =>
        if negb (zlen ciphertext =? zlen plaintext)
        then (RECORDER_CRYPTO_ERR_ENCRYPT, zeros, zero_tag)
        else (RECORDER_CRYPTO_OK, ciphertext, tag)
    end.

Definition recorder_crypto_aes_gcm_decrypt (dek nonce aad ciphertext tag : bytes)
  : RecorderCryptoStatus * bytes :=
  let zeros := replicate (length ciphertext) 0 in
  if negb (lengths_fit_evp (zlen aad) (zlen ciphertext))
  then (RECORDER_CRYPTO_ERR_LENGTH, zeros)
  else
    match EVP_aes_256_gcm_open dek nonce aad ciphertext tag with
    | GcmProcessingError => (RECORDER_CRYPTO_ERR_DECRYPT, zeros)
    | GcmTagMismatch => (RECORDER_CRYPTO_ERR_AUTHENTICATION, zeros)
    | GcmPlaintext plaintext =>
        if negb (zlen plaintext =? zlen ciphertext)
        then (RECORDER_CRYPTO_ERR_DECRYPT, zeros)
        else (RECORDER_CRYPTO_OK, plaintext)
    end.
End crypto.

Definition crypto_ok (s : RecorderCryptoStatus) : bool :=
  match s with RECORDER_CRYPTO_OK => true | _ => false end.

(** Documented behaviour of OpenSSL the segment format depends on. *)
Class OpenSSL_ok (L : OpenSSL) := {
  RAND_bytes_ok : ∀ n len b, 0 <= len → RAND_bytes n len = Some b → zlen b = len ∧ bytes_ok b;
  EVP_PKEY_encrypt_ok : ∀ n k d w, EVP_PKEY_encrypt n k d = Some w → 0 < zlen w ∧ bytes_ok w;
  seal_ok : ∀ k n a p c t, EVP_aes_256_gcm_seal k n a p = Some (c, t) →
    zlen c = zlen p ∧ zlen t = 16 ∧ bytes_ok c ∧ bytes_ok t;
  open_seal : ∀ k n a p c t, EVP_aes_256_gcm_seal k n a p = Some (c, t) →
    EVP_aes_256_gcm_open k n a c t = GcmPlaintext p;
}.

(** A private key that opens what the public key wrapped. *)
Definition key_pair `{OpenSSL} (pub priv : EVP_PKEY) : Prop :=
  ∀ n d w, EVP_PKEY_encrypt n pub d = Some w →
    is_Some (EVP_PKEY_decrypt_size priv w) ∧ EVP_PKEY_decrypt priv w = Some d.

Section crypto_facts.
Context `{L : OpenSSL} `{!OpenSSL_ok L}.

Lemma crypto_random_loop_ok fuel draw len acc b draw' :
  0 <= len → crypto_random_loop fuel draw len acc = (RECORDER_CRYPTO_OK, b, draw') →
  len < Z.of_nat fuel * INT_MAX → bytes_ok acc →
  zlen b = zlen acc + len ∧ bytes_ok b.
Proof.
  revert draw len acc. induction fuel as [|fuel IH]; intros draw len acc Hlen.
  { simpl. intros _ ?. exfalso. lia. }
  cbn [crypto_random_loop]. rewrite Nat2Z.inj_succ, Z.mul_succ_l.
  destruct (Z.eqb_spec len 0) as [->|]; [intros [= <- <-] ??; split; [lia|done]|].
  destruct (RAND_bytes draw _) as [b0|] eqn:Hb; [|done]. intros Hrun Hf Hacc.
  apply RAND_bytes_ok in Hb as [Hb0 Hok]; [|unfold INT_MAX; destruct (_ <? len); lia].
  unfold INT_MAX in *. destruct (Z.ltb_spec 2147483647 len).
  - apply IH in Hrun as [Hl Hr]; [|lia|lia|by apply Forall_app_2].
    rewrite zlen_app in Hl. split; [lia|done].
  - assert (0 <= Z.of_nat fuel) by lia.
    destruct (Z.eqb_spec (Z.of_nat fuel) 0) as [Hz|].
    + destruct fuel; [|lia]. simpl in Hrun. injection Hrun as <- <-.
      split; [rewrite zlen_app; lia | by apply Forall_app_2].
    + apply IH in Hrun as [Hl Hr]; [|lia|lia|by apply Forall_app_2].
      rewrite zlen_app in Hl. split; [lia|done].
Qed.

(** A successful draw fills the whole buffer, whatever its length. *)
Lemma recorder_crypto_random_ok draw len b draw' :
  0 <= len → recorder_crypto_random draw len = (RECORDER_CRYPTO_OK, b, draw') →
  zlen b = len ∧ bytes_ok b.
Proof.
  intros Hlen Hr. apply crypto_random_loop_ok in Hr; [|done| |by constructor].
  - rewrite zlen_nil in Hr. by destruct Hr.
  - unfold INT_MAX. rewrite Nat2Z.inj_succ, Z2Nat.id by (pose proof (Z.div_pos len 2147483647); lia).
    pose proof (Z.mod_pos_bound len 2147483647). pose proof (Z.div_mod len 2147483647). lia.
Qed.

Lemma wrap_dek_ok draw k d w draw' :
  recorder_crypto_wrap_dek draw k d = (RECORDER_CRYPTO_OK, w, draw') →
  EVP_PKEY_encrypt draw k d = Some w ∧ 0 < zlen w ∧ bytes_ok w.
Proof.
  unfold recorder_crypto_wrap_dek. destruct (EVP_PKEY_encrypt_size k d); [|done].
  destruct (EVP_PKEY_encrypt draw k d) eqn:He; [|done]. intros [= <- <-].
  pose proof (EVP_PKEY_encrypt_ok _ _ _ _ He). tauto.
Qed.

Lemma unwrap_wrap_dek pub priv draw d w draw' :
  key_pair pub priv → zlen d = 32 →
  recorder_crypto_wrap_dek draw pub d = (RECORDER_CRYPTO_OK, w, draw') →
  recorder_crypto_unwrap_dek priv w = (RECORDER_CRYPTO_OK, d).
Proof.
  intros Hk Hd Hw. apply wrap_dek_ok in Hw as (He & Hl & _).
  destruct (Hk _ _ _ He) as [[sz Hsz] Hdec]. unfold recorder_crypto_unwrap_dek.
  destruct (Z.eqb_spec (zlen w) 0); [lia|]. rewrite Hsz, Hdec, Hd. done.
Qed.

Lemma gcm_encrypt_ok k n a p c t :
  recorder_crypto_aes_gcm_encrypt k n a p = (RECORDER_CRYPTO_OK, c, t) →
  EVP_aes_256_gcm_seal k n a p = Some (c, t) ∧ zlen c = zlen p ∧ zlen t = 16 ∧
  bytes_ok c ∧ bytes_ok t ∧ lengths_fit_evp (zlen a) (zlen p) = true.
Proof.
  unfold recorder_crypto_aes_gcm_encrypt.
  destruct (lengths_fit_evp (zlen a) (zlen p)) eqn:Hf; [|done]. simpl.
  destruct (EVP_aes_256_gcm_seal k n a p) as [[c' t']|] eqn:Hs; [|done].
  destruct (negb (zlen c' =? zlen p)); [done|]. intros [= <- <-].
  pose proof (seal_ok _ _ _ _ _ _ Hs) as (? & ? & ? & ?). done.
Qed.

(** What was encrypted decrypts to itself under the same key, nonce and header. *)
Lemma gcm_decrypt_encrypt k n a p c t :
  recorder_crypto_aes_gcm_encrypt k n a p = (RECORDER_CRYPTO_OK, c, t) →
  recorder_crypto_aes_gcm_decrypt k n a c t = (RECORDER_CRYPTO_OK, p).
Proof.
  intros He. apply gcm_encrypt_ok in He as (Hs & Hl & _ & _ & _ & Hf).
  unfold recorder_crypto_aes_gcm_decrypt. rewrite Hl, Hf. simpl.
  rewrite (open_seal _ _ _ _ _ _ Hs), Z.eqb_refl. done.
Qed.
End crypto_facts.
