(* ===== verification/Segment.v ===== *)
(** * The segment file format (src/src/segment.c, src/src/segment.h)

    A segment is a fixed header (with an encryption extension when the segment
    is encrypted), an optional static dictionary, frames and a footer.  This
    file holds the data types, the writer, the sequential scanner and the
    random-access frame reader; SegmentSpec.v and SegmentSafety.v hold the theorems.

    A char array that holds a C string ([boot_id], [timezone]) is the list of
    the bytes before its terminator. A
    file open for reading is its content; files open for writing are in Bytes.v. *)
From S2P Require Import Prelude Bytes Crypto.

Definition RECORDER_SEGMENT_MAGIC : bytes := C "RECSEG01".
Definition RECORDER_SEGMENT_FOOTER_MAGIC : bytes := C "RECEND01".
Definition RECORDER_SEGMENT_VERSION : Z := 1.
Definition RECORDER_SEGMENT_TZ_SIZE : Z := 64.
Definition RECORDER_BOOT_ID_SIZE : Z := 32.

Definition SEGMENT_FLAG_HAS_STATIC_DICT : Z := 1.
Definition SEGMENT_FLAG_WHOLE_COMPRESSED : Z := 2.
Definition SEGMENT_FLAG_COMPACT_ENTRIES : Z := 4.
Definition SEGMENT_FLAG_ENCRYPTED : Z := 8.
Definition SEGMENT_FRAME_FLAG_NONE : Z := 0.
Definition SEGMENT_FRAME_FLAG_ZSTD : Z := 1.
Definition SEGMENT_FOOTER_FLAG_HAS_SIGNATURE : Z := 1.
Definition SEGMENT_FOOTER_FLAG_REALTIME_NONMONOTONIC : Z := 2.

Definition SEGMENT_HEADER_FIXED_SIZE : Z := 152.
Definition SEGMENT_FRAME_HEADER_SIZE : Z := 16.
Definition SEGMENT_ENCRYPTION_EXTENSION_FIXED_SIZE : Z := 32.
Definition SEGMENT_DEK_SIZE : Z := 32.
Definition SEGMENT_NONCE_PREFIX_SIZE : Z := 4.
Definition SEGMENT_GCM_TAG_SIZE : Z := 16.
Definition SEGMENT_KEY_WRAP_RSA_OAEP_SHA256 : Z := 1.
Definition SEGMENT_CIPHER_AES_256_GCM : Z := 1.
Definition SEGMENT_FOOTER_BODY_SIZE : Z := 36.
Definition SEGMENT_FOOTER_TRAILER_SIZE : Z := 12.
Definition SEGMENT_ENCRYPTION_EXTENSION_MAGIC : bytes := C "RECENC01".
Definition SEGMENT_ENCRYPTION_EXTENSION_VERSION : Z := 1.

Inductive RotationReason :=
  | SEGMENT_ROTATION_REASON_NONE
  | SEGMENT_ROTATION_REASON_BOOT_ID
  | SEGMENT_ROTATION_REASON_TIMEZONE
  | SEGMENT_ROTATION_REASON_CLOCK_BACKWARD
  | SEGMENT_ROTATION_REASON_CLOCK_FORWARD
  | SEGMENT_ROTATION_REASON_AGE
  | SEGMENT_ROTATION_REASON_SIZE
  | SEGMENT_ROTATION_REASON_SHUTDOWN.
#[export] Instance RotationReason_eq_dec : EqDecision RotationReason.
Proof. solve_decision. Defined.

Definition rotation_reason_code (r : RotationReason) : Z :=
  match r with
  | SEGMENT_ROTATION_REASON_NONE => 0
  | SEGMENT_ROTATION_REASON_BOOT_ID => 1
  | SEGMENT_ROTATION_REASON_TIMEZONE => 2
  | SEGMENT_ROTATION_REASON_CLOCK_BACKWARD => 3
  | SEGMENT_ROTATION_REASON_CLOCK_FORWARD => 4
  | SEGMENT_ROTATION_REASON_AGE => 5
  | SEGMENT_ROTATION_REASON_SIZE => 6
  | SEGMENT_ROTATION_REASON_SHUTDOWN => 7
  end.

Record SegmentHeader := mkSegmentHeader {
  sh_flags : Z;
  sh_segment_seq : Z;
  sh_boot_seq : Z;
  sh_boot_id : bytes;
  sh_timezone : bytes;
  sh_first_realtime_ts : Z;
  sh_first_monotonic_ts : Z;
  sh_dict_len : Z;
}.
#[export] Instance SegmentHeader_eq_dec : EqDecision SegmentHeader.
Proof. solve_decision. Defined.

Record SegmentFrameInfo := mkSegmentFrameInfo {
  fi_flags : Z;
  fi_stored_len : Z;
  fi_uncompressed_len : Z;
  fi_file_offset : Z;
  fi_frame_len : Z;
}.
#[export] Instance SegmentFrameInfo_eq_dec : EqDecision SegmentFrameInfo.
Proof. solve_decision. Defined.

Record SegmentFooter := mkSegmentFooter {
  sf_footer_flags : Z;
  sf_rotation_reason : Z;
  sf_entry_count : Z;
  sf_last_realtime_ts : Z;
  sf_last_monotonic_ts : Z;
  sf_present : bool;
}.
#[export] Instance SegmentFooter_eq_dec : EqDecision SegmentFooter.
Proof. solve_decision. Defined.

(** [memset(&footer, 0, sizeof(footer))] *)
Definition zero_footer : SegmentFooter := mkSegmentFooter 0 0 0 0 0 false.

Record SegmentEncryptionInfo := mkSegmentEncryptionInfo {
  ei_wrapped_dek : bytes;
  ei_nonce_prefix : bytes;
}.
Definition zero_encryption : SegmentEncryptionInfo :=
  mkSegmentEncryptionInfo [] [0; 0; 0; 0].

(** The zstd and FlatBuffers entry points the segment code calls.  A
    decompression result is the decoded bytes, [None] a zstd error. *)
Class SegmentLib := {
  seg_openssl :: OpenSSL;
  ZSTD_decompress : Z → bytes → option bytes;
  ZSTD_decompress_usingDict : Z → bytes → bytes → option bytes;
  journal_DefaultChunk_verify_as_root : bytes → bool;
  journal_Chunk_verify_as_root : bytes → bool;
}.

Section segment.
Context `{L : SegmentLib}.

Record SegmentEncryptor := mkSegmentEncryptor {
  se_public_key : EVP_PKEY;
  se_dek : bytes;
  se_nonce_prefix : bytes;
  se_frame_index : Z;
  se_initialized : bool;
}.

Record SegmentDecryptor := mkSegmentDecryptor {
  sd_private_key : EVP_PKEY;
}.

Definition segment_encryptor_create (public_key_pem_path : bytes) : Res SegmentEncryptor :=
  match recorder_public_key_load_pem public_key_pem_path with
  | (RECORDER_CRYPTO_OK, Some k) =>
      Ok (mkSegmentEncryptor k (replicate 32 0) [0; 0; 0; 0] 0 false)
  | _ => Err EUNSET
  end.

Definition segment_decryptor_create (private_key_pem_path : bytes) : Res SegmentDecryptor :=
  match recorder_private_key_load_pem private_key_pem_path with
  | (RECORDER_CRYPTO_OK, Some k) => Ok (mkSegmentDecryptor k)
  | _ => Err EUNSET
  end.

Definition segment_header_encoded_size : Z := SEGMENT_HEADER_FIXED_SIZE.
Definition segment_footer_encoded_size : Z :=
  SEGMENT_FOOTER_BODY_SIZE + SEGMENT_FOOTER_TRAILER_SIZE.

(** * Writing *)

(** [memset(dst, 0, width); memcpy(dst, s, strnlen(s, max))] *)
Definition put_cstr (width max : Z) (s : bytes) : bytes :=
  let t := ztake max (cstr s) in t ++ replicate (Z.to_nat (width - zlen t)) 0.

Definition encryption_extension (nonce_prefix wrapped_dek : bytes) : bytes :=
  let extension_len :=
    SEGMENT_ENCRYPTION_EXTENSION_FIXED_SIZE + SEGMENT_NONCE_PREFIX_SIZE + zlen wrapped_dek in
  SEGMENT_ENCRYPTION_EXTENSION_MAGIC
  ++ write_u32_le SEGMENT_ENCRYPTION_EXTENSION_VERSION
  ++ write_u32_le (u32 extension_len)
  ++ write_u32_le SEGMENT_KEY_WRAP_RSA_OAEP_SHA256
  ++ write_u32_le SEGMENT_CIPHER_AES_256_GCM
  ++ write_u32_le (u32 (zlen wrapped_dek))
  ++ write_u32_le SEGMENT_NONCE_PREFIX_SIZE
  ++ nonce_prefix
  ++ wrapped_dek.

(** Bytes 0..147 of the fixed header. *)
Definition header_prefix (header : SegmentHeader) (extension_len dict_len : Z) : bytes :=
  RECORDER_SEGMENT_MAGIC
  ++ write_u32_le RECORDER_SEGMENT_VERSION
  ++ write_u32_le (u32 (SEGMENT_HEADER_FIXED_SIZE + u32 extension_len))
  ++ write_u32_le (sh_flags header)
  ++ write_u64_le (sh_segment_seq header)
  ++ write_u32_le (sh_boot_seq header)
  ++ put_cstr RECORDER_BOOT_ID_SIZE RECORDER_BOOT_ID_SIZE (sh_boot_id header)
  ++ put_cstr RECORDER_SEGMENT_TZ_SIZE (RECORDER_SEGMENT_TZ_SIZE - 1) (sh_timezone header)
  ++ write_u64_le (sh_first_realtime_ts header)
  ++ write_u64_le (sh_first_monotonic_ts header)
  ++ write_u32_le (u32 dict_len).

Definition header_crc (prefix extension : bytes) : Z :=
  let crc := recorder_crc32 prefix 148 in
  if zlen extension =? 0 then crc
  else Z.lxor crc (recorder_crc32 extension (zlen extension)).

Definition fixed_header (header : SegmentHeader) (extension : bytes) (dict_len : Z) : bytes :=
  let prefix := header_prefix header (zlen extension) dict_len in
  prefix ++ write_u32_le (header_crc prefix extension).

(** The key material an encrypted header draws: DEK, nonce prefix and wrapped
    DEK, or the failure of one of the three calls. *)
Definition header_key_material (draw : nat) (encryptor : SegmentEncryptor)
  : Res (bytes * bytes * bytes) * nat :=
  match recorder_crypto_random draw SEGMENT_DEK_SIZE with
  | (RECORDER_CRYPTO_OK, dek, draw1) =>
      match recorder_crypto_random draw1 SEGMENT_NONCE_PREFIX_SIZE with
      | (RECORDER_CRYPTO_OK, nonce_prefix, draw2) =>
          match recorder_crypto_wrap_dek draw2 (se_public_key encryptor) dek with
          | (RECORDER_CRYPTO_OK, wrapped_dek, draw3) =>
              if UINT32_MAX - SEGMENT_HEADER_FIXED_SIZE
                 - SEGMENT_ENCRYPTION_EXTENSION_FIXED_SIZE - SEGMENT_NONCE_PREFIX_SIZE
                 <? zlen wrapped_dek
              then (Err EOVERFLOW, draw3)
              else (Ok (dek, nonce_prefix, wrapped_dek), draw3)
          | (_, _, draw3) => (Err EUNSET, draw3)
          end
      | (_, _, draw2) => (Err EUNSET, draw2)
      end
  | (_, _, draw1) => (Err EUNSET, draw1)
  end.

(** Result, file, encryptor and random draws after the call. *)
Definition segment_write_header (fp : File) (header : SegmentHeader) (dict_bytes : bytes)
    (encryptor : option SegmentEncryptor) (draw : nat)
  : Res unit * File * option SegmentEncryptor * nat :=
  let dict_len := zlen dict_bytes in
  if UINT32_MAX <? dict_len then (Err EOVERFLOW, fp, encryptor, draw)
  else if negb (Bool.eqb (has_flag (sh_flags header) SEGMENT_FLAG_ENCRYPTED)
                         (match encryptor with Some _ => true | None => false end))
  then (Err EINVAL, fp, encryptor, draw)
  else
    match encryptor with
    | None =>
        let '(r, fp') := write_each fp
          ([fixed_header header [] dict_len] ++ (if dict_len =? 0 then [] else [dict_bytes])) in
        (r, fp', None, draw)
    | Some enc =>
        let cleared :=
          mkSegmentEncryptor (se_public_key enc) (replicate 32 0) (se_nonce_prefix enc)
                             (se_frame_index enc) false in
        match header_key_material draw cleared with
        | (Err e, draw') => (Err e, fp, Some cleared, draw')
        | (Ok (dek, nonce_prefix, wrapped_dek), draw') =>
            let extension := encryption_extension nonce_prefix wrapped_dek in
            let '(r, fp') := write_each fp
              ([fixed_header header extension dict_len; extension]
               ++ (if dict_len =? 0 then [] else [dict_bytes])) in
            match r with
            | Err e => (Err e, fp', Some cleared, draw')
            | Ok _ =>
                (Ok tt, fp',
                 Some (mkSegmentEncryptor (se_public_key enc) dek nonce_prefix 0 true), draw')
            end
        end
    end.

(** [nonce[4 + i] = frame_index >> (56 - i * 8)], the nonce prefix before it. *)
Definition frame_nonce (nonce_prefix : bytes) (frame_index : Z) : bytes :=
  ztake SEGMENT_NONCE_PREFIX_SIZE nonce_prefix
  ++ map (λ i, u8 (Z.shiftr frame_index (56 - i * 8))) [0; 1; 2; 3; 4; 5; 6; 7].

Definition frame_header (flags stored_len uncompressed_len frame_len : Z) : bytes :=
  write_u32_le flags ++ write_u32_le stored_len ++ write_u32_le uncompressed_len
  ++ write_u32_le frame_len.

Definition frame_crc (header stored_payload tag : bytes) : Z :=
  Z.lxor (Z.lxor (recorder_crc32 header SEGMENT_FRAME_HEADER_SIZE)
                 (recorder_crc32 stored_payload (zlen stored_payload)))
         (if zlen tag =? 0 then 0 else recorder_crc32 tag (zlen tag)).

Definition segment_write_frame (fp : File) (encryptor : option SegmentEncryptor)
    (flags : Z) (payload : bytes) (uncompressed_len : Z)
  : Res unit * File * option SegmentEncryptor :=
  let stored_len := zlen payload in
  let trailer_size :=
    4 + match encryptor with Some _ => SEGMENT_GCM_TAG_SIZE | None => 0 end in
  if match encryptor with Some enc => negb (se_initialized enc) | None => false end
  then (Err EINVAL, fp, encryptor)
  else if UINT32_MAX - SEGMENT_FRAME_HEADER_SIZE - trailer_size <? stored_len
  then (Err EOVERFLOW, fp, encryptor)
  else
    let frame_len := SEGMENT_FRAME_HEADER_SIZE + stored_len + trailer_size in
    let header := frame_header flags stored_len uncompressed_len frame_len in
    match encryptor with
    | None =>
        let crc := frame_crc header payload [] in
        let '(r, fp') := write_each fp [header; payload; write_u32_le crc] in
        (r, fp', None)
    | Some enc =>
        if se_frame_index enc =? UINT64_MAX then (Err EOVERFLOW, fp, encryptor)
        else
          let frame_index := se_frame_index enc in
          let enc' :=
            mkSegmentEncryptor (se_public_key enc) (se_dek enc) (se_nonce_prefix enc)
                               (frame_index + 1) (se_initialized enc) in
          match recorder_crypto_aes_gcm_encrypt (se_dek enc)
                  (frame_nonce (se_nonce_prefix enc) frame_index) header payload with
          | (RECORDER_CRYPTO_OK, encrypted_payload, tag) =>
              let crc := frame_crc header encrypted_payload tag in
              let '(r, fp') :=
                write_each fp [header; encrypted_payload; tag; write_u32_le crc] in
              (r, fp', Some enc')
          | _ => (Err EUNSET, fp, Some enc')
          end
    end.

Definition footer_body (footer : SegmentFooter) : bytes :=
  write_u32_le (sf_footer_flags footer)
  ++ write_u32_le (sf_rotation_reason footer)
  ++ write_u64_le (sf_entry_count footer)
  ++ write_u64_le (sf_last_realtime_ts footer)
  ++ write_u64_le (sf_last_monotonic_ts footer).

(** Bytes 36..47: the version and the footer magic. *)
Definition footer_trailer : bytes :=
  write_u32_le RECORDER_SEGMENT_VERSION ++ RECORDER_SEGMENT_FOOTER_MAGIC.

(** The CRC at offset 32 is computed with that field zero. *)
Definition footer_bytes (footer : SegmentFooter) : bytes :=
  let zeroed := footer_body footer ++ write_u32_le 0 ++ footer_trailer in
  footer_body footer ++ write_u32_le (recorder_crc32 zeroed segment_footer_encoded_size)
  ++ footer_trailer.

Definition segment_write_footer (fp : File) (footer : SegmentFooter) : Res unit * File :=
  if has_flag (sf_footer_flags footer) SEGMENT_FOOTER_FLAG_HAS_SIGNATURE
  then (Err ENOTSUP, fp)
  else write_all fp (footer_bytes footer).

(** * Reading *)

(** [decompress_payload]: [None] is the [-1] return. *)
Definition decompress_payload (header : SegmentHeader) (dict_bytes : bytes)
    (frame : SegmentFrameInfo) (payload : bytes) : option bytes :=
  let payload := ztake (fi_stored_len frame) payload in
  if negb (has_flag (fi_flags frame) SEGMENT_FRAME_FLAG_ZSTD) then Some payload
  else
    let rv :=
      if has_flag (sh_flags header) SEGMENT_FLAG_HAS_STATIC_DICT
         && negb (sh_dict_len header =? 0)
      then ZSTD_decompress_usingDict (fi_uncompressed_len frame) payload
             (ztake (sh_dict_len header) dict_bytes)
      else ZSTD_decompress (fi_uncompressed_len frame) payload in
    match rv with
    | Some decoded => if zlen decoded =? fi_uncompressed_len frame then Some decoded else None
    | None => None
    end.

Definition parse_encryption (extension : bytes) (extension_len : Z)
  : Res SegmentEncryptionInfo :=
  require
    negb ((extension_len <? SEGMENT_ENCRYPTION_EXTENSION_FIXED_SIZE + SEGMENT_NONCE_PREFIX_SIZE)
          || negb (beq (ztake 8 extension) SEGMENT_ENCRYPTION_EXTENSION_MAGIC)
          || negb (read_u32_le (zdrop 8 extension) =? SEGMENT_ENCRYPTION_EXTENSION_VERSION)
          || negb (read_u32_le (zdrop 12 extension) =? extension_len)
          || negb (read_u32_le (zdrop 16 extension) =? SEGMENT_KEY_WRAP_RSA_OAEP_SHA256)
          || negb (read_u32_le (zdrop 20 extension) =? SEGMENT_CIPHER_AES_256_GCM))
    else EUNSET;
  let wrapped_dek_len := read_u32_le (zdrop 24 extension) in
  let nonce_prefix_len := read_u32_le (zdrop 28 extension) in
  require
    negb (negb (nonce_prefix_len =? SEGMENT_NONCE_PREFIX_SIZE)
          || (wrapped_dek_len =? 0)
          || negb (wrapped_dek_len =?
                   extension_len - SEGMENT_ENCRYPTION_EXTENSION_FIXED_SIZE - nonce_prefix_len))
    else EUNSET;
  Ok (mkSegmentEncryptionInfo
        (slice (SEGMENT_ENCRYPTION_EXTENSION_FIXED_SIZE + nonce_prefix_len) wrapped_dek_len
               extension)
        (slice SEGMENT_ENCRYPTION_EXTENSION_FIXED_SIZE SEGMENT_NONCE_PREFIX_SIZE extension)).

(** The header fields at their offsets (the [memset]/[memcpy] block). *)
Definition header_fields (buf : bytes) : SegmentHeader :=
  mkSegmentHeader
    (read_u32_le (zdrop 16 buf))
    (read_u64_le (zdrop 20 buf))
    (read_u32_le (zdrop 28 buf))
    (cstr (slice 32 RECORDER_BOOT_ID_SIZE buf))
    (cstr (slice 64 (RECORDER_SEGMENT_TZ_SIZE - 1) buf))
    (read_u64_le (zdrop 128 buf))
    (read_u64_le (zdrop 136 buf))
    (read_u32_le (zdrop 144 buf)).

(** Header, offset of the first frame, and the encryption information (all
    zero for a plaintext segment). *)
Definition segment_parse_header (buf : bytes) (size : Z)
  : Res (SegmentHeader * Z * SegmentEncryptionInfo) :=
  require negb (size <? SEGMENT_HEADER_FIXED_SIZE) else EUNSET;
  require beq (ztake 8 buf) RECORDER_SEGMENT_MAGIC else EUNSET;
  require read_u32_le (zdrop 8 buf) =? RECORDER_SEGMENT_VERSION else EUNSET;
  let header_size := read_u32_le (zdrop 12 buf) in
  require negb ((header_size <? SEGMENT_HEADER_FIXED_SIZE) || (size <? header_size)) else EUNSET;
  let header := header_fields buf in
  let extension := zdrop SEGMENT_HEADER_FIXED_SIZE buf in
  let extension_len := header_size - SEGMENT_HEADER_FIXED_SIZE in
  let? encryption :=
    (if has_flag (sh_flags header) SEGMENT_FLAG_ENCRYPTED
     then parse_encryption extension extension_len
     else if extension_len =? 0 then Ok zero_encryption else Err EUNSET) in
  let crc := header_crc buf (ztake extension_len extension) in
  require read_u32_le (zdrop 148 buf) =? crc else EUNSET;
  require negb (size - header_size <? sh_dict_len header) else EUNSET;
  (* the sum of two uint32_t *)
  Ok (header, u32 (header_size + sh_dict_len header), encryption).

Definition segment_read_header (buf : bytes) (size : Z) : Res (SegmentHeader * Z) :=
  let? (header, offset, _) := segment_parse_header buf size in
  Ok (header, offset).

(** [pread(fd, buf, size, offset) == size] *)
Definition pread_exact (file : bytes) (size offset : Z) : Res bytes :=
  require (offset + size <=? zlen file) else EUNSET;
  Ok (slice offset size file).

(** The metadata prologue that [segment_read_path_header],
    [segment_frame_reader_open] and [segment_scan_path_frame] share: read the
    fixed header, then header, extension and dictionary.  [path] is what the
    [open] and [fstat] of the path give. *)
Definition read_metadata (path : Res bytes) : Res (bytes * bytes) :=
  let? file := path in
  let st_size := zlen file in
  require negb ((st_size <? SEGMENT_HEADER_FIXED_SIZE) || (SIZE_MAX <? st_size)) else EUNSET;
  let? fixed := pread_exact file SEGMENT_HEADER_FIXED_SIZE 0 in
  let header_size := read_u32_le (zdrop 12 fixed) in
  let dict_len := read_u32_le (zdrop 144 fixed) in
  require negb ((header_size <? SEGMENT_HEADER_FIXED_SIZE) || (st_size <? header_size)
                || (st_size - header_size <? dict_len)) else EUNSET;
  let? metadata := pread_exact file (u32 (header_size + dict_len)) 0 in
  Ok (file, metadata).

Definition segment_read_path_header (path : Res bytes) : Res (SegmentHeader * Z * Z) :=
  let? (file, metadata) := read_metadata path in
  let? (header, data_offset, _) := segment_parse_header metadata (zlen metadata) in
  Ok (header, data_offset, zlen file).

(** * The sequential scanner *)

(** A structurally valid footer at [p], [remaining] bytes before the end. *)
Definition footer_at (p : bytes) (remaining : Z) : option SegmentFooter :=
  if (SEGMENT_FOOTER_BODY_SIZE + SEGMENT_FOOTER_TRAILER_SIZE <=? remaining)
     && beq (slice 40 8 p) RECORDER_SEGMENT_FOOTER_MAGIC
     && (read_u32_le (zdrop 36 p) =? RECORDER_SEGMENT_VERSION)
  then
    let expect_crc := read_u32_le (zdrop 32 p) in
    let tmp := ztake 32 p ++ write_u32_le 0 ++ slice 36 12 p in
    if expect_crc =? recorder_crc32 tmp 48
    then Some (mkSegmentFooter (read_u32_le p) (read_u32_le (zdrop 4 p))
                 (read_u64_le (zdrop 8 p)) (read_u64_le (zdrop 16 p))
                 (read_u64_le (zdrop 24 p)) true)
    else None
  else None.

Definition frame_info (p : bytes) (offset : Z) : SegmentFrameInfo :=
  mkSegmentFrameInfo (read_u32_le p) (read_u32_le (zdrop 4 p)) (read_u32_le (zdrop 8 p))
    offset (read_u32_le (zdrop 12 p)).

Definition frame_tag_len (encrypted : bool) : Z :=
  if encrypted then SEGMENT_GCM_TAG_SIZE else 0.

Definition frame_expected_len (frame : SegmentFrameInfo) (encrypted : bool) : Z :=
  SEGMENT_FRAME_HEADER_SIZE + fi_stored_len frame + frame_tag_len encrypted + 4.

Definition frame_crc_ok (p : bytes) (frame : SegmentFrameInfo) (encrypted : bool) : bool :=
  let stored_len := fi_stored_len frame in
  let tag_len := frame_tag_len encrypted in
  let stored_crc := read_u32_le (zdrop (SEGMENT_FRAME_HEADER_SIZE + stored_len + tag_len) p) in
  let calc_crc :=
    Z.lxor (recorder_crc32 p SEGMENT_FRAME_HEADER_SIZE)
           (recorder_crc32 (zdrop SEGMENT_FRAME_HEADER_SIZE p) stored_len) in
  let calc_crc :=
    if encrypted
    then Z.lxor calc_crc
           (recorder_crc32 (zdrop (SEGMENT_FRAME_HEADER_SIZE + stored_len) p) tag_len)
    else calc_crc in
  stored_crc =? calc_crc.

(** Turning the stored payload of a frame into a verified chunk. *)
Inductive FrameChunk :=
  | FrameDecryptFailed
  | FrameDecompressFailed
  | FrameVerifyFailed
  | FrameDecoded (chunk : bytes).

Definition frame_chunk (header : SegmentHeader) (dict_bytes : bytes) (encrypted : bool)
    (dek nonce_prefix : bytes) (frame_index : Z) (p : bytes) (frame : SegmentFrameInfo)
  : FrameChunk :=
  let stored := slice SEGMENT_FRAME_HEADER_SIZE (fi_stored_len frame) p in
  let payload :=
    if encrypted
    then
      let tag := slice (SEGMENT_FRAME_HEADER_SIZE + fi_stored_len frame)
                       SEGMENT_GCM_TAG_SIZE p in
      match recorder_crypto_aes_gcm_decrypt dek (frame_nonce nonce_prefix frame_index)
              (ztake SEGMENT_FRAME_HEADER_SIZE p) stored tag with
      | (RECORDER_CRYPTO_OK, plaintext) => Some plaintext
      | _ => None
      end
    else Some stored in
  match payload with
  | None => FrameDecryptFailed
  | Some payload =>
      match decompress_payload header dict_bytes frame payload with
      | None => FrameDecompressFailed
      | Some chunk =>
          let verify :=
            if has_flag (sh_flags header) SEGMENT_FLAG_COMPACT_ENTRIES
            then journal_DefaultChunk_verify_as_root chunk
            else journal_Chunk_verify_as_root chunk in
          if verify then FrameDecoded chunk else FrameVerifyFailed
      end
  end.

Section scan.
(** The caller's context and callback ([segment_frame_cb]). *)
Context {T : Type}.
Definition segment_frame_cb : Type := SegmentHeader → SegmentFrameInfo → bytes → T → Z * T.

Inductive ScanResult :=
  | ScanDone (header : SegmentHeader) (footer : SegmentFooter) (committed_end : Z) (ctx : T)
  | ScanFail (rv : Z) (errno : Errno) (ctx : T)
  | ScanFuel.

(** One frame handed to the callback: go on, leave the loop ([break]) or
    leave the function ([goto out]). *)
Inductive Delivery :=
  | DeliverOk (ctx : T)
  | DeliverBreak
  | DeliverFail (rv : Z) (errno : Errno) (ctx : T).

Definition scan_deliver (header : SegmentHeader) (dict_bytes : bytes) (encrypted : bool)
    (dek nonce_prefix : bytes) (cb : option segment_frame_cb) (min_frame_offset : Z)
    (frame_index : Z) (p : bytes) (frame : SegmentFrameInfo) (ctx : T) : Delivery :=
  match cb with
  | None => DeliverOk ctx
  | Some cb =>
      if fi_file_offset frame <? min_frame_offset then DeliverOk ctx
      else
        match frame_chunk header dict_bytes encrypted dek nonce_prefix frame_index p frame with
        | FrameDecryptFailed => DeliverFail (-1) EIO ctx
        | FrameDecompressFailed | FrameVerifyFailed =>
            if encrypted then DeliverFail (-1) EIO ctx else DeliverBreak
        | FrameDecoded chunk =>
            let '(cb_rv, ctx') := cb header frame chunk ctx in
            if cb_rv =? 0 then DeliverOk ctx' else DeliverFail cb_rv EUNSET ctx'
        end
  end.

(** The [while (offset < size)] loop. *)
Fixpoint scan_loop (fuel : nat) (buf : bytes) (size : Z) (header : SegmentHeader)
    (dict_bytes : bytes) (encrypted : bool) (dek nonce_prefix : bytes)
    (cb : option segment_frame_cb) (min_frame_offset : Z)
    (offset committed_end frame_index : Z) (ctx : T) : ScanResult :=
  match fuel with
  | O => ScanFuel
  | S fuel' =>
      if negb (offset <? size) then ScanDone header zero_footer committed_end ctx
      else
        let p := zdrop offset buf in
        match footer_at p (size - offset) with
        | Some footer =>
            ScanDone header footer
              (offset + (SEGMENT_FOOTER_BODY_SIZE + SEGMENT_FOOTER_TRAILER_SIZE)) ctx
        | None =>
            let tag_len := frame_tag_len encrypted in
            if size - offset <? SEGMENT_FRAME_HEADER_SIZE + 4 + tag_len
            then ScanDone header zero_footer committed_end ctx
            else
              let frame := frame_info p offset in
              let total_len := fi_frame_len frame in
              let expected_len := frame_expected_len frame encrypted in
              if (UINT32_MAX <? expected_len) || negb (total_len =? expected_len)
              then if encrypted then ScanFail (-1) EIO ctx
                   else ScanDone header zero_footer committed_end ctx
              else if size - offset <? total_len
              then ScanDone header zero_footer committed_end ctx
              else if negb (frame_crc_ok p frame encrypted)
              then if encrypted then ScanFail (-1) EIO ctx
                   else ScanDone header zero_footer committed_end ctx
              else
                match scan_deliver header dict_bytes encrypted dek nonce_prefix cb
                        min_frame_offset frame_index p frame ctx with
                | DeliverBreak => ScanDone header zero_footer committed_end ctx
                | DeliverFail rv e ctx' => ScanFail rv e ctx'
                | DeliverOk ctx' =>
                    if encrypted && (frame_index =? UINT64_MAX)
                    then ScanFail (-1) EOVERFLOW ctx'
                    else scan_loop fuel' buf size header dict_bytes encrypted dek
                           nonce_prefix cb min_frame_offset (offset + total_len)
                           (offset + total_len) (u64 (frame_index + 1)) ctx'
                end
        end
  end.

(** The DEK of the scan: zero unless an encrypted segment is delivered. *)
Definition scan_dek (header : SegmentHeader) (encryption : SegmentEncryptionInfo)
    (decryptor : option SegmentDecryptor) (has_cb : bool) : Res bytes :=
  if has_flag (sh_flags header) SEGMENT_FLAG_ENCRYPTED && has_cb
  then
    match decryptor with
    | None => Err EACCES
    | Some d =>
        match recorder_crypto_unwrap_dek (sd_private_key d) (ei_wrapped_dek encryption) with
        | (RECORDER_CRYPTO_OK, dek) => Ok dek
        | _ => Err EACCES
        end
    end
  else Ok (replicate 32 0).

(** Every frame takes at least 20 bytes, so [size + 1] rounds are enough. *)
Definition segment_scan_impl (buf : bytes) (size : Z) (decryptor : option SegmentDecryptor)
    (cb : option segment_frame_cb) (ctx : T) (min_frame_offset : Z) : ScanResult :=
  match segment_parse_header buf size with
  | Err e => ScanFail (-1) e ctx
  | Ok (header, offset, encryption) =>
      match scan_dek header encryption decryptor (match cb with Some _ => true | None => false end) with
      | Err e => ScanFail (-1) e ctx
      | Ok dek =>
          let dict_bytes :=
            if sh_dict_len header =? 0 then []
            else slice (offset - sh_dict_len header) (sh_dict_len header) buf in
          scan_loop (S (Z.to_nat size)) buf size header dict_bytes
            (has_flag (sh_flags header) SEGMENT_FLAG_ENCRYPTED) dek
            (ei_nonce_prefix encryption) cb min_frame_offset offset offset 0 ctx
      end
  end.

Definition segment_scan_buffer (buf : bytes) (size : Z) (decryptor : option SegmentDecryptor)
    (cb : option segment_frame_cb) (ctx : T) : ScanResult :=
  segment_scan_impl buf size decryptor cb ctx 0.

(** [path] is what [open], [fstat] and [mmap] of the path give. *)
Definition segment_scan_path_from_offset (path : Res bytes)
    (decryptor : option SegmentDecryptor) (cb : option segment_frame_cb) (ctx : T)
    (min_frame_offset : Z) : ScanResult :=
  match path with
  | Err e => ScanFail (-1) e ctx
  | Ok file =>
      if zlen file =? 0 then ScanFail (-1) EINVAL ctx
      else segment_scan_impl file (zlen file) decryptor cb ctx min_frame_offset
  end.

Definition segment_scan_path (path : Res bytes) (decryptor : option SegmentDecryptor)
    (cb : option segment_frame_cb) (ctx : T) : ScanResult :=
  segment_scan_path_from_offset path decryptor cb ctx 0.

(** * The random-access frame reader *)
Record SegmentFrameReader := mkSegmentFrameReader {
  fr_file : bytes;           (* the open descriptor and [size] *)
  fr_data_offset : Z;
  fr_header : SegmentHeader;
  fr_encryption : SegmentEncryptionInfo;
  fr_metadata : bytes;
  fr_dek : bytes;
  fr_encrypted : bool;
}.

Definition segment_frame_reader_open (path : Res bytes) (decryptor : option SegmentDecryptor)
  : Res SegmentFrameReader :=
  let? (file, metadata) := read_metadata path in
  let? (header, data_offset, encryption) :=
    segment_parse_header metadata (zlen metadata) in
  let? dek := scan_dek header encryption decryptor true in
  Ok (mkSegmentFrameReader file data_offset header encryption metadata dek
        (has_flag (sh_flags header) SEGMENT_FLAG_ENCRYPTED)).

Definition segment_frame_reader_scan (reader : SegmentFrameReader) (cb : segment_frame_cb)
    (ctx : T) (file_offset frame_index : Z) : Z * Errno * T :=
  let size := zlen (fr_file reader) in
  let encrypted := fr_encrypted reader in
  let read :=
    require negb ((file_offset <? fr_data_offset reader)
                  || (size - SEGMENT_FRAME_HEADER_SIZE - 4 <? file_offset)) else EUNSET;
    let? frame_header := pread_exact (fr_file reader) SEGMENT_FRAME_HEADER_SIZE file_offset in
    let frame := frame_info frame_header file_offset in
    let total := fi_frame_len frame in
    let expected := frame_expected_len frame encrypted in
    require negb ((UINT32_MAX <? expected) || negb (total =? expected)
                  || (size - file_offset <? total)) else EIO;
    let? p := pread_exact (fr_file reader) total file_offset in
    require frame_crc_ok p frame encrypted else EIO;
    Ok (frame, p) in
  match read with
  | Err e => (-1, e, ctx)
  | Ok (frame, p) =>
      let dict_len := sh_dict_len (fr_header reader) in
      let dict_bytes :=
        if dict_len =? 0 then []
        else slice (fr_data_offset reader - dict_len) dict_len (fr_metadata reader) in
      match frame_chunk (fr_header reader) dict_bytes encrypted (fr_dek reader)
              (ei_nonce_prefix (fr_encryption reader)) frame_index p frame with
      | FrameDecryptFailed => (-1, EIO, ctx)
      | FrameDecompressFailed | FrameVerifyFailed => (-1, EUNSET, ctx)
      | FrameDecoded chunk =>
          let '(rc, ctx') := cb (fr_header reader) frame chunk ctx in (rc, EUNSET, ctx')
      end
  end.

(** One frame of a path: the same reads as the reader's, with the key
    unwrapped only after the frame's CRC was checked. *)
Definition segment_scan_path_frame (path : Res bytes) (decryptor : option SegmentDecryptor)
    (cb : segment_frame_cb) (ctx : T) (file_offset frame_index : Z) : Z * Errno * T :=
  let read :=
    let? (file, metadata) := read_metadata path in
    let size := zlen file in
    let? (header, data_offset, encryption) :=
      segment_parse_header metadata (zlen metadata) in
    require negb ((file_offset <? data_offset)
                  || (size - SEGMENT_FRAME_HEADER_SIZE - 4 <? file_offset)) else EUNSET;
    let? frame_header := pread_exact file SEGMENT_FRAME_HEADER_SIZE file_offset in
    let encrypted := has_flag (sh_flags header) SEGMENT_FLAG_ENCRYPTED in
    let frame := frame_info frame_header file_offset in
    let total_len := fi_frame_len frame in
    let expected_len := frame_expected_len frame encrypted in
    require negb ((UINT32_MAX <? expected_len) || negb (total_len =? expected_len)
                  || (size - file_offset <? total_len)) else EIO;
    let? p := pread_exact file total_len file_offset in
    require frame_crc_ok p frame encrypted else EIO;
    let dict_bytes :=
      if sh_dict_len header =? 0 then []
      else slice (data_offset - sh_dict_len header) (sh_dict_len header) metadata in
    let? dek := scan_dek header encryption decryptor true in
    match frame_chunk header dict_bytes encrypted dek
            (ei_nonce_prefix encryption) frame_index p frame with
    | FrameDecryptFailed => Err EIO
    | FrameDecompressFailed | FrameVerifyFailed => Err EUNSET
    | FrameDecoded chunk => Ok (header, frame, chunk)
    end in
  match read with
  | Err e => (-1, e, ctx)
  | Ok (header, frame, chunk) => let '(rc, ctx') := cb header frame chunk ctx in (rc, EUNSET, ctx')
  end.
End scan.
End segment.
Arguments segment_frame_cb T : clear implicits.
Arguments ScanResult T : clear implicits.
Arguments Delivery T : clear implicits.
