(* ===== verification/SegmentImage.v ===== *)
(** * Byte images of segments

    What [segment_write_header], [segment_write_frame] and
    [segment_write_footer] put on disk, as concatenations of fields, and what
    the parsing functions of Segment.v find in such an image whatever follows
    it. *)
From S2P Require Import Prelude Bytes Crypto Segment.

(** ** C strings in fixed-width fields *)
Definition is_cstr (s : bytes) : Prop := Forall (λ b, b ≠ 0) s.

Lemma cstr_id s : is_cstr s → cstr s = s.
Proof.
  induction 1 as [|b s Hb _ IH]; simpl; [done|].
  destruct (Z.eqb_spec b 0); [done|]. by rewrite IH.
Qed.

Lemma cstr_app_zero s r : is_cstr s → cstr (s ++ 0 :: r) = s.
Proof.
  induction 1 as [|b s Hb _ IH]; simpl; [done|].
  destruct (Z.eqb_spec b 0); [done|]. by rewrite IH.
Qed.

Lemma cstr_pad s k : is_cstr s → cstr (s ++ replicate k 0) = s.
Proof.
  intros Hs. destruct k; simpl; [by rewrite app_nil_r, cstr_id | by apply cstr_app_zero].
Qed.

Lemma put_cstr_eq width max s :
  is_cstr s → zlen s <= max →
  put_cstr width max s = s ++ replicate (Z.to_nat (width - zlen s)) 0.
Proof. intros Hs Hl. unfold put_cstr. by rewrite (cstr_id s Hs), (ztake_ge max s). Qed.

Lemma zlen_put_cstr width max s : 0 <= max <= width → zlen (put_cstr width max s) = width.
Proof.
  intros. unfold put_cstr. rewrite zlen_app. pose proof (zlen_ztake_min max (cstr s)).
  rewrite zlen_replicate; lia.
Qed.

Lemma cstr_put width max n s :
  is_cstr s → zlen s <= max → max <= n → n <= width →
  cstr (ztake n (put_cstr width max s)) = s.
Proof.
  intros Hs ???. rewrite put_cstr_eq by done. rewrite ztake_app_ge by lia.
  unfold ztake. rewrite take_replicate. by apply cstr_pad.
Qed.

(** ** Lengths of the images *)
Lemma zlen_segment_magic : zlen RECORDER_SEGMENT_MAGIC = 8.
Proof. done. Qed.
Lemma zlen_footer_magic : zlen RECORDER_SEGMENT_FOOTER_MAGIC = 8.
Proof. done. Qed.
Lemma zlen_extension_magic : zlen SEGMENT_ENCRYPTION_EXTENSION_MAGIC = 8.
Proof. done. Qed.
Lemma zlen_boot_field s : zlen (put_cstr RECORDER_BOOT_ID_SIZE RECORDER_BOOT_ID_SIZE s) = 32.
Proof. by apply zlen_put_cstr. Qed.
Lemma zlen_tz_field s :
  zlen (put_cstr RECORDER_SEGMENT_TZ_SIZE (RECORDER_SEGMENT_TZ_SIZE - 1) s) = 64.
Proof. by apply zlen_put_cstr. Qed.
#[export] Hint Rewrite zlen_write_u32_le zlen_write_u64_le zlen_segment_magic zlen_footer_magic
  zlen_extension_magic zlen_boot_field zlen_tz_field : len.

Lemma zlen_header_prefix h el dl : zlen (header_prefix h el dl) = 148.
Proof. unfold header_prefix. solve_len. Qed.
#[export] Hint Rewrite zlen_header_prefix : len.
Lemma zlen_fixed_header h e dl : zlen (fixed_header h e dl) = 152.
Proof. unfold fixed_header. solve_len. Qed.
Lemma zlen_frame_header a b c d : zlen (frame_header a b c d) = 16.
Proof. unfold frame_header. solve_len. Qed.
Lemma zlen_footer_body f : zlen (footer_body f) = 32.
Proof. unfold footer_body. solve_len. Qed.
Lemma zlen_footer_trailer : zlen footer_trailer = 12.
Proof. done. Qed.
#[export] Hint Rewrite zlen_fixed_header zlen_frame_header zlen_footer_body zlen_footer_trailer : len.
Lemma zlen_footer_bytes f : zlen (footer_bytes f) = 48.
Proof. unfold footer_bytes. solve_len. Qed.
Lemma zlen_encryption_extension np wd :
  zlen np = 4 → zlen (encryption_extension np wd) = 36 + zlen wd.
Proof. intros. unfold encryption_extension. solve_len. Qed.
#[export] Hint Rewrite zlen_footer_bytes : len.

(** Move a [zdrop] across the fields before it. *)
Ltac seek :=
  repeat rewrite zdrop_app_ge by solve_len;
  match goal with
  | |- context [zdrop ?n ?l] => replace (zdrop n l) with l by (replace n with 0 by solve_len; done)
  end.

(** Run the guards whose conditions are known. *)
Ltac step := cbn [rbind guard_res negb orb andb].

(** ** The fixed header *)
Record header_wf (h : SegmentHeader) : Prop := {
  wf_flags : is_u32 (sh_flags h);
  wf_seq : is_u64 (sh_segment_seq h);
  wf_boot_seq : is_u32 (sh_boot_seq h);
  wf_boot_id : is_cstr (sh_boot_id h) ∧ zlen (sh_boot_id h) <= 32;
  wf_timezone : is_cstr (sh_timezone h) ∧ zlen (sh_timezone h) <= 63;
  wf_realtime : is_u64 (sh_first_realtime_ts h);
  wf_monotonic : is_u64 (sh_first_monotonic_ts h);
}.

(** The header as a reader sees it: [dict_len] is the one that was written. *)
Definition with_dict_len (h : SegmentHeader) (dict_len : Z) : SegmentHeader :=
  mkSegmentHeader (sh_flags h) (sh_segment_seq h) (sh_boot_seq h) (sh_boot_id h)
    (sh_timezone h) (sh_first_realtime_ts h) (sh_first_monotonic_ts h) dict_len.

Definition header_image (h : SegmentHeader) (extension dict : bytes) : bytes :=
  fixed_header h extension (zlen dict) ++ extension ++ dict.

Section header_image.
Context (h : SegmentHeader) (extension dict rest : bytes).
Context (Hwf : header_wf h).
Context (Hsize : 152 + zlen extension + zlen dict <= UINT32_MAX).

Let dl := zlen dict.
Let after := write_u32_le (header_crc (header_prefix h (zlen extension) dl) extension)
             ++ extension ++ dict ++ rest.

Lemma header_image_split :
  header_image h extension dict ++ rest = header_prefix h (zlen extension) dl ++ after.
Proof. unfold header_image, fixed_header, after. by rewrite <-!app_assoc. Qed.

Ltac at_field := rewrite header_image_split; unfold header_prefix; rewrite <-!app_assoc; seek.

Lemma image_magic : ztake 8 (header_image h extension dict ++ rest) = RECORDER_SEGMENT_MAGIC.
Proof. rewrite header_image_split. unfold header_prefix. rewrite <-!app_assoc. by apply ztake_app_eq. Qed.

Lemma image_version : read_u32_le (zdrop 8 (header_image h extension dict ++ rest)) = 1.
Proof. at_field. by rewrite read_write_u32_le. Qed.

Lemma image_header_size :
  read_u32_le (zdrop 12 (header_image h extension dict ++ rest)) = 152 + zlen extension.
Proof.
  at_field. unfold UINT32_MAX in *. pose proof (zlen_nonneg extension). pose proof (zlen_nonneg dict).
  rewrite read_write_u32_le. rewrite (u32_id (zlen extension)) by (unfold is_u32; lia).
  unfold SEGMENT_HEADER_FIXED_SIZE. rewrite !u32_id by (rewrite ?u32_id; unfold is_u32; lia). done.
Qed.

Lemma image_crc :
  read_u32_le (zdrop 148 (header_image h extension dict ++ rest)) =
  header_crc (header_image h extension dict ++ rest) extension.
Proof.
  rewrite header_image_split. rewrite zdrop_app_eq by solve_len. unfold after at 1.
  rewrite read_write_u32_le. unfold header_crc at 2.
  rewrite (recorder_crc32_app (header_prefix h (zlen extension) dl)) by solve_len.
  fold (header_crc (header_prefix h (zlen extension) dl) extension).
  apply u32_id. unfold header_crc.
  destruct (zlen extension =? 0); [|apply lxor_u32]; apply recorder_crc32_range.
Qed.

Lemma image_fields :
  header_fields (header_image h extension dict ++ rest) = with_dict_len h dl.
Proof.
  destruct Hwf as [? ? ? [? ?] [? ?] ? ?].
  unfold header_fields, with_dict_len. f_equal.
  - at_field. rewrite read_write_u32_le. by apply u32_id.
  - at_field. rewrite read_write_u64_le. by apply u64_id.
  - at_field. rewrite read_write_u32_le. by apply u32_id.
  - unfold slice. at_field. rewrite ztake_app_le by (by rewrite zlen_boot_field). by apply cstr_put.
  - unfold slice. at_field. rewrite ztake_app_le by (by rewrite zlen_tz_field). by apply cstr_put.
  - at_field. rewrite read_write_u64_le. by apply u64_id.
  - at_field. rewrite read_write_u64_le. by apply u64_id.
  - at_field. rewrite read_write_u32_le. pose proof (zlen_nonneg dict). pose proof (zlen_nonneg extension).
    rewrite !u32_id; [done|..]; rewrite ?u32_id; unfold dl, is_u32, UINT32_MAX in *; lia.
Qed.

Lemma image_extension :
  ztake (zlen extension) (zdrop 152 (header_image h extension dict ++ rest)) = extension.
Proof.
  unfold header_image. rewrite <-!app_assoc. rewrite zdrop_app_eq by solve_len.
  by apply ztake_app_eq.
Qed.

Lemma parse_header_image size encryption :
  zlen (header_image h extension dict) <= size →
  (if has_flag (sh_flags h) SEGMENT_FLAG_ENCRYPTED
   then parse_encryption (extension ++ dict ++ rest) (zlen extension) = Ok encryption
   else extension = [] ∧ encryption = zero_encryption) →
  segment_parse_header (header_image h extension dict ++ rest) size =
    Ok (with_dict_len h dl, zlen (header_image h extension dict), encryption).
Proof.
  intros Hs Henc. pose proof (zlen_nonneg extension). pose proof (zlen_nonneg dict).
  assert (Hl : zlen (header_image h extension dict) = 152 + zlen extension + zlen dict)
    by (unfold header_image; solve_len).
  unfold segment_parse_header. rewrite image_magic, image_version, image_header_size, image_fields.
  unfold SEGMENT_HEADER_FIXED_SIZE. rewrite beq_refl.
  destruct (Z.ltb_spec size 152); [lia|].
  destruct (Z.ltb_spec (152 + zlen extension) 152); [lia|].
  destruct (Z.ltb_spec size (152 + zlen extension)); [lia|].
  replace (152 + zlen extension - 152) with (zlen extension) by lia. step.
  assert (Hd : zdrop 152 (header_image h extension dict ++ rest) = extension ++ dict ++ rest).
  { unfold header_image. rewrite <-!app_assoc. by apply zdrop_app_eq; solve_len. }
  cbn [sh_flags with_dict_len].
  replace (if has_flag (sh_flags h) SEGMENT_FLAG_ENCRYPTED then _ else _) with (Ok encryption).
  2:{ destruct (has_flag (sh_flags h) SEGMENT_FLAG_ENCRYPTED); [by rewrite Hd|].
      destruct Henc as [-> ->]. done. }
  step. rewrite image_extension, image_crc, !Z.eqb_refl. step. cbn [sh_dict_len with_dict_len].
  destruct (Z.ltb_spec (size - (152 + zlen extension)) dl); [unfold dl in *; lia|].
  step. rewrite u32_id, Hl by (unfold dl, is_u32, UINT32_MAX in *; lia). done.
Qed.
End header_image.

(** ** The encryption extension *)
Lemma parse_encryption_image np wd rest :
  zlen np = 4 → 0 < zlen wd → 36 + zlen wd <= UINT32_MAX →
  parse_encryption (encryption_extension np wd ++ rest) (zlen (encryption_extension np wd)) =
    Ok (mkSegmentEncryptionInfo wd np).
Proof.
  intros Hnp Hwd Hmax. unfold UINT32_MAX in *.
  rewrite (zlen_encryption_extension np wd Hnp). unfold parse_encryption.
  assert (E0 : ztake 8 (encryption_extension np wd ++ rest) = SEGMENT_ENCRYPTION_EXTENSION_MAGIC).
  { unfold encryption_extension. rewrite <-!app_assoc. by apply ztake_app_eq. }
  assert (E8 : read_u32_le (zdrop 8 (encryption_extension np wd ++ rest)) = 1).
  { unfold encryption_extension. rewrite <-!app_assoc. seek. by rewrite read_write_u32_le. }
  assert (E12 : read_u32_le (zdrop 12 (encryption_extension np wd ++ rest)) = 36 + zlen wd).
  { unfold encryption_extension. rewrite <-!app_assoc. seek. rewrite read_write_u32_le.
    unfold SEGMENT_ENCRYPTION_EXTENSION_FIXED_SIZE, SEGMENT_NONCE_PREFIX_SIZE.
    rewrite !u32_id; rewrite ?u32_id; unfold is_u32; lia. }
  assert (E16 : read_u32_le (zdrop 16 (encryption_extension np wd ++ rest)) = 1).
  { unfold encryption_extension. rewrite <-!app_assoc. seek. by rewrite read_write_u32_le. }
  assert (E20 : read_u32_le (zdrop 20 (encryption_extension np wd ++ rest)) = 1).
  { unfold encryption_extension. rewrite <-!app_assoc. seek. by rewrite read_write_u32_le. }
  assert (E24 : read_u32_le (zdrop 24 (encryption_extension np wd ++ rest)) = zlen wd).
  { unfold encryption_extension. rewrite <-!app_assoc. seek. rewrite read_write_u32_le.
    rewrite !u32_id; rewrite ?u32_id; unfold is_u32; lia. }
  assert (E28 : read_u32_le (zdrop 28 (encryption_extension np wd ++ rest)) = 4).
  { unfold encryption_extension. rewrite <-!app_assoc. seek. by rewrite read_write_u32_le. }
  rewrite E0, E8, E12, E16, E20, E24, E28, beq_refl, !Z.eqb_refl.
  unfold SEGMENT_ENCRYPTION_EXTENSION_FIXED_SIZE, SEGMENT_NONCE_PREFIX_SIZE.
  destruct (Z.ltb_spec (36 + zlen wd) (32 + 4)); [lia|]. step.
  destruct (Z.eqb_spec (zlen wd) 0); [lia|]. 
  destruct (Z.eqb_spec (zlen wd) (36 + zlen wd - 32 - 4)); [|lia]. step.
  do 2 f_equal; unfold slice, encryption_extension; rewrite <-!app_assoc; seek;
    by apply ztake_app_eq.
Qed.

(** ** Frames

    A frame as stored: [sf_tag] is empty in a plaintext segment. *)
Record StoredFrame := mkStoredFrame {
  sf_flags : Z;
  sf_ulen : Z;
  sf_stored : bytes;
  sf_tag : bytes;
}.

Definition frame_size (f : StoredFrame) : Z := 20 + zlen (sf_stored f) + zlen (sf_tag f).

Definition stored_header (f : StoredFrame) : bytes :=
  frame_header (sf_flags f) (zlen (sf_stored f)) (sf_ulen f) (frame_size f).

Definition frame_image (f : StoredFrame) : bytes :=
  stored_header f ++ sf_stored f ++ sf_tag f
  ++ write_u32_le (frame_crc (stored_header f) (sf_stored f) (sf_tag f)).

Definition stored_info (f : StoredFrame) (offset : Z) : SegmentFrameInfo :=
  mkSegmentFrameInfo (sf_flags f) (zlen (sf_stored f)) (sf_ulen f) offset (frame_size f).

Record frame_wf (encrypted : bool) (f : StoredFrame) : Prop := {
  fwf_flags : is_u32 (sf_flags f);
  fwf_ulen : is_u32 (sf_ulen f);
  fwf_tag : zlen (sf_tag f) = frame_tag_len encrypted;
  fwf_size : frame_size f <= UINT32_MAX;
}.

Lemma zlen_stored_header f : zlen (stored_header f) = 16.
Proof. unfold stored_header. solve_len. Qed.
#[export] Hint Rewrite zlen_stored_header : len.
Lemma zlen_frame_image f : zlen (frame_image f) = frame_size f.
Proof. unfold frame_image, frame_size. solve_len. Qed.
Lemma frame_size_ge f : 20 <= frame_size f.
Proof. unfold frame_size. solve_len. Qed.

Lemma frame_crc_range a b c : is_u32 (frame_crc a b c).
Proof.
  unfold frame_crc. apply lxor_u32; [apply lxor_u32; apply recorder_crc32_range|].
  destruct (zlen c =? 0); [done | apply recorder_crc32_range].
Qed.

(** The CRC test of a frame given by its fields. *)
Lemma frame_crc_ok_fields encrypted hd st tg c rest info :
  zlen hd = 16 → fi_stored_len info = zlen st → zlen tg = frame_tag_len encrypted → is_u32 c →
  frame_crc_ok (hd ++ st ++ tg ++ write_u32_le c ++ rest) info encrypted = (c =? frame_crc hd st tg).
Proof.
  intros Hhd Hst Ht Hc. unfold frame_crc_ok. rewrite Hst, <-Ht. unfold SEGMENT_FRAME_HEADER_SIZE.
  rewrite recorder_crc32_app by done.
  rewrite (zdrop_app_eq 16) by done. rewrite recorder_crc32_app by done.
  rewrite (zdrop_app_ge (16 + zlen st)) by solve_len.
  rewrite (zdrop_app_eq (16 + zlen st - zlen hd)) by solve_len. rewrite recorder_crc32_app by done.
  rewrite (zdrop_app_ge (16 + zlen st + zlen tg)) by solve_len.
  rewrite (zdrop_app_ge (16 + zlen st + zlen tg - zlen hd)) by solve_len.
  rewrite (zdrop_app_eq (16 + zlen st + zlen tg - zlen hd - zlen st)) by solve_len.
  rewrite read_write_u32_le, u32_id by done. f_equal. unfold frame_crc, SEGMENT_FRAME_HEADER_SIZE.
  generalize (recorder_crc32 hd 16) as c1. generalize (recorder_crc32 st (zlen st)) as c2.
  generalize (recorder_crc32 tg (zlen tg)) as c3. intros. rewrite Ht.
  destruct encrypted; [done|]. cbn. by rewrite Z.lxor_0_r.
Qed.

Section frame_image.
Context (encrypted : bool) (f : StoredFrame) (rest : bytes) (Hwf : frame_wf encrypted f).

Ltac at_frame := unfold frame_image, stored_header, frame_header; rewrite <-!app_assoc; seek.

Lemma frame_info_image offset : frame_info (frame_image f ++ rest) offset = stored_info f offset.
Proof.
  destruct Hwf as [? ? ? Hs]. unfold frame_size, UINT32_MAX in Hs.
  pose proof (zlen_nonneg (sf_stored f)). pose proof (zlen_nonneg (sf_tag f)).
  unfold frame_info, stored_info. f_equal.
  - unfold frame_image, stored_header, frame_header. rewrite <-!app_assoc, read_write_u32_le.
    by apply u32_id.
  - at_frame. rewrite read_write_u32_le. apply u32_id. unfold is_u32. lia.
  - at_frame. rewrite read_write_u32_le. by apply u32_id.
  - at_frame. rewrite read_write_u32_le. apply u32_id. unfold is_u32, frame_size. lia.
Qed.

Lemma frame_header_image : ztake 16 (frame_image f ++ rest) = stored_header f.
Proof. unfold frame_image. rewrite <-!app_assoc. apply ztake_app_eq. solve_len. Qed.

Lemma frame_stored_image : slice 16 (zlen (sf_stored f)) (frame_image f ++ rest) = sf_stored f.
Proof. unfold frame_image. rewrite <-!app_assoc. apply (slice_app_mid (stored_header f)). done. Qed.

Lemma frame_tag_image :
  slice (16 + zlen (sf_stored f)) (zlen (sf_tag f)) (frame_image f ++ rest) = sf_tag f.
Proof.
  unfold frame_image, slice. rewrite <-!app_assoc. rewrite zdrop_app_ge by solve_len.
  rewrite zdrop_app_eq by solve_len. by apply ztake_app_eq.
Qed.

Lemma frame_crc_ok_image offset :
  frame_crc_ok (frame_image f ++ rest) (stored_info f offset) encrypted = true.
Proof.
  unfold frame_image. rewrite <-!app_assoc.
  rewrite frame_crc_ok_fields; [apply Z.eqb_refl|solve_len|done|apply (fwf_tag _ _ Hwf)|apply frame_crc_range].
Qed.

Lemma frame_expected_image offset :
  frame_expected_len (stored_info f offset) encrypted = frame_size f.
Proof.
  pose proof (fwf_tag _ _ Hwf) as Ht. unfold frame_expected_len, frame_size. cbn.
  unfold SEGMENT_FRAME_HEADER_SIZE. lia.
Qed.
End frame_image.

(** ** The footer *)
Record footer_wf (f : SegmentFooter) : Prop := {
  ftwf_flags : is_u32 (sf_footer_flags f);
  ftwf_reason : is_u32 (sf_rotation_reason f);
  ftwf_count : is_u64 (sf_entry_count f);
  ftwf_realtime : is_u64 (sf_last_realtime_ts f);
  ftwf_monotonic : is_u64 (sf_last_monotonic_ts f);
}.

Definition present_footer (f : SegmentFooter) : SegmentFooter :=
  mkSegmentFooter (sf_footer_flags f) (sf_rotation_reason f) (sf_entry_count f)
    (sf_last_realtime_ts f) (sf_last_monotonic_ts f) true.

(** A footer that was written is recognised, whatever follows it. *)
Lemma footer_at_image f rest remaining :
  footer_wf f → 48 <= remaining →
  footer_at (footer_bytes f ++ rest) remaining = Some (present_footer f).
Proof.
  intros [? ? ? ? ?] Hr. unfold footer_at, SEGMENT_FOOTER_BODY_SIZE, SEGMENT_FOOTER_TRAILER_SIZE.
  set (crc := recorder_crc32 (footer_body f ++ write_u32_le 0 ++ footer_trailer) 48).
  assert (Hs : footer_bytes f ++ rest =
    footer_body f ++ write_u32_le crc ++ footer_trailer ++ rest).
  { unfold footer_bytes. by rewrite <-!app_assoc. }
  assert (E40 : slice 40 8 (footer_bytes f ++ rest) = RECORDER_SEGMENT_FOOTER_MAGIC).
  { rewrite Hs. unfold slice, footer_trailer. rewrite <-!app_assoc. seek. by apply ztake_app_eq. }
  assert (E36 : read_u32_le (zdrop 36 (footer_bytes f ++ rest)) = 1).
  { rewrite Hs. unfold footer_trailer. rewrite <-!app_assoc. seek. by rewrite read_write_u32_le. }
  assert (E32 : read_u32_le (zdrop 32 (footer_bytes f ++ rest)) = crc).
  { rewrite Hs. seek. rewrite read_write_u32_le. apply u32_id, recorder_crc32_range. }
  assert (Et : ztake 32 (footer_bytes f ++ rest) = footer_body f).
  { rewrite Hs. apply ztake_app_eq. solve_len. }
  assert (Es : slice 36 12 (footer_bytes f ++ rest) = footer_trailer).
  { rewrite Hs. unfold slice. seek. by apply ztake_app_eq. }
  rewrite E40, E36, E32, Et, Es, beq_refl. fold crc. rewrite !Z.eqb_refl.
  destruct (Z.leb_spec (36 + 12) remaining); [|lia]. cbn [andb].
  rewrite Hs. unfold present_footer, footer_body. rewrite <-!app_assoc. do 2 f_equal.
  - rewrite read_write_u32_le. by apply u32_id.
  - seek. rewrite read_write_u32_le. by apply u32_id.
  - seek. rewrite read_write_u64_le. by apply u64_id.
  - seek. rewrite read_write_u64_le. by apply u64_id.
  - seek. rewrite read_write_u64_le. by apply u64_id.
Qed.
