(* ===== verification/SegmentScan.v ===== *)
(** * The scanner on well-formed, torn and arbitrary input

    Loop lemmas for [scan_loop] (src/src/segment.c, segment_scan_impl): fuel,
    bounds, independence of bytes past the end, complete and torn frames, and
    truncation to the committed end. *)
From S2P Require Import Prelude Bytes Crypto Segment SegmentImage.

Section scan.
Context `{L : SegmentLib} {T : Type}.
Context (header : SegmentHeader) (dict : bytes) (encrypted : bool) (dek np : bytes).
Context (cb : option (segment_frame_cb T)) (minoff : Z).

Abbreviation loop fuel buf size off idx ctx :=
  (scan_loop fuel buf size header dict encrypted dek np cb minoff off off idx ctx).

(** ** Local facts about one round *)
Lemma footer_at_take p r remaining :
  r <= remaining → footer_at p remaining = None → footer_at (ztake r p) r = None.
Proof.
  intros Hr. unfold footer_at, SEGMENT_FOOTER_BODY_SIZE, SEGMENT_FOOTER_TRAILER_SIZE.
  destruct (Z.leb_spec (36 + 12) r); [|done].
  rewrite slice_ztake by lia. rewrite !zdrop_ztake by lia. rewrite !read_u32_le_ztake by lia.
  rewrite ztake_ztake by lia. rewrite slice_ztake by lia.
  destruct (Z.leb_spec (36 + 12) remaining); [|lia]. cbn [andb].
  destruct (_ && _); [|done]. by destruct (_ =? _).
Qed.

(** The footer test looks at 48 bytes only. *)
Lemma footer_at_local p q r r' :
  48 <= r → 48 <= r' → ztake 48 p = ztake 48 q → footer_at p r = footer_at q r'.
Proof.
  intros ? ? Heq. unfold footer_at, SEGMENT_FOOTER_BODY_SIZE, SEGMENT_FOOTER_TRAILER_SIZE.
  destruct (Z.leb_spec (36 + 12) r); [|lia]. destruct (Z.leb_spec (36 + 12) r'); [|lia].
  assert (Hs : ∀ o n, 0 <= o → 0 <= n → o + n <= 48 → slice o n p = slice o n q).
  { intros o n ? ? ?. rewrite <-(slice_ztake o n 48 p), <-(slice_ztake o n 48 q) by lia.
    by rewrite Heq. }
  assert (H4 : ∀ o, 0 <= o → o + 4 <= 48 → read_u32_le (zdrop o p) = read_u32_le (zdrop o q)).
  { intros o ? ?. rewrite <-(read_u32_le_ztake (zdrop o p) 4), <-(read_u32_le_ztake (zdrop o q) 4)
      by lia. f_equal. by apply (Hs o 4). }
  assert (H8 : ∀ o, 0 <= o → o + 8 <= 48 → read_u64_le (zdrop o p) = read_u64_le (zdrop o q)).
  { intros o ? ?. rewrite <-(read_u64_le_ztake (zdrop o p) 8), <-(read_u64_le_ztake (zdrop o q) 8)
      by lia. f_equal. by apply (Hs o 8). }
  assert (E0 : read_u32_le p = read_u32_le q) by (apply (H4 0); lia).
  assert (Ht : ztake 32 p = ztake 32 q) by (apply (Hs 0 32); lia).
  rewrite (Hs 40 8), (Hs 36 12), Ht, E0, !H4, !H8 by lia. done.
Qed.

Lemma frame_info_local p q off :
  ztake 16 p = ztake 16 q → frame_info p off = frame_info q off.
Proof.
  intros Heq. unfold frame_info.
  assert (H4 : ∀ o, 0 <= o → o + 4 <= 16 → read_u32_le (zdrop o p) = read_u32_le (zdrop o q)).
  { intros o ? ?. rewrite <-(read_u32_le_ztake (zdrop o p) 4), <-(read_u32_le_ztake (zdrop o q) 4)
      by lia. f_equal.
    change (slice o 4 p = slice o 4 q).
    rewrite <-(slice_ztake o 4 16 p), <-(slice_ztake o 4 16 q) by lia. by rewrite Heq. }
  assert (E0 : read_u32_le p = read_u32_le q) by (apply (H4 0); lia).
  by rewrite E0, !H4 by lia.
Qed.

Lemma frame_tag_len_nonneg : 0 <= frame_tag_len encrypted.
Proof. by destruct encrypted. Qed.

Lemma ztake_le_eq {A} n m (p q : list A) :
  n <= m → ztake m p = ztake m q → ztake n p = ztake n q.
Proof. intros ? H. rewrite <-(ztake_ztake n m p), <-(ztake_ztake n m q) by lia. by rewrite H. Qed.

Lemma slice_local {A} o n m (p q : list A) :
  0 <= o → 0 <= n → o + n <= m → ztake m p = ztake m q → slice o n p = slice o n q.
Proof.
  intros ? ? ? H. rewrite <-(slice_ztake o n m p), <-(slice_ztake o n m q) by lia. by rewrite H.
Qed.

(** The CRC test and the chunk of a frame depend on the frame's bytes only. *)
Lemma frame_crc_ok_local p q frame :
  0 <= fi_stored_len frame →
  ztake (frame_expected_len frame encrypted) p = ztake (frame_expected_len frame encrypted) q →
  frame_crc_ok p frame encrypted = frame_crc_ok q frame encrypted.
Proof.
  unfold frame_expected_len. pose proof frame_tag_len_nonneg as Ht.
  unfold frame_crc_ok, SEGMENT_FRAME_HEADER_SIZE in *. intros Hs Heq.
  set (n := fi_stored_len frame) in *. set (t := frame_tag_len encrypted) in *.
  assert (Hc : ∀ o l, 0 <= o → 0 <= l → o + l <= 16 + n + t + 4 →
    recorder_crc32 (zdrop o p) l = recorder_crc32 (zdrop o q) l).
  { intros o l ? ? ?. apply recorder_crc32_local.
    by apply (slice_local o l (16 + n + t + 4)). }
  assert (E0 : recorder_crc32 p 16 = recorder_crc32 q 16) by (apply (Hc 0); lia).
  assert (H4 : read_u32_le (zdrop (16 + n + t) p) = read_u32_le (zdrop (16 + n + t) q)).
  { rewrite <-(read_u32_le_ztake (zdrop (16 + n + t) p) 4),
            <-(read_u32_le_ztake (zdrop (16 + n + t) q) 4) by lia. f_equal.
    apply (slice_local (16 + n + t) 4 (16 + n + t + 4)); try done; lia. }
  by rewrite E0, H4, !Hc by lia.
Qed.

Lemma frame_chunk_local idx p q frame :
  0 <= fi_stored_len frame →
  ztake (frame_expected_len frame encrypted) p = ztake (frame_expected_len frame encrypted) q →
  frame_chunk header dict encrypted dek np idx p frame =
  frame_chunk header dict encrypted dek np idx q frame.
Proof.
  unfold frame_expected_len, SEGMENT_FRAME_HEADER_SIZE. pose proof frame_tag_len_nonneg as Ht.
  intros Hs Heq. unfold frame_chunk, SEGMENT_FRAME_HEADER_SIZE.
  set (n := fi_stored_len frame) in *.
  assert (E1 : slice 16 n p = slice 16 n q) by (apply (slice_local _ _ (16 + n + frame_tag_len encrypted + 4)); auto; lia).
  assert (E2 : ztake 16 p = ztake 16 q) by (apply (ztake_le_eq 16 (16 + n + frame_tag_len encrypted + 4)); auto; lia).
  rewrite E1, E2. destruct encrypted; [|done].
  assert (E3 : slice (16 + n) SEGMENT_GCM_TAG_SIZE p = slice (16 + n) SEGMENT_GCM_TAG_SIZE q).
  { apply (slice_local _ _ (16 + n + frame_tag_len true + 4)); auto; cbn; unfold SEGMENT_GCM_TAG_SIZE; lia. }
  by rewrite E3.
Qed.

Lemma scan_deliver_local idx p q frame ctx :
  0 <= fi_stored_len frame →
  ztake (frame_expected_len frame encrypted) p = ztake (frame_expected_len frame encrypted) q →
  scan_deliver header dict encrypted dek np cb minoff idx p frame ctx =
  scan_deliver header dict encrypted dek np cb minoff idx q frame ctx.
Proof. intros. unfold scan_deliver. by rewrite (frame_chunk_local idx p q). Qed.

(** ** One round of the loop *)
Inductive Round :=
  | RoundStop (r : ScanResult T)
  | RoundNext (offset : Z) (frame_index : Z) (ctx : T).

Definition scan_round (buf : bytes) (size off idx : Z) (ctx : T) : Round :=
  if negb (off <? size) then RoundStop (ScanDone header zero_footer off ctx)
  else
    let p := zdrop off buf in
    match footer_at p (size - off) with
    | Some footer => RoundStop (ScanDone header footer (off + 48) ctx)
    | None =>
        if size - off <? 20 + frame_tag_len encrypted
        then RoundStop (ScanDone header zero_footer off ctx)
        else
          let frame := frame_info p off in
          let bad := if encrypted then RoundStop (ScanFail (-1) EIO ctx)
                     else RoundStop (ScanDone header zero_footer off ctx) in
          if (UINT32_MAX <? frame_expected_len frame encrypted)
             || negb (fi_frame_len frame =? frame_expected_len frame encrypted) then bad
          else if size - off <? fi_frame_len frame
          then RoundStop (ScanDone header zero_footer off ctx)
          else if negb (frame_crc_ok p frame encrypted) then bad
          else
            match scan_deliver header dict encrypted dek np cb minoff idx p frame ctx with
            | DeliverBreak => RoundStop (ScanDone header zero_footer off ctx)
            | DeliverFail rv e ctx' => RoundStop (ScanFail rv e ctx')
            | DeliverOk ctx' =>
                if encrypted && (idx =? UINT64_MAX) then RoundStop (ScanFail (-1) EOVERFLOW ctx')
                else RoundNext (off + fi_frame_len frame) (u64 (idx + 1)) ctx'
            end
    end.

Lemma loop_unfold fuel buf size off idx ctx :
  loop (S fuel) buf size off idx ctx =
  match scan_round buf size off idx ctx with
  | RoundStop r => r
  | RoundNext off' idx' ctx' => loop fuel buf size off' idx' ctx'
  end.
Proof.
  unfold scan_round. cbn [scan_loop]. unfold SEGMENT_FRAME_HEADER_SIZE.
  change (16 + 4) with 20.
  destruct (negb (off <? size)); [done|]. cbv zeta.
  destruct (footer_at _ _); [done|]. destruct (size - off <? _); [done|].
  destruct (_ || _); [by destruct encrypted|]. destruct (size - off <? _); [done|].
  destruct (negb _); [by destruct encrypted|]. destruct (scan_deliver _ _ _ _ _ _ _ _ _ _ _); try done.
  by destruct (encrypted && _).
Qed.

(** What a round that goes on has checked. *)
Lemma round_next buf size off idx ctx off' idx' ctx' :
  bytes_ok buf → scan_round buf size off idx ctx = RoundNext off' idx' ctx' →
  let p := zdrop off buf in let frame := frame_info p off in
  off < size ∧ footer_at p (size - off) = None ∧ 20 + frame_tag_len encrypted <= size - off ∧
  frame_expected_len frame encrypted <= UINT32_MAX ∧
  fi_frame_len frame = frame_expected_len frame encrypted ∧ 0 <= fi_stored_len frame ∧
  off' = off + fi_frame_len frame ∧ off' <= size ∧ idx' = u64 (idx + 1) ∧
  frame_crc_ok p frame encrypted = true ∧
  scan_deliver header dict encrypted dek np cb minoff idx p frame ctx = DeliverOk ctx' ∧
  encrypted && (idx =? UINT64_MAX) = false.
Proof.
  intros Hok. unfold scan_round. destruct (Z.ltb_spec off size); [|done]. cbn [negb]. cbv zeta.
  destruct (footer_at _ _) eqn:Hf; [done|].
  destruct (Z.ltb_spec (size - off) (20 + frame_tag_len encrypted)); [done|].
  destruct (Z.ltb_spec UINT32_MAX (frame_expected_len (frame_info (zdrop off buf) off) encrypted));
    [by destruct encrypted|].
  destruct (Z.eqb_spec (fi_frame_len (frame_info (zdrop off buf) off))
    (frame_expected_len (frame_info (zdrop off buf) off) encrypted)) as [Ht|];
    [|by destruct encrypted]. cbn [negb orb].
  destruct (Z.ltb_spec (size - off) (fi_frame_len (frame_info (zdrop off buf) off))); [done|].
  destruct (frame_crc_ok _ _ _) eqn:Hc; [|by destruct encrypted]. cbn [negb].
  destruct (scan_deliver _ _ _ _ _ _ _ _ _ _ _) eqn:Hd; [|done..].
  destruct (encrypted && (idx =? UINT64_MAX)) eqn:He; [done|]. intros [= <- <- <-].
  split_and!; try done; [cbn; apply read_u32_le_range; by do 2 apply Forall_drop | cbn in *; lia].
Qed.

Lemma round_advance buf size off idx ctx off' idx' ctx' :
  bytes_ok buf → scan_round buf size off idx ctx = RoundNext off' idx' ctx' →
  off + 20 <= off' ∧ off' <= size.
Proof.
  intros Hok Hr. apply round_next in Hr as (? & ? & ? & ? & Ht & ? & ? & ? & _); [|done].
  pose proof frame_tag_len_nonneg. unfold frame_expected_len, SEGMENT_FRAME_HEADER_SIZE in Ht. lia.
Qed.

Lemma round_stop_done buf size off idx ctx h ft c ctx' :
  scan_round buf size off idx ctx = RoundStop (ScanDone h ft c ctx') →
  h = header ∧ ctx' = ctx ∧
  ((c = off ∧ ft = zero_footer) ∨
   (c = off + 48 ∧ c <= size ∧ footer_at (zdrop off buf) (size - off) = Some ft)).
Proof.
  unfold scan_round. destruct (negb (off <? size)) eqn:?; [intros [= <- <- <- <-]; auto|].
  cbv zeta. destruct (footer_at _ _) eqn:Hf.
  { intros [= <- <- <- <-]. split_and!; [done|done|right]. split_and!; [done| |done].
    unfold footer_at in Hf.
    destruct (Z.leb_spec (SEGMENT_FOOTER_BODY_SIZE + SEGMENT_FOOTER_TRAILER_SIZE) (size - off));
      [|done]. unfold SEGMENT_FOOTER_BODY_SIZE, SEGMENT_FOOTER_TRAILER_SIZE in *. lia. }
  destruct (size - off <? _); [intros [= <- <- <- <-]; auto|].
  destruct (_ || _); [destruct encrypted; [done|intros [= <- <- <- <-]; auto]|].
  destruct (size - off <? _); [intros [= <- <- <- <-]; auto|].
  destruct (negb (frame_crc_ok _ _ _)); [destruct encrypted; [done|intros [= <- <- <- <-]; auto]|].
  destruct (scan_deliver _ _ _ _ _ _ _ _ _ _ _).
  - by destruct (encrypted && _).
  - intros [= <- <- <- <-]; auto.
  - done.
Qed.

Lemma round_stop_not_fuel buf size off idx ctx :
  scan_round buf size off idx ctx ≠ RoundStop ScanFuel.
Proof.
  unfold scan_round. destruct (negb (off <? size)); [done|].
  cbv zeta. destruct (footer_at _ _); [done|].
  destruct (size - off <? _); [done|]. destruct (_ || _); [by destruct encrypted|].
  destruct (size - off <? _); [done|]. destruct (negb (frame_crc_ok _ _ _)); [by destruct encrypted|].
  destruct (scan_deliver _ _ _ _ _ _ _ _ _ _ _); [by destruct (encrypted && _)|done..].
Qed.

(** ** Fuel and bounds *)
Lemma loop_terminates fuel buf size off idx ctx :
  bytes_ok buf → 0 `max` (size - off) < Z.of_nat fuel → loop fuel buf size off idx ctx ≠ ScanFuel.
Proof.
  intros Hok. revert off idx ctx. induction fuel as [|fuel IH]; intros off idx ctx Hf; [lia|].
  rewrite loop_unfold. destruct (scan_round buf size off idx ctx) eqn:Hr.
  - intros ->. by apply round_stop_not_fuel in Hr.
  - apply round_advance in Hr as [? ?]; [|done]. apply IH. lia.
Qed.

Lemma loop_fuel fuel fuel' buf size off idx ctx :
  bytes_ok buf → 0 `max` (size - off) < Z.of_nat fuel → 0 `max` (size - off) < Z.of_nat fuel' →
  loop fuel buf size off idx ctx = loop fuel' buf size off idx ctx.
Proof.
  intros Hok. revert fuel' off idx ctx.
  induction fuel as [|fuel IH]; intros [|fuel'] off idx ctx Hf Hf'; [lia..|].
  rewrite !loop_unfold. destruct (scan_round buf size off idx ctx) eqn:Hr; [done|].
  apply round_advance in Hr as [? ?]; [|done]. apply IH; lia.
Qed.

Lemma loop_bounds fuel buf size off idx ctx h ft c ctx' :
  bytes_ok buf → off <= size →
  loop fuel buf size off idx ctx = ScanDone h ft c ctx' → h = header ∧ off <= c <= size.
Proof.
  intros Hok. revert off idx ctx. induction fuel as [|fuel IH]; intros off idx ctx Hf; [done|].
  rewrite loop_unfold. destruct (scan_round buf size off idx ctx) eqn:Hr.
  - intros ->. apply round_stop_done in Hr as (-> & _ & [[-> _]|(-> & ? & _)]); (split; [done|lia]).
  - apply round_advance in Hr as [? ?]; [|done]. intros [-> ?]%IH; [|lia]. split; [done|lia].
Qed.

(** ** The result depends on the first [size] bytes only *)
Lemma zdrop_take_local {A} off n m (p q : list A) :
  0 <= off → off <= m → n <= m - off → ztake m p = ztake m q → ztake n (zdrop off p) = ztake n (zdrop off q).
Proof.
  intros ? ? ? H. destruct (Z.le_gt_cases 0 n).
  - apply (slice_local off n m); auto; lia.
  - unfold ztake. replace (Z.to_nat n) with O by lia. done.
Qed.

Lemma round_local buf buf' size off idx ctx :
  bytes_ok buf → 0 <= off → ztake size buf = ztake size buf' →
  scan_round buf size off idx ctx = scan_round buf' size off idx ctx.
Proof.
  intros Hok Hoff Heq. pose proof frame_tag_len_nonneg as Htag.
  unfold scan_round. destruct (Z.ltb_spec off size); [|done]. cbn [negb]. cbv zeta.
  assert (Hl : ∀ n, n <= size - off → ztake n (zdrop off buf) = ztake n (zdrop off buf'))
    by (intros; apply (zdrop_take_local off n size); auto; lia).
  assert (Hfoot : footer_at (zdrop off buf) (size - off) = footer_at (zdrop off buf') (size - off)).
  { destruct (Z.le_gt_cases 48 (size - off)); [apply footer_at_local; auto|].
    unfold footer_at, SEGMENT_FOOTER_BODY_SIZE, SEGMENT_FOOTER_TRAILER_SIZE.
    destruct (Z.leb_spec (36 + 12) (size - off)); [lia|done]. }
  rewrite Hfoot. clear Hfoot. destruct (footer_at (zdrop off buf') (size - off)); [done|].
  destruct (Z.ltb_spec (size - off) (20 + frame_tag_len encrypted)); [done|].
  rewrite (frame_info_local (zdrop off buf) (zdrop off buf')) by (apply Hl; lia).
  set (frame := frame_info (zdrop off buf') off).
  assert (Hs : 0 <= fi_stored_len frame).
  { unfold frame. rewrite <-(frame_info_local (zdrop off buf) (zdrop off buf')) by (apply Hl; lia).
    cbn. apply read_u32_le_range. by do 2 apply Forall_drop. }
  destruct (Z.eqb_spec (fi_frame_len frame) (frame_expected_len frame encrypted)) as [Ht|];
    [|by rewrite !orb_true_r].
  destruct (UINT32_MAX <? _); [done|]. cbn [orb negb].
  destruct (Z.ltb_spec (size - off) (fi_frame_len frame)); [done|].
  rewrite (frame_crc_ok_local (zdrop off buf) (zdrop off buf')) by (auto; apply Hl; lia).
  by rewrite (scan_deliver_local idx (zdrop off buf) (zdrop off buf')) by (auto; apply Hl; lia).
Qed.

Lemma loop_local fuel buf buf' size off idx ctx :
  bytes_ok buf → 0 <= off → ztake size buf = ztake size buf' →
  loop fuel buf size off idx ctx = loop fuel buf' size off idx ctx.
Proof.
  intros Hok Hoff Heq. revert off idx ctx Hoff. induction fuel as [|fuel IH]; intros off idx ctx Hoff; [done|].
  rewrite !loop_unfold, <-(round_local buf buf') by done.
  destruct (scan_round buf size off idx ctx) eqn:Hr; [done|].
  apply round_advance in Hr as [? ?]; [|done]. apply IH; lia.
Qed.

(** ** Truncating to the committed end *)
Lemma round_shrink buf size size' off idx ctx off' idx' ctx' :
  bytes_ok buf → scan_round buf size off idx ctx = RoundNext off' idx' ctx' →
  off' <= size' <= size →
  scan_round buf size' off idx ctx = RoundNext off' idx' ctx'.
Proof.
  intros Hok Hr Hs. pose proof frame_tag_len_nonneg.
  apply round_next in Hr as (Hlt & Hf & Hmin & Hexp & Ht & Hst & -> & Hle & -> & Hc & Hd & He); [|done].
  set (p := zdrop off buf) in *. set (frame := frame_info p off) in *.
  assert (20 + frame_tag_len encrypted <= fi_frame_len frame)
    by (unfold frame_expected_len, SEGMENT_FRAME_HEADER_SIZE in Ht; lia).
  unfold scan_round. fold p. destruct (Z.ltb_spec off size'); [|lia]. cbn [negb].
  assert (Hf' : footer_at p (size' - off) = None).
  { unfold footer_at in *. destruct (Z.leb_spec (SEGMENT_FOOTER_BODY_SIZE + SEGMENT_FOOTER_TRAILER_SIZE) (size' - off));
      [|done].
    destruct (Z.leb_spec (SEGMENT_FOOTER_BODY_SIZE + SEGMENT_FOOTER_TRAILER_SIZE) (size - off)); [done|lia]. }
  rewrite Hf'. destruct (Z.ltb_spec (size' - off) (20 + frame_tag_len encrypted)); [lia|].
  fold frame. rewrite Ht, Z.eqb_refl.
  destruct (Z.ltb_spec UINT32_MAX (frame_expected_len frame encrypted)); [lia|]. cbn [negb orb].
  destruct (Z.ltb_spec (size' - off) (frame_expected_len frame encrypted)); [lia|].
  by rewrite Hc, Hd, He.
Qed.

Lemma loop_truncate fuel buf size off idx ctx h ft c ctx' :
  bytes_ok buf → off <= size → loop fuel buf size off idx ctx = ScanDone h ft c ctx' →
  loop fuel buf c off idx ctx = ScanDone h ft c ctx'.
Proof.
  intros Hok. revert off idx ctx. induction fuel as [|fuel IH]; intros off idx ctx Hoff; [done|].
  rewrite !loop_unfold. destruct (scan_round buf size off idx ctx) as [r|off' idx' ctx1] eqn:Hr.
  - intros ->. apply round_stop_done in Hr as (-> & -> & [[-> ->]|(-> & Hc & Hf)]).
    + unfold scan_round. by rewrite Z.ltb_irrefl.
    + unfold scan_round. destruct (Z.ltb_spec off (off + 48)); [|lia]. cbn [negb].
      rewrite (footer_at_local (zdrop off buf) (zdrop off buf) (off + 48 - off) (size - off))
        by (done || lia). by rewrite Hf.
  - intros Hl. pose proof (round_advance _ _ _ _ _ _ _ _ Hok Hr) as [? ?].
    pose proof Hl as Hb. apply loop_bounds in Hb as [_ ?]; [|done|lia].
    rewrite (round_shrink _ size _ _ _ _ off' idx' ctx1) by first [lia | done]. apply IH; [lia|done].
Qed.

(** ** Complete frames

    A list of stored frames with the chunk each decodes to. *)
Abbreviation frames := (list (StoredFrame * bytes)).

Definition images (fs : frames) : bytes := concat (map (λ fc, frame_image fc.1) fs).

(** Frame [i] of [fs], at [off], decodes to its chunk under frame index [idx]. *)
Fixpoint frames_decode (off idx : Z) (fs : frames) : Prop :=
  match fs with
  | [] => True
  | (f, chunk) :: fs' =>
      frame_chunk header dict encrypted dek np idx (frame_image f) (stored_info f off)
        = FrameDecoded chunk ∧
      frames_decode (off + frame_size f) (idx + 1) fs'
  end.

(** No frame boundary reads as a footer. *)
Fixpoint boundaries_clear (fs : frames) (tail : bytes) : Prop :=
  match fs with
  | [] => True
  | (f, _) :: fs' =>
      footer_at (frame_image f ++ images fs' ++ tail)
        (zlen (frame_image f ++ images fs' ++ tail)) = None ∧
      boundaries_clear fs' tail
  end.

(** The callback invocations for [fs]: frames before [minoff] are skipped. *)
Fixpoint deliveries (off : Z) (fs : frames) : list (SegmentFrameInfo * bytes) :=
  match fs with
  | [] => []
  | (f, chunk) :: fs' =>
      (if off <? minoff then [] else [(stored_info f off, chunk)])
      ++ deliveries (off + frame_size f) fs'
  end.

(** The context after a callback that accepts every frame. *)
Definition deliver_all (ds : list (SegmentFrameInfo * bytes)) (ctx : T) : T :=
  match cb with
  | None => ctx
  | Some cb => fold_left (λ s d, (cb header d.1 d.2 s).2) ds ctx
  end.

Definition cb_accepts : Prop :=
  match cb with Some cb => ∀ i c s, (cb header i c s).1 = 0 | None => True end.

Lemma images_cons f c fs : images ((f, c) :: fs) = frame_image f ++ images fs.
Proof. done. Qed.

Lemma zlen_images_ge fs : 20 * zlen fs <= zlen (images fs).
Proof.
  induction fs as [|[f c] fs IH]; [done|]. rewrite images_cons, zlen_app, zlen_frame_image, zlen_cons.
  pose proof (frame_size_ge f). lia.
Qed.

Lemma deliver_image f chunk off idx rest ctx :
  frame_wf encrypted f → cb_accepts →
  frame_chunk header dict encrypted dek np idx (frame_image f) (stored_info f off) = FrameDecoded chunk →
  scan_deliver header dict encrypted dek np cb minoff idx (frame_image f ++ rest) (stored_info f off) ctx =
  DeliverOk (deliver_all (if off <? minoff then [] else [(stored_info f off, chunk)]) ctx).
Proof.
  intros Hwf Hcb Hd. unfold scan_deliver, deliver_all, cb_accepts in *. destruct cb as [c|]; [|done].
  cbn [fi_file_offset stored_info]. destruct (off <? minoff); [done|].
  rewrite (frame_chunk_local idx _ (frame_image f)).
  - fold (stored_info f off). rewrite Hd. simpl. specialize (Hcb (stored_info f off) chunk ctx).
    destruct (c header (stored_info f off) chunk ctx) as [rv ctx']. simpl in *. by subst.
  - cbn. apply zlen_nonneg.
  - rewrite frame_expected_image by done. rewrite ztake_app_le, !ztake_ge; [done|..];
      rewrite zlen_frame_image; lia.
Qed.

Lemma round_frame pre f rest idx ctx chunk :
  let buf := pre ++ frame_image f ++ rest in
  frame_wf encrypted f → cb_accepts → 0 <= idx < UINT64_MAX →
  footer_at (frame_image f ++ rest) (zlen (frame_image f ++ rest)) = None →
  frame_chunk header dict encrypted dek np idx (frame_image f) (stored_info f (zlen pre))
    = FrameDecoded chunk →
  scan_round buf (zlen buf) (zlen pre) idx ctx =
    RoundNext (zlen (pre ++ frame_image f)) (idx + 1)
      (deliver_all (if zlen pre <? minoff then [] else [(stored_info f (zlen pre), chunk)]) ctx).
Proof.
  intros buf Hwf Hcb Hidx Hfoot Hd. unfold scan_round, buf.
  rewrite zdrop_app_eq by done.
  pose proof (zlen_nonneg rest). pose proof (frame_size_ge f).
  pose proof (fwf_size _ _ Hwf). pose proof (fwf_tag _ _ Hwf).
  replace (zlen (pre ++ frame_image f ++ rest) - zlen pre) with (zlen (frame_image f ++ rest))
    by solve_len.
  rewrite Hfoot. rewrite (frame_info_image encrypted f rest Hwf).
  rewrite frame_expected_image, frame_crc_ok_image by done.
  rewrite !zlen_app, zlen_frame_image. cbn [fi_frame_len stored_info].
  destruct (Z.ltb_spec (zlen pre) (zlen pre + (frame_size f + zlen rest))); [|lia]. cbn [negb].
  destruct (Z.ltb_spec (frame_size f + zlen rest) (20 + frame_tag_len encrypted)).
  { unfold frame_size in *. pose proof (zlen_nonneg (sf_stored f)). lia. }
  rewrite Z.eqb_refl. destruct (Z.ltb_spec UINT32_MAX (frame_size f)); [lia|]. cbn [negb orb].
  destruct (Z.ltb_spec (frame_size f + zlen rest) (frame_size f)); [lia|].
  rewrite (deliver_image f chunk) by done.
  destruct (Z.eqb_spec idx UINT64_MAX); [lia|]. rewrite andb_false_r.
  f_equal. apply u64_id. unfold is_u64, UINT64_MAX in *. lia.
Qed.

Lemma deliver_all_app ds ds' ctx : deliver_all (ds ++ ds') ctx = deliver_all ds' (deliver_all ds ctx).
Proof. unfold deliver_all. destruct cb; [apply fold_left_app|done]. Qed.

(** The loop over complete frames hands every one of them to the callback. *)
Lemma loop_frames fuel pre fs tail idx ctx :
  let buf := pre ++ images fs ++ tail in
  Forall (λ fc, frame_wf encrypted fc.1) fs → cb_accepts → 0 <= idx → idx + zlen fs <= UINT64_MAX →
  boundaries_clear fs tail → frames_decode (zlen pre) idx fs →
  loop (length fs + fuel) buf (zlen buf) (zlen pre) idx ctx =
  loop fuel buf (zlen buf) (zlen (pre ++ images fs)) (idx + zlen fs)
    (deliver_all (deliveries (zlen pre) fs) ctx).
Proof.
  intros buf. revert pre idx ctx buf.
  induction fs as [|[f c] fs IH]; intros pre idx ctx buf Hwf Hcb Hi Hidx Hclear Hdec.
  { unfold buf. cbn [images map concat length deliveries]. rewrite app_nil_r, Z.add_0_r.
    unfold deliver_all. by destruct cb. }
  apply Forall_cons in Hwf as [Hf Hwf]. destruct Hclear as [Hc0 Hclear]. destruct Hdec as [Hd0 Hdec].
  rewrite zlen_cons in Hidx. pose proof (zlen_nonneg fs).
  cbn [length Nat.add]. rewrite loop_unfold.
  pose proof (round_frame pre f (images fs ++ tail) idx ctx c Hf Hcb ltac:(lia) Hc0 Hd0) as Hr.
  assert (Hbuf : buf = pre ++ frame_image f ++ images fs ++ tail)
    by (unfold buf; rewrite images_cons; by rewrite <-!app_assoc).
  rewrite Hbuf. rewrite Hr. clear Hr.
  specialize (IH (pre ++ frame_image f) (idx + 1)
    (deliver_all (if zlen pre <? minoff then [] else [(stored_info f (zlen pre), c)]) ctx)).
  cbv zeta in IH. rewrite <-!app_assoc in IH. rewrite IH; try done; try lia.
  - rewrite images_cons. cbn [deliveries]. rewrite deliver_all_app. rewrite zlen_cons.
    rewrite (zlen_app pre (frame_image f)), zlen_frame_image. f_equal. lia.
  - by rewrite zlen_app, zlen_frame_image.
Qed.

(** ** Ends of a segment *)
Lemma round_end pre tail idx ctx :
  tail = [] → scan_round (pre ++ tail) (zlen (pre ++ tail)) (zlen pre) idx ctx =
    RoundStop (ScanDone header zero_footer (zlen pre) ctx).
Proof. intros ->. rewrite app_nil_r. unfold scan_round. by rewrite Z.ltb_irrefl. Qed.

Lemma round_footer pre ft rest idx ctx :
  footer_wf ft →
  scan_round (pre ++ footer_bytes ft ++ rest) (zlen (pre ++ footer_bytes ft ++ rest)) (zlen pre) idx ctx =
    RoundStop (ScanDone header (present_footer ft) (zlen pre + 48) ctx).
Proof.
  intros Hwf. unfold scan_round. rewrite zdrop_app_eq by done.
  destruct (Z.ltb_spec (zlen pre) (zlen (pre ++ footer_bytes ft ++ rest))); [|solve_len]. cbn [negb].
  by rewrite footer_at_image by (done || solve_len).
Qed.

(** A frame that is cut short ends the scan at its start, encrypted or not. *)
Lemma round_torn_frame pre f r idx ctx :
  let torn := ztake r (frame_image f) in
  frame_wf encrypted f → 0 <= r < frame_size f → footer_at torn r = None →
  scan_round (pre ++ torn) (zlen (pre ++ torn)) (zlen pre) idx ctx =
    RoundStop (ScanDone header zero_footer (zlen pre) ctx).
Proof.
  intros torn Hwf Hr Hfoot. unfold scan_round. rewrite zdrop_app_eq by done.
  assert (Hl : zlen torn = r) by (apply zlen_ztake; rewrite zlen_frame_image; lia).
  rewrite zlen_app, Hl. destruct (Z.ltb_spec (zlen pre) (zlen pre + r)); [|done]. cbn [negb].
  replace (zlen pre + r - zlen pre) with r by lia. rewrite Hfoot.
  destruct (Z.ltb_spec r (20 + frame_tag_len encrypted)); [done|].
  pose proof frame_tag_len_nonneg.
  rewrite (frame_info_local torn (frame_image f ++ [])).
  2:{ unfold torn. rewrite app_nil_r. apply ztake_ztake. lia. }
  rewrite (frame_info_image encrypted f [] Hwf). rewrite frame_expected_image by done.
  cbn [fi_frame_len stored_info]. pose proof (fwf_size _ _ Hwf).
  destruct (Z.ltb_spec UINT32_MAX (frame_size f)); [lia|]. rewrite Z.eqb_refl. cbn [negb orb].
  destruct (Z.ltb_spec r (frame_size f)); [done|lia].
Qed.

(** A footer that is cut short never reads as a frame; an encrypted segment
    reports an error once the minimum of an encrypted frame is there. *)
Lemma footer_frame_len ft q :
  0 <= sf_entry_count ft < 4294967296 → fi_frame_len (frame_info (footer_bytes ft ++ q) 0) = 0.
Proof.
  intros Hc. cbn [fi_frame_len frame_info]. unfold footer_bytes, footer_body. rewrite <-!app_assoc.
  rewrite zdrop_app_ge, zdrop_app_ge by solve_len. autorewrite with len.
  change (12 - 4 - 4) with 4. rewrite zdrop_app_le by solve_len.
  rewrite read_u32_le_app by (rewrite zlen_zdrop; rewrite zlen_write_u64_le; lia).
  assert (Hz : ∀ k, 32 <= k → Z.land (Z.shiftr (sf_entry_count ft) k) 255 = 0).
  { intros k Hk. rewrite Z.shiftr_div_pow2 by lia. rewrite Z.div_small; [done|]. split; [lia|].
    apply Z.lt_le_trans with (2 ^ 32); [lia|]. apply Z.pow_le_mono_r; lia. }
  assert (Hd : zdrop 4 (write_u64_le (sf_entry_count ft)) =
    map (λ k, Z.land (Z.shiftr (sf_entry_count ft) k) 255) [32; 40; 48; 56]) by done.
  rewrite Hd. cbn [map]. rewrite !Hz by lia. done.
Qed.

Lemma round_torn_footer pre ft r idx ctx :
  let torn := ztake r (footer_bytes ft) in
  footer_wf ft → sf_entry_count ft < 4294967296 → 0 < r < 48 →
  scan_round (pre ++ torn) (zlen (pre ++ torn)) (zlen pre) idx ctx =
    RoundStop (if encrypted && (36 <=? r) then ScanFail (-1) EIO ctx
               else ScanDone header zero_footer (zlen pre) ctx).
Proof.
  intros torn Hwf Hc Hr. unfold scan_round. rewrite zdrop_app_eq by done.
  assert (Hl : zlen torn = r) by (apply zlen_ztake; solve_len).
  rewrite zlen_app, Hl. destruct (Z.ltb_spec (zlen pre) (zlen pre + r)); [|lia]. cbn [negb].
  replace (zlen pre + r - zlen pre) with r by lia.
  assert (Hf : footer_at torn r = None).
  { unfold footer_at, SEGMENT_FOOTER_BODY_SIZE, SEGMENT_FOOTER_TRAILER_SIZE.
    destruct (Z.leb_spec (36 + 12) r); [lia|done]. }
  rewrite Hf. clear Hf.
  destruct (Z.ltb_spec r (20 + frame_tag_len encrypted)).
  { destruct encrypted; [|done]. destruct (Z.leb_spec 36 r); [|done]. unfold frame_tag_len, SEGMENT_GCM_TAG_SIZE in *. lia. }
  pose proof frame_tag_len_nonneg.
  assert (Hi : frame_info torn (zlen pre) = frame_info (footer_bytes ft ++ []) (zlen pre)).
  { apply frame_info_local. unfold torn. rewrite app_nil_r. apply ztake_ztake. lia. }
  assert (Hlen : fi_frame_len (frame_info torn (zlen pre)) = 0).
  { rewrite Hi. rewrite <-(footer_frame_len ft []); [done|]. destruct Hwf as [? ? [? ?] ? ?]; lia. }
  assert (Hst : 0 <= fi_stored_len (frame_info torn (zlen pre))).
  { rewrite Hi. cbn [fi_stored_len frame_info]. unfold footer_bytes, footer_body. rewrite <-!app_assoc.
    seek. rewrite read_write_u32_le. apply u32_range. }
  rewrite Hlen. destruct (Z.eqb_spec 0 (frame_expected_len (frame_info torn (zlen pre)) encrypted)).
  { unfold frame_expected_len, SEGMENT_FRAME_HEADER_SIZE in *. lia. }
  rewrite orb_true_r. destruct encrypted; [|done].
  destruct (Z.leb_spec 36 r); [done|]. cbn in *. unfold SEGMENT_GCM_TAG_SIZE in *. lia.
Qed.

(** ** A segment cut at an arbitrary byte *)
Fixpoint complete_frames (room : Z) (fs : frames) : frames :=
  match fs with
  | [] => []
  | (f, c) :: fs' =>
      if frame_size f <=? room then (f, c) :: complete_frames (room - frame_size f) fs' else []
  end.

(** The frames left over once the complete ones are taken. *)
Fixpoint torn_frames (room : Z) (fs : frames) : frames :=
  match fs with
  | [] => []
  | (f, c) :: fs' => if frame_size f <=? room then torn_frames (room - frame_size f) fs' else fs
  end.

Lemma complete_torn room fs : complete_frames room fs ++ torn_frames room fs = fs.
Proof.
  revert room. induction fs as [|[f c] fs IH]; intros room; [done|]. cbn.
  destruct (frame_size f <=? room); [|done]. cbn. by rewrite IH.
Qed.

Lemma images_app fs gs : images (fs ++ gs) = images fs ++ images gs.
Proof. unfold images. by rewrite map_app, concat_app. Qed.

Lemma complete_room room fs : 0 <= room → zlen (images (complete_frames room fs)) <= room.
Proof.
  revert room. induction fs as [|[f c] fs IH]; intros room Hr; [done|]. cbn [complete_frames].
  destruct (Z.leb_spec (frame_size f) room); [|done].
  rewrite images_cons, zlen_app, zlen_frame_image. specialize (IH (room - frame_size f)). lia.
Qed.

Lemma torn_first room fs f c gs :
  torn_frames room fs = (f, c) :: gs → room - zlen (images (complete_frames room fs)) < frame_size f.
Proof.
  revert room. induction fs as [|[f' c'] fs IH]; intros room; [done|]. cbn [torn_frames complete_frames].
  destruct (Z.leb_spec (frame_size f') room).
  - intros Ht. apply IH in Ht. rewrite images_cons, zlen_app, zlen_frame_image. lia.
  - intros [= -> -> ->]. change (zlen (images [])) with 0. lia.
Qed.

Lemma clear_complete room fs tail :
  0 <= room → boundaries_clear fs tail →
  boundaries_clear (complete_frames room fs)
    (ztake (room - zlen (images (complete_frames room fs))) (images (torn_frames room fs) ++ tail)).
Proof.
  revert room. induction fs as [|[f c] fs IH]; intros room Hr; [done|]. cbn [boundaries_clear].
  intros [H0 Hc]. cbn [complete_frames torn_frames].
  destruct (Z.leb_spec (frame_size f) room); [|done]. cbn [boundaries_clear].
  set (cs := complete_frames (room - frame_size f) fs) in *.
  set (ts := torn_frames (room - frame_size f) fs) in *.
  assert (Hroom : zlen (images cs) <= room - frame_size f) by (apply complete_room; lia).
  rewrite images_cons, zlen_app, zlen_frame_image.
  replace (room - (frame_size f + zlen (images cs)))
    with (room - frame_size f - zlen (images cs)) by lia.
  split; [|by apply IH; [lia|]].
  assert (Hsplit : images fs = images cs ++ images ts) by (unfold cs, ts; by rewrite <-images_app, complete_torn).
  rewrite Hsplit in H0. rewrite <-app_assoc in H0.
  set (q := images ts ++ tail) in *.
  set (x := room - frame_size f - zlen (images cs)) in *.
  assert (Hz : frame_image f ++ images cs ++ ztake x q = ztake room (frame_image f ++ images cs ++ q)).
  { rewrite ztake_app_ge by (rewrite zlen_frame_image; lia). rewrite zlen_frame_image.
    rewrite ztake_app_ge by lia. done. }
  rewrite Hz. destruct (Z.le_gt_cases room (zlen (frame_image f ++ images cs ++ q))).
  - rewrite zlen_ztake by (rewrite zlen_app, zlen_frame_image in *; lia).
    eapply footer_at_take; [|done]. lia.
  - by rewrite ztake_ge by lia.
Qed.

Lemma clear_head fs tail f c gs pre_fs :
  fs = pre_fs ++ (f, c) :: gs → boundaries_clear fs tail →
  footer_at (frame_image f ++ images gs ++ tail) (zlen (frame_image f ++ images gs ++ tail)) = None.
Proof.
  intros ->. induction pre_fs as [|[f' c'] pre_fs IH]; cbn [app boundaries_clear]; intros [H0 H1]; auto.
Qed.

Lemma decode_complete room off idx fs :
  frames_decode off idx fs → frames_decode off idx (complete_frames room fs).
Proof.
  revert room off idx. induction fs as [|[f c] fs IH]; intros room off idx; [done|].
  cbn [complete_frames frames_decode]. intros [H0 H1]. destruct (frame_size f <=? room); [|done].
  cbn [frames_decode]. auto.
Qed.

(** The tail left behind by a cut, after the complete frames, ends the scan. *)
Lemma round_tail pre fs ft room idx ctx :
  let tail := ztake (room - zlen (images (complete_frames room fs)))
                (images (torn_frames room fs) ++ footer_bytes ft) in
  Forall (λ fc, frame_wf encrypted fc.1) fs → footer_wf ft → sf_entry_count ft < 4294967296 →
  boundaries_clear fs (footer_bytes ft) → 0 <= room <= zlen (images fs) + 48 →
  scan_round (pre ++ tail) (zlen (pre ++ tail)) (zlen pre) idx ctx =
  RoundStop
    (if room =? zlen (images fs) + 48 then ScanDone header (present_footer ft) (zlen pre + 48) ctx
     else if encrypted && (zlen (images fs) + 36 <=? room) then ScanFail (-1) EIO ctx
     else ScanDone header zero_footer (zlen pre) ctx).
Proof.
  intros tail Hwf Hft Hcount Hclear Hroom. unfold tail. clear tail.
  set (x := room - zlen (images (complete_frames room fs))).
  assert (Hx : 0 <= x) by (pose proof (complete_room room fs); lia).
  pose proof (complete_torn room fs) as Hct.
  assert (Hlen : zlen (images fs) = zlen (images (complete_frames room fs)) + zlen (images (torn_frames room fs))).
  { by rewrite <-zlen_app, <-images_app, Hct. }
  destruct (torn_frames room fs) as [|[f c] gs] eqn:Ht.
  - cbn [images map concat app]. change (zlen (images [])) with 0 in Hlen.
    destruct (Z.eqb_spec room (zlen (images fs) + 48)).
    { rewrite ztake_ge by (rewrite zlen_footer_bytes; lia).
      rewrite <-(app_nil_r (footer_bytes ft)). by apply round_footer. }
    destruct (Z.eqb_spec x 0) as [Hx0|].
    { rewrite Hx0. rewrite round_end by done. destruct (Z.leb_spec (zlen (images fs) + 36) room); [lia|].
      by rewrite andb_false_r. }
    rewrite round_torn_footer by (done || lia). do 2 f_equal.
    destruct (Z.leb_spec 36 x), (Z.leb_spec (zlen (images fs) + 36) room); done || lia.
  - assert (Hf : x < frame_size f) by (eapply torn_first; eauto).
    assert (Hffs : frame_wf encrypted f).
    { rewrite <-Hct in Hwf. apply Forall_app in Hwf as [_ Hwf]. by apply Forall_cons in Hwf as [? _]. }
    rewrite images_cons, <-app_assoc. rewrite ztake_app_le by (rewrite zlen_frame_image; lia).
    rewrite images_cons, zlen_app, zlen_frame_image in Hlen. pose proof (zlen_nonneg (images gs)).
    destruct (Z.eqb_spec room (zlen (images fs) + 48)); [lia|].
    destruct (Z.leb_spec (zlen (images fs) + 36) room); [lia|]. rewrite andb_false_r.
    apply round_torn_frame; [done|lia|].
    pose proof (clear_head fs (footer_bytes ft) f c gs _ (eq_sym Hct) Hclear) as Hh.
    eapply (footer_at_take _ x) in Hh.
    + by rewrite ztake_app_le in Hh by (rewrite zlen_frame_image; lia).
    + rewrite !zlen_app, zlen_frame_image. pose proof (zlen_nonneg (footer_bytes ft)). lia.
Qed.

Definition prefix_result (pre_len : Z) (fs : frames) (ft : SegmentFooter) (room : Z) (ctx : T)
  : ScanResult T :=
  let ctx' := deliver_all (deliveries pre_len (complete_frames room fs)) ctx in
  if room =? zlen (images fs) + 48
  then ScanDone header (present_footer ft) (pre_len + zlen (images fs) + 48) ctx'
  else if encrypted && (zlen (images fs) + 36 <=? room) then ScanFail (-1) EIO ctx'
  else ScanDone header zero_footer (pre_len + zlen (images (complete_frames room fs))) ctx'.

Lemma loop_prefix fuel pre fs ft room idx ctx :
  let buf := pre ++ ztake room (images fs ++ footer_bytes ft) in
  Forall (λ fc, frame_wf encrypted fc.1) fs → footer_wf ft → sf_entry_count ft < 4294967296 →
  boundaries_clear fs (footer_bytes ft) → cb_accepts → 0 <= idx → idx + zlen fs <= UINT64_MAX →
  frames_decode (zlen pre) idx fs → 0 <= room <= zlen (images fs) + 48 → room < Z.of_nat fuel →
  loop fuel buf (zlen buf) (zlen pre) idx ctx = prefix_result (zlen pre) fs ft room ctx.
Proof.
  intros buf Hwf Hft Hcount Hclear Hcb Hi Hidx Hdec Hroom Hfuel.
  pose proof (complete_torn room fs) as Hct. pose proof (complete_room room fs ltac:(lia)) as Hcr.
  set (cs := complete_frames room fs) in *. set (ts := torn_frames room fs) in *.
  set (tail := ztake (room - zlen (images cs)) (images ts ++ footer_bytes ft)).
  assert (Hbuf : buf = pre ++ images cs ++ tail).
  { unfold buf, tail. rewrite <-Hct at 1. rewrite images_app, <-app_assoc. by rewrite ztake_app_ge by lia. }
  assert (Hlen : zlen cs <= room).
  { pose proof (zlen_images_ge cs). pose proof (zlen_nonneg cs). lia. }
  destruct (Nat.le_exists_sub (S (length cs)) fuel) as (fuel' & -> & _); [unfold zlen in *; lia|].
  replace (fuel' + S (length cs))%nat with (length cs + S fuel')%nat by lia.
  assert (Hcs : zlen cs <= zlen fs) by (rewrite <-Hct, zlen_app; solve_len).
  rewrite Hbuf. rewrite loop_frames; try done.
  - rewrite loop_unfold. rewrite app_assoc.
    pose proof (round_tail (pre ++ images cs) fs ft room (idx + zlen cs)
      (deliver_all (deliveries (zlen pre) cs) ctx)) as Hr. cbv zeta in Hr.
    fold cs ts in Hr. fold tail in Hr. rewrite Hr by done. unfold prefix_result. fold cs.
    destruct (Z.eqb_spec room (zlen (images fs) + 48)); [|by rewrite zlen_app].
    f_equal. rewrite zlen_app.
    assert (zlen (images fs) = zlen (images cs) + zlen (images ts)) by (by rewrite <-zlen_app, <-images_app, Hct).
    destruct ts as [|[f c] gs] eqn:Ht; [change (zlen (images [])) with 0 in *; lia|].
    pose proof (torn_first room fs f c gs Ht) as Htf. fold cs in Htf.
    rewrite images_cons, zlen_app, zlen_frame_image in *. pose proof (zlen_nonneg (images gs)). lia.
  - rewrite <-Hct in Hwf. by apply Forall_app in Hwf as [? _].
  - lia.
  - apply clear_complete; [lia|done].
  - by apply decode_complete.
Qed.
End scan.
