(* ===== verification/SegmentWrite.v ===== *)
(** * What the segment writer leaves on disk

    [segment_write_header], [segment_write_frame] and [segment_write_footer]
    produce the images of SegmentImage.v, and the frames decode to the payloads
    they were given, in plaintext and in encrypted segments. *)
From S2P Require Import Prelude Bytes Crypto Segment SegmentImage SegmentScan.

Section write.
Context `{L : SegmentLib} `{!OpenSSL_ok seg_openssl}.

(** A frame to write: flags, payload, uncompressed length. *)
Abbreviation request := (Z * bytes * Z)%type.

Fixpoint write_frames (fp : File) (enc : option SegmentEncryptor) (ps : list request)
  : Res unit * File * option SegmentEncryptor :=
  match ps with
  | [] => (Ok tt, fp, enc)
  | (flags, payload, ulen) :: ps' =>
      match segment_write_frame fp enc flags payload ulen with
      | (Ok _, fp', enc') => write_frames fp' enc' ps'
      | r => r
      end
  end.

(** The payload of a request decompresses to [chunk], which is a well-formed
    FlatBuffer of the segment's kind. *)
Definition payload_decodes (h : SegmentHeader) (dict : bytes) (p : request) (chunk : bytes) : Prop :=
  let '(flags, payload, ulen) := p in
  decompress_payload h dict (mkSegmentFrameInfo flags (zlen payload) ulen 0 0) payload = Some chunk ∧
  (if has_flag (sh_flags h) SEGMENT_FLAG_COMPACT_ENTRIES
   then journal_DefaultChunk_verify_as_root chunk
   else journal_Chunk_verify_as_root chunk) = true.

Definition is_encrypted (enc : option SegmentEncryptor) : bool :=
  match enc with Some _ => true | None => false end.
Definition enc_dek (enc : option SegmentEncryptor) : bytes :=
  match enc with Some e => se_dek e | None => replicate 32 0 end.
Definition enc_prefix (enc : option SegmentEncryptor) : bytes :=
  match enc with Some e => se_nonce_prefix e | None => [0; 0; 0; 0] end.
Definition enc_index (enc : option SegmentEncryptor) (idx : Z) : Prop :=
  match enc with Some e => se_frame_index e = idx | None => True end.

Lemma decompress_info h dict fi fi' payload :
  fi_flags fi = fi_flags fi' → fi_stored_len fi = fi_stored_len fi' →
  fi_uncompressed_len fi = fi_uncompressed_len fi' →
  decompress_payload h dict fi payload = decompress_payload h dict fi' payload.
Proof. unfold decompress_payload. intros -> -> ->. done. Qed.

(** One successful [segment_write_frame] appends one frame image. *)
Lemma write_frame_image fp enc flags payload ulen fp' enc' :
  is_u32 flags → is_u32 ulen →
  segment_write_frame fp enc flags payload ulen = (Ok tt, fp', enc') →
  ∃ f, f_data fp' = f_data fp ++ frame_image f ∧ frame_wf (is_encrypted enc) f ∧
    sf_flags f = flags ∧ sf_ulen f = ulen ∧ zlen (sf_stored f) = zlen payload ∧
    match enc with
    | None => enc' = None ∧ sf_stored f = payload
    | Some e =>
        enc' = Some (mkSegmentEncryptor (se_public_key e) (se_dek e) (se_nonce_prefix e)
                       (se_frame_index e + 1) (se_initialized e)) ∧
        se_frame_index e ≠ UINT64_MAX ∧
        recorder_crypto_aes_gcm_encrypt (se_dek e)
          (frame_nonce (se_nonce_prefix e) (se_frame_index e)) (stored_header f) payload =
          (RECORDER_CRYPTO_OK, sf_stored f, sf_tag f)
    end.
Proof.
  intros Hfl Hul. unfold segment_write_frame, SEGMENT_FRAME_HEADER_SIZE, SEGMENT_GCM_TAG_SIZE.
  destruct enc as [e|]; cbn [is_encrypted].
  - destruct (negb (se_initialized e)); [done|].
    destruct (Z.ltb_spec (UINT32_MAX - 16 - (4 + 16)) (zlen payload)); [done|].
    destruct (Z.eqb_spec (se_frame_index e) UINT64_MAX); [done|]. cbv zeta.
    destruct (recorder_crypto_aes_gcm_encrypt _ _ _ _) as [[st ct] tag] eqn:Henc.
    destruct st; try done.
    pose proof (gcm_encrypt_ok _ _ _ _ _ _ Henc) as (_ & Hct & Htag & _ & _ & _).
    destruct (write_each _ _) as [r fp1] eqn:Hw. intros [= -> <- <-]. apply write_each_ok in Hw.
    exists (mkStoredFrame flags ulen ct tag).
    assert (Hsh : stored_header (mkStoredFrame flags ulen ct tag) =
      frame_header flags (zlen payload) ulen (16 + zlen payload + (4 + 16))).
    { unfold stored_header, frame_size. cbn [sf_flags sf_stored sf_ulen sf_tag]. rewrite Hct, Htag.
      f_equal. lia. }
    split; [|split; [|split_and!; try done; by rewrite Hsh]].
    + rewrite Hw. unfold frame_image. rewrite Hsh. cbn [sf_stored sf_tag concat].
      rewrite ?app_nil_l, app_nil_r. reflexivity.
    + split; cbn [sf_flags sf_ulen sf_tag]; try done. unfold frame_size. cbn [sf_stored sf_tag]. lia.
  - destruct (Z.ltb_spec (UINT32_MAX - 16 - (4 + 0)) (zlen payload)); [done|].
    destruct (write_each _ _) as [r fp1] eqn:Hw. intros [= -> <- <-]. apply write_each_ok in Hw.
    exists (mkStoredFrame flags ulen payload []).
    assert (Hsh : stored_header (mkStoredFrame flags ulen payload []) =
      frame_header flags (zlen payload) ulen (16 + zlen payload + (4 + 0))).
    { unfold stored_header, frame_size. cbn [sf_flags sf_stored sf_ulen sf_tag]. rewrite zlen_nil.
      f_equal. lia. }
    split; [|split; [|done]].
    + rewrite Hw. unfold frame_image. rewrite Hsh. cbn [sf_stored sf_tag concat].
      rewrite ?app_nil_l, app_nil_r. reflexivity.
    + split; cbn [sf_flags sf_ulen sf_tag]; try done. unfold frame_size.
      cbn [sf_stored sf_tag]. rewrite zlen_nil. lia.
Qed.

(** What a frame image decodes to is what its request decodes to. *)
Lemma written_frame_chunk h dict f off enc idx flags payload ulen chunk :
  sf_flags f = flags → sf_ulen f = ulen → zlen (sf_stored f) = zlen payload →
  zlen (sf_tag f) = frame_tag_len (is_encrypted enc) → enc_index enc idx →
  match enc with
  | None => sf_stored f = payload
  | Some e =>
      recorder_crypto_aes_gcm_encrypt (se_dek e)
        (frame_nonce (se_nonce_prefix e) (se_frame_index e)) (stored_header f) payload =
        (RECORDER_CRYPTO_OK, sf_stored f, sf_tag f)
  end →
  payload_decodes h dict (flags, payload, ulen) chunk →
  frame_chunk h dict (is_encrypted enc) (enc_dek enc) (enc_prefix enc) idx
    (frame_image f) (stored_info f off) = FrameDecoded chunk.
Proof.
  intros Hfl Hul Hlen Htag Hidx Hst [Hdec Hver].
  unfold frame_chunk, SEGMENT_FRAME_HEADER_SIZE. cbn [fi_stored_len stored_info].
  pose proof (frame_stored_image f []) as Es. pose proof (frame_header_image f []) as Eh.
  pose proof (frame_tag_image f []) as Et. rewrite app_nil_r in *. rewrite Es.
  assert (Hdec' : decompress_payload h dict (stored_info f off) payload = Some chunk).
  { rewrite <-Hdec. apply decompress_info; cbn; congruence. }
  destruct enc as [e|]; cbn [is_encrypted enc_dek enc_prefix] in *.
  - rewrite Eh. unfold frame_tag_len in Htag. rewrite Htag in Et. rewrite Et, <-Hidx.
    rewrite (gcm_decrypt_encrypt _ _ _ _ _ _ Hst), Hdec', Hver. done.
  - rewrite Hst, Hdec', Hver. done.
Qed.

(** A successful run of frame writes, with the frames it left behind. *)
Lemma write_frames_images h dict ps chunks : ∀ fp enc idx fp' enc',
  Forall (λ p, is_u32 p.1.1 ∧ is_u32 p.2) ps →
  Forall2 (payload_decodes h dict) ps chunks →
  enc_index enc idx →
  write_frames fp enc ps = (Ok tt, fp', enc') →
  ∃ fs, f_data fp' = f_data fp ++ images fs ∧ Forall (λ fc, frame_wf (is_encrypted enc) fc.1) fs ∧
    fs.*2 = chunks ∧ length fs = length ps ∧
    Forall2 (λ fc p, sf_flags fc.1 = p.1.1 ∧ sf_ulen fc.1 = p.2 ∧
                      zlen (sf_stored fc.1) = zlen p.1.2) fs ps ∧
    frames_decode h dict (is_encrypted enc) (enc_dek enc) (enc_prefix enc) (zlen (f_data fp)) idx fs.
Proof.
  revert chunks. induction ps as [|[[flags payload] ulen] ps IH]; intros chunks fp enc idx fp' enc' Hps Hdec Hidx Hw.
  { inversion Hdec; subst. injection Hw as <- <-. exists []. cbn [images map concat].
    rewrite app_nil_r. split_and!; done. }
  apply Forall_cons in Hps as [[Hfl Hul] Hps]. cbn in Hfl, Hul.
  apply Forall2_cons_inv_l in Hdec as (chunk & chunks' & Hd0 & Hdec & ->).
  cbn [write_frames] in Hw.
  destruct (segment_write_frame fp enc flags payload ulen) as [[[[]|e] fp1] enc1] eqn:Hw1; [|done].
  apply write_frame_image in Hw1 as (f & Hdata & Hwf & Hf1 & Hf2 & Hf3 & Hm); [|done..].
  assert (Hsame : is_encrypted enc1 = is_encrypted enc ∧ enc_dek enc1 = enc_dek enc ∧
    enc_prefix enc1 = enc_prefix enc ∧ enc_index enc1 (idx + 1)).
  { destruct enc as [e|]; [destruct Hm as (-> & _ & _)|destruct Hm as [-> _]]; split_and!; try done.
    cbn in *. by rewrite Hidx. }
  destruct Hsame as (He1 & He2 & He3 & He4).
  destruct (IH _ _ _ _ _ _ Hps Hdec He4 Hw) as (fs & Hd & Hwfs & Hch & Hlen & Hreq & Hfd).
  exists ((f, chunk) :: fs). rewrite He1, He2, He3 in *. rewrite Hdata in *.
  rewrite zlen_app, zlen_frame_image in Hfd.
  split_and!.
  - rewrite Hd, images_cons. by rewrite <-app_assoc.
  - by apply Forall_cons.
  - cbn. by rewrite Hch.
  - cbn. by rewrite Hlen.
  - apply Forall2_cons. by split.
  - cbn [frames_decode]. split; [|done].
    apply (written_frame_chunk h dict f _ enc idx flags payload ulen); try done.
    + apply (fwf_tag _ _ Hwf).
    + destruct enc as [e|]; [by destruct Hm as (_ & _ & ?)|by destruct Hm].
Qed.
End write.
