(* ===== verification/Models.v ===== *)
(** * Concrete models of the external libraries

    Small functions that satisfy the laws asked of OpenSSL, zstd and FlatBuffers.
    They show that the laws can hold together and let the properties be run on
    concrete segments. *)
From S2P Require Import Prelude Bytes Crypto Segment.

Definition all_u8 (l : bytes) : bool := forallb (λ b, (0 <=? b) && (b <? 256)) l.

Lemma all_u8_ok l : all_u8 l = true → bytes_ok l.
Proof.
  induction l as [|b l IH]; cbn; intros H; [constructor|].
  apply andb_true_iff in H as [Hb Hl]. constructor; [|by apply IH]. unfold is_u8. bool_lia.
Qed.

(** A shift cipher whose tag repeats the message length. *)
#[local] Instance toy_openssl : OpenSSL := {
  EVP_PKEY := bool;
  BIO := bytes;
  BIO_new_file p := Some p;
  PEM_read_bio_PUBKEY b := Some (negb (zlen b =? 0));
  PEM_read_bio_PrivateKey b := Some (negb (zlen b =? 0));
  EVP_PKEY_is_rsa k := k;
  RAND_bytes n len := Some (replicate (Z.to_nat len) (Z.of_nat n mod 256));
  EVP_PKEY_encrypt_size _ d := Some (zlen d + 1);
  EVP_PKEY_encrypt _ _ d := if all_u8 d then Some (1 :: d) else None;
  EVP_PKEY_decrypt_size _ w := Some (zlen w);
  EVP_PKEY_decrypt _ w := match w with _ :: d => Some d | [] => None end;
  EVP_aes_256_gcm_seal _ _ _ p :=
    if all_u8 p
    then Some (map (λ b, (b + 85) mod 256) p, replicate 16 (zlen p mod 256)) else None;
  EVP_aes_256_gcm_open _ _ _ c t :=
    if beq t (replicate 16 (zlen c mod 256))
    then GcmPlaintext (map (λ b, (b + 171) mod 256) c) else GcmTagMismatch;
}.

#[local] Instance toy_lib : SegmentLib := {
  seg_openssl := toy_openssl;
  ZSTD_decompress _ p := Some p;
  ZSTD_decompress_usingDict _ p _ := Some p;
  journal_DefaultChunk_verify_as_root c := negb (zlen c =? 0);
  journal_Chunk_verify_as_root c := negb (zlen c =? 0);
}.

Lemma shift_unshift p : bytes_ok p → map (λ b, (b + 171) mod 256) (map (λ b, (b + 85) mod 256) p) = p.
Proof.
  induction 1 as [|b p Hb _ IH]; [done|]. cbn. rewrite IH. f_equal. unfold is_u8 in Hb.
  rewrite Zplus_mod_idemp_l. replace (b + 85 + 171) with (b + 1 * 256) by lia.
  rewrite Z.mod_add by lia. by rewrite Z.mod_small.
Qed.

Lemma mod_bytes_ok (f : Z → Z) p : bytes_ok (map (λ b, f b mod 256) p).
Proof. induction p; cbn; constructor; [by apply Z.mod_pos_bound|done]. Qed.

Lemma replicate_ok n x : is_u8 x → bytes_ok (replicate n x).
Proof. intros. by apply Forall_replicate. Qed.

#[local] Instance toy_openssl_ok : OpenSSL_ok toy_openssl.
Proof.
  split; cbn.
  - intros n len b Hl [= <-]. split.
    + apply zlen_replicate. done.
    + apply replicate_ok. unfold is_u8. by apply Z.mod_pos_bound.
  - intros n k d w. destruct (all_u8 d) eqn:Hd; [|done]. intros [= <-]. split; [solve_len|].
    constructor; [done|by apply all_u8_ok].
  - intros k n a p c t. destruct (all_u8 p) eqn:Hp; [|done]. intros [= <- <-]. split_and!.
    + unfold zlen. by rewrite length_map.
    + done.
    + apply mod_bytes_ok.
    + by repeat constructor; apply Z.mod_pos_bound.
  - intros k n a p c t. destruct (all_u8 p) eqn:Hp; [|done]. intros [= <- <-].
    unfold zlen. rewrite length_map. rewrite beq_refl, shift_unshift; [done|by apply all_u8_ok].
Qed.

Lemma toy_key_pair pub priv : key_pair (H := toy_openssl) pub priv.
Proof. intros n d w. cbn. destruct (all_u8 d); [|done]. intros [= <-]. split; [by eexists|done]. Qed.

Definition toy_key : @EVP_PKEY (@seg_openssl toy_lib) := true.
