(* ===== verification/SegmentSpec.v ===== *)
(** * Properties of the segment format

    The contract of segment.c, stated on requests: what is handed to the writer
    is what the scanner delivers, from the complete file, from any prefix of it
    (a crash), after truncation, and by random access. *)
From S2P Require Import Prelude Bytes Crypto Segment SegmentImage SegmentScan SegmentWrite Models.

(** ** Requests and what the scanner should say about them *)
Abbreviation request := (Z * bytes * Z)%type.

Definition req_size (encrypted : bool) (p : request) : Z :=
  20 + zlen p.1.2 + frame_tag_len encrypted.

Definition req_info (encrypted : bool) (p : request) (off : Z) : SegmentFrameInfo :=
  mkSegmentFrameInfo p.1.1 (zlen p.1.2) p.2 off (req_size encrypted p).

Fixpoint reqs_size (encrypted : bool) (ps : list request) : Z :=
  match ps with [] => 0 | p :: ps' => req_size encrypted p + reqs_size encrypted ps' end.

(** Offsets of the frames of [ps] when the first starts at [off]. *)
Fixpoint frame_starts (encrypted : bool) (off : Z) (ps : list request) : list Z :=
  match ps with
  | [] => []
  | p :: ps' => off :: frame_starts encrypted (off + req_size encrypted p) ps'
  end.

(** The callback arguments for [ps] from [minoff] on. *)
Fixpoint req_deliveries (encrypted : bool) (minoff off : Z) (ps : list request) (chunks : list bytes)
  : list (SegmentFrameInfo * bytes) :=
  match ps, chunks with
  | p :: ps', c :: chunks' =>
      (if off <? minoff then [] else [(req_info encrypted p off, c)])
      ++ req_deliveries encrypted minoff (off + req_size encrypted p) ps' chunks'
  | _, _ => []
  end.

(** How many of the frames of [ps] fit completely in [room] bytes. *)
Fixpoint complete_count (encrypted : bool) (room : Z) (ps : list request) : nat :=
  match ps with
  | [] => O
  | p :: ps' =>
      if req_size encrypted p <=? room
      then S (complete_count encrypted (room - req_size encrypted p) ps') else O
  end.

(** No frame start of [data] reads as a footer. *)
Definition no_false_footer (data : bytes) (starts : list Z) : Prop :=
  Forall (λ o, footer_at (zdrop o data) (zlen data - o) = None) starts.

Definition feed `{SegmentLib} {T} (cb : segment_frame_cb T) (h : SegmentHeader)
    (ds : list (SegmentFrameInfo * bytes)) (ctx : T) : T :=
  fold_left (λ s d, (cb h d.1 d.2 s).2) ds ctx.

Section correspondence.
Context (encrypted : bool).

Abbreviation matches := (λ (fc : StoredFrame * bytes) (p : request),
  sf_flags fc.1 = p.1.1 ∧ sf_ulen fc.1 = p.2 ∧ zlen (sf_stored fc.1) = zlen p.1.2).
Abbreviation wf := (λ fc : StoredFrame * bytes, frame_wf encrypted fc.1).

Lemma match_size fc p : wf fc → matches fc p → frame_size fc.1 = req_size encrypted p.
Proof. intros [_ _ Ht _] (_ & _ & Hl). unfold frame_size, req_size. lia. Qed.

Lemma match_images fs ps :
  Forall wf fs → Forall2 matches fs ps → zlen (images fs) = reqs_size encrypted ps.
Proof.
  intros Hwf. induction 1 as [|[f c] p fs ps Hm Hms IH]; [done|]. apply Forall_cons in Hwf as [? ?].
  rewrite images_cons, zlen_app, zlen_frame_image. cbn [reqs_size].
  pose proof (match_size (f, c) p) as Hs. cbn in Hs. rewrite Hs, IH by done. done.
Qed.

Lemma match_deliveries minoff off fs ps :
  Forall wf fs → Forall2 matches fs ps →
  deliveries minoff off fs = req_deliveries encrypted minoff off ps fs.*2.
Proof.
  intros Hwf Hm. revert off. induction Hm as [|[f c] p fs ps Hm Hms IH]; intros off; [done|].
  apply Forall_cons in Hwf as [Hf ?]. pose proof (match_size (f, c) p Hf Hm) as Hs. cbn in Hs.
  cbn [deliveries fmap list_fmap req_deliveries]. rewrite Hs, IH by done. f_equal.
  destruct Hm as (H1 & H2 & H3). cbn in *. unfold stored_info, req_info.
  rewrite Hs, H1, H2, H3. done.
Qed.

Lemma match_complete room fs ps :
  Forall wf fs → Forall2 matches fs ps →
  complete_frames room fs = take (complete_count encrypted room ps) fs.
Proof.
  intros Hwf Hm. revert room. induction Hm as [|[f c] p fs ps Hm Hms IH]; intros room; [done|].
  apply Forall_cons in Hwf as [Hf ?]. pose proof (match_size (f, c) p Hf Hm) as Hs. cbn in Hs.
  cbn [complete_frames complete_count]. rewrite Hs. destruct (_ <=? room); [|done].
  cbn [take]. by rewrite IH.
Qed.

Lemma match_clear pre fs ps tail :
  Forall wf fs → Forall2 matches fs ps →
  no_false_footer (pre ++ images fs ++ tail) (frame_starts encrypted (zlen pre) ps) →
  boundaries_clear fs tail.
Proof.
  intros Hwf Hm. revert pre. induction Hm as [|[f c] p fs ps Hm Hms IH]; intros pre; [done|].
  apply Forall_cons in Hwf as [Hf ?]. pose proof (match_size (f, c) p Hf Hm) as Hs. cbn in Hs.
  cbn [frame_starts boundaries_clear]. intros Hn. apply Forall_cons in Hn as [H0 Hn].
  rewrite images_cons, <-app_assoc in H0, Hn. split.
  - rewrite zdrop_app_eq in H0 by done. rewrite <-H0. f_equal. rewrite (zlen_app pre). lia.
  - apply (IH ltac:(done) (pre ++ frame_image f)). unfold no_false_footer.
    rewrite (zlen_app pre), zlen_frame_image, Hs, <-!app_assoc. done.
Qed.
End correspondence.

Section written.
Context `{L : SegmentLib} `{!OpenSSL_ok seg_openssl}.

(** The decryptor a reader needs for a segment written with [enc]. *)
Definition opens (enc : option SegmentEncryptor) (d : option SegmentDecryptor) : Prop :=
  match enc with
  | None => True
  | Some e => ∃ k, d = Some (mkSegmentDecryptor k) ∧ key_pair (se_public_key e) k
  end.

(** A header written to an empty file is an image that parses back. *)
Lemma write_header_image fp h dict enc draw fp' enc' draw' :
  f_data fp = [] →
  segment_write_header fp h dict enc draw = (Ok tt, fp', enc', draw') →
  ∃ ext encryption,
    f_data fp' = header_image h ext dict ∧
    is_encrypted enc' = has_flag (sh_flags h) SEGMENT_FLAG_ENCRYPTED ∧
    (∀ rest, 152 + zlen ext + zlen dict <= UINT32_MAX →
      if has_flag (sh_flags h) SEGMENT_FLAG_ENCRYPTED
      then parse_encryption (ext ++ dict ++ rest) (zlen ext) = Ok encryption
      else ext = [] ∧ encryption = zero_encryption) ∧
    ei_nonce_prefix encryption = enc_prefix enc' ∧ enc_index enc' 0 ∧
    (∀ d, opens enc' d → scan_dek h encryption d true = Ok (enc_dek enc')).
Proof.
  intros Hfp. unfold segment_write_header. destruct (UINT32_MAX <? zlen dict); [done|].
  assert (Hdict : concat (if zlen dict =? 0 then [] else [dict]) = dict).
  { destruct (Z.eqb_spec (zlen dict) 0) as [Hz|]; [|cbn; apply app_nil_r].
    destruct dict; [done|]. rewrite zlen_cons in Hz. pose proof (zlen_nonneg dict). lia. }
  destruct enc as [e|].
  - destruct (has_flag (sh_flags h) SEGMENT_FLAG_ENCRYPTED) eqn:Hflag; [|done]. cbn [negb Bool.eqb].
    destruct (header_key_material draw _) as [[[[dek np] wd]|] draw1] eqn:Hk; [|done].
    destruct (write_each _ _) as [[[]|] fp1] eqn:Hw; [|done]. intros [= <- <- <-].
    apply write_each_ok in Hw. rewrite Hfp, concat_app, Hdict in Hw.
    unfold header_key_material in Hk.
    destruct (recorder_crypto_random draw _) as [[[] dek'] dr1] eqn:Hr1; try done.
    destruct (recorder_crypto_random dr1 _) as [[[] np'] dr2] eqn:Hr2; try done.
    destruct (recorder_crypto_wrap_dek dr2 _ dek') as [[[] wd'] dr3] eqn:Hr3; try done.
    destruct (_ <? zlen wd'); [done|]. injection Hk as -> -> -> ->.
    apply recorder_crypto_random_ok in Hr1 as [Hdl _]; [|done].
    apply recorder_crypto_random_ok in Hr2 as [Hnl _]; [|done].
    pose proof (wrap_dek_ok _ _ _ _ _ Hr3) as (_ & Hwl & _).
    exists (encryption_extension np wd), (mkSegmentEncryptionInfo wd np). split_and!; try done.
    + rewrite Hw. cbn [concat]. rewrite app_nil_r. unfold header_image. by rewrite <-app_assoc.
    + intros rest Hmax. rewrite zlen_encryption_extension in Hmax by done.
      apply parse_encryption_image; [done|done|]. pose proof (zlen_nonneg dict). lia.
    + intros d (k & -> & Hkp). unfold scan_dek. rewrite Hflag. cbn [andb sd_private_key ei_wrapped_dek].
      by rewrite (unwrap_wrap_dek _ _ _ _ _ _ Hkp Hdl Hr3).
  - destruct (has_flag (sh_flags h) SEGMENT_FLAG_ENCRYPTED) eqn:Hflag; [done|]. cbn [negb Bool.eqb].
    destruct (write_each _ _) as [r fp1] eqn:Hw. intros [= -> <- <- <-].
    apply write_each_ok in Hw. rewrite Hfp, concat_app, Hdict in Hw.
    exists [], zero_encryption. split_and!; try done.
    + rewrite Hw. cbn [concat]. by rewrite app_nil_r.
    + intros d _. unfold scan_dek. by rewrite Hflag.
Qed.

(** Opening a written segment: the scan starts after the header and the
    dictionary, with the writer's key and nonce prefix. *)
Lemma scan_impl_written {T} fp h dict enc draw fp1 enc1 draw1 d (cb : option (segment_frame_cb T)) ctx
    minoff body :
  f_data fp = [] → header_wf h →
  segment_write_header fp h dict enc draw = (Ok tt, fp1, enc1, draw1) →
  zlen (f_data fp1) <= UINT32_MAX → (if cb is Some _ then opens enc1 d else enc1 = None) →
  let data := f_data fp1 ++ body in
  segment_scan_impl data (zlen data) d cb ctx minoff =
  scan_loop (S (Z.to_nat (zlen data))) data (zlen data) (with_dict_len h (zlen dict)) dict
    (is_encrypted enc1) (enc_dek enc1) (enc_prefix enc1) cb minoff
    (zlen (f_data fp1)) (zlen (f_data fp1)) 0 ctx.
Proof.
  intros Hfp Hwf Hh Hmax Hd data.
  apply write_header_image in Hh as (ext & encryption & Hdata & Henc & Hpe & Hnp & _ & Hdek); [|done].
  assert (Hsz : zlen (f_data fp1) = 152 + zlen ext + zlen dict).
  { rewrite Hdata. unfold header_image. solve_len. }
  unfold segment_scan_impl, data. rewrite Hdata in *.
  rewrite (parse_header_image h ext dict body Hwf ltac:(lia) _ encryption) by
    (auto; solve_len || (specialize (Hpe body ltac:(lia)); done)).
  assert (Hkey : scan_dek (with_dict_len h (zlen dict)) encryption d (if cb is Some _ then true else false) =
    Ok (enc_dek enc1)).
  { destruct cb; [by apply Hdek|]. subst enc1. unfold scan_dek. by rewrite andb_false_r. }
  rewrite Hkey, Hnp, Henc. cbn [sh_dict_len with_dict_len].
  replace (if zlen dict =? 0 then [] else _) with dict; [done|].
  destruct (Z.eqb_spec (zlen dict) 0) as [Hz|].
  - destruct dict; [done|]. rewrite zlen_cons in Hz. pose proof (zlen_nonneg dict). lia.
  - unfold header_image, slice. rewrite <-!app_assoc. rewrite zdrop_app_ge by solve_len.
    rewrite zdrop_app_eq by solve_len. by rewrite ztake_app_eq.
Qed.

Definition cb_total {T} (cb : segment_frame_cb T) : Prop := ∀ h i c s, (cb h i c s).1 = 0.

(** The body left behind by the frames and the footer. *)
Lemma write_body_images h dict fp1 enc1 ps chunks fp2 enc2 ft fp3 :
  Forall (λ p : request, is_u32 p.1.1 ∧ is_u32 p.2) ps →
  Forall2 (payload_decodes h dict) ps chunks → enc_index enc1 0 →
  write_frames fp1 enc1 ps = (Ok tt, fp2, enc2) →
  segment_write_footer fp2 ft = (Ok tt, fp3) →
  ∃ fs, f_data fp3 = f_data fp1 ++ images fs ++ footer_bytes ft ∧
    Forall (λ fc, frame_wf (is_encrypted enc1) fc.1) fs ∧ fs.*2 = chunks ∧ length fs = length ps ∧
    Forall2 (λ fc p, sf_flags fc.1 = p.1.1 ∧ sf_ulen fc.1 = p.2 ∧
                      zlen (sf_stored fc.1) = zlen p.1.2) fs ps ∧
    frames_decode h dict (is_encrypted enc1) (enc_dek enc1) (enc_prefix enc1) (zlen (f_data fp1)) 0 fs.
Proof.
  intros Hps Hdec Hi Hw Hft.
  destruct (write_frames_images h dict ps chunks fp1 enc1 0 fp2 enc2 Hps Hdec Hi Hw)
    as (fs & Hd & Hwf & Hch & Hlen & Hm & Hfd).
  exists fs. split_and!; try done. unfold segment_write_footer in Hft.
  destruct (has_flag _ _); [done|]. unfold write_all in Hft. destruct (_ <=? _); [|done].
  injection Hft as <-. cbn [f_data]. rewrite Hd. by rewrite <-app_assoc.
Qed.

(** The complete file. *)
Lemma scan_written {T} fp h dict enc draw fp1 enc1 draw1 ps chunks fp2 enc2 ft fp3 d
    (cb : segment_frame_cb T) ctx minoff :
  f_data fp = [] → header_wf h → footer_wf ft →
  segment_write_header fp h dict enc draw = (Ok tt, fp1, enc1, draw1) →
  zlen (f_data fp1) <= UINT32_MAX →
  Forall (λ p : request, is_u32 p.1.1 ∧ is_u32 p.2) ps → zlen ps <= UINT64_MAX →
  Forall2 (payload_decodes (with_dict_len h (zlen dict)) dict) ps chunks →
  write_frames fp1 enc1 ps = (Ok tt, fp2, enc2) →
  segment_write_footer fp2 ft = (Ok tt, fp3) →
  no_false_footer (f_data fp3) (frame_starts (is_encrypted enc1) (zlen (f_data fp1)) ps) →
  opens enc1 d → cb_total cb →
  segment_scan_impl (f_data fp3) (zlen (f_data fp3)) d (Some cb) ctx minoff =
  ScanDone (with_dict_len h (zlen dict)) (present_footer ft) (zlen (f_data fp3))
    (feed cb (with_dict_len h (zlen dict))
      (req_deliveries (is_encrypted enc1) minoff (zlen (f_data fp1)) ps chunks) ctx).
Proof.
  intros Hfp Hwf Hftwf Hh Hmax Hps Hpl Hdec Hw Hft Hclear Hd Hcb.
  assert (Hi : enc_index enc1 0) by (by apply write_header_image in Hh as (? & ? & ? & ? & ? & ? & ? & _)).
  destruct (write_body_images _ _ _ _ _ _ _ _ _ _ Hps Hdec Hi Hw Hft)
    as (fs & Hdata & Hwfs & Hch & Hlen & Hm & Hfd).
  rewrite Hdata in *. rewrite (scan_impl_written fp h dict enc draw fp1 enc1 draw1 d (Some cb)) by done.
  set (pre := f_data fp1) in *. set (data := pre ++ images fs ++ footer_bytes ft) in *.
  assert (Hge : zlen fs <= zlen data).
  { pose proof (zlen_images_ge fs). unfold data. solve_len. }
  replace (S (Z.to_nat (zlen data))) with (length fs + S (Z.to_nat (zlen data) - length fs))%nat
    by (unfold zlen in *; lia).
  unfold data at 2 3. rewrite loop_frames; try done.
  - rewrite loop_unfold, app_assoc. rewrite <-(app_nil_r (footer_bytes ft)), round_footer by done.
    rewrite (match_deliveries (is_encrypted enc1) minoff _ _ ps), Hch by done. f_equal.
    unfold data. solve_len.
  - intros i c s. apply Hcb.
  - unfold zlen in *. rewrite Hlen. lia.
  - by eapply match_clear.
Qed.

(** The file before it is closed: every frame is delivered. *)
Lemma scan_unfinished {T} fp h dict enc draw fp1 enc1 draw1 ps chunks fp2 enc2 d
    (cb : segment_frame_cb T) ctx minoff :
  f_data fp = [] → header_wf h →
  segment_write_header fp h dict enc draw = (Ok tt, fp1, enc1, draw1) →
  zlen (f_data fp1) <= UINT32_MAX →
  Forall (λ p : request, is_u32 p.1.1 ∧ is_u32 p.2) ps → zlen ps <= UINT64_MAX →
  Forall2 (payload_decodes (with_dict_len h (zlen dict)) dict) ps chunks →
  write_frames fp1 enc1 ps = (Ok tt, fp2, enc2) →
  no_false_footer (f_data fp2) (frame_starts (is_encrypted enc1) (zlen (f_data fp1)) ps) →
  opens enc1 d → cb_total cb →
  segment_scan_impl (f_data fp2) (zlen (f_data fp2)) d (Some cb) ctx minoff =
  ScanDone (with_dict_len h (zlen dict)) zero_footer (zlen (f_data fp2))
    (feed cb (with_dict_len h (zlen dict))
      (req_deliveries (is_encrypted enc1) minoff (zlen (f_data fp1)) ps chunks) ctx).
Proof.
  intros Hfp Hwf Hh Hmax Hps Hpl Hdec Hw Hclear Hd Hcb.
  assert (Hi : enc_index enc1 0) by (by apply write_header_image in Hh as (? & ? & ? & ? & ? & ? & ? & _)).
  destruct (write_frames_images _ _ _ _ _ _ _ _ _ Hps Hdec Hi Hw) as (fs & Hdata & Hwfs & Hch & Hlen & Hm & Hfd).
  rewrite Hdata in *. rewrite (scan_impl_written fp h dict enc draw fp1 enc1 draw1 d (Some cb)) by done.
  set (pre := f_data fp1) in *. rewrite <-(app_nil_r (images fs)) in Hclear |- *.
  set (data := pre ++ images fs ++ []) in *.
  assert (Hge : zlen fs <= zlen data).
  { pose proof (zlen_images_ge fs). unfold data. solve_len. }
  replace (S (Z.to_nat (zlen data))) with (length fs + S (Z.to_nat (zlen data) - length fs))%nat
    by (unfold zlen in *; lia).
  unfold data at 2 3. rewrite loop_frames; try done.
  - rewrite loop_unfold. unfold scan_round. rewrite app_nil_r, Z.ltb_irrefl.
    rewrite (match_deliveries (is_encrypted enc1) minoff _ _ ps), Hch by done. f_equal.
    unfold data. by rewrite app_nil_r.
  - intros i c s. apply Hcb.
  - unfold zlen in *. rewrite Hlen. lia.
  - by eapply match_clear.
Qed.

(** C1: write then read.  A segment produced by a successful
    [segment_write_header], any number of [segment_write_frame]s and a
    [segment_write_footer], plaintext or encrypted, is scanned back completely:
    the scan returns the header, the footer and the whole file as committed, and
    the callback has received exactly the frames from [minoff] on, in order, each
    with its offset, lengths and the chunk its payload decodes to.  The one
    condition on the data is that no frame start reads as a footer. *)
Theorem written_segment_scans {T} fp h dict enc draw fp1 enc1 draw1 ps chunks fp2 enc2 ft fp3 d
    (cb : segment_frame_cb T) ctx minoff :
  f_data fp = [] → header_wf h → footer_wf ft →
  segment_write_header fp h dict enc draw = (Ok tt, fp1, enc1, draw1) →
  zlen (f_data fp1) <= UINT32_MAX →
  Forall (λ p : request, is_u32 p.1.1 ∧ is_u32 p.2) ps → zlen ps <= UINT64_MAX →
  Forall2 (payload_decodes (with_dict_len h (zlen dict)) dict) ps chunks →
  write_frames fp1 enc1 ps = (Ok tt, fp2, enc2) →
  segment_write_footer fp2 ft = (Ok tt, fp3) →
  no_false_footer (f_data fp3) (frame_starts (is_encrypted enc1) (zlen (f_data fp1)) ps) →
  opens enc1 d → cb_total cb →
  segment_scan_impl (f_data fp3) (zlen (f_data fp3)) d (Some cb) ctx minoff =
  ScanDone (with_dict_len h (zlen dict)) (present_footer ft) (zlen (f_data fp3))
    (feed cb (with_dict_len h (zlen dict))
      (req_deliveries (is_encrypted enc1) minoff (zlen (f_data fp1)) ps chunks) ctx).
Proof. apply scan_written. Qed.

(** Any prefix of a written segment that holds its header. *)
Lemma scan_written_prefix {T} fp h dict enc draw fp1 enc1 draw1 ps chunks fp2 enc2 ft fp3 d
    (cb : option (segment_frame_cb T)) ctx k :
  f_data fp = [] → header_wf h → footer_wf ft → sf_entry_count ft < 4294967296 →
  segment_write_header fp h dict enc draw = (Ok tt, fp1, enc1, draw1) →
  zlen (f_data fp1) <= UINT32_MAX →
  Forall (λ p : request, is_u32 p.1.1 ∧ is_u32 p.2) ps → zlen ps <= UINT64_MAX →
  Forall2 (payload_decodes (with_dict_len h (zlen dict)) dict) ps chunks →
  write_frames fp1 enc1 ps = (Ok tt, fp2, enc2) →
  segment_write_footer fp2 ft = (Ok tt, fp3) →
  no_false_footer (f_data fp3) (frame_starts (is_encrypted enc1) (zlen (f_data fp1)) ps) →
  (if cb is Some _ then opens enc1 d else enc1 = None) → cb_accepts (with_dict_len h (zlen dict)) cb →
  zlen (f_data fp1) <= k <= zlen (f_data fp3) →
  let h' := with_dict_len h (zlen dict) in
  let n := complete_count (is_encrypted enc1) (k - zlen (f_data fp1)) ps in
  let ctx' := deliver_all h' cb (req_deliveries (is_encrypted enc1) 0 (zlen (f_data fp1)) (take n ps) (take n chunks)) ctx in
  segment_scan_buffer (ztake k (f_data fp3)) k d cb ctx =
  (if k =? zlen (f_data fp3) then ScanDone h' (present_footer ft) k ctx'
   else if is_encrypted enc1 && (zlen (f_data fp3) - 12 <=? k) then ScanFail (-1) EIO ctx'
   else ScanDone h' zero_footer (zlen (f_data fp1) + reqs_size (is_encrypted enc1) (take n ps)) ctx').
Proof.
  intros Hfp Hwf Hftwf Hcnt Hh Hmax Hps Hpl Hdec Hw Hft Hclear Hd Hcb Hk h' n ctx'.
  assert (Hi : enc_index enc1 0) by (by apply write_header_image in Hh as (? & ? & ? & ? & ? & ? & ? & _)).
  destruct (write_body_images _ _ _ _ _ _ _ _ _ _ Hps Hdec Hi Hw Hft)
    as (fs & Hdata & Hwfs & Hch & Hlen & Hm & Hfd).
  rewrite Hdata in *. rewrite ztake_app_ge by lia. unfold segment_scan_buffer.
  set (room := k - zlen (f_data fp1)) in *.
  set (data := f_data fp1 ++ ztake room (images fs ++ footer_bytes ft)).
  assert (Hall : zlen (f_data fp1 ++ images fs ++ footer_bytes ft) = zlen (f_data fp1) + zlen (images fs) + 48)
    by solve_len.
  assert (Hkd : k = zlen data).
  { unfold data. rewrite zlen_app, zlen_ztake; [lia|]. rewrite zlen_app, zlen_footer_bytes. lia. }
  rewrite Hkd at 1. unfold data. rewrite (scan_impl_written fp h dict enc draw fp1 enc1 draw1 d cb) by done.
  rewrite (loop_prefix _ _ _ _ _ _ _ _ _ fs ft room); try done; try lia.
  - unfold prefix_result. pose proof (match_complete _ room fs ps Hwfs Hm) as Hc. fold n in Hc.
    rewrite Hc. rewrite (match_deliveries (is_encrypted enc1) 0 _ _ (take n ps))
      by (by apply Forall_take || by apply Forall2_take).
    rewrite (match_images (is_encrypted enc1) (take n fs) (take n ps))
      by (by apply Forall_take || by apply Forall2_take).
    rewrite fmap_take, Hch. fold h' ctx'. rewrite Hall.
    replace (k =? zlen (f_data fp1) + zlen (images fs) + 48) with (room =? zlen (images fs) + 48)
      by (apply eq_true_iff_eq; rewrite !Z.eqb_eq; unfold room; lia).
    replace (zlen (f_data fp1) + zlen (images fs) + 48 - 12 <=? k) with (zlen (images fs) + 36 <=? room)
      by (apply eq_true_iff_eq; rewrite !Z.leb_le; unfold room; lia).
    destruct (Z.eqb_spec room (zlen (images fs) + 48)); [|done]. f_equal. unfold room in *. lia.
  - by eapply match_clear.
  - unfold zlen in *. rewrite Hlen. lia.
  - fold data. rewrite <-Hkd. pose proof (zlen_nonneg (f_data fp1)). unfold room. lia.
Qed.

(** C25: crash recovery.  Cut the file of the previous property at any byte [k]
    after its header, as a crash does: the scan delivers exactly the frames that
    are complete in the prefix and reports their end as the committed end, with no
    footer (and the footer when nothing is missing).  The exception is an
    encrypted segment cut inside the last 12 bytes of its footer: the scan
    delivers every frame and then fails with EIO. *)
Theorem torn_segment_scans {T} fp h dict enc draw fp1 enc1 draw1 ps chunks fp2 enc2 ft fp3 d
    (cb : segment_frame_cb T) ctx k :
  f_data fp = [] → header_wf h → footer_wf ft → sf_entry_count ft < 4294967296 →
  segment_write_header fp h dict enc draw = (Ok tt, fp1, enc1, draw1) →
  zlen (f_data fp1) <= UINT32_MAX →
  Forall (λ p : request, is_u32 p.1.1 ∧ is_u32 p.2) ps → zlen ps <= UINT64_MAX →
  Forall2 (payload_decodes (with_dict_len h (zlen dict)) dict) ps chunks →
  write_frames fp1 enc1 ps = (Ok tt, fp2, enc2) →
  segment_write_footer fp2 ft = (Ok tt, fp3) →
  no_false_footer (f_data fp3) (frame_starts (is_encrypted enc1) (zlen (f_data fp1)) ps) →
  opens enc1 d → cb_total cb →
  zlen (f_data fp1) <= k <= zlen (f_data fp3) →
  let h' := with_dict_len h (zlen dict) in
  let n := complete_count (is_encrypted enc1) (k - zlen (f_data fp1)) ps in
  let ctx' := feed cb h' (req_deliveries (is_encrypted enc1) 0 (zlen (f_data fp1)) (take n ps) (take n chunks)) ctx in
  segment_scan_buffer (ztake k (f_data fp3)) k d (Some cb) ctx =
  (if k =? zlen (f_data fp3) then ScanDone h' (present_footer ft) k ctx'
   else if is_encrypted enc1 && (zlen (f_data fp3) - 12 <=? k) then ScanFail (-1) EIO ctx'
   else ScanDone h' zero_footer (zlen (f_data fp1) + reqs_size (is_encrypted enc1) (take n ps)) ctx').
Proof.
  intros. apply (scan_written_prefix fp h dict enc draw fp1 enc1 draw1 ps chunks fp2 enc2 ft fp3 d (Some cb));
    try done. intros i c s. by apply H12.
Qed.
End written.

(** ** Concrete segments *)
#[local] Existing Instance toy_openssl.
#[local] Existing Instance toy_lib.
#[local] Existing Instance toy_openssl_ok.

Definition no_false_footer_b (data : bytes) (starts : list Z) : bool :=
  forallb (λ o, match footer_at (zdrop o data) (zlen data - o) with None => true | Some _ => false end) starts.

Lemma no_false_footer_check data starts : no_false_footer_b data starts = true → no_false_footer data starts.
Proof.
  unfold no_false_footer_b, no_false_footer. induction starts as [|o starts IH]; cbn; [done|].
  intros [H0 H]%andb_true_iff. constructor; [|by apply IH]. by destruct (footer_at _ _).
Qed.

Definition demo_file : File := mkFile [] 100000 ENOSPC.
Definition demo_header (flags : Z) : SegmentHeader :=
  mkSegmentHeader flags 7 1 (C "0123456789abcdef0123456789abcdef") (C "Europe/Berlin") 1000 2000 0.
Definition demo_encryptor : SegmentEncryptor := mkSegmentEncryptor toy_key (replicate 32 0) [0; 0; 0; 0] 0 false.
Definition demo_reqs : list request := [(0, C "first chunk", 11); (1, C "second", 6); (0, C "third and last", 14)].
Definition demo_chunks : list bytes := [C "first chunk"; C "second"; C "third and last"].
Definition demo_footer : SegmentFooter := mkSegmentFooter 0 7 3 3000 4000 false.
Definition count_cb : segment_frame_cb (list Z) := λ _ i c s, (0, s ++ [fi_file_offset i; zlen c]).

(** One complete session: header, frames, footer. *)
Definition demo_open (enc : option SegmentEncryptor) :=
  segment_write_header demo_file (demo_header (if is_encrypted enc then 12 else 4)) (C "dict") enc 0.
Definition demo_frames (enc : option SegmentEncryptor) :=
  write_frames (demo_open enc).1.1.2 (demo_open enc).1.2 demo_reqs.
Definition demo_data (enc : option SegmentEncryptor) : File :=
  (segment_write_footer (demo_frames enc).1.2 demo_footer).2.

Lemma demo_header_wf flags : is_u32 flags → header_wf (demo_header flags).
Proof.
  intros. split; cbn; try (unfold is_u32, is_u64; lia); try done;
    (split; [repeat constructor; done|done]).
Qed.
Lemma demo_footer_wf : footer_wf demo_footer.
Proof. split; cbn; unfold is_u32, is_u64; lia. Qed.
Lemma demo_reqs_wf : Forall (λ p : request, is_u32 p.1.1 ∧ is_u32 p.2) demo_reqs.
Proof. repeat constructor; cbn; lia. Qed.
Lemma demo_decodes flags :
  flags = 4 ∨ flags = 12 →
  Forall2 (payload_decodes (with_dict_len (demo_header flags) 4) (C "dict")) demo_reqs demo_chunks.
Proof. intros [-> | ->]; repeat constructor. Qed.
Lemma count_cb_total : cb_total count_cb.
Proof. by intros h i c s. Qed.

(** The facts about a demonstration session the properties ask for. *)
Lemma ok_quad {A B D} (x : Res unit * A * B * D) : x.1.1.1 = Ok tt → x = (Ok tt, x.1.1.2, x.1.2, x.2).
Proof. destruct x as [[[r a] b] d]. cbn. by intros ->. Qed.
Lemma ok_triple {A B} (x : Res unit * A * B) : x.1.1 = Ok tt → x = (Ok tt, x.1.2, x.2).
Proof. destruct x as [[r a] b]. cbn. by intros ->. Qed.
Lemma ok_pair {A} (x : Res unit * A) : x.1 = Ok tt → x = (Ok tt, x.2).
Proof. destruct x as [r a]. cbn. by intros ->. Qed.

Lemma demo_header_written enc :
  enc = None ∨ enc = Some demo_encryptor →
  segment_write_header demo_file (demo_header (if is_encrypted enc then 12 else 4)) (C "dict") enc 0 =
    (Ok tt, (demo_open enc).1.1.2, (demo_open enc).1.2, (demo_open enc).2) ∧
  zlen (f_data (demo_open enc).1.1.2) <= UINT32_MAX.
Proof.
  intros He. split; [apply ok_quad|]; destruct He as [-> | ->]; vm_compute; congruence.
Qed.

Lemma demo_body_written enc :
  enc = None ∨ enc = Some demo_encryptor →
  write_frames (demo_open enc).1.1.2 (demo_open enc).1.2 demo_reqs = (Ok tt, (demo_frames enc).1.2, (demo_frames enc).2) ∧
  segment_write_footer (demo_frames enc).1.2 demo_footer = (Ok tt, demo_data enc) ∧
  no_false_footer (f_data (demo_data enc))
    (frame_starts (is_encrypted (demo_open enc).1.2) (zlen (f_data (demo_open enc).1.1.2)) demo_reqs).
Proof.
  intros He. split; [apply ok_triple|split; [apply ok_pair|apply no_false_footer_check]];
    destruct He as [-> | ->]; vm_compute; reflexivity.
Qed.

Lemma toy_opens enc : opens enc (Some (mkSegmentDecryptor toy_key)).
Proof. destruct enc; [|done]. exists toy_key. split; [done|apply toy_key_pair]. Qed.

Lemma written_segment_scans_witness :
  segment_scan_impl (f_data (demo_data (Some demo_encryptor))) (zlen (f_data (demo_data (Some demo_encryptor))))
    (Some (mkSegmentDecryptor toy_key)) (Some count_cb) [] 0 =
  ScanDone (with_dict_len (demo_header 12) 4) (present_footer demo_footer) 412
    [225; 11; 272; 6; 314; 14].
Proof.
  destruct (demo_header_written (Some demo_encryptor) (or_intror eq_refl)) as [H1 H2].
  destruct (demo_body_written (Some demo_encryptor) (or_intror eq_refl)) as (H3 & H4 & H5).
  etransitivity; [exact (written_segment_scans demo_file (demo_header 12) (C "dict") (Some demo_encryptor) 0 _ _ _ demo_reqs demo_chunks _ _
    demo_footer (demo_data (Some demo_encryptor)) (Some (mkSegmentDecryptor toy_key)) count_cb [] 0 eq_refl
    (demo_header_wf 12 ltac:(unfold is_u32; lia)) demo_footer_wf H1 H2 demo_reqs_wf ltac:(vm_compute; congruence)
    (demo_decodes 12 (or_intror eq_refl)) H3 H4 H5 (toy_opens _) count_cb_total)|].
  vm_compute. reflexivity.
Defined.

(** A plaintext file cut in the middle of its third frame keeps two frames. *)
Lemma torn_segment_scans_witness :
  segment_scan_buffer (ztake 240 (f_data (demo_data None))) 240 None (Some count_cb) [] =
  ScanDone (with_dict_len (demo_header 4) 4) zero_footer 213 [156; 11; 187; 6].
Proof.
  destruct (demo_header_written None (or_introl eq_refl)) as [H1 H2].
  destruct (demo_body_written None (or_introl eq_refl)) as (H3 & H4 & H5).
  etransitivity; [exact (torn_segment_scans demo_file (demo_header 4) (C "dict") None 0 _ _ _ demo_reqs demo_chunks _ _
    demo_footer (demo_data None) None count_cb [] 240 eq_refl
    (demo_header_wf 4 ltac:(unfold is_u32; lia)) demo_footer_wf ltac:(reflexivity) H1 H2 demo_reqs_wf
    ltac:(vm_compute; congruence) (demo_decodes 4 (or_introl eq_refl)) H3 H4 H5 I count_cb_total
    ltac:(split; vm_compute; congruence))|].
  vm_compute. reflexivity.
Defined.
