(* ===== verification/SegmentSafety.v ===== *)
(** * The scanner on arbitrary input

    Whatever the bytes are, a scan terminates, reads nothing past the end it was
    given, commits within it, and finds the same frames again after the file was
    truncated to the committed end; random access to a frame agrees with the
    scan; a nonce is never used twice; a damaged byte is noticed. *)
From S2P Require Import Prelude Bytes Crypto Segment SegmentImage SegmentScan SegmentWrite Models.
From S2P Require Import SegmentSpec.

Lemma read_u32_le_local p q o m :
  0 <= o → o + 4 <= m → ztake m p = ztake m q → read_u32_le (zdrop o p) = read_u32_le (zdrop o q).
Proof.
  intros ? ? H. rewrite <-(read_u32_le_ztake (zdrop o p) 4), <-(read_u32_le_ztake (zdrop o q) 4) by lia.
  f_equal. by apply (slice_local o 4 m).
Qed.

Lemma read_u64_le_local p q o m :
  0 <= o → o + 8 <= m → ztake m p = ztake m q → read_u64_le (zdrop o p) = read_u64_le (zdrop o q).
Proof.
  intros ? ? H. rewrite <-(read_u64_le_ztake (zdrop o p) 8), <-(read_u64_le_ztake (zdrop o q) 8) by lia.
  f_equal. by apply (slice_local o 8 m).
Qed.

(** ** Header parsing *)
Lemma parse_encryption_local p q n :
  ztake n p = ztake n q → parse_encryption p n = parse_encryption q n.
Proof.
  intros Heq. unfold parse_encryption, SEGMENT_ENCRYPTION_EXTENSION_FIXED_SIZE, SEGMENT_NONCE_PREFIX_SIZE.
  destruct (Z.ltb_spec n (32 + 4)); [done|]. cbn [orb].
  rewrite (ztake_le_eq 8 n p q) by (done || lia).
  rewrite !(λ o H0 H1, read_u32_le_local p q o n H0 H1 Heq) by lia.
  destruct (guard_res _ _); [|done]. cbn [rbind].
  destruct (Z.eqb_spec (read_u32_le (zdrop 28 q)) 4) as [->|]; [|done]. cbn [negb orb].
  destruct (Z.eqb_spec (read_u32_le (zdrop 24 q)) 0); [done|].
  destruct (Z.eqb_spec (read_u32_le (zdrop 24 q)) (n - 32 - 4)) as [->|]; [|done].
  cbn [rbind guard_res negb]. rewrite (slice_local (32 + 4) (n - 32 - 4) n p q), (slice_local 32 4 n p q) by (done || lia). done.
Qed.

Lemma header_fields_local p q n : 148 <= n → ztake n p = ztake n q → header_fields p = header_fields q.
Proof.
  intros Hn Heq. unfold header_fields, RECORDER_BOOT_ID_SIZE, RECORDER_SEGMENT_TZ_SIZE.
  rewrite !(λ o H0 H1, read_u32_le_local p q o n H0 H1 Heq) by lia.
  rewrite !(λ o H0 H1, read_u64_le_local p q o n H0 H1 Heq) by lia.
  rewrite !(λ o k H0 H1 H2, slice_local o k n p q H0 H1 H2 Heq) by lia. done.
Qed.

Lemma parse_header_facts buf size h off e :
  segment_parse_header buf size = Ok (h, off, e) →
  let hs := read_u32_le (zdrop 12 buf) in
  152 <= hs <= size ∧ sh_dict_len h <= size - hs ∧ off = u32 (hs + sh_dict_len h) ∧
  h = header_fields buf.
Proof.
  unfold segment_parse_header, SEGMENT_HEADER_FIXED_SIZE. intros H. inv_ok H. cbv zeta.
  destruct (has_flag _ _), (read_u32_le (zdrop 12 buf) - 152 =? 0); simplify_eq;
  repeat match goal with
  | H : guard_res ?b _ = Ok _ |- _ => let E := fresh "E" in destruct b eqn:E; [clear H|done]
  end; split_and!; try done; bool_lia.
Qed.

(** A header that parses is found again in any buffer that agrees on the header
    and extension, as long as the dictionary still fits. *)
Lemma parse_header_local buf buf' size size' h off e :
  segment_parse_header buf size = Ok (h, off, e) →
  read_u32_le (zdrop 12 buf) + sh_dict_len h <= size' →
  0 <= sh_dict_len h →
  ztake (read_u32_le (zdrop 12 buf)) buf = ztake (read_u32_le (zdrop 12 buf)) buf' →
  segment_parse_header buf' size' = Ok (h, off, e).
Proof.
  intros Hp Hs Hdl Heq. pose proof (parse_header_facts _ _ _ _ _ Hp) as (Hhs & Hd & Hoff & Hh).
  revert Hp Hs Heq Hhs Hd Hoff. set (hs := read_u32_le (zdrop 12 buf)). intros Hp Hs Heq Hhs Hd Hoff.
  rewrite <-Hp. unfold segment_parse_header, SEGMENT_HEADER_FIXED_SIZE. fold hs.
  rewrite (ztake_le_eq 8 hs buf buf') by (done || lia).
  rewrite (read_u32_le_local buf buf' 8 hs) by (done || lia).
  rewrite <-(read_u32_le_local buf buf' 12 hs) by (done || lia). fold hs.
  rewrite (header_fields_local buf buf' hs) in * by (done || lia). rewrite <-Hh.
  rewrite (read_u32_le_local buf buf' 148 hs) by (done || lia).
  assert (Hext : ztake (hs - 152) (zdrop 152 buf) = ztake (hs - 152) (zdrop 152 buf'))
    by (apply (slice_local 152 (hs - 152) hs); (done || lia)).
  rewrite Hext, (parse_encryption_local (zdrop 152 buf) (zdrop 152 buf')) by done.
  unfold header_crc. rewrite (recorder_crc32_local buf buf' 148) by (apply (ztake_le_eq 148 hs); (done || lia)).
  destruct (Z.ltb_spec size 152); [lia|]. destruct (Z.ltb_spec size' 152); [lia|].
  destruct (Z.ltb_spec hs 152); [lia|]. destruct (Z.ltb_spec size hs); [lia|].
  destruct (Z.ltb_spec size' hs); [lia|]. 
  destruct (Z.ltb_spec (size - hs) (sh_dict_len h)); [lia|].
  destruct (Z.ltb_spec (size' - hs) (sh_dict_len h)); [lia|]. done.
Qed.

Lemma parse_header_same buf buf' size :
  bytes_ok buf → ztake size buf = ztake size buf' →
  segment_parse_header buf size = segment_parse_header buf' size.
Proof.
  intros Hok Heq. destruct (Z.ltb_spec size 152) as [Hlt|Hge].
  { unfold segment_parse_header, SEGMENT_HEADER_FIXED_SIZE. by destruct (Z.ltb_spec size 152); [|lia]. }
  set (hs := read_u32_le (zdrop 12 buf)).
  assert (H12 : read_u32_le (zdrop 12 buf') = hs) by (symmetry; apply (read_u32_le_local _ _ 12 size); (done || lia)).
  destruct (Z.ltb_spec size hs) as [Hs|Hs].
  { unfold segment_parse_header, SEGMENT_HEADER_FIXED_SIZE. fold hs. rewrite H12.
    rewrite (ztake_le_eq 8 size buf buf'), (read_u32_le_local buf buf' 8 size) by (done || lia).
    destruct (Z.ltb_spec size hs); [|lia]. rewrite orb_true_r.
    do 3 (destruct (guard_res _ _); [|done]; cbn [rbind]). done. }
  unfold segment_parse_header, SEGMENT_HEADER_FIXED_SIZE. fold hs. rewrite H12.
  rewrite (ztake_le_eq 8 size buf buf') by (done || lia).
  rewrite !(λ o H0 H1, read_u32_le_local buf buf' o size H0 H1 Heq) by lia.
  rewrite (header_fields_local buf buf' size) by (done || lia).
  do 3 (destruct (guard_res _ _); [|done]; cbn [rbind]). destruct (Z.ltb_spec hs 152); [done|].
  assert (Hext : ztake (hs - 152) (zdrop 152 buf) = ztake (hs - 152) (zdrop 152 buf'))
    by (apply (slice_local 152 (hs - 152) size); (done || lia)).
  rewrite Hext, (parse_encryption_local (zdrop 152 buf) (zdrop 152 buf')) by done.
  unfold header_crc.
  rewrite (recorder_crc32_local buf buf' 148) by (apply (ztake_le_eq 148 size); (done || lia)). done.
Qed.

Section safety.
Context `{L : SegmentLib} {T : Type}.
Implicit Types (cb : option (segment_frame_cb T)).

Lemma parsed_nonwrap buf size h off e :
  bytes_ok buf → size <= UINT32_MAX → segment_parse_header buf size = Ok (h, off, e) →
  off = read_u32_le (zdrop 12 buf) + sh_dict_len h ∧ 0 <= sh_dict_len h ∧
  152 <= read_u32_le (zdrop 12 buf) ∧ off <= size.
Proof.
  intros Hok Hsz Hp. pose proof (parse_header_facts _ _ _ _ _ Hp) as (Hhs & Hd & -> & Hh).
  assert (0 <= sh_dict_len h) by (rewrite Hh; cbn; apply read_u32_le_range; by apply Forall_drop).
  rewrite u32_id by (unfold is_u32, UINT32_MAX in *; lia). lia.
Qed.

(** C35: total and in bounds.  On any buffer of bytes and any claimed size up to
    4 GiB, a scan terminates (its fuel is never exhausted), a successful scan
    commits an end within the size, and the outcome is the same for every
    buffer that agrees on the first [size] bytes: nothing past the end is
    looked at. *)
Theorem scan_total_in_bounds buf size d cb ctx minoff :
  bytes_ok buf → 0 <= size <= UINT32_MAX →
  segment_scan_impl buf size d cb ctx minoff ≠ ScanFuel ∧
  (∀ h ft c ctx', segment_scan_impl buf size d cb ctx minoff = ScanDone h ft c ctx' → 152 <= c <= size) ∧
  (∀ buf', ztake size buf = ztake size buf' →
     segment_scan_impl buf' size d cb ctx minoff = segment_scan_impl buf size d cb ctx minoff).
Proof.
  intros Hok Hsz. unfold segment_scan_impl. split_and!.
  - destruct (segment_parse_header buf size) as [[[h off] e]|] eqn:Hp; [|done].
    destruct (scan_dek _ _ _ _); [|done]. apply parsed_nonwrap in Hp; [|done|lia].
    apply loop_terminates; [done|lia].
  - intros h ft c ctx'. destruct (segment_parse_header buf size) as [[[h0 off] e]|] eqn:Hp; [|done].
    destruct (scan_dek _ _ _ _); [|done]. apply parsed_nonwrap in Hp; [|done|lia].
    intros Hl. apply loop_bounds in Hl as [_ ?]; [lia|done|lia].
  - intros buf' Heq. rewrite <-(parse_header_same buf buf') by done.
    destruct (segment_parse_header buf size) as [[[h off] e]|] eqn:Hp; [|done].
    destruct (scan_dek _ _ _ _); [|done]. apply parsed_nonwrap in Hp; [|done|lia].
    rewrite (slice_local (off - sh_dict_len h) (sh_dict_len h) size buf' buf) by (done || lia).
    symmetry. apply loop_local; [done|lia|done].
Qed.

(** What a scan committed is what a second scan finds after the file was
    truncated to the committed end. *)
Lemma scan_truncate buf size d cb ctx minoff h ft c ctx' :
  bytes_ok buf → 0 <= size <= UINT32_MAX → size <= zlen buf →
  segment_scan_impl buf size d cb ctx minoff = ScanDone h ft c ctx' →
  segment_scan_impl (ztake c buf) (zlen (ztake c buf)) d cb ctx minoff = ScanDone h ft c ctx'.
Proof.
  intros Hok Hsz Hlen. unfold segment_scan_impl.
  destruct (segment_parse_header buf size) as [[[h0 off] e]|] eqn:Hp; [|done].
  destruct (scan_dek _ _ _ _) as [dek|] eqn:Hk; [|done].
  destruct (parsed_nonwrap buf size h0 off e) as (Hoff & Hdl & Hhs & Hle); [done|lia|done|].
  intros Hl. pose proof Hl as Hb. apply loop_bounds in Hb as [_ Hc]; [|done|lia].
  rewrite zlen_ztake by lia.
  rewrite (parse_header_local buf (ztake c buf) size c h0 off e Hp) by
    (done || lia || (rewrite ztake_ztake; (done || lia))).
  rewrite Hk, slice_ztake by lia.
  apply loop_truncate in Hl; [|done|lia].
  rewrite <-(loop_local _ _ _ _ _ _ _ _ buf) by (done || lia || (by rewrite ztake_ztake)).
  by rewrite (loop_fuel _ _ _ _ _ _ _ _ (S (Z.to_nat size))) by (done || lia).
Qed.

End safety.

(** ** Random access *)
Section random_access.
Context `{L : SegmentLib}.

(** A callback that records what it is given. *)
Definition collect : segment_frame_cb (list (SegmentHeader * SegmentFrameInfo * bytes)) :=
  λ h i c s, (0, s ++ [(h, i, c)]).

(** What the scan knows about a frame it delivered as number [idx]. *)
Definition scanned (buf : bytes) (size : Z) (header : SegmentHeader) (dict : bytes)
    (encrypted : bool) (dek np : bytes) (start idx : Z) (d : SegmentHeader * SegmentFrameInfo * bytes)
  : Prop :=
  let '(h, frame, chunk) := d in
  let off := fi_file_offset frame in
  let p := zdrop off buf in
  h = header ∧ start <= off ∧ frame = frame_info p off ∧ 0 <= fi_stored_len frame ∧
  frame_expected_len frame encrypted <= UINT32_MAX ∧
  fi_frame_len frame = frame_expected_len frame encrypted ∧
  off + fi_frame_len frame <= size ∧ frame_crc_ok p frame encrypted = true ∧
  frame_chunk header dict encrypted dek np idx p frame = FrameDecoded chunk.

Lemma loop_scanned fuel buf size header dict encrypted dek np off idx ds h ft c ds' start :
  bytes_ok buf → size <= UINT32_MAX → 0 <= idx → idx = zlen ds → 20 * idx <= off → start <= off →
  scan_loop fuel buf size header dict encrypted dek np (Some collect) 0 off off idx ds = ScanDone h ft c ds' →
  ∃ new, ds' = ds ++ new ∧
    ∀ k d, new !! k = Some d →
      scanned buf size header dict encrypted dek np start (idx + Z.of_nat k) d.
Proof.
  intros Hok Hsz. revert off idx ds. induction fuel as [|fuel IH]; intros off idx ds Hi Hidx H20 Hst; [done|].
  rewrite loop_unfold.
  destruct (scan_round _ _ _ _ _ _ _ _ _ _ _ _) as [r|off' idx' ds1] eqn:Hr.
  { intros ->. apply round_stop_done in Hr as (_ & -> & _). exists []. rewrite app_nil_r. split; [done|].
    intros k d. by rewrite lookup_nil. }
  intros Hl. pose proof Hr as Hadv. apply round_advance in Hadv as [Hadv Hle]; [|done].
  apply round_next in Hr as (Hlt & Hf & Hmin & Hexp & Ht & Hs & Hoff' & _ & Hidx' & Hc & Hd & He); [|done].
  rewrite u64_id in Hidx' by (unfold is_u64, UINT32_MAX in *; lia).
  unfold scan_deliver in Hd. cbn [fi_file_offset frame_info] in Hd.
  destruct (Z.ltb_spec off 0); [lia|]. fold (frame_info (zdrop off buf) off) in Hd.
  destruct (frame_chunk _ _ _ _ _ _ _ _) as [| | |chunk] eqn:Hch; [done|by destruct encrypted..|].
  cbn in Hd. injection Hd as <-.
  apply IH in Hl as (new & -> & Hnew); [|lia|rewrite zlen_app, zlen_cons, zlen_nil; lia|lia|lia].
  exists ((header, frame_info (zdrop off buf) off, chunk) :: new). rewrite <-app_assoc. split; [done|].
  intros [|k] d; cbn [lookup list_lookup]; intros Hk.
  - injection Hk as <-. rewrite Z.add_0_r. unfold scanned. cbn [fi_file_offset frame_info].
    fold (frame_info (zdrop off buf) off). split_and!; try done; lia.
  - apply Hnew in Hk. replace (idx + Z.of_nat (S k)) with (idx' + Z.of_nat k) by lia. done.
Qed.

(** Consecutive frames: each starts where the one before it ends. *)
Fixpoint chained (off size : Z) (ds : list (SegmentHeader * SegmentFrameInfo * bytes)) : Prop :=
  match ds with
  | [] => True
  | (_, frame, _) :: ds' =>
      fi_file_offset frame = off ∧ 20 <= fi_frame_len frame ∧ is_u32 (fi_frame_len frame) ∧
      off + fi_frame_len frame <= size ∧ chained (off + fi_frame_len frame) size ds'
  end.

(** A callback run over a list of deliveries; [None] when one is refused. *)
Fixpoint run_cb {T} (cb : segment_frame_cb T) (ds : list (SegmentHeader * SegmentFrameInfo * bytes))
    (ctx : T) : option T :=
  match ds with
  | [] => Some ctx
  | (h, i, c) :: ds' => let '(rv, ctx') := cb h i c ctx in if rv =? 0 then run_cb cb ds' ctx' else None
  end.

Lemma scan_deliver_collect header dict encrypted dek np idx p frame ds ds1 minoff :
  scan_deliver header dict encrypted dek np (Some collect) minoff idx p frame ds = DeliverOk ds1 →
  (fi_file_offset frame < minoff ∧ ds1 = ds) ∨
  (minoff <= fi_file_offset frame ∧ ∃ chunk,
    frame_chunk header dict encrypted dek np idx p frame = FrameDecoded chunk ∧
    ds1 = ds ++ [(header, frame, chunk)]).
Proof.
  unfold scan_deliver. destruct (Z.ltb_spec (fi_file_offset frame) minoff).
  - intros [= <-]. by left.
  - destruct (frame_chunk _ _ _ _ _ _ _ _) as [| | |chunk]; [done|by destruct encrypted..|].
    cbn. intros [= <-]. right. eauto.
Qed.

(** The deliveries a successful collecting scan gives to any other callback. *)
Lemma loop_run_cb {T} (cb : segment_frame_cb T) fuel buf size header dict encrypted dek np off idx ds
    h ft c ds' ctx ctx' :
  bytes_ok buf → 0 <= off →
  scan_loop fuel buf size header dict encrypted dek np (Some collect) 0 off off idx ds = ScanDone h ft c ds' →
  ∃ new, ds' = ds ++ new ∧ chained off size new ∧
    (run_cb cb new ctx = Some ctx' → c = size →
     scan_loop fuel buf size header dict encrypted dek np (Some cb) 0 off off idx ctx = ScanDone h ft c ctx' ∧
     ∀ dek', scan_loop fuel buf size header dict encrypted dek' np None 0 off off idx tt = ScanDone h ft c tt).
Proof.
  intros Hok. revert off idx ds ctx. induction fuel as [|fuel IH]; intros off idx ds ctx Hoff; [done|].
  rewrite !loop_unfold. destruct (scan_round _ _ _ _ _ _ _ buf size off idx ds) as [r|off' idx' ds1] eqn:Hr.
  { intros ->. pose proof Hr as Hd. apply round_stop_done in Hd as (-> & -> & Hc). exists [].
    rewrite app_nil_r. split_and!; [done|done|]. intros [= <-] ->.
    assert (Hgen : ∀ T' (cb' : option (segment_frame_cb T')) dek' ctx'',
      scan_round header dict encrypted dek' np cb' 0 buf size off idx ctx'' =
        RoundStop (ScanDone header ft size ctx'')).
    { intros T' cb' dek' ctx''. revert Hr. unfold scan_round.
      destruct (Z.ltb_spec off size) as [Hlt|]; cbn [negb]; [|by intros [= -> ->]].
      destruct (footer_at _ _); [by intros [= -> ->]|].
      exfalso. destruct Hc as [[Hc _]|(_ & _ & Hf)]; [lia|done]. }
    split; [by rewrite Hgen|]. intros dek'. by rewrite loop_unfold, Hgen. }
  intros Hl. pose proof Hr as Hadv. apply round_advance in Hadv as [Hadv Hle]; [|done].
  pose proof Hr as Hn.
  apply round_next in Hn as (Hlt & Hf & Hmin & Hexp & Ht & Hs & Hoff' & _ & Hidx' & Hc & Hd & He); [|done].
  set (p := zdrop off buf) in *. set (frame := frame_info p off) in *.
  apply scan_deliver_collect in Hd as [[Hlt0 _]|(_ & chunk & Hch & ->)]; [cbn in Hlt0; lia|].
  assert (Hnext : ∀ T' (cb' : option (segment_frame_cb T')) dek' ctx1 ctx2,
    scan_deliver header dict encrypted dek' np cb' 0 idx p frame ctx1 = DeliverOk ctx2 →
    scan_round header dict encrypted dek' np cb' 0 buf size off idx ctx1 = RoundNext off' idx' ctx2).
  { intros T' cb' dek' ctx1 ctx2 Hd'. unfold scan_round. fold p. destruct (Z.ltb_spec off size); [|lia]. cbn [negb].
    rewrite Hf. destruct (Z.ltb_spec (size - off) (20 + frame_tag_len encrypted)); [lia|]. fold frame.
    rewrite Ht, Z.eqb_refl. destruct (Z.ltb_spec UINT32_MAX (frame_expected_len frame encrypted)); [lia|].
    cbn [negb orb]. destruct (Z.ltb_spec (size - off) (frame_expected_len frame encrypted)); [lia|].
    rewrite Hc, Hd', He. cbn [negb]. rewrite <-Ht, Hoff', Hidx'. done. }
  destruct (cb header frame chunk ctx) as [rv ctx1] eqn:Hcb.
  apply (IH _ _ _ ctx1) in Hl as (new & -> & Hchain & Hrun); [|lia].
  exists ((header, frame, chunk) :: new). rewrite <-app_assoc. split_and!; [done| |].
  - cbn [chained]. split; [done|]. split; [lia|].
    split; [unfold is_u32, UINT32_MAX in *; lia|]. split; [lia|]. by rewrite <-Hoff'.
  - cbn [run_cb]. rewrite Hcb. destruct (Z.eqb_spec rv 0) as [->|]; [|done]. intros Hr1 Hc1.
    destruct (Hrun Hr1 Hc1) as [Hrun1 Hrun2]. split.
    2:{ intros dek'. rewrite loop_unfold, (Hnext unit None dek' tt tt) by done. apply Hrun2. }
    rewrite (Hnext T (Some cb) dek ctx ctx1); [done|].
    unfold scan_deliver. cbn [fi_file_offset frame frame_info]. destruct (Z.ltb_spec off 0); [lia|].
    fold (frame_info p off). fold frame. by rewrite Hch, Hcb.
Qed.

(** Reading one frame of a file at an offset the scan visited. *)
Lemma read_scanned {T} file header dict encrypted dek np start idx frame chunk (cb : segment_frame_cb T)
    reader ctx h0 :
  scanned file (zlen file) header dict encrypted dek np start idx (h0, frame, chunk) →
  0 <= start → fr_file reader = file → fr_data_offset reader = start → fr_header reader = header →
  fr_dek reader = dek → ei_nonce_prefix (fr_encryption reader) = np → fr_encrypted reader = encrypted →
  (if sh_dict_len header =? 0 then []
   else slice (start - sh_dict_len header) (sh_dict_len header) (fr_metadata reader)) = dict →
  segment_frame_reader_scan reader cb ctx (fi_file_offset frame) idx =
    let '(rc, ctx') := cb header frame chunk ctx in (rc, EUNSET, ctx').
Proof.
  intros (_ & Hst & Hfr & Hs & Hexp & Hlen & Hle & Hcrc & Hch) H0 <- Hdo <- <- <- <- Hdict.
  set (off := fi_file_offset frame) in *. set (encrypted := fr_encrypted reader) in *.
  set (file := fr_file reader) in *.
  assert (Hge : 20 <= fi_frame_len frame).
  { rewrite Hlen. unfold frame_expected_len, SEGMENT_FRAME_HEADER_SIZE.
    pose proof (frame_tag_len_nonneg encrypted). lia. }
  unfold segment_frame_reader_scan, pread_exact, SEGMENT_FRAME_HEADER_SIZE. fold file encrypted.
  rewrite Hdo. destruct (Z.ltb_spec off start); [lia|].
  destruct (Z.ltb_spec (zlen file - 16 - 4) off); [lia|]. cbn [orb negb guard_res rbind].
  destruct (Z.leb_spec (off + 16) (zlen file)); [|lia]. cbn [guard_res rbind].
  assert (Hfi : frame_info (slice off 16 file) off = frame).
  { rewrite Hfr. apply frame_info_local. apply ztake_ztake. lia. }
  rewrite Hfi, Hlen, Z.eqb_refl.
  destruct (Z.ltb_spec UINT32_MAX (frame_expected_len frame encrypted)); [lia|].
  destruct (Z.ltb_spec (zlen file - off) (frame_expected_len frame encrypted)); [lia|].
  cbn [orb negb guard_res rbind].
  destruct (Z.leb_spec (off + frame_expected_len frame encrypted) (zlen file)); [|lia]. cbn [guard_res rbind].
  assert (Hp : ztake (frame_expected_len frame encrypted) (slice off (frame_expected_len frame encrypted) file)
             = ztake (frame_expected_len frame encrypted) (zdrop off file)) by (apply ztake_ztake; lia).
  rewrite (frame_crc_ok_local _ _ (zdrop off file)), Hcrc by done. cbn [guard_res rbind].
  rewrite Hdict, (frame_chunk_local _ _ _ _ _ _ _ (zdrop off file)), Hch by done. done.
Qed.

(** The one-shot reader and the open reader make the same reads. *)
Lemma scan_path_frame_reader {T} file d reader (cb : segment_frame_cb T) ctx off idx :
  segment_frame_reader_open (Ok file) d = Ok reader →
  segment_scan_path_frame (Ok file) d cb ctx off idx = segment_frame_reader_scan reader cb ctx off idx.
Proof.
  unfold segment_frame_reader_open, segment_scan_path_frame.
  destruct (read_metadata (Ok file)) as [[file' metadata]|] eqn:Hm; [|done]. cbn [rbind].
  destruct (segment_parse_header metadata (zlen metadata)) as [[[h doff] e]|]; [|done]. cbn [rbind].
  destruct (scan_dek h e d true) as [dek|] eqn:Hk; [|done]. cbn [rbind]. intros [= <-].
  unfold segment_frame_reader_scan.
  cbn [fr_file fr_data_offset fr_header fr_encryption fr_metadata fr_dek fr_encrypted].
  destruct (guard_res _ EUNSET); [|done]. cbn [rbind].
  destruct (pread_exact file' SEGMENT_FRAME_HEADER_SIZE off); [|done]. cbn [rbind].
  destruct (guard_res _ EIO); [|done]. cbn [rbind].
  destruct (pread_exact file' _ off); [|done]. cbn [rbind].
  destruct (guard_res _ EIO); [|done]. cbn [rbind].
  by destruct (frame_chunk _ _ _ _ _ _ _ _).
Qed.

(** An open reader holds what a scan of the same file starts from. *)
Lemma reader_open_scan file d reader :
  bytes_ok file → zlen file <= UINT32_MAX → segment_frame_reader_open (Ok file) d = Ok reader →
  ∃ h off e dek,
    segment_parse_header file (zlen file) = Ok (h, off, e) ∧ scan_dek h e d true = Ok dek ∧
    reader = mkSegmentFrameReader file off h e (ztake off file) dek
               (has_flag (sh_flags h) SEGMENT_FLAG_ENCRYPTED).
Proof.
  intros Hok Hsz. unfold segment_frame_reader_open, read_metadata, pread_exact, SEGMENT_HEADER_FIXED_SIZE.
  cbn [rbind]. destruct (Z.ltb_spec (zlen file) 152); [done|]. cbn [orb].
  destruct (guard_res (negb (SIZE_MAX <? zlen file)) EUNSET); [|done]. cbn [rbind].
  destruct (guard_res (0 + 152 <=? zlen file) EUNSET); [|done]. cbn [rbind].
  change (slice 0 152 file) with (ztake 152 file).
  rewrite !zdrop_ztake, !read_u32_le_ztake by lia.
  set (hs := read_u32_le (zdrop 12 file)). set (dl := read_u32_le (zdrop 144 file)).
  destruct (guard_res _ EUNSET); [|done]. cbn [rbind]. set (off0 := u32 (hs + dl)).
  destruct (Z.leb_spec (0 + off0) (zlen file)) as [Hoff0|]; [|done]. cbn [guard_res rbind].
  change (slice 0 off0 file) with (ztake off0 file).
  assert (0 <= off0) by apply u32_range. rewrite zlen_ztake by lia.
  destruct (segment_parse_header (ztake off0 file) off0) as [[[h off] e]|] eqn:Hp; [|done]. cbn [rbind].
  destruct (scan_dek h e d true) as [dek|] eqn:Hk; [|done]. cbn [rbind]. intros [= <-].
  pose proof (parse_header_facts _ _ _ _ _ Hp) as (Hhs & Hd & Hoff & Hh).
  assert (H12 : read_u32_le (zdrop 12 (ztake off0 file)) = hs)
    by (rewrite zdrop_ztake, read_u32_le_ztake by lia; done).
  assert (Hdl : sh_dict_len h = dl)
    by (rewrite Hh; cbn [sh_dict_len header_fields]; rewrite zdrop_ztake, read_u32_le_ztake by lia; done).
  assert (Hdl0 : 0 <= sh_dict_len h) by (rewrite Hdl; apply read_u32_le_range; by apply Forall_drop).
  rewrite H12 in *. assert (Heq : off = off0) by (rewrite Hoff, Hdl; done). subst off.
  exists h, off0, e, dek. rewrite <-Heq. split_and!; [|done|by rewrite Heq].
  rewrite Heq. apply (parse_header_local (ztake off0 file) file off0); [by rewrite Hp, Heq|..]; rewrite ?H12.
  - lia.
  - lia.
  - apply ztake_ztake. lia.
Qed.

(** Opening what a scan accepts gives a reader, and it delivers what the scan did. *)
Lemma reader_delivers {T} file d reader h ft c ds k h' frame chunk (cb : segment_frame_cb T) ctx :
  bytes_ok file → zlen file <= UINT32_MAX →
  segment_frame_reader_open (Ok file) d = Ok reader →
  segment_scan_path (Ok file) d (Some collect) [] = ScanDone h ft c ds →
  ds !! k = Some (h', frame, chunk) →
  segment_frame_reader_scan reader cb ctx (fi_file_offset frame) (Z.of_nat k) =
    let '(rc, ctx') := cb h' frame chunk ctx in (rc, EUNSET, ctx').
Proof.
  intros Hok Hsz Hopen Hscan Hk.
  destruct (reader_open_scan file d reader Hok Hsz Hopen) as (h0 & off & e & dek & Hp & Hdk & ->).
  destruct (parsed_nonwrap file (zlen file) h0 off e) as (Hoff & Hdl & Hhs & Hle); [done..|].
  unfold segment_scan_path, segment_scan_path_from_offset, segment_scan_impl in Hscan.
  destruct (zlen file =? 0); [done|]. rewrite Hp, Hdk in Hscan.
  apply (loop_scanned _ _ _ _ _ _ _ _ _ _ _ _ _ _ _ off) in Hscan as (new & Hds & Hnew); [|done|done|done|done|lia|lia].
  cbn in Hds. subst new. pose proof (Hnew _ _ Hk) as Hsc.
  assert (h' = h0) as -> by (by destruct Hsc).
  eapply read_scanned; [exact Hsc|lia|reflexivity..|].
  cbn [fr_metadata fr_header]. rewrite slice_ztake by lia. done.
Qed.

(** Random access agrees with the scan.  If a scan of a file succeeds and a
    frame reader can be opened on it, then for every [k], reading frame [k] at the
    offset the scan reported, through the open reader or directly from the path,
    calls the callback with exactly the header, frame and chunk the scan
    delivered. *)
Theorem frame_reader_agrees {T} file d reader h ft c ds k h' frame chunk (cb : segment_frame_cb T) ctx :
  bytes_ok file → zlen file <= UINT32_MAX →
  segment_frame_reader_open (Ok file) d = Ok reader →
  segment_scan_path (Ok file) d (Some collect) [] = ScanDone h ft c ds →
  ds !! k = Some (h', frame, chunk) →
  let expected := let '(rc, ctx') := cb h' frame chunk ctx in (rc, EUNSET, ctx') in
  segment_frame_reader_scan reader cb ctx (fi_file_offset frame) (Z.of_nat k) = expected ∧
  segment_scan_path_frame (Ok file) d cb ctx (fi_file_offset frame) (Z.of_nat k) = expected.
Proof.
  intros Hok Hsz Hopen Hscan Hk expected.
  assert (Hr : segment_frame_reader_scan reader cb ctx (fi_file_offset frame) (Z.of_nat k) = expected)
    by (by eapply reader_delivers).
  split; [done|]. by rewrite (scan_path_frame_reader _ _ reader).
Qed.
End random_access.

(** ** Nonces *)
Lemma div_digit i j m :
  0 < m → i / (m * 256) = j / (m * 256) → (i / m) mod 256 = (j / m) mod 256 → i / m = j / m.
Proof.
  intros Hm Hq Hr. rewrite <-!Z.div_div in Hq by lia.
  rewrite (Z.div_mod (i / m) 256), (Z.div_mod (j / m) 256) by lia. by rewrite Hq, Hr.
Qed.

Lemma frame_nonce_inj np i j : is_u64 i → is_u64 j → frame_nonce np i = frame_nonce np j → i = j.
Proof.
  unfold is_u64, frame_nonce. intros Hi Hj H. apply app_inv_head in H. cbn [map] in H.
  injection H as H0 H1 H2 H3 H4 H5 H6 H7. unfold u8 in *. rewrite !Z.shiftr_div_pow2 in * by lia.
  apply (div_digit _ _ (2 ^ 56)) in H0; [|done|rewrite !Z.div_small by lia; done].
  apply (div_digit _ _ (2 ^ 48)) in H1; [|done|done]. apply (div_digit _ _ (2 ^ 40)) in H2; [|done|done].
  apply (div_digit _ _ (2 ^ 32)) in H3; [|done|done]. apply (div_digit _ _ (2 ^ 24)) in H4; [|done|done].
  apply (div_digit _ _ (2 ^ 16)) in H5; [|done|done]. apply (div_digit _ _ (2 ^ 8)) in H6; [|done|done].
  apply (div_digit _ _ 1) in H7; [|done|done]. by rewrite !Z.div_1_r in H7.
Qed.

Section nonces.
Context `{L : SegmentLib}.

(** One call either leaves file and encryptor alone or uses up a frame index. *)
Lemma write_frame_index fp e flags payload ulen r fp' enc' :
  segment_write_frame fp (Some e) flags payload ulen = (r, fp', enc') →
  (fp' = fp ∧ enc' = Some e) ∨
  (se_frame_index e ≠ UINT64_MAX ∧
   enc' = Some (mkSegmentEncryptor (se_public_key e) (se_dek e) (se_nonce_prefix e)
                  (se_frame_index e + 1) (se_initialized e))).
Proof.
  unfold segment_write_frame. destruct (negb (se_initialized e)); [intros [= _ <- <-]; auto|].
  destruct (_ <? zlen payload); [intros [= _ <- <-]; auto|].
  destruct (Z.eqb_spec (se_frame_index e) UINT64_MAX); [intros [= _ <- <-]; auto|]. cbv zeta.
  destruct (recorder_crypto_aes_gcm_encrypt _ _ _ _) as [[[] ct] tag];
    try (intros [= _ _ <-]; by right).
  destruct (write_each _ _). intros [= _ _ <-]. by right.
Qed.

(** What a frame leaves in the file when its payload is sealed under [nonce]: as
    much of header, ciphertext, tag and checksum as there is room for. *)
Definition sealed_with (dek nonce : bytes) (p : request) (fp fp' : File) : Prop :=
  let '(flags, payload, ulen) := p in
  let header := frame_header flags (zlen payload) ulen (SEGMENT_FRAME_HEADER_SIZE + zlen payload + (4 + SEGMENT_GCM_TAG_SIZE)) in
  ∃ ciphertext tag, EVP_aes_256_gcm_seal dek nonce header payload = Some (ciphertext, tag) ∧
    fp' = (write_each fp [header; ciphertext; tag; write_u32_le (frame_crc header ciphertext tag)]).2.

(** A session of calls, each with the file before and after it; a call that fails
    does not end the session. *)
Fixpoint session (fp : File) (enc : option SegmentEncryptor) (ps : list request) : list (request * File * File) :=
  match ps with
  | [] => []
  | (flags, payload, ulen) :: ps' =>
      let '(_, fp', enc') := segment_write_frame fp enc flags payload ulen in
      ((flags, payload, ulen), fp, fp') :: session fp' enc' ps'
  end.

(** One call seals under the nonce of its frame index, or changes nothing. *)
Definition call_under (dek : bytes) (call : request * File * File) (nonce : option bytes) : Prop :=
  let '(p, fp, fp') := call in
  match nonce with Some n => sealed_with dek n p fp fp' | None => fp' = fp end.
Lemma write_frame_sealed fp e p r fp' enc' :
  segment_write_frame fp (Some e) p.1.1 p.1.2 p.2 = (r, fp', enc') →
  ∃ n, call_under (se_dek e) (p, fp, fp') n ∧ (n = None ∨ n = Some (frame_nonce (se_nonce_prefix e) (se_frame_index e)) ∧ enc' ≠ Some e).
Proof.
  destruct p as [[flags payload] ulen]. cbn [fst snd]. unfold segment_write_frame. cbv zeta.
  destruct (negb (se_initialized e)); [intros [= _ <- _]; exists None; by split; [|left]|].
  destruct (_ <? zlen payload); [intros [= _ <- _]; exists None; by split; [|left]|].
  destruct (se_frame_index e =? UINT64_MAX); [intros [= _ <- _]; exists None; by split; [|left]|].
  destruct (recorder_crypto_aes_gcm_encrypt _ _ _ _) as [[[] ct] tag] eqn:He;
    try (intros [= _ <- _]; exists None; by split; [|left]).
  unfold recorder_crypto_aes_gcm_encrypt in He. destruct (negb (lengths_fit_evp _ _)); [done|].
  destruct (EVP_aes_256_gcm_seal _ _ _ _) as [[c t]|] eqn:Hs; [|done]. destruct (negb (zlen c =? _)); [done|].
  injection He as -> ->. destruct (write_each _ _) as [rw fw] eqn:Hw. intros [= _ <- <-].
  exists (Some (frame_nonce (se_nonce_prefix e) (se_frame_index e))). split.
  - exists ct, tag. split; [exact Hs|]. by rewrite Hw.
  - right. split; [done|]. intros [= Heq]. apply (f_equal se_frame_index) in Heq. cbn in Heq. lia.
Qed.

Lemma session_sealed ps : ∀ fp e, is_u64 (se_frame_index e) →
  ∃ nonces, Forall2 (call_under (se_dek e)) (session fp (Some e) ps) nonces ∧ NoDup (omap id nonces) ∧
    Forall (λ n, ∃ i, se_frame_index e <= i ∧ is_u64 i ∧ n = frame_nonce (se_nonce_prefix e) i) (omap id nonces).
Proof.
  induction ps as [|[[flags payload] ulen] ps IH]; intros fp e He; cbn [session].
  { exists []. split_and!; constructor. }
  destruct (segment_write_frame _ _ _ _ _) as [[r fp'] enc'] eqn:Hw.
  destruct (write_frame_sealed fp e (flags, payload, ulen) r fp' enc' Hw) as (n & Hcall & Hn).
  apply write_frame_index in Hw as [[-> ->]|[Hne ->]].
  - destruct Hn as [->|[_ Hn]]; [|done]. destruct (IH fp e He) as (ns & H1 & H2 & H3). exists (None :: ns).
    split_and!; [by constructor|exact H2|exact H3].
  - set (e1 := mkSegmentEncryptor _ _ _ _ _) in *. assert (Hu : is_u64 (se_frame_index e1)).
    { unfold is_u64, UINT64_MAX in *. cbn. lia. }
    destruct (IH fp' e1 Hu) as (ns & H1 & H2 & H3). exists (n :: ns).
    assert (H3' : Forall (λ n, ∃ i, se_frame_index e <= i ∧ is_u64 i ∧ n = frame_nonce (se_nonce_prefix e) i) (omap id ns)).
    { eapply Forall_impl; [exact H3|]. intros x (i & Hi & Hui & ->). exists i. cbn in Hi. split_and!; [lia|done|done]. }
    split_and!; [by constructor|..]; (destruct Hn as [->|[-> _]]; [done|]); cbn [omap list_omap id].
    + apply NoDup_cons. split; [|done]. intros Hin. rewrite Forall_forall in H3. destruct (H3 _ Hin) as (i & Hi & Hui & Heq).
      cbn [se_frame_index se_nonce_prefix e1] in *. apply frame_nonce_inj in Heq; [lia|done|done].
    + constructor; [|done]. exists (se_frame_index e). split_and!; [lia|done|done].
Qed.

(** C36: nonce uniqueness.  However many frames are written under one segment key,
    and whichever of the writes fail: every call that changes the file writes its
    header, ciphertext and tag as AES-GCM seals them under the segment's key and a
    nonce, and no two calls have the same nonce. *)
Theorem nonces_never_repeat fp e ps :
  is_u64 (se_frame_index e) →
  ∃ nonces, NoDup (omap id nonces) ∧ Forall2 (call_under (se_dek e)) (session fp (Some e) ps) nonces.
Proof. intros He. destruct (session_sealed ps fp e He) as (nonces & H1 & H2 & _). by exists nonces. Qed.
End nonces.

(** ** Damage *)
Section damage.
Context `{L : SegmentLib} {T : Type}.

Definition damaged_image (f : StoredFrame) (stored : bytes) : bytes :=
  stored_header f ++ stored ++ sf_tag f
  ++ write_u32_le (frame_crc (stored_header f) (sf_stored f) (sf_tag f)).

Lemma damaged_crc encrypted f a x y b rest off :
  frame_wf encrypted f → sf_stored f = a ++ x :: b → bytes_ok a → bytes_ok b → is_u8 x → is_u8 y → x ≠ y →
  frame_crc_ok (damaged_image f (a ++ y :: b) ++ rest) (stored_info f off) encrypted = false.
Proof.
  intros Hwf Hst Ha Hb Hx Hy Hne. unfold damaged_image.
  remember (a ++ y :: b) as st eqn:Est. rewrite <-!app_assoc.
  rewrite frame_crc_ok_fields;
    [|solve_len|cbn; rewrite Hst, Est; solve_len|apply (fwf_tag _ _ Hwf)|apply frame_crc_range].
  apply Z.eqb_neq. unfold frame_crc. rewrite Hst, Est. intros H. apply lxor_cancel_r in H.
  rewrite !(Z.lxor_comm (recorder_crc32 (stored_header f) _)) in H. apply lxor_cancel_r in H.
  by apply crc32_one_byte in H.
Qed.

(** C31: damage is noticed.  When one byte of the stored payload of a frame has
    changed, the scan that reaches the frame does not deliver it: a plaintext
    scan ends there with the frames before it committed, an encrypted one fails
    with EIO. *)
Theorem damaged_frame_not_delivered (header : SegmentHeader) dict encrypted dek np
    (cb : option (segment_frame_cb T)) minoff fuel pre f a x y b rest idx ctx :
  frame_wf encrypted f → sf_stored f = a ++ x :: b →
  bytes_ok a → bytes_ok b → is_u8 x → is_u8 y → x ≠ y →
  let p := damaged_image f (a ++ y :: b) ++ rest in
  footer_at p (zlen p) = None →
  scan_loop (S fuel) (pre ++ p) (zlen (pre ++ p)) header dict encrypted dek np cb minoff
    (zlen pre) (zlen pre) idx ctx =
  (if encrypted then ScanFail (-1) EIO ctx else ScanDone header zero_footer (zlen pre) ctx).
Proof.
  intros Hwf Hst Ha Hb Hx Hy Hne p Hf. rewrite loop_unfold. unfold scan_round.
  rewrite zdrop_app_eq by done.
  assert (Hl : zlen (damaged_image f (a ++ y :: b)) = frame_size f).
  { unfold damaged_image, frame_size. rewrite Hst. solve_len. }
  assert (Hp : zlen p = frame_size f + zlen rest) by (unfold p; rewrite zlen_app, Hl; done).
  pose proof (frame_size_ge f). pose proof (zlen_nonneg rest).
  rewrite zlen_app. destruct (Z.ltb_spec (zlen pre) (zlen pre + zlen p)); [|lia]. cbn [negb].
  replace (zlen pre + zlen p - zlen pre) with (zlen p) by lia. rewrite Hf.
  assert (Hi : frame_info p (zlen pre) = stored_info f (zlen pre)).
  { rewrite <-(frame_info_image encrypted f []) by done. apply frame_info_local.
    unfold p, damaged_image, frame_image. rewrite <-!app_assoc. by rewrite !ztake_app_eq by solve_len. }
  rewrite Hi, frame_expected_image by done. cbn [fi_frame_len stored_info].
  pose proof (fwf_size _ _ Hwf). pose proof (fwf_tag _ _ Hwf). pose proof (zlen_nonneg (sf_stored f)).
  destruct (Z.ltb_spec (zlen p) (20 + frame_tag_len encrypted)); [unfold frame_size in *; lia|].
  rewrite Z.eqb_refl. destruct (Z.ltb_spec UINT32_MAX (frame_size f)); [lia|]. cbn [negb orb].
  destruct (Z.ltb_spec (zlen p) (frame_size f)); [lia|].
  fold (stored_info f (zlen pre)). unfold p at 1. rewrite (damaged_crc encrypted f a x y b) by done.
  by destruct encrypted.
Qed.
End damage.

(** ** Concrete runs *)
#[local] Existing Instance toy_lib.

Definition demo_bytes : bytes := f_data (demo_data (Some demo_encryptor)).
Definition demo_decryptor : option SegmentDecryptor := Some (mkSegmentDecryptor toy_key).

Lemma demo_bytes_ok : bytes_ok demo_bytes.
Proof. apply all_u8_ok. vm_compute. reflexivity. Qed.

Lemma scan_total_in_bounds_witness :
  segment_scan_impl demo_bytes 300 demo_decryptor (Some count_cb) [] 0 ≠ ScanFuel.
Proof.
  apply (scan_total_in_bounds demo_bytes 300 demo_decryptor (Some count_cb) [] 0);
    [apply demo_bytes_ok|vm_compute; split; congruence].
Defined.

Lemma frame_reader_agrees_witness :
  ∃ reader, segment_frame_reader_open (Ok demo_bytes) demo_decryptor = Ok reader ∧
    segment_frame_reader_scan reader count_cb [] 314 2 = (0, EUNSET, [314; 14]).
Proof.
  eexists. split; [vm_compute; reflexivity|].
  refine (proj1 (frame_reader_agrees demo_bytes demo_decryptor _ _ _ _ _ 2
    (with_dict_len (demo_header 12) 4) (mkSegmentFrameInfo 0 14 14 314 50) (C "third and last") count_cb [] _ _ _ _ _));
    [apply demo_bytes_ok|vm_compute; congruence|vm_compute; reflexivity|vm_compute; reflexivity|vm_compute; reflexivity].
Defined.

Definition demo_session : SegmentEncryptor := mkSegmentEncryptor toy_key (replicate 32 9) [1; 2; 3; 4] 0 true.

(** Writes to a disk that fills up: the part that is left of the last frame is
    sealed under a nonce of its own, too. *)
Lemma nonces_never_repeat_witness :
  ∃ nonces, NoDup (omap id nonces) ∧
    Forall2 (call_under (se_dek demo_session)) (session (mkFile [] 100 ENOSPC) (Some demo_session) demo_reqs) nonces ∧
    length nonces = 3%nat ∧ map (λ c, zlen (f_data c.2)) (session (mkFile [] 100 ENOSPC) (Some demo_session) demo_reqs) = [47; 89; 100].
Proof.
  destruct (nonces_never_repeat (mkFile [] 100 ENOSPC) demo_session demo_reqs) as (nonces & Hnd & Hall).
  { vm_compute. split; congruence. }
  exists nonces. split; [exact Hnd|]. split; [exact Hall|]. split; [|vm_compute; reflexivity].
  rewrite <- (Forall2_length _ _ _ Hall). vm_compute. reflexivity.
Defined.

Definition demo_frame : StoredFrame := mkStoredFrame 0 11 (C "first chunk") [].

Lemma damaged_frame_not_delivered_witness :
  scan_loop 5 ([1; 2] ++ damaged_image demo_frame (C "first chXnk") ++ C "tail")
    (zlen ([1; 2] ++ damaged_image demo_frame (C "first chXnk") ++ C "tail"))
    (demo_header 4) [] false [] [] (Some count_cb) 0 2 2 0 [] =
  ScanDone (demo_header 4) zero_footer 2 [].
Proof.
  apply (damaged_frame_not_delivered (demo_header 4) [] false [] [] (Some count_cb) 0 4 [1; 2] demo_frame
    (C "first ch") 117 88 (C "nk") (C "tail") 0 []);
    [split; vm_compute; try split; congruence|reflexivity
    |apply all_u8_ok; reflexivity|apply all_u8_ok; reflexivity|vm_compute; split; congruence
    |vm_compute; split; congruence|congruence|vm_compute; reflexivity].
Defined.

(** ** Two behaviours the format notes do not promise *)

(** An encrypted segment whose footer was cut after 40 of its 48 bytes is refused,
    although its three frames are intact. *)
Lemma encrypted_torn_footer_refused :
  segment_scan_buffer (ztake 404 demo_bytes) 404 demo_decryptor None tt = ScanFail (-1) EIO tt ∧
  segment_scan_buffer (ztake 399 demo_bytes) 399 demo_decryptor None tt =
    ScanDone (with_dict_len (demo_header 12) 4) zero_footer 364 tt.
Proof. vm_compute. split; reflexivity. Qed.

(** A frame whose payload holds a checksum, the version and the footer magic at
    the offsets of a footer is taken for one: it is not delivered and the scan
    stops inside it. *)
Definition forged_payload : bytes :=
  let start := frame_header 0 32 32 52 ++ replicate 16 0 in
  let crc := recorder_crc32 (start ++ write_u32_le 0 ++ footer_trailer) 48 in
  replicate 16 0 ++ write_u32_le crc ++ footer_trailer.

Lemma payload_read_as_footer :
  let '(_, fp, _) := write_frames (demo_open None).1.1.2 None [(0, C "first chunk", 11); (0, forged_payload, 32); (0, C "third", 5)] in
  segment_scan_buffer (f_data fp) (zlen (f_data fp)) None (Some count_cb) [] =
  ScanDone (with_dict_len (demo_header 4) 4) (mkSegmentFooter 0 32 223338299424 0 0 true) 235 [156; 11].
Proof. vm_compute. reflexivity. Qed.
