(* ===== verification/Chunk.v ===== *)
(** * Chunks of log entries (src/src/recorder.fbs)

    The tables of the FlatBuffers schema as records, and the accessors of the
    generated reader as a class: a buffer is read as the list of its entries.
    An absent string or vector is [None] (a NULL from the accessor). *)
From S2P Require Import Prelude Bytes Crypto Segment Models.

Record Field := mkField {
  fd_name : option bytes;
  fd_value : option bytes;
}.
#[export] Instance Field_eq_dec : EqDecision Field.
Proof. solve_decision. Defined.

Record CompactEntry := mkCompactEntry {
  ce_realtime_ts : Z;
  ce_monotonic_ts : Z;
  ce_priority : Z;
  ce_message : option bytes;
  ce_pid : Z;
  ce_unit : option bytes;
  ce_monotonic_tie_order : Z;
}.
#[export] Instance CompactEntry_eq_dec : EqDecision CompactEntry.
Proof. solve_decision. Defined.

Record FullEntry := mkFullEntry {
  fe_realtime_ts : Z;
  fe_monotonic_ts : Z;
  fe_priority : Z;
  fe_message : option bytes;
  fe_fields : list Field;
  fe_message_id : option bytes;
  fe_unit : option bytes;
  fe_pid : Z;
  fe_uid : Z;
  fe_gid : Z;
  fe_hostname : option bytes;
  fe_comm : option bytes;
  fe_exe : option bytes;
  fe_errno : Z;
  fe_monotonic_tie_order : Z;
}.
#[export] Instance FullEntry_eq_dec : EqDecision FullEntry.
Proof. solve_decision. Defined.

(** The generated FlatBuffers code: reading a verified buffer and finishing a
    builder. *)
Class FlatCC := {
  flatcc_segment :: SegmentLib;
  journal_DefaultChunk_entries : bytes → list CompactEntry;
  journal_Chunk_entries : bytes → list FullEntry;
  journal_DefaultChunk_create : list CompactEntry → bytes;
  journal_Chunk_create : list FullEntry → bytes;
}.

(** What the C types of the accessors guarantee: unsigned fields of their width
    and NUL-terminated strings. *)
Definition str_wf (s : option bytes) : Prop :=
  match s with Some b => Forall (λ x, 0 < x < 256) b | None => True end.

Record compact_wf (e : CompactEntry) : Prop := {
  cwf_realtime : is_u64 (ce_realtime_ts e);
  cwf_monotonic : is_u64 (ce_monotonic_ts e);
  cwf_priority : is_u8 (ce_priority e);
  cwf_message : str_wf (ce_message e);
  cwf_pid : is_u32 (ce_pid e);
  cwf_unit : str_wf (ce_unit e);
  cwf_tie : is_u16 (ce_monotonic_tie_order e);
}.

Record full_wf (e : FullEntry) : Prop := {
  flwf_realtime : is_u64 (fe_realtime_ts e);
  flwf_monotonic : is_u64 (fe_monotonic_ts e);
  flwf_priority : is_u8 (fe_priority e);
  flwf_message : str_wf (fe_message e);
  flwf_message_id : str_wf (fe_message_id e);
  flwf_unit : str_wf (fe_unit e);
  flwf_pid : is_u32 (fe_pid e);
  flwf_uid : is_u32 (fe_uid e);
  flwf_gid : is_u32 (fe_gid e);
  flwf_hostname : str_wf (fe_hostname e);
  flwf_comm : str_wf (fe_comm e);
  flwf_exe : str_wf (fe_exe e);
  flwf_errno : is_u16 (fe_errno e);
  flwf_tie : is_u16 (fe_monotonic_tie_order e);
}.

(** A finished buffer passes the verifier and reads back as what was put in. *)
Class FlatCC_ok (F : FlatCC) := {
  DefaultChunk_entries_wf : ∀ buf, Forall compact_wf (journal_DefaultChunk_entries buf);
  Chunk_entries_wf : ∀ buf, Forall full_wf (journal_Chunk_entries buf);
  DefaultChunk_verify_create : ∀ es, Forall compact_wf es →
    journal_DefaultChunk_verify_as_root (journal_DefaultChunk_create es) = true;
  DefaultChunk_read_create : ∀ es, Forall compact_wf es →
    journal_DefaultChunk_entries (journal_DefaultChunk_create es) = es;
  Chunk_verify_create : ∀ es, Forall full_wf es →
    journal_Chunk_verify_as_root (journal_Chunk_create es) = true;
  Chunk_read_create : ∀ es, Forall full_wf es →
    journal_Chunk_entries (journal_Chunk_create es) = es;
}.
