(* ===== verification/ChunkModel.v ===== *)
(** * A concrete chunk codec

    A reader and a builder that satisfy the laws of [FlatCC]: one list element
    per number, strings with their length before them. *)
From S2P Require Import Prelude Bytes Crypto Segment Chunk Models.

#[local] Existing Instance toy_lib.

Definition enc_str (s : option bytes) : bytes :=
  match s with None => [0] | Some b => (1 + zlen b) :: b end.
Definition dec_str (l : bytes) : option (option bytes * bytes) :=
  match l with
  | [] => None
  | n :: l' => if n =? 0 then Some (None, l') else Some (Some (ztake (n - 1) l'), zdrop (n - 1) l')
  end.

Lemma dec_enc_str s rest : dec_str (enc_str s ++ rest) = Some (s, rest).
Proof.
  destruct s as [b|]; cbn; [|done]. pose proof (zlen_nonneg b). destruct (Z.eqb_spec (1 + zlen b) 0); [lia|].
  replace (1 + zlen b - 1) with (zlen b) by lia. by rewrite ztake_app_eq, zdrop_app_eq.
Qed.

(** Repeat a decoder [n] times. *)
Fixpoint dec_many {A} (dec : bytes → option (A * bytes)) (n : nat) (l : bytes) : option (list A * bytes) :=
  match n with
  | O => Some ([], l)
  | S n' =>
      match dec l with
      | None => None
      | Some (a, l') => match dec_many dec n' l' with None => None | Some (as_, r) => Some (a :: as_, r) end
      end
  end.

Lemma dec_many_enc {A} (enc : A → bytes) dec l rest :
  (∀ a r, dec (enc a ++ r) = Some (a, r)) →
  dec_many dec (length l) (concat (map enc l) ++ rest) = Some (l, rest).
Proof.
  intros H. induction l as [|a l IH]; cbn; [done|]. rewrite <-app_assoc, H, IH. done.
Qed.

Definition enc_list {A} (enc : A → bytes) (l : list A) : bytes := zlen l :: concat (map enc l).
Definition dec_list {A} (dec : bytes → option (A * bytes)) (l : bytes) : option (list A * bytes) :=
  match l with [] => None | n :: l' => dec_many dec (Z.to_nat n) l' end.

Lemma dec_enc_list {A} (enc : A → bytes) dec l rest :
  (∀ a r, dec (enc a ++ r) = Some (a, r)) → dec_list dec (enc_list enc l ++ rest) = Some (l, rest).
Proof. intros H. cbn. unfold zlen. rewrite Nat2Z.id. by apply dec_many_enc. Qed.

Definition enc_compact (e : CompactEntry) : bytes :=
  [ce_realtime_ts e; ce_monotonic_ts e; ce_priority e; ce_pid e; ce_monotonic_tie_order e]
  ++ enc_str (ce_message e) ++ enc_str (ce_unit e).
Definition dec_compact (l : bytes) : option (CompactEntry * bytes) :=
  match l with
  | rt :: mono :: pr :: pid :: tie :: l1 =>
      match dec_str l1 with
      | Some (msg, l2) =>
          match dec_str l2 with
          | Some (unit, l3) => Some (mkCompactEntry rt mono pr msg pid unit tie, l3)
          | None => None
          end
      | None => None
      end
  | _ => None
  end.

Lemma dec_enc_compact e r : dec_compact (enc_compact e ++ r) = Some (e, r).
Proof.
  unfold enc_compact. rewrite <-!app_assoc. cbn -[dec_str enc_str]. rewrite !dec_enc_str. by destruct e.
Qed.

Definition enc_field (f : Field) : bytes := enc_str (fd_name f) ++ enc_str (fd_value f).
Definition dec_field (l : bytes) : option (Field * bytes) :=
  match dec_str l with
  | Some (n, l1) => match dec_str l1 with Some (v, l2) => Some (mkField n v, l2) | None => None end
  | None => None
  end.
Lemma dec_enc_field f r : dec_field (enc_field f ++ r) = Some (f, r).
Proof. unfold enc_field, dec_field. rewrite <-app_assoc, !dec_enc_str. by destruct f. Qed.

Definition enc_full (e : FullEntry) : bytes :=
  [fe_realtime_ts e; fe_monotonic_ts e; fe_priority e; fe_pid e; fe_uid e; fe_gid e; fe_errno e;
   fe_monotonic_tie_order e]
  ++ enc_list enc_str [fe_message e; fe_message_id e; fe_unit e; fe_hostname e; fe_comm e; fe_exe e]
  ++ enc_list enc_field (fe_fields e).
Definition dec_full (l : bytes) : option (FullEntry * bytes) :=
  match l with
  | rt :: mono :: pr :: pid :: uid :: gid :: err :: tie :: l1 =>
      match dec_list dec_str l1 with
      | Some ([msg; mid; unit; host; comm; exe], l2) =>
          match dec_list dec_field l2 with
          | Some (fields, l3) =>
              Some (mkFullEntry rt mono pr msg fields mid unit pid uid gid host comm exe err tie, l3)
          | None => None
          end
      | _ => None
      end
  | _ => None
  end.

Lemma dec_enc_full e r : dec_full (enc_full e ++ r) = Some (e, r).
Proof.
  unfold enc_full. rewrite <-!app_assoc. cbn -[dec_list enc_list].
  rewrite (dec_enc_list enc_str dec_str) by apply dec_enc_str.
  rewrite (dec_enc_list enc_field dec_field) by apply dec_enc_field. by destruct e.
Qed.

(** Buffers that do not decode, or hold values out of range, read as empty. *)
#[export] Instance is_u64_dec x : Decision (is_u64 x).
Proof. unfold is_u64. apply _. Defined.
#[export] Instance is_u32_dec x : Decision (is_u32 x).
Proof. unfold is_u32. apply _. Defined.
#[export] Instance is_u16_dec x : Decision (is_u16 x).
Proof. unfold is_u16. apply _. Defined.
#[export] Instance is_u8_dec x : Decision (is_u8 x).
Proof. unfold is_u8. apply _. Defined.
#[export] Instance str_wf_dec s : Decision (str_wf s).
Proof. destruct s; cbn; apply _. Defined.

#[export] Instance compact_wf_dec e : Decision (compact_wf e).
Proof.
  refine (cast_if (decide (is_u64 (ce_realtime_ts e) ∧ is_u64 (ce_monotonic_ts e) ∧ is_u8 (ce_priority e) ∧
    str_wf (ce_message e) ∧ is_u32 (ce_pid e) ∧ str_wf (ce_unit e) ∧ is_u16 (ce_monotonic_tie_order e))));
    [destruct_and!; by split|intros []; tauto].
Defined.
#[export] Instance full_wf_dec e : Decision (full_wf e).
Proof.
  refine (cast_if (decide (is_u64 (fe_realtime_ts e) ∧ is_u64 (fe_monotonic_ts e) ∧ is_u8 (fe_priority e) ∧
    str_wf (fe_message e) ∧ str_wf (fe_message_id e) ∧ str_wf (fe_unit e) ∧ is_u32 (fe_pid e) ∧ is_u32 (fe_uid e) ∧
    is_u32 (fe_gid e) ∧ str_wf (fe_hostname e) ∧ str_wf (fe_comm e) ∧ str_wf (fe_exe e) ∧ is_u16 (fe_errno e) ∧
    is_u16 (fe_monotonic_tie_order e)))); [destruct_and!; by split|intros []; tauto].
Defined.

Definition read_entries {A} (dec : bytes → option (A * bytes)) (P : A → Prop) `{∀ a, Decision (P a)} (buf : bytes)
  : list A :=
  match dec_list dec buf with
  | Some (es, _) => if decide (Forall P es) then es else []
  | None => []
  end.

Lemma read_entries_wf {A} dec (P : A → Prop) `{∀ a, Decision (P a)} buf : Forall P (read_entries dec P buf).
Proof.
  unfold read_entries. destruct (dec_list dec buf) as [[es r]|]; [|constructor].
  by destruct (decide (Forall P es)).
Qed.

Lemma read_entries_enc {A} (enc : A → bytes) dec (P : A → Prop) `{∀ a, Decision (P a)} es :
  (∀ a r, dec (enc a ++ r) = Some (a, r)) → Forall P es → read_entries dec P (enc_list enc es) = es.
Proof.
  intros Hd He. unfold read_entries. rewrite <-(app_nil_r (enc_list enc es)), dec_enc_list by done.
  by rewrite decide_True.
Qed.

#[local] Instance toy_flatcc : FlatCC := {
  flatcc_segment := toy_lib;
  journal_DefaultChunk_entries := read_entries dec_compact compact_wf;
  journal_Chunk_entries := read_entries dec_full full_wf;
  journal_DefaultChunk_create := enc_list enc_compact;
  journal_Chunk_create := enc_list enc_full;
}.

Lemma enc_list_nonempty {A} (enc : A → bytes) es : negb (zlen (enc_list enc es) =? 0) = true.
Proof. unfold enc_list. rewrite zlen_cons. pose proof (zlen_nonneg (concat (map enc es))).
  apply negb_true_iff, Z.eqb_neq. lia. Qed.

#[local] Instance toy_flatcc_ok : FlatCC_ok toy_flatcc.
Proof.
  split; intros.
  - apply read_entries_wf.
  - apply read_entries_wf.
  - apply enc_list_nonempty.
  - apply read_entries_enc; [apply dec_enc_compact|done].
  - apply enc_list_nonempty.
  - apply read_entries_enc; [apply dec_enc_full|done].
Qed.
