(* ===== verification/Index.v ===== *)
(** * The frame index (src/src/index.c)

    An index file lists one fixed-size record per frame of a segment, with the
    time range of its entries and a filter of the services that logged in it.
    This file models writer, validation, reader and the searches. *)
From S2P Require Import Prelude Bytes Crypto Segment Chunk.

Definition RECORDER_INDEX_MAGIC : bytes := C "RECIDX01".
Definition RECORDER_INDEX_VERSION : Z := 1.
Definition RECORDER_INDEX_HEADER_SIZE : Z := 24.
Definition RECORDER_INDEX_FOOTER_MAGIC : bytes := C "RECIF001".
Definition RECORDER_INDEX_FOOTER_SIZE : Z := 28.
Definition RECORDER_SERVICE_HASH_SLOTS : Z := 4.
Definition RECORDER_INDEX_RECORD_SIZE : Z := 83.

Record IndexFrame := mkIndexFrame {
  if_file_offset : Z;
  if_frame_len : Z;
  if_min_realtime_ts : Z;
  if_max_realtime_ts : Z;
  if_min_monotonic_ts : Z;
  if_max_monotonic_ts : Z;
  if_priority : Z;
  if_entry_count : Z;
  if_service_filter_kind : Z;
  if_service_hashes : list Z;    (* four slots *)
  if_service_overflow : Z;
}.

Record IndexWriter := mkIndexWriter {
  iw_fp : File;
  iw_record_count : Z;
}.

Record IndexReader := mkIndexReader {
  ir_file : bytes;
  ir_frame_count : Z;
}.

Definition fnv1a64 (s : bytes) : Z :=
  fold_left (λ hash c, u64 (Z.lxor hash c * 1099511628211)) s 1469598103934665603.

(** The running values of [write_index_frame] while it visits the entries;
    [ia_hashes] holds the first [service_count] slots. *)
Record IndexAcc := mkIndexAcc {
  ia_min_rt : Z; ia_max_rt : Z; ia_min_mono : Z; ia_max_mono : Z;
  ia_priority : Z;
  ia_hashes : list Z;
  ia_overflow : Z;
}.
Definition index_acc0 : IndexAcc := mkIndexAcc 0 0 0 0 0 [] 0.

Definition index_add_entry (rt mono entry_priority : Z) (unit : option bytes) (entry_index : Z)
    (a : IndexAcc) : IndexAcc :=
  let first := entry_index =? 0 in
  let min_rt := if first || (rt <? ia_min_rt a) then rt else ia_min_rt a in
  let max_rt := if first || (ia_max_rt a <? rt) then rt else ia_max_rt a in
  let min_mono := if first || (mono <? ia_min_mono a) then mono else ia_min_mono a in
  let max_mono := if first || (ia_max_mono a <? mono) then mono else ia_max_mono a in
  match unit with
  | None => mkIndexAcc min_rt max_rt min_mono max_mono entry_priority (ia_hashes a) (ia_overflow a)
  | Some unit =>
      let hash := fnv1a64 unit in
      let seen := existsb (λ h, h =? hash) (ia_hashes a) in
      let full := negb (zlen (ia_hashes a) <? RECORDER_SERVICE_HASH_SLOTS) in
      mkIndexAcc min_rt max_rt min_mono max_mono entry_priority
        (if seen || full then ia_hashes a else ia_hashes a ++ [hash])
        (if negb seen && full then 1 else ia_overflow a)
  end.

(** What the index reads of an entry: realtime, monotonic, priority, unit. *)
Definition index_entry : Type := Z * Z * Z * option bytes.

Fixpoint index_entries (i : Z) (es : list index_entry) (a : IndexAcc) : IndexAcc :=
  match es with
  | [] => a
  | (rt, mono, priority, unit) :: es' =>
      index_entries (i + 1) es' (index_add_entry rt mono priority unit i a)
  end.

Section index.
Context `{F : FlatCC}.

Definition chunk_entries (header : SegmentHeader) (chunk : bytes) : list index_entry :=
  if has_flag (sh_flags header) SEGMENT_FLAG_COMPACT_ENTRIES
  then map (λ e, (ce_realtime_ts e, ce_monotonic_ts e, ce_priority e, ce_unit e))
           (journal_DefaultChunk_entries chunk)
  else map (λ e, (fe_realtime_ts e, fe_monotonic_ts e, fe_priority e, fe_unit e))
           (journal_Chunk_entries chunk).

(** The four slots: the hashes seen, zero in the unused ones. *)
Definition hash_slots (hashes : list Z) : list Z :=
  hashes ++ replicate (Z.to_nat (RECORDER_SERVICE_HASH_SLOTS - zlen hashes)) 0.

(** The values [write_index_frame] stores for a frame. *)
Definition index_frame_of (header : SegmentHeader) (frame : SegmentFrameInfo) (chunk : bytes) : IndexFrame :=
  let es := chunk_entries header chunk in
  let a := index_entries 0 es index_acc0 in
  mkIndexFrame (fi_file_offset frame) (fi_frame_len frame)
    (ia_min_rt a) (ia_max_rt a) (ia_min_mono a) (ia_max_mono a) (u8 (ia_priority a))
    (u32 (zlen es)) 1 (hash_slots (ia_hashes a)) (ia_overflow a).

(** [store_u64], [store_u32] and [fputc] in sequence: a failure does not stop
    the later calls, it is seen by [ferror] at the end. *)
Fixpoint store_each (fp : File) (bufs : list bytes) : bool * File :=
  match bufs with
  | [] => (false, fp)
  | b :: bufs' =>
      let '(r, fp1) := write_all fp b in
      let '(err, fp2) := store_each fp1 bufs' in
      (match r with Ok _ => err | Err _ => true end, fp2)
  end.

Definition index_record_fields (f : IndexFrame) : list bytes :=
  [write_u64_le (if_file_offset f); write_u32_le (if_frame_len f);
   write_u64_le (if_min_realtime_ts f); write_u64_le (if_max_realtime_ts f);
   write_u64_le (if_min_monotonic_ts f); write_u64_le (if_max_monotonic_ts f);
   [u8 (if_priority f)]; write_u32_le (if_entry_count f); [u8 (if_service_filter_kind f)]]
  ++ map write_u64_le (if_service_hashes f)
  ++ [[u8 (if_service_overflow f)]].

Definition write_index_frame (header : SegmentHeader) (frame : SegmentFrameInfo) (chunk : bytes)
    (fp : File) : Res unit * File :=
  let '(ferror, fp') := store_each fp (index_record_fields (index_frame_of header frame chunk)) in
  (if ferror then Err (f_errno fp') else Ok tt, fp').

Definition index_header (segment_seq flags : Z) : bytes :=
  RECORDER_INDEX_MAGIC ++ write_u32_le RECORDER_INDEX_VERSION ++ write_u64_le segment_seq
  ++ write_u32_le flags.

(** [fp] is the empty file that [fopen(path, "w+b")] gives; [None] is its failure. *)
Definition index_writer_open (fp : option File) (segment_seq flags : Z) : Res IndexWriter :=
  match fp with
  | None => Err EUNSET
  | Some fp =>
      match write_all fp (index_header segment_seq flags) with
      | (Ok _, fp') => Ok (mkIndexWriter fp' 0)
      | (Err e, _) => Err e
      end
  end.

Definition index_writer_append (writer : IndexWriter) (header : SegmentHeader)
    (frame : SegmentFrameInfo) (chunk : bytes) : Res unit * IndexWriter :=
  match write_index_frame header frame chunk (iw_fp writer) with
  | (Ok _, fp') => (Ok tt, mkIndexWriter fp' (u64 (iw_record_count writer + 1)))
  | (Err e, fp') => (Err e, mkIndexWriter fp' (iw_record_count writer))
  end.

Definition index_footer (record_count segment_committed_end crc : Z) : bytes :=
  RECORDER_INDEX_FOOTER_MAGIC ++ write_u64_le record_count ++ write_u64_le segment_committed_end
  ++ write_u32_le crc.

(** The CRC covers everything written before the footer.  The result is the file
    left behind. *)
Definition index_writer_close (writer : IndexWriter) (segment_committed_end : Z) : Res unit * File :=
  let all := f_data (iw_fp writer) in
  let crc := recorder_crc32 all (zlen all) in
  write_all (iw_fp writer) (index_footer (iw_record_count writer) segment_committed_end crc).

(** The callback of the rebuild scan. *)
Definition append_index_frame_cb : segment_frame_cb IndexWriter :=
  λ header frame chunk writer,
    match index_writer_append writer header frame chunk with
    | (Ok _, writer') => (0, writer')
    | (Err _, writer') => (-1, writer')
    end.

(** Two scans of the segment: one for header and committed end, one that indexes
    every frame; [tmp] is the new temporary file.  The result is the content
    renamed over the index path; on an error the index path is left alone. *)
Definition index_rebuild_for_segment (segment : Res bytes) (tmp : option File)
    (decryptor : option SegmentDecryptor) : Res bytes :=
  match segment_scan_path segment decryptor None tt with
  | ScanDone header _ committed_end _ =>
      let? writer := index_writer_open tmp (sh_segment_seq header) (sh_flags header) in
      match segment_scan_path segment decryptor (Some append_index_frame_cb) writer with
      | ScanDone _ _ _ writer' =>
          match index_writer_close writer' committed_end with
          | (Ok _, fp) => Ok (f_data fp)
          | (Err e, _) => Err e
          end
      | _ => Err EUNSET
      end
  | _ => Err EUNSET
  end.

Definition decode_index_frame (record : bytes) : IndexFrame :=
  mkIndexFrame (read_u64_le record) (read_u32_le (zdrop 8 record))
    (read_u64_le (zdrop 12 record)) (read_u64_le (zdrop 20 record))
    (read_u64_le (zdrop 28 record)) (read_u64_le (zdrop 36 record))
    (byte_at record 44) (read_u32_le (zdrop 45 record)) (byte_at record 49)
    (map (λ i, read_u64_le (zdrop (50 + i * 8) record)) [0; 1; 2; 3])
    (byte_at record 82).

Definition index_frame_may_contain_service (frame : IndexFrame) (unit : option bytes) : bool :=
  match unit with
  | None => true
  | Some unit =>
      if negb (if_service_filter_kind frame =? 1) || negb (if_service_overflow frame =? 0)
      then true
      else existsb (λ h, h =? fnv1a64 unit) (if_service_hashes frame)
  end.

Definition index_pread_frame (file : bytes) (index : Z) : Res IndexFrame :=
  let? record := pread_exact file RECORDER_INDEX_RECORD_SIZE
                   (RECORDER_INDEX_HEADER_SIZE + index * RECORDER_INDEX_RECORD_SIZE) in
  Ok (decode_index_frame record).

(** The loop of [index_validate_segment]: records [i], [i+1], ... for [n] rounds. *)
Fixpoint validate_frames (n : nat) (file : bytes) (i expected_end segment_size : Z) : Res Z :=
  match n with
  | O => Ok expected_end
  | S n' =>
      match index_pread_frame file i with
      | Err _ => Err EINVAL
      | Ok frame =>
          require negb ((if_frame_len frame <? 20) || negb (if_file_offset frame =? expected_end)
                        || (segment_size - expected_end <? if_frame_len frame)) else EINVAL;
          validate_frames n' file (i + 1) (expected_end + if_frame_len frame) segment_size
      end
  end.

Definition index_validate_segment (file : bytes) (count index_segment_seq index_flags : Z)
    (has_footer : bool) (committed_end : Z) (segment : Res bytes) : Res unit :=
  match segment_read_path_header segment with
  | Err _ => Err EINVAL
  | Ok (header, data_offset, segment_size) =>
      require (sh_segment_seq header =? index_segment_seq) && (sh_flags header =? index_flags) else EINVAL;
      let? expected_end := validate_frames (Z.to_nat count) file 0 data_offset segment_size in
      require negb ((has_footer && negb (committed_end =? segment_size))
                    || (negb has_footer && negb (expected_end =? segment_size))) else ESTALE;
      Ok tt
  end.

(** Number of records of an index that is valid for the segment.  [path] and
    [segment] are what opening the two files gives. *)
Definition index_open_read (path segment : Res bytes) : Res (bytes * Z) :=
  let? file := path in
  let st_size := zlen file in
  require negb (st_size <? RECORDER_INDEX_HEADER_SIZE) else EUNSET;
  let? header := pread_exact file RECORDER_INDEX_HEADER_SIZE 0 in
  require beq (ztake 8 header) RECORDER_INDEX_MAGIC else EINVAL;
  require read_u32_le (zdrop 8 header) =? RECORDER_INDEX_VERSION else EPROTONOSUPPORT;
  let indexed_size := st_size - RECORDER_INDEX_HEADER_SIZE in
  let footer := slice (st_size - RECORDER_INDEX_FOOTER_SIZE) RECORDER_INDEX_FOOTER_SIZE file in
  let has_footer := (RECORDER_INDEX_HEADER_SIZE + RECORDER_INDEX_FOOTER_SIZE <=? st_size)
                    && beq (ztake 8 footer) RECORDER_INDEX_FOOTER_MAGIC in
  let? (count, committed_end) :=
    (if has_footer
     then
       let body := indexed_size - RECORDER_INDEX_FOOTER_SIZE in
       let count := read_u64_le (zdrop 8 footer) in
       require (count =? body / RECORDER_INDEX_RECORD_SIZE)
               && (body mod RECORDER_INDEX_RECORD_SIZE =? 0) else EPROTONOSUPPORT;
       require (recorder_crc32 file (st_size - RECORDER_INDEX_FOOTER_SIZE)
                =? read_u32_le (zdrop 24 footer)) else EINVAL;
       Ok (count, read_u64_le (zdrop 16 footer))
     else
       require (indexed_size mod RECORDER_INDEX_RECORD_SIZE =? 0) else EINVAL;
       Ok (indexed_size / RECORDER_INDEX_RECORD_SIZE, 0)) in
  require negb (SIZE_MAX <? count) else EUNSET;
  let? _ := index_validate_segment file count (read_u64_le (zdrop 12 header))
              (read_u32_le (zdrop 20 header)) has_footer committed_end segment in
  Ok (file, count).

Definition index_reader_open (path segment : Res bytes) : Res IndexReader :=
  let? (file, count) := index_open_read path segment in Ok (mkIndexReader file count).

Definition index_reader_frame_count (reader : option IndexReader) : Z :=
  match reader with Some r => ir_frame_count r | None => 0 end.

Definition index_reader_read_frame (reader : IndexReader) (frame_index : Z) : Res IndexFrame :=
  if ir_frame_count reader <=? frame_index then Err EUNSET
  else index_pread_frame (ir_file reader) frame_index.

Definition index_get_frame_count (path segment : Res bytes) : Res Z :=
  let? (_, count) := index_open_read path segment in Ok count.

Definition index_read_frame (path segment : Res bytes) (frame_index : Z) : Res IndexFrame :=
  let? (file, count) := index_open_read path segment in
  if frame_index <? count then index_pread_frame file frame_index else Err EUNSET.

(** Visit the records in order; the callback's context is threaded through. *)
Fixpoint scan_records {T} (n : nat) (file : bytes) (i : Z) (callback : IndexFrame → T → Z * T) (ctx : T)
  : Res unit * T :=
  match n with
  | O => (Ok tt, ctx)
  | S n' =>
      match index_pread_frame file i with
      | Err e => (Err e, ctx)
      | Ok frame =>
          let '(rv, ctx') := callback frame ctx in
          if rv =? 0 then scan_records n' file (i + 1) callback ctx' else (Err EUNSET, ctx')
      end
  end.

Definition index_scan_frames {T} (path segment : Res bytes) (callback : IndexFrame → T → Z * T) (ctx : T)
  : Res unit * T :=
  match index_open_read path segment with
  | Err e => (Err e, ctx)
  | Ok (file, count) => scan_records (Z.to_nat count) file 0 callback ctx
  end.

(** [while (lo < hi)]: the first record in [lo, hi) that is not [before] the
    target, by bisection. *)
Fixpoint bisect (fuel : nat) (file : bytes) (before : IndexFrame → bool) (lo hi : Z) : Res Z :=
  match fuel with
  | O => Err EOTHER
  | S fuel' =>
      if lo <? hi
      then
        let mid := lo + (hi - lo) / 2 in
        let? frame := index_pread_frame file mid in
        if before frame then bisect fuel' file before (mid + 1) hi
        else bisect fuel' file before lo mid
      else Ok lo
  end.

(** [0] with a frame, [1] when no frame can match, [-1] on an unusable index. *)
Inductive IndexFind :=
  | FindError (e : Errno)
  | FindNone
  | FindFrame (frame : IndexFrame) (frame_index : Z).

Definition index_find (path segment : Res bytes) (before : IndexFrame → bool) : IndexFind :=
  match index_open_read path segment with
  | Err e => FindError e
  | Ok (file, count) =>
      match bisect (S (Z.to_nat count)) file before 0 count with
      | Err e => FindError e
      | Ok lo =>
          if lo <? count
          then match index_pread_frame file lo with
               | Err e => FindError e
               | Ok frame => FindFrame frame lo
               end
          else FindNone
      end
  end.

Definition index_find_realtime_frame (path segment : Res bytes) (usec : Z) : IndexFind :=
  index_find path segment (λ f, if_max_realtime_ts f <? usec).

Definition index_find_monotonic_frame (path segment : Res bytes) (usec : Z) : IndexFind :=
  index_find path segment (λ f, if_max_monotonic_ts f <? usec).

Definition index_find_offset_frame (path segment : Res bytes) (file_offset : Z) : Res (IndexFrame * Z) :=
  match index_find path segment (λ f, if_file_offset f <? file_offset) with
  | FindFrame frame i => if if_file_offset frame =? file_offset then Ok (frame, i) else Err EUNSET
  | FindNone => Err EUNSET
  | FindError e => Err e
  end.
End index.
