(* ===== verification/IndexProofs.v ===== *)
(** * Properties of the frame index

    Records read back as they were written, the time ranges and the service
    filter never exclude an entry of the frame, an index built for a segment is
    accepted for it, and the searches find what they promise. *)
From S2P Require Import Prelude Bytes Crypto Segment SegmentImage SegmentScan SegmentWrite Chunk.
From S2P Require Import Models SegmentSpec SegmentSafety Index.

(** ** What the accumulated values say about the entries *)
Definition acc_inv (es : list index_entry) (a : IndexAcc) : Prop :=
  zlen (ia_hashes a) <= 4 ∧
  (ia_overflow a = 0 ∨ ia_overflow a = 1) ∧
  Forall (λ e : index_entry, let '(rt, mono, _, unit) := e in
    ia_min_rt a <= rt <= ia_max_rt a ∧ ia_min_mono a <= mono <= ia_max_mono a ∧
    match unit with Some u => ia_overflow a = 1 ∨ fnv1a64 u ∈ ia_hashes a | None => True end) es ∧
  (es ≠ [] →
    ia_min_rt a ∈ map (λ e : index_entry, e.1.1.1) es ∧ ia_max_rt a ∈ map (λ e : index_entry, e.1.1.1) es ∧
    ia_min_mono a ∈ map (λ e : index_entry, e.1.1.2) es ∧ ia_max_mono a ∈ map (λ e : index_entry, e.1.1.2) es).

Lemma existsb_eq_elem h l : existsb (λ x, x =? h) l = true ↔ h ∈ l.
Proof.
  rewrite existsb_exists. split.
  - intros (x & Hx & Heq%Z.eqb_eq). subst. by apply list_elem_of_In.
  - intros ?. exists h. split; [by apply list_elem_of_In|apply Z.eqb_refl].
Qed.

Lemma upd_min (first : bool) x m :
  let m' := if first || (x <? m) then x else m in
  m' <= x ∧ (first = false → m' <= m) ∧ (m' = x ∨ (first = false ∧ m' = m)).
Proof. destruct first, (Z.ltb_spec x m); cbn; split_and!; try lia; auto; intros; lia. Qed.

Lemma upd_max (first : bool) x m :
  let m' := if first || (m <? x) then x else m in
  x <= m' ∧ (first = false → m <= m') ∧ (m' = x ∨ (first = false ∧ m' = m)).
Proof. destruct first, (Z.ltb_spec m x); cbn; split_and!; try lia; auto; intros; lia. Qed.

(** The service part of [index_add_entry]. *)
Definition add_unit (unit : option bytes) (hashes : list Z) (overflow : Z) : list Z * Z :=
  match unit with
  | None => (hashes, overflow)
  | Some u =>
      let seen := existsb (λ h, h =? fnv1a64 u) hashes in
      let full := negb (zlen hashes <? 4) in
      (if seen || full then hashes else hashes ++ [fnv1a64 u], if negb seen && full then 1 else overflow)
  end.

Lemma add_unit_spec unit hashes ov :
  zlen hashes <= 4 → (ov = 0 ∨ ov = 1) →
  let '(hashes', ov') := add_unit unit hashes ov in
  zlen hashes' <= 4 ∧ (ov' = 0 ∨ ov' = 1) ∧ (ov = 1 → ov' = 1) ∧ (∀ h, h ∈ hashes → h ∈ hashes') ∧
  match unit with Some u => ov' = 1 ∨ fnv1a64 u ∈ hashes' | None => True end.
Proof.
  intros Hlen Hov. unfold add_unit. destruct unit as [u|]; [|split_and!; auto].
  destruct (existsb _ hashes) eqn:Hs; cbn [orb negb andb].
  { apply existsb_eq_elem in Hs. split_and!; auto. }
  destruct (Z.ltb_spec (zlen hashes) 4); cbn [orb negb andb].
  - split_and!; auto; [solve_len|intros; apply elem_of_app; by left|right; apply elem_of_app; right; by apply list_elem_of_singleton].
  - split_and!; auto.
Qed.

Lemma add_entry_eq rt mono pr unit i a :
  let first := i =? 0 in
  let '(hashes, ov) := add_unit unit (ia_hashes a) (ia_overflow a) in
  index_add_entry rt mono pr unit i a =
  mkIndexAcc (if first || (rt <? ia_min_rt a) then rt else ia_min_rt a)
    (if first || (ia_max_rt a <? rt) then rt else ia_max_rt a)
    (if first || (mono <? ia_min_mono a) then mono else ia_min_mono a)
    (if first || (ia_max_mono a <? mono) then mono else ia_max_mono a) pr hashes ov.
Proof. by destruct unit. Qed.

Lemma add_entry_inv es rt mono pr unit a :
  acc_inv es a → acc_inv (es ++ [(rt, mono, pr, unit)]) (index_add_entry rt mono pr unit (zlen es) a).
Proof.
  intros (Hlen & Hov & Hall & Hmem).
  pose proof (add_entry_eq rt mono pr unit (zlen es) a) as Heq.
  pose proof (add_unit_spec unit (ia_hashes a) (ia_overflow a) Hlen Hov) as Hu.
  destruct (add_unit unit (ia_hashes a) (ia_overflow a)) as [hs ov]. cbv zeta in Heq. rewrite Heq.
  destruct Hu as (Hl' & Hov' & Hkeep & Hin & Hunit).
  pose proof (upd_min (zlen es =? 0) rt (ia_min_rt a)) as (A1 & A2 & A3).
  pose proof (upd_max (zlen es =? 0) rt (ia_max_rt a)) as (B1 & B2 & B3).
  pose proof (upd_min (zlen es =? 0) mono (ia_min_mono a)) as (C1 & C2 & C3).
  pose proof (upd_max (zlen es =? 0) mono (ia_max_mono a)) as (D1 & D2 & D3).
  assert (Hne : es ≠ [] → (zlen es =? 0) = false).
  { destruct es as [|e es']; [done|]. intros _. apply Z.eqb_neq. rewrite zlen_cons.
    pose proof (zlen_nonneg es'). lia. }
  split_and!; cbn [ia_hashes ia_overflow]; [done|done| |].
  - apply Forall_app. split; [|by repeat constructor].
    destruct (decide (es = [])) as [->|Hes]; [constructor|].
    specialize (Hne Hes). specialize (A2 Hne). specialize (B2 Hne). specialize (C2 Hne). specialize (D2 Hne).
    eapply Forall_impl; [exact Hall|]. intros [[[rt' mono'] pr'] unit'] (E1 & E2 & E3).
    cbn [ia_min_rt ia_max_rt ia_min_mono ia_max_mono ia_hashes ia_overflow].
    split_and!; try lia. destruct unit' as [u|]; [|done]. destruct E3 as [E3|E3]; auto.
  - intros _. cbn [ia_min_rt ia_max_rt ia_min_mono ia_max_mono]. rewrite !map_app. cbn [map].
    assert (Hold : ∀ (f : index_entry → Z) (m m' x : Z), (m' = x ∨ (zlen es =? 0) = false ∧ m' = m) →
      (es ≠ [] → m ∈ map f es) → x = f (rt, mono, pr, unit) → m' ∈ map f es ++ [f (rt, mono, pr, unit)]).
    { intros f m m' x Hm Hmem' ->. apply elem_of_app. destruct Hm as [->|[Hz ->]]; [right; by apply list_elem_of_singleton|].
      left. apply Hmem'. intros ->. done. }
    split_and!; [eapply (Hold (λ e : index_entry, e.1.1.1)); [exact A3| |done]
      |eapply (Hold (λ e : index_entry, e.1.1.1)); [exact B3| |done]
      |eapply (Hold (λ e : index_entry, e.1.1.2)); [exact C3| |done]
      |eapply (Hold (λ e : index_entry, e.1.1.2)); [exact D3| |done]]; intros; by apply Hmem.
Qed.

Lemma index_entries_inv done_ es a :
  acc_inv done_ a → acc_inv (done_ ++ es) (index_entries (zlen done_) es a).
Proof.
  revert done_ a. induction es as [|[[[rt mono] pr] unit] es IH]; intros done_ a Ha.
  { by rewrite app_nil_r. }
  cbn [index_entries]. set (e := (rt, mono, pr, unit) : index_entry).
  specialize (IH (done_ ++ [e]) (index_add_entry rt mono pr unit (zlen done_) a)).
  rewrite <-app_assoc in IH. replace (zlen (done_ ++ [e])) with (zlen done_ + 1) in IH by solve_len.
  apply IH, add_entry_inv, Ha.
Qed.

Lemma index_acc_inv es : acc_inv es (index_entries 0 es index_acc0).
Proof. apply (index_entries_inv [] es). split_and!; [done|by left|constructor|done]. Qed.

(** Move a [byte_at] across the fields before it. *)
Lemma byte_at_app_r p q i : zlen p <= i → byte_at (p ++ q) i = byte_at q (i - zlen p).
Proof. intros. unfold byte_at, zlen in *. rewrite app_nth2 by lia. f_equal. lia. Qed.
Lemma byte_at_head x q i : i = 0 → byte_at (x :: q) i = x.
Proof. by intros ->. Qed.
Ltac seek_byte := repeat rewrite byte_at_app_r by solve_len; apply byte_at_head; solve_len.

Section index.
Context `{F : FlatCC}.

Lemma unit_may_be_contained header frame chunk rt mono pr unit :
  (rt, mono, pr, unit) ∈ chunk_entries header chunk →
  index_frame_may_contain_service (index_frame_of header frame chunk) unit = true.
Proof.
  intros Hin. pose proof (index_acc_inv (chunk_entries header chunk)) as (_ & _ & Hall & _).
  rewrite Forall_forall in Hall. pose proof (Hall _ Hin) as (_ & _ & Hunit).
  unfold index_frame_may_contain_service, index_frame_of.
  cbn [if_service_filter_kind if_service_overflow if_service_hashes]. destruct unit as [u|]; [|done].
  destruct Hunit as [->|Hh]; [done|]. destruct (negb (1 =? 1) || _); [done|].
  apply existsb_eq_elem. unfold hash_slots. apply elem_of_app. by left.
Qed.

(** C40: the index never hides an entry.  For every entry of a chunk, the record
    written for its frame has a realtime and a monotonic range that contain it,
    and the service filter answers "may contain" for its unit; the range ends
    are timestamps that occur in the frame. *)
Theorem index_frame_covers header frame chunk rt mono pr unit :
  (rt, mono, pr, unit) ∈ chunk_entries header chunk →
  let f := index_frame_of header frame chunk in
  if_min_realtime_ts f <= rt <= if_max_realtime_ts f ∧
  if_min_monotonic_ts f <= mono <= if_max_monotonic_ts f ∧
  index_frame_may_contain_service f unit = true ∧
  if_min_realtime_ts f ∈ map (λ e : index_entry, e.1.1.1) (chunk_entries header chunk) ∧
  if_max_realtime_ts f ∈ map (λ e : index_entry, e.1.1.1) (chunk_entries header chunk).
Proof.
  intros Hin f. pose proof (index_acc_inv (chunk_entries header chunk)) as (Hlen & Hov & Hall & Hmem).
  rewrite Forall_forall in Hall. pose proof (Hall _ Hin) as (Hrt & Hmono & _).
  destruct Hmem as (? & ? & _); [intros He; rewrite He in Hin; by apply elem_of_nil in Hin|].
  split; [exact Hrt|]. split; [exact Hmono|]. split; [by eapply unit_may_be_contained|done].
Qed.

(** ** Records *)
Record index_frame_wf (f : IndexFrame) : Prop := {
  iwf_offset : is_u64 (if_file_offset f);
  iwf_len : is_u32 (if_frame_len f);
  iwf_min_rt : is_u64 (if_min_realtime_ts f);
  iwf_max_rt : is_u64 (if_max_realtime_ts f);
  iwf_min_mono : is_u64 (if_min_monotonic_ts f);
  iwf_max_mono : is_u64 (if_max_monotonic_ts f);
  iwf_priority : is_u8 (if_priority f);
  iwf_count : is_u32 (if_entry_count f);
  iwf_kind : is_u8 (if_service_filter_kind f);
  iwf_hashes : length (if_service_hashes f) = 4%nat ∧ Forall is_u64 (if_service_hashes f);
  iwf_overflow : is_u8 (if_service_overflow f);
}.

Definition index_record (f : IndexFrame) : bytes := concat (index_record_fields f).

Lemma hashes_four f : length (if_service_hashes f) = 4%nat →
  ∃ h0 h1 h2 h3, if_service_hashes f = [h0; h1; h2; h3].
Proof. destruct (if_service_hashes f) as [|h0 [|h1 [|h2 [|h3 [|]]]]]; try done. intros _. by exists h0, h1, h2, h3. Qed.

Lemma zlen_index_record f : length (if_service_hashes f) = 4%nat → zlen (index_record f) = 83.
Proof.
  intros (h0 & h1 & h2 & h3 & Hh)%hashes_four. unfold index_record, index_record_fields. rewrite Hh.
  cbn [map concat app]. solve_len.
Qed.

(** A record reads back as the frame it was written for. *)
Lemma decode_index_record f rest : index_frame_wf f → decode_index_frame (index_record f ++ rest) = f.
Proof.
  intros [? ? ? ? ? ? ? ? ? [Hl Hh] ?].
  destruct (hashes_four f Hl) as (h0 & h1 & h2 & h3 & Heq). rewrite Heq in Hh.
  assert (Hrec : index_record f ++ rest =
    write_u64_le (if_file_offset f) ++ write_u32_le (if_frame_len f) ++
    write_u64_le (if_min_realtime_ts f) ++ write_u64_le (if_max_realtime_ts f) ++
    write_u64_le (if_min_monotonic_ts f) ++ write_u64_le (if_max_monotonic_ts f) ++
    [u8 (if_priority f)] ++ write_u32_le (if_entry_count f) ++ [u8 (if_service_filter_kind f)] ++
    write_u64_le h0 ++ write_u64_le h1 ++ write_u64_le h2 ++ write_u64_le h3 ++
    [u8 (if_service_overflow f)] ++ rest).
  { unfold index_record, index_record_fields. rewrite Heq. cbn [map concat app].
    rewrite <-!app_assoc. done. }
  rewrite Hrec. clear Hrec Hl. unfold decode_index_frame. cbn [map].
  repeat (apply Forall_cons in Hh as [? Hh]).
  assert (Eb : ∀ x, is_u8 x → u8 x = x) by (intros; unfold u8; by apply Z.mod_small).
  destruct f as [fo fl r0 r1 m0 m1 pr ec sk hs ov].
  cbn [if_file_offset if_frame_len if_min_realtime_ts if_max_realtime_ts if_min_monotonic_ts
    if_max_monotonic_ts if_priority if_entry_count if_service_filter_kind if_service_hashes
    if_service_overflow] in *. subst hs. f_equal.
  - rewrite read_write_u64_le. by apply u64_id.
  - seek. rewrite read_write_u32_le. by apply u32_id.
  - seek. rewrite read_write_u64_le. by apply u64_id.
  - seek. rewrite read_write_u64_le. by apply u64_id.
  - seek. rewrite read_write_u64_le. by apply u64_id.
  - seek. rewrite read_write_u64_le. by apply u64_id.
  - etransitivity; [seek_byte|]. by apply Eb.
  - seek. rewrite read_write_u32_le. by apply u32_id.
  - etransitivity; [seek_byte|]. by apply Eb.
  - f_equal; [|f_equal; [|f_equal; [|f_equal]]]; seek; rewrite read_write_u64_le; by apply u64_id.
  - etransitivity; [seek_byte|]. by apply Eb.
Qed.

(** ** Values stored for a frame fit their fields *)
Context `{!FlatCC_ok F}.

Lemma fnv1a64_range s : is_u64 (fnv1a64 s).
Proof.
  unfold fnv1a64. assert (H : is_u64 1469598103934665603) by (unfold is_u64; lia). revert H.
  generalize 1469598103934665603 as h. induction s as [|c s IH]; intros h Hh; [done|].
  cbn. apply IH. apply u64_range.
Qed.

Lemma add_entry_hashes rt mono pr unit i a :
  Forall is_u64 (ia_hashes a) → Forall is_u64 (ia_hashes (index_add_entry rt mono pr unit i a)).
Proof.
  intros Ha. unfold index_add_entry. destruct unit as [u|]; [|done]. cbn [ia_hashes].
  destruct (_ || _); [done|]. apply Forall_app. split; [done|]. repeat constructor; apply fnv1a64_range.
Qed.

Lemma index_entries_hashes i es a :
  Forall is_u64 (ia_hashes a) → Forall is_u64 (ia_hashes (index_entries i es a)).
Proof.
  revert i a. induction es as [|[[[rt mono] pr] unit] es IH]; intros i a Ha; [done|].
  cbn [index_entries]. by apply IH, add_entry_hashes.
Qed.

Lemma chunk_entries_u64 header chunk :
  Forall (λ e : index_entry, is_u64 e.1.1.1 ∧ is_u64 e.1.1.2) (chunk_entries header chunk).
Proof.
  unfold chunk_entries. destruct (has_flag _ _); apply Forall_map; eapply Forall_impl;
    [apply DefaultChunk_entries_wf| |apply Chunk_entries_wf|]; intros e He; destruct He; done.
Qed.

Lemma index_frame_of_wf header frame chunk :
  is_u64 (fi_file_offset frame) → is_u32 (fi_frame_len frame) →
  index_frame_wf (index_frame_of header frame chunk).
Proof.
  intros Ho Hl. pose proof (index_acc_inv (chunk_entries header chunk)) as (Hlen & Hov & _ & Hmem).
  pose proof (chunk_entries_u64 header chunk) as Hu. rewrite Forall_forall in Hu.
  unfold index_frame_of. set (es := chunk_entries header chunk) in *.
  assert (Hts : es = [] ∨ (is_u64 (ia_min_rt (index_entries 0 es index_acc0)) ∧
    is_u64 (ia_max_rt (index_entries 0 es index_acc0)) ∧ is_u64 (ia_min_mono (index_entries 0 es index_acc0)) ∧
    is_u64 (ia_max_mono (index_entries 0 es index_acc0)))).
  { destruct (decide (es = [])) as [|Hne]; [by left|right].
    destruct (Hmem Hne) as (M1 & M2 & M3 & M4).
    apply list_elem_of_fmap in M1 as (e1 & -> & ?), M2 as (e2 & -> & ?), M3 as (e3 & -> & ?), M4 as (e4 & -> & ?).
    split_and!; by apply Hu. }
  assert (Hts' : is_u64 (ia_min_rt (index_entries 0 es index_acc0)) ∧
    is_u64 (ia_max_rt (index_entries 0 es index_acc0)) ∧ is_u64 (ia_min_mono (index_entries 0 es index_acc0)) ∧
    is_u64 (ia_max_mono (index_entries 0 es index_acc0))) by (by destruct Hts as [->|]).
  destruct Hts' as (? & ? & ? & ?).
  split; cbn [if_file_offset if_frame_len if_min_realtime_ts if_max_realtime_ts if_min_monotonic_ts
    if_max_monotonic_ts if_priority if_entry_count if_service_filter_kind if_service_hashes if_service_overflow];
    try done; [apply u8_range|apply u32_range| |].
  - unfold hash_slots, RECORDER_SERVICE_HASH_SLOTS. split.
    + rewrite length_app, length_replicate. unfold zlen in *. lia.
    + apply Forall_app. split; [apply index_entries_hashes; constructor|by apply Forall_replicate].
  - destruct Hov as [-> | ->]; done.
Qed.

(** ** Writing *)
Lemma store_each_room fp bufs :
  zlen (concat bufs) <= f_budget fp →
  store_each fp bufs =
    (false, mkFile (f_data fp ++ concat bufs) (f_budget fp - zlen (concat bufs)) (f_errno fp)).
Proof.
  revert fp. induction bufs as [|b bufs IH]; intros fp; cbn [store_each concat].
  { intros _. rewrite app_nil_r, Z.sub_0_r. by destruct fp. }
  rewrite zlen_app. intros. rewrite write_all_room by solve_len. cbv beta iota.
  rewrite IH by (cbn; lia). cbn [f_data f_budget f_errno]. rewrite app_assoc. do 2 f_equal. lia.
Qed.

Abbreviation delivery := (SegmentHeader * SegmentFrameInfo * bytes)%type.

Definition delivery_frame (d : delivery) : IndexFrame := index_frame_of d.1.1 d.1.2 d.2.
Definition index_records (ds : list delivery) : bytes := concat (map (λ d, index_record (delivery_frame d)) ds).

Definition deliveries_fit (ds : list delivery) : Prop :=
  Forall (λ d : delivery, is_u64 (fi_file_offset d.1.2) ∧ is_u32 (fi_frame_len d.1.2)) ds.

Lemma delivery_frame_wf (d : delivery) :
  is_u64 (fi_file_offset d.1.2) → is_u32 (fi_frame_len d.1.2) → index_frame_wf (delivery_frame d).
Proof. apply index_frame_of_wf. Qed.

Lemma zlen_index_records ds : deliveries_fit ds → zlen (index_records ds) = 83 * zlen ds.
Proof.
  induction 1 as [|d ds [Ho Hl] _ IH]; [done|]. unfold index_records in *. cbn [map concat].
  rewrite zlen_app, IH, zlen_cons. rewrite zlen_index_record; [lia|].
  apply (iwf_hashes _ (delivery_frame_wf d Ho Hl)).
Qed.

Lemma run_append ds w :
  deliveries_fit ds → 83 * zlen ds <= f_budget (iw_fp w) → 0 <= iw_record_count w →
  iw_record_count w + zlen ds <= UINT64_MAX →
  run_cb append_index_frame_cb ds w =
    Some (mkIndexWriter (mkFile (f_data (iw_fp w) ++ index_records ds)
                           (f_budget (iw_fp w) - 83 * zlen ds) (f_errno (iw_fp w)))
            (iw_record_count w + zlen ds)).
Proof.
  intros Hfit. revert w. induction Hfit as [|[[h i] c] ds [Ho Hl] Hfit IH]; intros w Hb H0 Hc.
  { cbn. unfold index_records. cbn. rewrite app_nil_r, !Z.sub_0_r, Z.add_0_r. by destruct w as [[] ?]. }
  rewrite zlen_cons in *. pose proof (zlen_nonneg ds).
  pose proof (iwf_hashes _ (delivery_frame_wf (h, i, c) Ho Hl)) as [Hh _].
  pose proof (zlen_index_record _ Hh) as Hz. unfold index_record in Hz.
  cbn [run_cb]. unfold append_index_frame_cb at 1, index_writer_append, write_index_frame.
  fold (delivery_frame (h, i, c)) in *. rewrite store_each_room by (unfold delivery_frame in *; cbn in *; lia).
  cbv beta iota. cbn [Z.eqb]. rewrite u64_id by (unfold is_u64, UINT64_MAX in *; lia).
  rewrite IH; cbn [iw_fp iw_record_count f_data f_budget f_errno]; [|unfold delivery_frame in *; cbn in *; lia|lia|lia].
  do 2 f_equal; [|lia]. f_equal; [|unfold delivery_frame in *; cbn in *; lia].
  rewrite <-app_assoc. unfold index_records. cbn [map concat]. done.
Qed.

(** ** Reading back *)
Definition index_image (seq flags : Z) (ds : list delivery) (committed_end : Z) : bytes :=
  let body := index_header seq flags ++ index_records ds in
  body ++ index_footer (zlen ds) committed_end (recorder_crc32 body (zlen body)).

Lemma zlen_index_header seq flags : zlen (index_header seq flags) = 24.
Proof. unfold index_header. change (zlen RECORDER_INDEX_MAGIC) with 8. 
  rewrite !zlen_app. change (zlen RECORDER_INDEX_MAGIC) with 8. solve_len. Qed.
Lemma zlen_index_footer n e c : zlen (index_footer n e c) = 28.
Proof. unfold index_footer. rewrite !zlen_app. change (zlen RECORDER_INDEX_FOOTER_MAGIC) with 8. solve_len. Qed.

Lemma slice_records k ds rest d :
  deliveries_fit ds → ds !! k = Some d →
  slice (83 * Z.of_nat k) 83 (index_records ds ++ rest) = index_record (delivery_frame d).
Proof.
  intros Hfit. revert k. induction Hfit as [|d0 ds [Ho Hl] Hfit IH]; intros k; [done|].
  pose proof (iwf_hashes _ (delivery_frame_wf d0 Ho Hl)) as [Hh _].
  pose proof (zlen_index_record _ Hh) as Hz. unfold index_records. cbn [map concat]. rewrite <-app_assoc.
  destruct k as [|k]; cbn [lookup list_lookup].
  - intros [= ->]. change (83 * Z.of_nat 0) with 0. unfold slice. rewrite zdrop_0. by apply ztake_app_eq.
  - intros Hk. unfold slice. rewrite zdrop_app_ge by lia.
    replace (83 * Z.of_nat (S k) - zlen (index_record (delivery_frame d0))) with (83 * Z.of_nat k) by lia.
    by apply IH.
Qed.

Lemma pread_index_image seq flags ds e k d :
  deliveries_fit ds → ds !! k = Some d →
  index_pread_frame (index_image seq flags ds e) (Z.of_nat k) = Ok (delivery_frame d).
Proof.
  intros Hfit Hk. pose proof (zlen_index_records ds Hfit) as Hz.
  assert (Hkl : Z.of_nat k < zlen ds) by (apply lookup_lt_Some in Hk; unfold zlen; lia).
  unfold index_pread_frame, pread_exact, RECORDER_INDEX_HEADER_SIZE, RECORDER_INDEX_RECORD_SIZE.
  assert (Hlen : zlen (index_image seq flags ds e) = 52 + 83 * zlen ds).
  { unfold index_image. rewrite !zlen_app, zlen_index_header, zlen_index_footer, Hz. lia. }
  destruct (Z.leb_spec (24 + Z.of_nat k * 83 + 83) (zlen (index_image seq flags ds e))); [|lia].
  cbn [guard_res rbind]. f_equal.
  rewrite <-(decode_index_record (delivery_frame d) []), app_nil_r.
  - f_equal. unfold index_image, slice. rewrite <-!app_assoc.
    rewrite zdrop_app_ge by (rewrite zlen_index_header; lia). rewrite zlen_index_header.
    replace (24 + Z.of_nat k * 83 - 24) with (83 * Z.of_nat k) by lia. by apply slice_records.
  - unfold deliveries_fit in Hfit. rewrite Forall_lookup in Hfit. destruct (Hfit _ _ Hk). by apply delivery_frame_wf.
Qed.

Lemma validate_image seq flags ds e size : ∀ n k off,
  deliveries_fit ds → (k + n = length ds)%nat → chained off size (drop k ds) →
  ∃ end_, validate_frames n (index_image seq flags ds e) (Z.of_nat k) off size = Ok end_.
Proof.
  induction n as [|n IH]; intros k off Hfit Hk Hc; [by eexists|].
  destruct (lookup_lt_is_Some_2 ds k ltac:(lia)) as [d Hd].
  rewrite (drop_S _ _ _ Hd) in Hc. destruct d as [[h i] c].
  destruct Hc as (Ho & H20 & Hu & Hle & Hc). cbn [validate_frames].
  rewrite (pread_index_image _ _ _ _ _ _ Hfit Hd). cbn [if_frame_len if_file_offset delivery_frame index_frame_of fst snd].
  destruct (Z.ltb_spec (fi_frame_len i) 20); [lia|]. rewrite Ho, Z.eqb_refl.
  destruct (Z.ltb_spec (size - off) (fi_frame_len i)); [lia|]. cbn [orb negb guard_res rbind].
  replace (Z.of_nat k + 1) with (Z.of_nat (S k)) by lia. apply IH; [done|lia|done].
Qed.

(** The metadata of a file that parses, read on its own, parses the same. *)
Lemma read_metadata_parse file h off e :
  bytes_ok file → zlen file <= UINT32_MAX → segment_parse_header file (zlen file) = Ok (h, off, e) →
  read_metadata (Ok file) = Ok (file, ztake off file) ∧
  segment_parse_header (ztake off file) (zlen (ztake off file)) = Ok (h, off, e).
Proof.
  intros Hok Hsz Hp.
  pose proof (parse_header_facts _ _ _ _ _ Hp) as (Hhs & Hd & _ & Hh).
  destruct (parsed_nonwrap file (zlen file) h off e) as (Hoff & Hdl & _ & Hle); [done|lia|done|].
  unfold read_metadata, pread_exact, SEGMENT_HEADER_FIXED_SIZE. cbn [rbind].
  destruct (Z.ltb_spec (zlen file) 152); [lia|].
  destruct (Z.ltb_spec SIZE_MAX (zlen file)); [unfold SIZE_MAX, UINT64_MAX, UINT32_MAX in *; lia|].
  cbn [orb negb guard_res rbind]. destruct (Z.leb_spec (0 + 152) (zlen file)); [|lia].
  cbn [guard_res rbind]. change (slice 0 152 file) with (ztake 152 file).
  rewrite !zdrop_ztake, !read_u32_le_ztake by lia.
  assert (Hdl' : read_u32_le (zdrop 144 file) = sh_dict_len h) by (by rewrite Hh). rewrite Hdl'.
  set (hs := read_u32_le (zdrop 12 file)) in *.
  destruct (Z.ltb_spec hs 152); [lia|]. destruct (Z.ltb_spec (zlen file) hs); [lia|].
  destruct (Z.ltb_spec (zlen file - hs) (sh_dict_len h)); [lia|]. cbn [orb negb guard_res rbind].
  rewrite <-Hoff. rewrite u32_id by (unfold is_u32, UINT32_MAX in *; lia).
  destruct (Z.leb_spec (0 + off) (zlen file)); [|lia]. cbn [guard_res rbind].
  change (slice 0 off file) with (ztake off file). split; [done|]. rewrite zlen_ztake by lia.
  apply (parse_header_local file (ztake off file) (zlen file) off h off e Hp).
  - fold hs. lia.
  - lia.
  - fold hs. symmetry. apply ztake_ztake. lia.
Qed.

(** The header of a file that scans is what [segment_read_path_header] finds. *)
Lemma read_path_header_parse file h off e :
  bytes_ok file → zlen file <= UINT32_MAX → segment_parse_header file (zlen file) = Ok (h, off, e) →
  segment_read_path_header (Ok file) = Ok (h, off, zlen file).
Proof.
  intros Hok Hsz Hp. destruct (read_metadata_parse file h off e Hok Hsz Hp) as [Hm Hpm].
  unfold segment_read_path_header. rewrite Hm. cbn [rbind]. rewrite Hpm. done.
Qed.

(** A file whose frames can be scanned can be opened for random access. *)
Lemma scanned_reader_opens {T} file d (cb : segment_frame_cb T) ctx h ft c ctx' :
  bytes_ok file → zlen file <= UINT32_MAX → segment_scan_path (Ok file) d (Some cb) ctx = ScanDone h ft c ctx' →
  ∃ reader, segment_frame_reader_open (Ok file) d = Ok reader.
Proof.
  intros Hok Hsz. unfold segment_scan_path, segment_scan_path_from_offset, segment_scan_impl.
  destruct (zlen file =? 0); [done|].
  destruct (segment_parse_header file (zlen file)) as [[[h0 off] e]|] eqn:Hp; [|done].
  destruct (scan_dek h0 e d true) as [dek|] eqn:Hdk; [|done]. intros _.
  destruct (read_metadata_parse file h0 off e Hok Hsz Hp) as [Hm Hpm].
  unfold segment_frame_reader_open. rewrite Hm. cbn [rbind]. rewrite Hpm. cbn [rbind]. rewrite Hdk. by eexists.
Qed.

Lemma open_index_image h off e file ds :
  bytes_ok file → zlen file <= UINT32_MAX → segment_parse_header file (zlen file) = Ok (h, off, e) →
  is_u64 (sh_segment_seq h) → is_u32 (sh_flags h) →
  deliveries_fit ds → chained off (zlen file) ds → zlen ds <= UINT32_MAX →
  let idx := index_image (sh_segment_seq h) (sh_flags h) ds (zlen file) in
  index_open_read (Ok idx) (Ok file) = Ok (idx, zlen ds).
Proof.
  intros Hok Hsz Hp Hseq Hfl Hfit Hch Hds idx.
  pose proof (zlen_index_records ds Hfit) as Hz. pose proof (zlen_nonneg ds). pose proof (zlen_nonneg file).
  set (hd := index_header (sh_segment_seq h) (sh_flags h)).
  set (body := hd ++ index_records ds).
  set (ft := index_footer (zlen ds) (zlen file) (recorder_crc32 body (zlen body))).
  assert (Hidx : idx = body ++ ft) by done.
  assert (Hbl : zlen body = 24 + 83 * zlen ds) by (unfold body, hd; rewrite zlen_app, zlen_index_header, Hz; lia).
  assert (Hl : zlen idx = 52 + 83 * zlen ds) by (rewrite Hidx, zlen_app; unfold ft; rewrite zlen_index_footer; lia).
  unfold index_open_read, RECORDER_INDEX_HEADER_SIZE, RECORDER_INDEX_FOOTER_SIZE, RECORDER_INDEX_RECORD_SIZE, pread_exact.
  cbn [rbind]. rewrite Hl. destruct (Z.ltb_spec (52 + 83 * zlen ds) 24); [lia|]. cbn [negb guard_res rbind].
  destruct (Z.leb_spec (0 + 24) (52 + 83 * zlen ds)); [|lia]. cbn [guard_res rbind].
  assert (Hhd : slice 0 24 idx = hd).
  { rewrite Hidx. unfold body, slice. rewrite zdrop_0, <-app_assoc. apply ztake_app_eq. apply zlen_index_header. }
  rewrite Hhd.
  assert (E0 : ztake 8 hd = RECORDER_INDEX_MAGIC) by (unfold hd, index_header; by apply ztake_app_eq).
  assert (E8 : read_u32_le (zdrop 8 hd) = 1).
  { unfold hd, index_header. rewrite zdrop_app_eq by done. by rewrite read_write_u32_le. }
  assert (E12 : read_u64_le (zdrop 12 hd) = sh_segment_seq h).
  { unfold hd, index_header. rewrite zdrop_app_ge by (change (zlen RECORDER_INDEX_MAGIC) with 8; lia).
    rewrite zdrop_app_eq by done. rewrite read_write_u64_le. by apply u64_id. }
  assert (E20 : read_u32_le (zdrop 20 hd) = sh_flags h).
  { unfold hd, index_header. rewrite zdrop_app_ge by (change (zlen RECORDER_INDEX_MAGIC) with 8; lia).
    rewrite zdrop_app_ge by (rewrite zlen_write_u32_le; change (zlen RECORDER_INDEX_MAGIC) with 8; lia).
    rewrite zdrop_app_eq by done. rewrite <-(app_nil_r (write_u32_le _)), read_write_u32_le. by apply u32_id. }
  rewrite E0, E8, E12, E20, beq_refl. cbn [guard_res rbind].
  assert (Hft : slice (52 + 83 * zlen ds - 28) 28 idx = ft).
  { rewrite Hidx. unfold slice. rewrite zdrop_app_eq by lia. apply ztake_ge. unfold ft. rewrite zlen_index_footer. lia. }
  rewrite Hft.
  assert (F0 : ztake 8 ft = RECORDER_INDEX_FOOTER_MAGIC) by (unfold ft, index_footer; by apply ztake_app_eq).
  assert (F8 : read_u64_le (zdrop 8 ft) = zlen ds).
  { unfold ft, index_footer. rewrite zdrop_app_eq by done. rewrite read_write_u64_le. apply u64_id.
    unfold is_u64, UINT32_MAX in *. lia. }
  assert (F16 : read_u64_le (zdrop 16 ft) = zlen file).
  { unfold ft, index_footer. rewrite zdrop_app_ge by (change (zlen RECORDER_INDEX_FOOTER_MAGIC) with 8; lia).
    rewrite zdrop_app_eq by done. rewrite read_write_u64_le. apply u64_id. unfold is_u64, UINT32_MAX in *. lia. }
  assert (F24 : read_u32_le (zdrop 24 ft) = recorder_crc32 body (zlen body)).
  { unfold ft, index_footer. rewrite zdrop_app_ge by (change (zlen RECORDER_INDEX_FOOTER_MAGIC) with 8; lia).
    rewrite zdrop_app_ge by (rewrite zlen_write_u64_le; change (zlen RECORDER_INDEX_FOOTER_MAGIC) with 8; lia).
    rewrite zdrop_app_eq by done. rewrite <-(app_nil_r (write_u32_le _)), read_write_u32_le.
    apply u32_id, recorder_crc32_range. }
  rewrite F0, F8, F16, F24, beq_refl.
  destruct (Z.leb_spec (24 + 28) (52 + 83 * zlen ds)); [|lia]. cbn [andb].
  assert (Hcrc : recorder_crc32 idx (52 + 83 * zlen ds - 28) = recorder_crc32 body (zlen body)).
  { replace (52 + 83 * zlen ds - 28) with (zlen body) by lia. rewrite Hidx. by apply recorder_crc32_app. }
  rewrite Hcrc, Z.eqb_refl.
  replace (52 + 83 * zlen ds - 24 - 28) with (zlen ds * 83) by lia.
  rewrite Z.div_mul, Z.mod_mul, !Z.eqb_refl by lia. cbn [andb guard_res rbind].
  destruct (Z.ltb_spec SIZE_MAX (zlen ds)); [unfold SIZE_MAX, UINT64_MAX, UINT32_MAX in *; lia|].
  cbn [negb guard_res rbind]. unfold index_validate_segment.
  rewrite (read_path_header_parse file h off e) by done. rewrite !Z.eqb_refl. cbn [andb guard_res rbind].
  destruct (validate_image (sh_segment_seq h) (sh_flags h) ds (zlen file) (zlen file) (length ds) 0 off)
    as [end_ Hv]; [done|lia|done|].
  replace (Z.to_nat (zlen ds)) with (length ds) by (unfold zlen; lia). fold idx in Hv. change (Z.of_nat 0) with 0 in Hv. rewrite Hv.
  cbn [rbind]. by rewrite ?Z.eqb_refl.
Qed.

Lemma chained_fit off size ds : 0 <= off → size <= UINT32_MAX → chained off size ds → deliveries_fit ds.
Proof.
  revert off. induction ds as [|[[h i] c] ds IH]; intros off H0 Hsz; [constructor|].
  intros (Ho & H20 & Hu & Hle & Hc). constructor.
  - cbn. split; [|done]. unfold is_u64, is_u32, UINT32_MAX in *. lia.
  - apply (IH (off + fi_frame_len i)); [lia|done|done].
Qed.

Lemma chained_count off size ds : chained off size ds → off + 20 * zlen ds <= Z.max off size.
Proof.
  revert off. induction ds as [|[[h i] c] ds IH]; intros off; [intros _; change (zlen (@nil delivery)) with 0; lia|].
  intros (Ho & H20 & Hu & Hle & Hc). apply IH in Hc. rewrite zlen_cons. lia.
Qed.

(** What the rebuild writes: the index opens for the segment with one record per
    frame of the scan. *)
Lemma rebuild_image data d h ft ds tmp :
  bytes_ok data → zlen data <= UINT32_MAX →
  segment_scan_path (Ok data) d (Some collect) [] = ScanDone h ft (zlen data) ds →
  f_data tmp = [] → 52 + 83 * zlen ds <= f_budget tmp →
  ∃ idx, index_rebuild_for_segment (Ok data) (Some tmp) d = Ok idx ∧
    index_open_read (Ok idx) (Ok data) = Ok (idx, zlen ds) ∧
    ∀ k d, ds !! k = Some d → index_pread_frame idx (Z.of_nat k) = Ok (delivery_frame d).
Proof.
  intros Hok Hsz Hscan Htmp Hroom. unfold segment_scan_path, segment_scan_path_from_offset in Hscan.
  pose proof (zlen_nonneg ds).
  assert (Hnz : (zlen data =? 0) = false) by (by destruct (zlen data =? 0)).
  rewrite Hnz in Hscan. unfold segment_scan_impl in Hscan.
  destruct (segment_parse_header data (zlen data)) as [[[h0 off] e]|] eqn:Hp; [|done].
  destruct (scan_dek h0 e d true) as [dek|] eqn:Hdk; [|done].
  destruct (parsed_nonwrap data (zlen data) h0 off e) as (Hoff & Hdl & Hhs & Hle); [done|lia|done|].
  assert (Hfh : is_u64 (sh_segment_seq h0) ∧ is_u32 (sh_flags h0)).
  { apply parse_header_facts in Hp as (_ & _ & _ & ->). cbn.
    split; [apply read_u64_le_range|apply read_u32_le_range]; by apply Forall_drop. }
  destruct Hfh as [Hseq Hfl].
  set (w := mkIndexWriter (mkFile (index_header (sh_segment_seq h0) (sh_flags h0)) (f_budget tmp - 24) (f_errno tmp)) 0).
  set (w' := mkIndexWriter (mkFile (index_header (sh_segment_seq h0) (sh_flags h0) ++ index_records ds)
      (f_budget tmp - 24 - 83 * zlen ds) (f_errno tmp)) (zlen ds)).
  pose proof Hscan as Hh. apply loop_bounds in Hh as [-> _]; [|done|lia].
  assert (H0off : 0 <= off) by lia.
  pose proof (loop_run_cb append_index_frame_cb _ _ _ _ _ _ _ _ _ _ _ _ _ _ _ w w' Hok H0off Hscan)
    as (new & Hnew & Hch & Hrun). cbn [app] in Hnew. subst new.
  pose proof (chained_fit off _ ds ltac:(lia) Hsz Hch) as Hfit.
  pose proof (chained_count off _ ds Hch) as Hcnt.
  assert (Happ : run_cb append_index_frame_cb ds w = Some w').
  { rewrite run_append; [done|done|cbn; lia|cbn; lia|cbn; unfold UINT64_MAX, UINT32_MAX in *; lia]. }
  destruct (Hrun Happ eq_refl) as [Hcb Hnone].
  set (idx := index_image (sh_segment_seq h0) (sh_flags h0) ds (zlen data)).
  assert (Hopen : index_open_read (Ok idx) (Ok data) = Ok (idx, zlen ds)).
  { apply (open_index_image h0 off e); try done. unfold UINT32_MAX in *. lia. }
  exists idx. split_and!; [|done|].
  - unfold index_rebuild_for_segment, segment_scan_path, segment_scan_path_from_offset, segment_scan_impl.
    rewrite Hnz, Hp.
    assert (Hdk0 : scan_dek h0 e d false = Ok (replicate 32 0)) by (unfold scan_dek; by rewrite andb_false_r).
    rewrite Hdk0, Hnone, Hdk. unfold index_writer_open.
    rewrite write_all_room by (rewrite zlen_index_header; lia). rewrite zlen_index_header, Htmp, app_nil_l.
    cbn [rbind]. fold w. rewrite Hcb. unfold index_writer_close, w'. cbn [iw_fp iw_record_count f_data].
    rewrite write_all_room by (rewrite zlen_index_footer; cbn; lia). done.
  - intros k dk Hk. by apply pread_index_image.
Qed.

(** A rebuilt index is valid and complete.  For a segment file whose scan
    succeeds and commits the whole file, with [ds] the frames it delivers,
    [index_rebuild_for_segment] succeeds on a disk with room, and the file it
    renames into place is accepted by [index_open_read] for this segment, counts
    exactly the frames of the scan, and its record [k] is the summary of frame
    [k]. *)
Theorem rebuilt_index_opens data d h ft ds tmp :
  bytes_ok data → zlen data <= UINT32_MAX →
  segment_scan_path (Ok data) d (Some collect) [] = ScanDone h ft (zlen data) ds →
  f_data tmp = [] → 52 + 83 * zlen ds <= f_budget tmp →
  ∃ idx, index_rebuild_for_segment (Ok data) (Some tmp) d = Ok idx ∧
    index_get_frame_count (Ok idx) (Ok data) = Ok (zlen ds) ∧
    ∀ k h' frame chunk, ds !! k = Some (h', frame, chunk) →
      index_read_frame (Ok idx) (Ok data) (Z.of_nat k) = Ok (index_frame_of h' frame chunk).
Proof.
  intros Hok Hsz Hscan Htmp Hroom. destruct (rebuild_image data d h ft ds tmp) as (idx & Hre & Hopen & Hread); try done.
  exists idx. split; [done|]. unfold index_get_frame_count, index_read_frame. rewrite Hopen. cbn [rbind]. split; [done|].
  intros k h' frame chunk Hk. destruct (Z.ltb_spec (Z.of_nat k) (zlen ds)); [by apply (Hread k (h', frame, chunk))|].
  apply lookup_lt_Some in Hk. unfold zlen in *. lia.
Qed.
End index.
