(* ===== verification/IndexSearch.v ===== *)
(** * Searching an index

    The bisections of index.c on an index that was accepted by
    [index_open_read]: termination and what the result says. *)
From S2P Require Import Prelude Bytes Crypto Segment SegmentImage SegmentScan SegmentWrite Chunk.
From S2P Require Import Models ChunkModel SegmentSpec SegmentSafety Index IndexProofs.

(** Record [i] of an open index. *)
Definition record_at (file : bytes) (i : Z) (f : IndexFrame) : Prop := index_pread_frame file i = Ok f.

Lemma record_at_inj file i f g : record_at file i f → record_at file i g → f = g.
Proof. unfold record_at. congruence. Qed.

(** ** What validation established *)
Lemma validate_frames_records n file i e size e' :
  validate_frames n file i e size = Ok e' →
  ∀ k, 0 <= k < Z.of_nat n → ∃ f, record_at file (i + k) f ∧ 20 <= if_frame_len f ∧
    (k = 0 → if_file_offset f = e) ∧
    (∀ g, k + 1 < Z.of_nat n → record_at file (i + k + 1) g →
       if_file_offset g = if_file_offset f + if_frame_len f).
Proof.
  revert i e. induction n as [|n IH]; intros i e; [intros; lia|]. cbn [validate_frames].
  destruct (index_pread_frame file i) as [f|] eqn:Hf; [|done].
  destruct (Z.ltb_spec (if_frame_len f) 20); [done|].
  destruct (Z.eqb_spec (if_file_offset f) e) as [He|]; [|done].
  destruct (size - e <? if_frame_len f); [done|]. cbn [orb negb guard_res rbind].
  intros Hv k Hk. destruct (Z.eqb_spec k 0) as [->|].
  - exists f. rewrite !Z.add_0_r. split; [done|]. split; [done|]. split; [done|].
    intros g Hn Hg. rewrite He.
    destruct (IH _ _ Hv 0 ltac:(lia)) as (g' & Hg' & _ & H0 & _). rewrite Z.add_0_r in Hg'.
    rewrite (record_at_inj _ _ _ _ Hg Hg'). by apply H0.
  - destruct (IH _ _ Hv (k - 1) ltac:(lia)) as (g & Hg & H20 & H0 & Hs).
    replace (i + 1 + (k - 1)) with (i + k) in * by lia. exists g. split; [done|]. split; [done|].
    split; [done|]. intros g' Hn Hg'. apply Hs; [lia|done].
Qed.

Lemma open_read_records path segment file count :
  index_open_read path segment = Ok (file, count) →
  path = Ok file ∧
  (∀ k, 0 <= k < count → ∃ f, record_at file k f ∧ 20 <= if_frame_len f ∧
    ∀ g, k + 1 < count → record_at file (k + 1) g → if_file_offset g = if_file_offset f + if_frame_len f).
Proof.
  unfold index_open_read. destruct path as [file0|]; [|done]. cbn [rbind]. intros H.
  apply rbind_ok in H as (? & _ & H). apply rbind_ok in H as (hd & _ & H).
  apply rbind_ok in H as (? & _ & H). apply rbind_ok in H as (? & _ & H).
  apply rbind_ok in H as ([count0 ce] & _ & H). apply rbind_ok in H as (? & _ & H).
  apply rbind_ok in H as (? & Hv & H). injection H as -> ->. split; [done|].
  unfold index_validate_segment in Hv. destruct (segment_read_path_header segment) as [[[h off] size]|]; [|done].
  apply rbind_ok in Hv as (? & _ & Hv). apply rbind_ok in Hv as (e' & Hv & _).
  intros k Hk. destruct (validate_frames_records _ _ _ _ _ _ Hv k) as (f & Hf & H20 & _ & Hs); [lia|].
  exists f. split; [done|]. split; [done|]. intros g Hlt Hg. apply Hs; [lia|done].
Qed.

(** ** Bisection *)
Section bisect.
Context (file : bytes) (before : IndexFrame → bool) (count : Z).
Context (Hall : ∀ k, 0 <= k < count → ∃ f, record_at file k f).
(** Once a record is not before the target, no later one is. *)
Context (Hmono : ∀ i j f g, 0 <= i → i <= j → j < count → record_at file i f → record_at file j g →
  before g = true → before f = true).

Lemma bisect_spec fuel lo hi :
  0 <= lo <= hi → hi <= count → hi - lo < Z.of_nat fuel →
  (∀ k f, 0 <= k < lo → record_at file k f → before f = true) →
  (∀ k f, hi <= k < count → record_at file k f → before f = false) →
  ∃ r, bisect fuel file before lo hi = Ok r ∧ 0 <= r <= count ∧
    (∀ k f, 0 <= k < r → record_at file k f → before f = true) ∧
    (∀ k f, r <= k < count → record_at file k f → before f = false).
Proof.
  revert lo hi. induction fuel as [|fuel IH]; intros lo hi Hlh Hc Hf Hlo Hhi; [lia|]. cbn [bisect].
  destruct (Z.ltb_spec lo hi).
  2:{ exists lo. replace hi with lo in * by lia. split; [done|]. split; [lia|]. split; [done|done]. }
  pose proof (Z.div_le_upper_bound (hi - lo) 2 (hi - lo)). pose proof (Z.div_pos (hi - lo) 2).
  pose proof (Z.div_lt (hi - lo) 2). set (mid := lo + (hi - lo) / 2) in *.
  assert (lo <= mid < hi) by lia.
  destruct (Hall mid ltac:(lia)) as [fm Hm]. unfold record_at in Hm at 1. rewrite Hm. cbn [rbind].
  destruct (before fm) eqn:Hb.
  - apply IH; try lia; [|done]. intros k f Hk Hkf. eapply (Hmono k mid f fm); eauto; lia.
  - apply IH; try lia; [done|]. intros k f Hk Hkf. apply not_true_iff_false. intros Ht.
    rewrite (Hmono mid k fm f) in Hb; try done; lia.
Qed.
End bisect.

Lemma index_find_spec path segment before file count :
  index_open_read path segment = Ok (file, count) →
  (∀ i j f g, 0 <= i → i <= j → j < count → record_at file i f → record_at file j g →
     before g = true → before f = true) →
  match index_find path segment before with
  | FindError _ => False
  | FindNone => ∀ k f, 0 <= k < count → record_at file k f → before f = true
  | FindFrame frame i =>
      0 <= i < count ∧ record_at file i frame ∧ before frame = false ∧
      ∀ k f, 0 <= k < i → record_at file k f → before f = true
  end.
Proof.
  intros Ho Hmono. pose proof (open_read_records _ _ _ _ Ho) as [_ Hall].
  unfold index_find. rewrite Ho.
  destruct (Z.ltb_spec count 0).
  { replace (Z.to_nat count) with O by lia. cbn [bisect]. destruct (Z.ltb_spec 0 count); [lia|].
    destruct (Z.ltb_spec 0 count); [lia|]. intros. lia. }
  destruct (bisect_spec file before count) with (fuel := S (Z.to_nat count)) (lo := 0) (hi := count)
    as (r & -> & Hr & Hlt & Hge); [|done|lia|lia|lia|intros; lia|intros; lia|].
  { intros k Hk. destruct (Hall k Hk) as (f & Hf & _). eauto. }
  destruct (Z.ltb_spec r count).
  - destruct (Hall r ltac:(lia)) as (f & Hf & _). unfold record_at in Hf at 1. rewrite Hf.
    split; [lia|]. split; [done|]. split; [apply (Hge r); [lia|done]|]. intros k g Hk. apply Hlt. lia.
  - intros k f Hk. apply Hlt. lia.
Qed.

(** Offsets of a validated index increase. *)
Lemma open_read_increasing path segment file count i j f g :
  index_open_read path segment = Ok (file, count) → 0 <= i → i < j → j < count →
  record_at file i f → record_at file j g → if_file_offset f < if_file_offset g.
Proof.
  intros Ho Hi. pose proof (open_read_records _ _ _ _ Ho) as [_ Hall].
  intros Hij Hj Hf Hg. remember (Z.to_nat (j - i - 1)) as n eqn:Hn.
  revert j g Hij Hj Hg Hn. induction n as [|n IH]; intros j g Hij Hj Hg Hn.
  - destruct (Hall i ltac:(lia)) as (f' & Hf' & H20 & Hs). rewrite (record_at_inj _ _ _ _ Hf Hf').
    rewrite (Hs g); [lia|lia|]. by replace (i + 1) with j by lia.
  - destruct (Hall (j - 1) ltac:(lia)) as (m & Hm & H20 & Hs).
    assert (if_file_offset f < if_file_offset m) by (apply (IH (j - 1) m); (done || lia)).
    rewrite (Hs g); [lia|lia|]. by replace (j - 1 + 1) with j by lia.
Qed.

(** Lookup by offset is exact.  On an index that opens for its segment,
    [index_find_offset_frame] succeeds with record [i] exactly when record [i]
    is the frame at that offset; in every other case it reports an error. *)
Theorem find_offset_exact path segment file count offset frame i :
  index_open_read path segment = Ok (file, count) →
  index_find_offset_frame path segment offset = Ok (frame, i) ↔
  0 <= i < count ∧ record_at file i frame ∧ if_file_offset frame = offset.
Proof.
  intros Ho. unfold index_find_offset_frame.
  pose proof (index_find_spec path segment (λ f, if_file_offset f <? offset) file count Ho) as Hs.
  lapply Hs; [clear Hs; intros Hfind|clear Hs; cbn beta].
  2:{ intros a b f g Ha Hab Hb Hf Hg Hlt. destruct (Z.eqb_spec a b) as [->|].
    - by rewrite (record_at_inj _ _ _ _ Hf Hg).
    - pose proof (open_read_increasing _ _ _ _ a b f g Ho Ha ltac:(lia) Hb Hf Hg). bool_lia. }
  destruct (index_find _ _ _) as [e| |fr j]; [done| |].
  - split; [done|]. intros (Hi & Hr & Hoff). apply Hfind in Hr; [|done]. bool_lia.
  - destruct Hfind as (Hj & Hrj & Hbj & Hlt). apply Z.ltb_ge in Hbj.
    destruct (Z.eqb_spec (if_file_offset fr) offset) as [Heq|Hne].
    + split; [intros [= -> ->]; done|]. intros (Hi & Hr & Hoff).
      destruct (Z.lt_trichotomy i j) as [Hij|[->|Hij]].
      * pose proof (Hlt i frame ltac:(lia) Hr) as Hb. apply Z.ltb_lt in Hb. lia.
      * by rewrite (record_at_inj _ _ _ _ Hr Hrj).
      * pose proof (open_read_increasing _ _ _ _ j i fr frame Ho ltac:(lia) Hij ltac:(lia) Hrj Hr). lia.
    + split; [done|]. intros (Hi & Hr & Hoff).
      destruct (Z.lt_trichotomy i j) as [Hij|[->|Hij]].
      * pose proof (Hlt i frame ltac:(lia) Hr) as Hb. apply Z.ltb_lt in Hb. lia.
      * by rewrite (record_at_inj _ _ _ _ Hr Hrj) in Hoff.
      * pose proof (open_read_increasing _ _ _ _ j i fr frame Ho ltac:(lia) Hij ltac:(lia) Hrj Hr). lia.
Qed.

(** Lookup by time.  If the frames' latest timestamps do not go backwards,
    [index_find_realtime_frame] gives the first frame that reaches [usec], or
    reports that no frame does; it never fails on an index that opens. *)
Theorem find_realtime_first path segment file count usec :
  index_open_read path segment = Ok (file, count) →
  (∀ i j f g, 0 <= i → i <= j → j < count → record_at file i f → record_at file j g →
     if_max_realtime_ts f <= if_max_realtime_ts g) →
  match index_find_realtime_frame path segment usec with
  | FindError _ => False
  | FindNone => ∀ k f, 0 <= k < count → record_at file k f → if_max_realtime_ts f < usec
  | FindFrame frame i =>
      0 <= i < count ∧ record_at file i frame ∧ usec <= if_max_realtime_ts frame ∧
      ∀ k f, 0 <= k < i → record_at file k f → if_max_realtime_ts f < usec
  end.
Proof.
  intros Ho Hsorted. unfold index_find_realtime_frame.
  pose proof (index_find_spec path segment (λ f, if_max_realtime_ts f <? usec) file count Ho) as Hs.
  lapply Hs; [clear Hs; intros Hfind|clear Hs; cbn beta].
  2:{ intros a b f g Ha Hab Hb Hf Hg Hlt. pose proof (Hsorted a b f g Ha Hab Hb Hf Hg). bool_lia. }
  destruct (index_find _ _ _) as [e| |fr j]; [done| |].
  - intros k f Hk Hf. apply Z.ltb_lt. eauto.
  - destruct Hfind as (Hj & Hrj & Hbj & Hlt). apply Z.ltb_ge in Hbj.
    split; [done|]. split; [done|]. split; [done|]. intros k f Hk Hf. apply Z.ltb_lt. eauto.
Qed.

(** ** Concrete indexes *)
#[local] Existing Instance toy_lib.
#[local] Existing Instance toy_flatcc.
#[local] Existing Instance toy_flatcc_ok.

Definition log_chunk (times : list Z) : bytes :=
  journal_DefaultChunk_create (map (λ t, mkCompactEntry t (t + 1) 6 (Some (C "up")) 42 (Some (C "sshd.service")) 0) times).

Definition log_requests (frames : list (list Z)) : list request :=
  map (λ times, (0, log_chunk times, zlen (log_chunk times))) frames.

Definition log_segment (frames : list (list Z)) : bytes :=
  let '(_, fp1, enc1, _) := segment_write_header demo_file (demo_header 4) [] None 0 in
  let '(_, fp2, _) := write_frames fp1 enc1 (log_requests frames) in
  f_data (segment_write_footer fp2 demo_footer).2.

Definition log_index (frames : list (list Z)) : Res bytes :=
  index_rebuild_for_segment (Ok (log_segment frames)) (Some demo_file) None.

Definition ordered_log : list (list Z) := [[10; 20]; [30; 25]; [90]].
Definition ordered_bytes : bytes := log_segment ordered_log.
Definition ordered_index : bytes := match log_index ordered_log with Ok i => i | Err _ => [] end.

Lemma index_frame_covers_witness :
  let f := index_frame_of (demo_header 4) (mkSegmentFrameInfo 0 0 0 152 0) (log_chunk [30; 25]) in
  if_min_realtime_ts f <= 25 <= if_max_realtime_ts f ∧
  index_frame_may_contain_service f (Some (C "sshd.service")) = true.
Proof.
  destruct (index_frame_covers (demo_header 4) (mkSegmentFrameInfo 0 0 0 152 0) (log_chunk [30; 25])
    25 26 6 (Some (C "sshd.service"))) as (H1 & _ & H2 & _).
  - vm_compute. right. left.
  - split; [exact H1|exact H2].
Defined.

Lemma rebuilt_index_opens_witness :
  ∃ idx, index_rebuild_for_segment (Ok ordered_bytes) (Some demo_file) None = Ok idx ∧
    index_get_frame_count (Ok idx) (Ok ordered_bytes) = Ok 3.
Proof.
  destruct (rebuilt_index_opens ordered_bytes None (with_dict_len (demo_header 4) 0) (present_footer demo_footer)
    (match segment_scan_path (Ok ordered_bytes) None (Some collect) [] with ScanDone _ _ _ ds => ds | _ => [] end)
    demo_file) as (idx & H1 & H2 & _).
  - apply all_u8_ok. vm_compute. reflexivity.
  - vm_compute. congruence.
  - vm_compute. reflexivity.
  - reflexivity.
  - vm_compute. congruence.
  - exists idx. split; [exact H1|exact H2].
Defined.

Lemma ordered_open : index_open_read (Ok ordered_index) (Ok ordered_bytes) = Ok (ordered_index, 3).
Proof. vm_compute. reflexivity. Qed.

Definition ordered_record (i : Z) : IndexFrame :=
  match index_pread_frame ordered_index i with Ok f => f | Err _ => mkIndexFrame 0 0 0 0 0 0 0 0 0 [] 0 end.

Lemma find_offset_exact_witness :
  index_find_offset_frame (Ok ordered_index) (Ok ordered_bytes) (if_file_offset (ordered_record 1)) =
    Ok (ordered_record 1, 1).
Proof.
  apply (find_offset_exact (Ok ordered_index) (Ok ordered_bytes) ordered_index 3).
  - apply ordered_open.
  - split; [lia|]. split; [vm_compute; reflexivity|reflexivity].
Defined.

Lemma ordered_sorted i j f g :
  0 <= i → i <= j → j < 3 → record_at ordered_index i f → record_at ordered_index j g →
  if_max_realtime_ts f <= if_max_realtime_ts g.
Proof.
  unfold record_at. intros Hi Hij Hj.
  assert (Hc : (i = 0 ∨ i = 1 ∨ i = 2) ∧ (j = 0 ∨ j = 1 ∨ j = 2)) by lia.
  destruct Hc as [[-> |[-> | ->]] [-> |[-> | ->]]]; try lia; vm_compute; intros [= <-] [= <-]; vm_compute; congruence.
Qed.

Lemma find_realtime_first_witness :
  index_find_realtime_frame (Ok ordered_index) (Ok ordered_bytes) 27 = FindFrame (ordered_record 1) 1 ∧
  27 <= if_max_realtime_ts (ordered_record 1).
Proof.
  pose proof (find_realtime_first (Ok ordered_index) (Ok ordered_bytes) ordered_index 3 27 ordered_open ordered_sorted) as H.
  assert (E : index_find_realtime_frame (Ok ordered_index) (Ok ordered_bytes) 27 = FindFrame (ordered_record 1) 1)
    by (vm_compute; reflexivity).
  rewrite E in H. split; [exact E|]. exact (proj1 (proj2 (proj2 H))).
Defined.

(** With a clock that was set back between two frames the search answers that no
    frame can contain the time, although the first frame does. *)
Definition backward_log : list (list Z) := [[40; 100]; [50]].

Lemma realtime_search_misses_frame :
  ∃ idx, log_index backward_log = Ok idx ∧
    index_find_realtime_frame (Ok idx) (Ok (log_segment backward_log)) 60 = FindNone ∧
    match index_pread_frame idx 0 with
    | Ok f => if_min_realtime_ts f <= 60 <= if_max_realtime_ts f
    | Err _ => False
    end.
Proof.
  eexists. split; [vm_compute; reflexivity|]. split; [vm_compute; reflexivity|].
  vm_compute. split; congruence.
Qed.
