(* ===== verification/CText.v ===== *)
(** * The C library's text functions

    [strtoull] and [printf("%" PRIu64)] as the sources use them, on C strings
    (lists of bytes without terminator, in the C locale). *)
From S2P Require Import Prelude.

Definition isspace (c : Z) : bool := (c =? 32) || ((9 <=? c) && (c <=? 13)).
Definition isdigit (c : Z) : bool := (48 <=? c) && (c <=? 57).
Definition isupper (c : Z) : bool := (65 <=? c) && (c <=? 90).
Definition islower (c : Z) : bool := (97 <=? c) && (c <=? 122).
Definition isalnum (c : Z) : bool := isdigit c || isupper c || islower c.

Fixpoint skip_space (s : bytes) : bytes :=
  match s with
  | c :: s' => if isspace c then skip_space s' else s
  | [] => []
  end.

(** Leading decimal digits: their value on top of [acc], how many, and the rest. *)
Fixpoint dec_digits (acc : Z) (s : bytes) : Z * bool * bytes :=
  match s with
  | c :: s' =>
      if isdigit c
      then let '(v, _, r) := dec_digits (acc * 10 + (c - 48)) s' in (v, true, r)
      else (acc, false, s)
  | [] => (acc, false, s)
  end.

(** [strtoull(s, &end, 10)]: value, [end] and whether [errno] was set to ERANGE.
    Without digits the value is 0 and [end] is [s]; a minus sign negates in
    unsigned arithmetic. *)
Definition strtoull10 (s : bytes) : Z * bytes * bool :=
  let t := skip_space s in
  let '(neg, u) :=
    match t with
    | c :: t' => if c =? 45 then (true, t') else if c =? 43 then (false, t') else (false, t)
    | [] => (false, t)
    end in
  let '(v, any, rest) := dec_digits 0 u in
  if negb any then (0, s, false)
  else if UINT64_MAX <? v then (UINT64_MAX, rest, true)
  else (if neg then u64 (- v) else v, rest, false).

(** [strtol(s, &end, 10)] for a 64-bit [long], which saturates. *)
Definition strtol10 (s : bytes) : Z * bytes * bool :=
  let t := skip_space s in
  let '(neg, u) :=
    match t with
    | c :: t' => if c =? 45 then (true, t') else if c =? 43 then (false, t') else (false, t)
    | [] => (false, t)
    end in
  let '(v, any, rest) := dec_digits 0 u in
  if negb any then (0, s, false)
  else if neg then if 9223372036854775808 <? v then (-9223372036854775808, rest, true) else (- v, rest, false)
  else if 9223372036854775807 <? v then (9223372036854775807, rest, true) else (v, rest, false).

Definition toupper (c : Z) : Z := if islower c then c - 32 else c.

(** [snprintf(buf, n, "%" PRIu64, v)]: a uint64_t has at most 20 digits. *)
Fixpoint print_digits (fuel : nat) (v : Z) : bytes :=
  match fuel with
  | O => []
  | S fuel' => if v <? 10 then [48 + v] else print_digits fuel' (v / 10) ++ [48 + v mod 10]
  end.
Definition print_u64 (v : Z) : bytes := print_digits 20 v.

(** ** Reading back what was printed *)
Definition no_digit (s : bytes) : Prop := match s with c :: _ => isdigit c = false | [] => True end.

Lemma dec_digits_stop acc s : no_digit s → dec_digits acc s = (acc, false, s).
Proof. destruct s as [|c s]; cbn; [done|]. intros ->. done. Qed.

Definition all_digits (s : bytes) : Prop := Forall (λ c, isdigit c = true) s.

Definition digits_value (acc : Z) (s : bytes) : Z := fold_left (λ a c, a * 10 + (c - 48)) s acc.

Lemma dec_digits_app acc s rest :
  all_digits s → no_digit rest →
  dec_digits acc (s ++ rest) = (digits_value acc s, negb (zlen s =? 0), rest).
Proof.
  intros Hs Hr. revert acc. induction Hs as [|c s Hc Hs IH]; intros acc.
  { cbn. by apply dec_digits_stop. }
  cbn [app dec_digits]. rewrite Hc, IH. replace (zlen (c :: s) =? 0) with false; [done|].
  symmetry. apply Z.eqb_neq. rewrite zlen_cons. pose proof (zlen_nonneg s). lia.
Qed.

Lemma isdigit_digit d : 0 <= d < 10 → isdigit (48 + d) = true.
Proof. intros. unfold isdigit. apply andb_true_iff. rewrite !Z.leb_le. lia. Qed.

Lemma print_digits_ok fuel v :
  0 <= v < 10 ^ Z.of_nat fuel → (0 < fuel)%nat →
  all_digits (print_digits fuel v) ∧ digits_value 0 (print_digits fuel v) = v ∧ print_digits fuel v ≠ [].
Proof.
  revert v. induction fuel as [|fuel IH]; intros v Hv Hf; [lia|]. cbn [print_digits].
  destruct (Z.ltb_spec v 10).
  { split; [constructor; [apply isdigit_digit; lia|constructor]|]. split; [cbn; lia|done]. }
  rewrite Nat2Z.inj_succ, Z.pow_succ_r in Hv by lia.
  destruct (IH (v / 10)) as (Hd & Hval & _).
  { split; [apply Z.div_pos; lia|]. apply Z.div_lt_upper_bound; lia. }
  { destruct fuel; [|lia]. cbn in Hv. lia. }
  pose proof (Z.mod_pos_bound v 10 ltac:(lia)). pose proof (Z.div_mod v 10 ltac:(lia)).
  split; [|split].
  - apply Forall_app. split; [done|]. constructor; [apply isdigit_digit; lia|constructor].
  - unfold digits_value in *. rewrite fold_left_app, Hval. cbn. lia.
  - by destruct (print_digits fuel (v / 10)).
Qed.

Lemma isdigit_range c : isdigit c = true → 48 <= c <= 57.
Proof. unfold isdigit. intros. bool_lia. Qed.

Lemma strtoull_digits s rest :
  all_digits s → s ≠ [] → no_digit rest → digits_value 0 s <= UINT64_MAX →
  strtoull10 (s ++ rest) = (digits_value 0 s, rest, false).
Proof.
  intros Hs Hne Hr Hv. destruct s as [|c s]; [done|]. pose proof Hs as Hs'.
  apply Forall_cons in Hs' as [Hc _]. pose proof (isdigit_range c Hc) as Hcr.
  unfold strtoull10. cbn [app skip_space].
  assert (Hsp : isspace c = false).
  { unfold isspace. apply orb_false_iff. split; [apply Z.eqb_neq; lia|]. apply andb_false_iff. right. apply Z.leb_gt. lia. }
  rewrite Hsp. destruct (Z.eqb_spec c 45); [lia|]. destruct (Z.eqb_spec c 43); [lia|].
  change (c :: s ++ rest) with ((c :: s) ++ rest). rewrite dec_digits_app by done.
  assert (Hz : (zlen (c :: s) =? 0) = false).
  { apply Z.eqb_neq. rewrite zlen_cons. pose proof (zlen_nonneg s). lia. }
  rewrite Hz. cbn [negb]. destruct (Z.ltb_spec UINT64_MAX (digits_value 0 (c :: s))); [lia|done].
Qed.

Lemma strtoull_print v rest :
  is_u64 v → no_digit rest → strtoull10 (print_u64 v ++ rest) = (v, rest, false).
Proof.
  intros Hv Hr. destruct (print_digits_ok 20 v) as (Hd & Hval & Hne).
  { unfold is_u64 in Hv. change (10 ^ Z.of_nat 20) with 100000000000000000000. lia. }
  { lia. }
  unfold print_u64. rewrite strtoull_digits by (try done; rewrite Hval; unfold is_u64, UINT64_MAX in *; lia).
  by rewrite Hval.
Qed.

(** Values are 64-bit numbers. *)
Lemma digits_nonneg s acc : 0 <= acc → 0 <= (dec_digits acc s).1.1.
Proof.
  revert acc. induction s as [|c s IH]; intros acc Ha; cbn [dec_digits]; [done|].
  destruct (isdigit c) eqn:Hc; [|done]. apply isdigit_range in Hc. specialize (IH (acc * 10 + (c - 48)) ltac:(lia)).
  by destruct (dec_digits _ s) as [[v any] r].
Qed.
Lemma strtoull_range s : is_u64 (strtoull10 s).1.1.
Proof.
  unfold strtoull10. destruct (match skip_space s with [] => _ | _ => _ end) as [neg u].
  pose proof (digits_nonneg u 0 ltac:(lia)) as Hd. destruct (dec_digits 0 u) as [[v any] r]. cbn in Hd.
  destruct any; cbn [negb]; [|split; cbn; lia]. destruct (Z.ltb_spec UINT64_MAX v); [split; unfold UINT64_MAX; cbn; lia|].
  cbn. destruct neg; [apply u64_range|]. unfold is_u64, UINT64_MAX in *. lia.
Qed.
