(* ===== verification/Entry.v ===== *)
(** * Log entries (src/src/recorder.c)

    [LogEntry] and its serialisation into the tables of a chunk.  A
    [JournalField] whose [data] is NULL is [None]; the [owned_] pointers only say
    which copies to free and have no counterpart. *)
From S2P Require Import Prelude Bytes Crypto Segment SegmentImage Models Chunk.

Record JournalExtraField := mkJournalExtraField {
  jx_name : option bytes;
  jx_value : option bytes;
}.

Record LogEntry := mkLogEntry {
  le_realtime_ts : Z;
  le_monotonic_ts : Z;
  le_monotonic_tie_order : Z;
  le_pid : Z;
  le_uid : Z;
  le_gid : Z;
  le_boot_seq : Z;
  le_priority : Z;
  le_errno_value : Z;
  le_boot_id : bytes;
  le_message : option bytes;
  le_message_id : option bytes;
  le_hostname : option bytes;
  le_unit : option bytes;
  le_comm : option bytes;
  le_exe : option bytes;
  le_extra_fields : list JournalExtraField;
}.

(** The loop over the extra fields; a field without a name fails the entry.  A
    vector is created even for a NULL value. *)
Fixpoint serialize_fields (fs : list JournalExtraField) : option (list Field) :=
  match fs with
  | [] => Some []
  | f :: fs' =>
      match jx_name f with
      | None => None
      | Some name =>
          refs ← serialize_fields fs';
          Some (mkField (Some name) (Some (default [] (jx_value f))) :: refs)
      end
  end.

(** [None] is the null reference.  Absent numeric fields read back as 0, so the
    [if (entry->pid)] guards do not change the table's content. *)
Definition serialize_entry (entry : LogEntry) : option FullEntry :=
  fields ← serialize_fields (le_extra_fields entry);
  Some (mkFullEntry (le_realtime_ts entry) (le_monotonic_ts entry) (le_priority entry)
          (le_message entry) fields (le_message_id entry) (le_unit entry)
          (le_pid entry) (le_uid entry) (le_gid entry) (le_hostname entry)
          (le_comm entry) (le_exe entry) (le_errno_value entry) (le_monotonic_tie_order entry)).

Definition serialize_compact_entry (entry : LogEntry) : option CompactEntry :=
  Some (mkCompactEntry (le_realtime_ts entry) (le_monotonic_ts entry) (le_priority entry)
          (le_message entry) (le_pid entry) (le_unit entry) (le_monotonic_tie_order entry)).

(** The ranges of the C types, and strings without NUL bytes. *)
Record entry_wf (e : LogEntry) : Prop := {
  ewf_realtime : is_u64 (le_realtime_ts e);
  ewf_monotonic : is_u64 (le_monotonic_ts e);
  ewf_tie : is_u16 (le_monotonic_tie_order e);
  ewf_pid : is_u32 (le_pid e);
  ewf_uid : is_u32 (le_uid e);
  ewf_gid : is_u32 (le_gid e);
  ewf_boot_seq : is_u32 (le_boot_seq e);
  ewf_priority : is_u8 (le_priority e);
  ewf_errno : is_u16 (le_errno_value e);
  ewf_boot_id : is_cstr (le_boot_id e) ∧ zlen (le_boot_id e) <= 32;
  ewf_message : str_wf (le_message e);
  ewf_message_id : str_wf (le_message_id e);
  ewf_hostname : str_wf (le_hostname e);
  ewf_unit : str_wf (le_unit e);
  ewf_comm : str_wf (le_comm e);
  ewf_exe : str_wf (le_exe e);
}.

Lemma serialize_entry_wf e f : entry_wf e → serialize_entry e = Some f → full_wf f.
Proof.
  intros [] H. unfold serialize_entry in H. destruct (serialize_fields _); [|done].
  injection H as <-. by split.
Qed.
Lemma serialize_compact_entry_wf e c : entry_wf e → serialize_compact_entry e = Some c → compact_wf c.
Proof. intros [] [= <-]. by split. Qed.
