(* ===== verification/Store.v ===== *)
(** * The segment store on disk (src/src/recorder.c)

    The log directory as ordered lists of entries, in the order [readdir] gives
    them: group directories with their files, and the [state] directory.  Names
    of segments, the persisted sequence number, byte accounting and the start-up
    recovery.  Paths are assumed to fit their buffers, so [join_path_component]
    succeeds and a path is a pair of directory and file name. *)
From S2P Require Import Prelude Bytes Crypto Segment Chunk Index CText.

Definition PATH_MAX : Z := 4096.

(** [join_path_suffix] and [join_path_component] on C strings, with the size of
    the destination. *)
Definition join_path_suffix (path_size : Z) (base suffix : bytes) : Res bytes :=
  if (path_size <=? zlen base) || (path_size - zlen base <=? zlen suffix) then Err ENAMETOOLONG
  else Ok (base ++ suffix).
Definition join_path_component (path_size : Z) (base name : bytes) : Res bytes :=
  if (path_size <=? zlen base) || (path_size - zlen base <=? zlen name)
     || (path_size - zlen base - zlen name <=? 1) then Err ENAMETOOLONG
  else Ok (base ++ [47] ++ name).

Record DirFile := mkDirFile {
  df_name : bytes;
  df_data : bytes;
  df_mtime : Z;
}.
Record LogDir := mkLogDir {
  ld_name : bytes;
  ld_files : list DirFile;
}.
Record Store := mkStore {
  st_dirs : list LogDir;      (* subdirectories of the log directory *)
  st_state : list DirFile;    (* the files of [state] *)
}.

(** What the file system answers where it may fail: per directory and name. *)
Record FsEnv := mkFsEnv {
  fs_unlink_ok : bytes → bytes → bool;
  fs_truncate_ok : bytes → bytes → bool;
  fs_room : Z;                (* bytes a new file can hold *)
  fs_now : Z;                 (* time(NULL) *)
}.

Definition find_file (name : bytes) (files : list DirFile) : option DirFile :=
  List.find (λ f, beq (df_name f) name) files.
Definition remove_name (name : bytes) (files : list DirFile) : list DirFile :=
  List.filter (λ f, negb (beq (df_name f) name)) files.
(** [rename] over [name] or creation: replace the content, or append. *)
Fixpoint put_file (name data : bytes) (now : Z) (files : list DirFile) : list DirFile :=
  match files with
  | [] => [mkDirFile name data now]
  | f :: files' =>
      if beq (df_name f) name then mkDirFile name data now :: files'
      else f :: put_file name data now files'
  end.

Definition unlink (env : FsEnv) (dir name : bytes) (files : list DirFile) : list DirFile :=
  if fs_unlink_ok env dir name then remove_name name files else files.

(** ** Names *)
Definition valid_group_name (name : bytes) : bool :=
  negb (zlen name =? 0) && forallb (λ ch, isalnum ch || (ch =? 95) || (ch =? 45)) name.

Definition is_state_dir_name (name : bytes) : bool := beq name (C "state").
Definition is_segment_dir_name (name : bytes) : bool :=
  valid_group_name name && negb (is_state_dir_name name).

Definition segment_name (seq : Z) : bytes := print_u64 seq ++ C ".seg".
Definition segment_tmp_name (seq : Z) : bytes := print_u64 seq ++ C ".seg.tmp".
Definition index_name (seq : Z) : bytes := print_u64 seq ++ C ".idx".

Definition segment_seq_from_name (name : bytes) : option Z :=
  let '(value, end_, erange) := strtoull10 name in
  if erange || negb (beq end_ (C ".seg")) then None else Some value.

(** [strcmp(name + len - n, suffix) == 0] for a name longer than [min]. *)
Definition has_suffix (min : Z) (suffix name : bytes) : bool :=
  (min <=? zlen name) && beq (zdrop (zlen name - zlen suffix) name) suffix.

(** ** Visiting the group directories *)
Fixpoint for_each_segment_dir {T} (fn : LogDir → T → T) (dirs : list LogDir) (ctx : T) : T :=
  match dirs with
  | [] => ctx
  | d :: dirs' =>
      for_each_segment_dir fn dirs' (if is_segment_dir_name (ld_name d) then fn d ctx else ctx)
  end.

Definition scan_existing_segment_seq_max_cb (d : LogDir) (ctx : option Z) : option Z :=
  fold_left (λ scan f,
    match segment_seq_from_name (df_name f) with
    | None => scan
    | Some seq =>
        match scan with
        | Some max_seq => if max_seq <? seq then Some seq else scan
        | None => Some seq
        end
    end) (ld_files d) ctx.

Definition scan_existing_segment_seq_max (st : Store) : Z :=
  match for_each_segment_dir scan_existing_segment_seq_max_cb (st_dirs st) None with
  | Some max_seq => max_seq
  | None => 0
  end.

(** The persisted next sequence number; [None] is the [-1] return. *)
Definition parse_next_segment_seq (raw : bytes) : option Z :=
  let '(value, end_, erange) := strtoull10 (cstr raw) in
  if erange || negb (match end_ with [] => true | c :: _ => c =? 10 end) then None else Some value.

Definition read_persisted_next_segment_seq (st : Store) : option Z :=
  match find_file (C "segment_seq") (st_state st) with
  | None => None
  | Some f => parse_next_segment_seq (df_data f)
  end.

(** ** Atomic replacement of a state file

    [atomic_write_text_file] on one directory, as the sequence of directory
    contents that can be observed (and be left by a crash), oldest first.  The
    outcomes of the system calls are inputs, and so is the length of the
    directory's path with the slash: the path of the temporary file is cut at 511
    bytes. *)
Record AtomicEnv := mkAtomicEnv {
  aw_dir_size : Z;
  aw_mkdir : bool;
  aw_fopen : bool;
  aw_room : Z;              (* bytes that [fwrite] gets into the file *)
  aw_sync : bool;
  aw_rename : bool;
  aw_fsync_dir : bool;
  aw_errno : Errno;         (* errno of the step that fails *)
}.

Definition tmp_name (name : bytes) : bytes := name ++ C ".tmp".
Definition atomic_tmp_name (w : AtomicEnv) (name : bytes) : bytes := ztake (511 - aw_dir_size w) (tmp_name name).

(** [rename] inside a directory: what is under [old] is under [new] afterwards. *)
Definition rename_file (old new : bytes) (now : Z) (files : list DirFile) : list DirFile :=
  if beq old new then files
  else match find_file old files with
       | Some f => put_file new (df_data f) now (remove_name old files)
       | None => files
       end.

Definition atomic_write_text_file (w : AtomicEnv) (now : Z) (name text : bytes) (files : list DirFile)
    : Res unit * list (list DirFile) :=
  let tmp := atomic_tmp_name w name in
  if negb (aw_mkdir w) then (Err (aw_errno w), [files])
  else if negb (aw_fopen w) then (Err (aw_errno w), [files])
  else
    let opened := put_file tmp [] now files in
    let written := put_file tmp (ztake (aw_room w) text) now files in
    if negb (zlen text <=? aw_room w) || negb (aw_sync w)
    then (Err (aw_errno w), [files; opened; written; remove_name tmp written])
    else if negb (aw_rename w)
    then (Err (aw_errno w), [files; opened; written; remove_name tmp written])
    else
      let renamed := rename_file tmp name now written in
      (if aw_fsync_dir w then Ok tt else Err (aw_errno w), [files; opened; written; renamed]).

Definition after_write (w : AtomicEnv) (now : Z) (name text : bytes) (st : Store) : Res unit * Store :=
  let '(r, states) := atomic_write_text_file w now name text (st_state st) in
  (r, mkStore (st_dirs st) (List.last states (st_state st))).

Definition persist_next_segment_seq (env : FsEnv) (w : AtomicEnv) (value : Z) (st : Store) : Res unit * Store :=
  after_write w (fs_now env) (C "segment_seq") (print_u64 value ++ [10]) st.

(** ** Accounting *)
Definition count_store_bytes_cb (d : LogDir) (total : Z) : Z :=
  fold_left (λ total f, u64 (total + zlen (df_data f))) (ld_files d) total.

Definition count_store_bytes (st : Store) : Z :=
  fold_left (λ total f, u64 (total + zlen (df_data f))) (st_state st)
    (for_each_segment_dir count_store_bytes_cb (st_dirs st) 0).

(** ** Start-up recovery *)
Definition map_segment_dirs (fn : LogDir → list DirFile) (dirs : list LogDir) : list LogDir :=
  map (λ d, if is_segment_dir_name (ld_name d) then mkLogDir (ld_name d) (fn d) else d) dirs.

(** Drop the temporary files of an interrupted run. *)
Definition cleanup_segment_dir_cb (env : FsEnv) (d : LogDir) : list DirFile :=
  fold_left (λ files f,
    if has_suffix 9 (C ".seg.tmp") (df_name f) || has_suffix 9 (C ".idx.tmp") (df_name f)
    then unlink env (ld_name d) (df_name f) files else files) (ld_files d) (ld_files d).

Section recovery.
Context `{F : FlatCC}.

(** One entry of the recovery loop, on the current content of its directory. *)
Definition recover_file (env : FsEnv) (dir name : bytes) (files : list DirFile) : list DirFile :=
  if negb (has_suffix 5 (C ".seg") name) then files
  else
    let seq := match segment_seq_from_name name with Some s => s | None => 0 end in
    match find_file name files with
    | None => files
    | Some f =>
        let drop_both := unlink env dir name (unlink env dir (index_name seq) files) in
        if zlen (df_data f) =? 0 then drop_both
        else
          match segment_scan_path (Ok (df_data f)) None None tt with
          | ScanDone header footer committed_end _ =>
              let truncated :=
                (committed_end <? zlen (df_data f)) && fs_truncate_ok env dir name in
              let data := if truncated then ztake committed_end (df_data f) else df_data f in
              let files1 := if truncated then put_file name data (fs_now env) files else files in
              if sf_present footer && negb (has_flag (sh_flags header) SEGMENT_FLAG_ENCRYPTED)
              then
                let idx := index_name (sh_segment_seq header) in
                let old := match find_file idx files1 with Some i => Ok (df_data i) | None => Err ENOENT end in
                match index_get_frame_count old (Ok data) with
                | Ok _ => files1
                | Err _ =>
                    match index_rebuild_for_segment (Ok data)
                            (Some (mkFile [] (fs_room env) ENOSPC)) None with
                    | Ok content => put_file idx content (fs_now env) files1
                    | Err _ => files1
                    end
                end
              else files1
          | _ => drop_both
          end
    end.

Definition recover_segment_dir_cb (env : FsEnv) (d : LogDir) : list DirFile :=
  fold_left (λ files f, recover_file env (ld_name d) (df_name f) files) (ld_files d) (ld_files d).

Definition recover_store (env : FsEnv) (st : Store) : Store :=
  let dirs1 := map_segment_dirs (cleanup_segment_dir_cb env) (st_dirs st) in
  mkStore (map_segment_dirs (recover_segment_dir_cb env) dirs1) (st_state st).
End recovery.
