(* ===== verification/StoreProofs.v ===== *)
(** * Properties of the store and of start-up recovery *)
From S2P Require Import Prelude Bytes Crypto Segment SegmentImage SegmentScan SegmentWrite Chunk.
From S2P Require Import Models ChunkModel SegmentSpec SegmentSafety Index IndexProofs CText Store.

(** ** Segment names *)
Lemma seq_from_segment_name seq : is_u64 seq → segment_seq_from_name (segment_name seq) = Some seq.
Proof. intros. unfold segment_seq_from_name, segment_name. by rewrite strtoull_print. Qed.

Lemma seq_from_other_name seq suffix :
  is_u64 seq → no_digit suffix → suffix ≠ C ".seg" → segment_seq_from_name (print_u64 seq ++ suffix) = None.
Proof.
  intros Hs Hd Hne. unfold segment_seq_from_name. rewrite strtoull_print by done.
  apply beq_false in Hne. by rewrite Hne.
Qed.

Lemma has_suffix_app min suffix base :
  min <= zlen base + zlen suffix → has_suffix min suffix (base ++ suffix) = true.
Proof.
  intros. unfold has_suffix. rewrite zlen_app. destruct (Z.leb_spec min (zlen base + zlen suffix)); [|lia].
  rewrite zdrop_app_eq by lia. apply beq_refl.
Qed.

(** The suffixes of segments and indexes exclude each other. *)
Lemma idx_not_seg min seq : has_suffix min (C ".seg") (index_name seq) = false.
Proof.
  unfold has_suffix, index_name. rewrite zlen_app.
  change (zlen (C ".idx")) with 4. change (zlen (C ".seg")) with 4. rewrite zdrop_app_eq by lia.
  by rewrite andb_false_r.
Qed.

(** ** Lists of files *)
Lemma beq_sym a b : beq a b = beq b a.
Proof. apply eq_true_iff_eq. rewrite !beq_true. split; congruence. Qed.

Lemma find_put_same name data now files :
  find_file name (put_file name data now files) = Some (mkDirFile name data now).
Proof.
  induction files as [|f files IH]; cbn [put_file].
  { unfold find_file. cbn [List.find df_name]. by rewrite beq_refl. }
  destruct (beq (df_name f) name) eqn:Hb; unfold find_file in *; cbn [List.find df_name].
  - by rewrite beq_refl.
  - by rewrite Hb.
Qed.

Lemma find_put_other name m data now files :
  m ≠ name → find_file m (put_file name data now files) = find_file m files.
Proof.
  intros Hne. induction files as [|f files IH]; cbn [put_file]; unfold find_file in *; cbn [List.find df_name].
  { destruct (beq name m) eqn:Hb; [|done]. apply beq_true in Hb. congruence. }
  destruct (beq (df_name f) name) eqn:Hb; cbn [List.find df_name].
  - apply beq_true in Hb. subst name. destruct (beq (df_name f) m) eqn:Hm; [|done].
    apply beq_true in Hm. congruence.
  - by rewrite IH.
Qed.

Lemma find_remove_same name files : find_file name (remove_name name files) = None.
Proof.
  induction files as [|f files IH]; [done|]. unfold find_file, remove_name in *. cbn [List.filter].
  destruct (beq (df_name f) name) eqn:Hb; cbn [negb]; [done|]. cbn [List.find]. by rewrite Hb.
Qed.

Lemma find_remove_other name m files : m ≠ name → find_file m (remove_name name files) = find_file m files.
Proof.
  intros Hne. induction files as [|f files IH]; [done|]. unfold find_file, remove_name in *.
  cbn [List.filter List.find]. destruct (beq (df_name f) name) eqn:Hb; cbn [negb List.find].
  - apply beq_true in Hb. destruct (beq (df_name f) m) eqn:Hm; [|done]. apply beq_true in Hm. congruence.
  - by rewrite IH.
Qed.

Lemma find_unlink_other env dir name m files :
  m ≠ name → find_file m (unlink env dir name files) = find_file m files.
Proof. intros. unfold unlink. destruct (fs_unlink_ok env dir name); [by apply find_remove_other|done]. Qed.

Lemma find_name name files f : find_file name files = Some f → df_name f = name ∧ f ∈ files.
Proof.
  unfold find_file. intros H. apply List.find_some in H as [H1 H2]. apply beq_true in H2.
  split; [done|]. by apply list_elem_of_In.
Qed.

(** An environment in which removals and truncations succeed. *)
Definition fs_reliable (env : FsEnv) : Prop :=
  (∀ d n, fs_unlink_ok env d n = true) ∧ (∀ d n, fs_truncate_ok env d n = true).

Section recovery.
Context `{F : FlatCC}.

(** A segment that is a whole number of committed frames. *)
Definition settled (data : bytes) : Prop :=
  ∃ h ft, segment_scan_path (Ok data) None None tt = ScanDone h ft (zlen data) tt.

(** What recovery makes of one segment file. *)
Definition recovered (data : bytes) : option bytes :=
  if zlen data =? 0 then None
  else match segment_scan_path (Ok data) None None tt with
       | ScanDone _ _ c _ => Some (ztake c data)
       | _ => None
       end.

Lemma recover_file_other env dir name m files :
  has_suffix 5 (C ".seg") m = true → m ≠ name →
  find_file m (recover_file env dir name files) = find_file m files.
Proof.
  intros Hm Hne. assert (Hidx : ∀ seq, m ≠ index_name seq).
  { intros seq ->. by rewrite idx_not_seg in Hm. }
  unfold recover_file. destruct (negb _); [done|]. destruct (find_file name files) as [f|]; [|done].
  cbv zeta. destruct (zlen (df_data f) =? 0); [by rewrite !find_unlink_other|].
  destruct (segment_scan_path _ _ _ _) as [h ft c u|rv e u|]; [|by rewrite !find_unlink_other..].
  set (tr := (c <? zlen (df_data f)) && fs_truncate_ok env dir name).
  assert (H1 : ∀ data, find_file m (if tr then put_file name data (fs_now env) files else files) = find_file m files).
  { intros. destruct tr; [by apply find_put_other|done]. }
  destruct (sf_present ft && _); [|apply H1].
  destruct (index_get_frame_count _ _); [apply H1|].
  destruct (index_rebuild_for_segment _ _ _); [|apply H1]. rewrite find_put_other by done. apply H1.
Qed.

Lemma recover_file_self env dir name files f :
  fs_reliable env → has_suffix 5 (C ".seg") name = true → find_file name files = Some f →
  bytes_ok (df_data f) → zlen (df_data f) <= UINT32_MAX →
  match recovered (df_data f) with
  | None => find_file name (recover_file env dir name files) = None
  | Some data => ∃ f', find_file name (recover_file env dir name files) = Some f' ∧ df_data f' = data
  end.
Proof.
  intros [Hu Ht] Hn Hf Hok Hsz.
  assert (Hidx : ∀ seq, name ≠ index_name seq) by (intros seq ->; by rewrite idx_not_seg in Hn).
  unfold recovered, recover_file. rewrite Hn, Hf. cbn [negb].
  generalize (match segment_seq_from_name name with Some s => s | None => 0 end) as seq. intros seq. cbv zeta.
  assert (Hdrop : find_file name (unlink env dir name (unlink env dir (index_name seq) files)) = None).
  { unfold unlink at 1. rewrite Hu. apply find_remove_same. }
  destruct (zlen (df_data f) =? 0) eqn:Hz; [exact Hdrop|].
  destruct (segment_scan_path (Ok (df_data f)) None None tt) as [h ft c u|rv e u|] eqn:Hscan; [|exact Hdrop..].
  assert (Hc : c <= zlen (df_data f)).
  { unfold segment_scan_path, segment_scan_path_from_offset in Hscan. rewrite Hz in Hscan.
    pose proof (zlen_nonneg (df_data f)). unfold segment_scan_impl in Hscan.
    destruct (segment_parse_header _ _) as [[[h0 off] e]|] eqn:Hp; [|done].
    destruct (scan_dek _ _ _ _); [|done]. apply parsed_nonwrap in Hp; [|done|lia].
    apply loop_bounds in Hscan as [_ ?]; [lia|done|lia]. }
  rewrite Ht, andb_true_r.
  set (files1 := if c <? zlen (df_data f) then _ else files).
  assert (H1 : ∃ f', find_file name files1 = Some f' ∧ df_data f' = ztake c (df_data f)).
  { unfold files1. destruct (Z.ltb_spec c (zlen (df_data f))).
    - eexists. split; [apply find_put_same|done].
    - exists f. split; [done|]. by rewrite ztake_ge by lia. }
  destruct (sf_present ft && _); [|done]. destruct (index_get_frame_count _ _); [done|].
  destruct (index_rebuild_for_segment _ _ _); [|done]. by rewrite find_put_other.
Qed.

(** Recovering what was recovered changes nothing. *)
Lemma recovered_stable data data' :
  bytes_ok data → zlen data <= UINT32_MAX → recovered data = Some data' →
  settled data' ∧ recovered data' = Some data' ∧ data' = ztake (zlen data') data ∧ bytes_ok data' ∧
  zlen data' <= UINT32_MAX.
Proof.
  intros Hok Hsz. unfold recovered, settled.
  destruct (zlen data =? 0) eqn:Hz; [done|].
  destruct (segment_scan_path (Ok data) None None tt) as [h ft c u|rv e u|] eqn:Hscan; [|done..]. destruct u.
  intros [= <-]. unfold segment_scan_path, segment_scan_path_from_offset in Hscan. rewrite Hz in Hscan.
  pose proof (zlen_nonneg data).
  assert (Hc : 152 <= c <= zlen data).
  { unfold segment_scan_impl in Hscan. destruct (segment_parse_header _ _) as [[[h0 off] e]|] eqn:Hp; [|done].
    destruct (scan_dek _ _ _ _); [|done]. apply parsed_nonwrap in Hp; [|done|lia].
    apply loop_bounds in Hscan as [_ ?]; [lia|done|lia]. }
  assert (Hl : zlen (ztake c data) = c) by (apply zlen_ztake; lia).
  assert (Hs : segment_scan_path (Ok (ztake c data)) None None tt = ScanDone h ft (zlen (ztake c data)) tt).
  { unfold segment_scan_path, segment_scan_path_from_offset.
    destruct (Z.eqb_spec (zlen (ztake c data)) 0); [lia|].
    rewrite (scan_truncate data (zlen data) None None tt 0 h ft c tt) by (done || lia). by rewrite Hl. }
  split; [eauto|]. rewrite Hs. split_and!.
  - destruct (Z.eqb_spec (zlen (ztake c data)) 0); [lia|]. f_equal. by apply ztake_ge.
  - by rewrite Hl.
  - by apply Forall_take.
  - lia.
Qed.

Definition small_files (files : list DirFile) : Prop :=
  Forall (λ f, bytes_ok (df_data f) ∧ zlen (df_data f) <= UINT32_MAX) files.

Section at_name.
Context (env : FsEnv) (dir name data : bytes).
Context (Hr : fs_reliable env) (Hn : has_suffix 5 (C ".seg") name = true).
Context (Hok : bytes_ok data) (Hsz : zlen data <= UINT32_MAX).

(** The turn of [name]: whether or not it was recovered before, it is now. *)
Lemma recover_turn files :
  df_data <$> find_file name files = Some data ∨ df_data <$> find_file name files = recovered data →
  df_data <$> find_file name (recover_file env dir name files) = recovered data.
Proof.
  intros [Hst|Hst].
  - destruct (find_file name files) as [g|] eqn:Hg; [|done]. injection Hst as Hd.
    pose proof (recover_file_self env dir name files g Hr Hn Hg) as Hs. rewrite Hd in Hs.
    specialize (Hs Hok Hsz). destruct (recovered data); [destruct Hs as (f' & -> & <-); done|by rewrite Hs].
  - destruct (recovered data) as [data'|] eqn:Hrec.
    + destruct (find_file name files) as [g|] eqn:Hg; [|done]. injection Hst as Hd.
      destruct (recovered_stable data data' Hok Hsz Hrec) as (_ & Hrec' & _ & Hok' & Hsz').
      pose proof (recover_file_self env dir name files g Hr Hn Hg) as Hs. rewrite Hd, Hrec' in Hs.
      destruct (Hs Hok' Hsz') as (f' & -> & <-). done.
    + destruct (find_file name files) as [g|] eqn:Hg; [done|].
      unfold recover_file. rewrite Hn, Hg. cbn [negb]. by rewrite Hg.
Qed.

Abbreviation run l files := (fold_left (λ files f, recover_file env dir (df_name f) files) l files).

Lemma recover_keeps l files :
  df_data <$> find_file name files = recovered data → df_data <$> find_file name (run l files) = recovered data.
Proof.
  revert files. induction l as [|f l IH]; intros files Hst; [done|]. cbn [fold_left]. apply IH.
  destruct (decide (df_name f = name)) as [->|Hne]; [by apply recover_turn; right|].
  by rewrite recover_file_other.
Qed.

Lemma recover_reaches l files :
  df_data <$> find_file name files = Some data → name ∈ map df_name l →
  df_data <$> find_file name (run l files) = recovered data.
Proof.
  revert files. induction l as [|f l IH]; intros files Hst Hin; [by apply elem_of_nil in Hin|].
  cbn [fold_left]. destruct (decide (df_name f = name)) as [Heq|Hne].
  - rewrite Heq. apply recover_keeps, recover_turn. by left.
  - apply IH; [by rewrite recover_file_other|]. cbn in Hin. apply elem_of_cons in Hin as [|]; congruence.
Qed.
End at_name.

(** A name that is not listed never appears as a segment. *)
Lemma recover_absent env dir name l files :
  has_suffix 5 (C ".seg") name = true → find_file name files = None →
  find_file name (fold_left (λ files f, recover_file env dir (df_name f) files) l files) = None.
Proof.
  intros Hn. revert files. induction l as [|f l IH]; intros files Hst; [done|]. cbn [fold_left]. apply IH.
  destruct (decide (df_name f = name)) as [->|Hne]; [|by rewrite recover_file_other].
  unfold recover_file. rewrite Hn, Hst. by cbn [negb].
Qed.

(** C32: start-up recovery.  After [recover_segment_dir_cb] on a group directory,
    every segment file that is left scans without error and is committed to its
    last byte, and is a prefix of the file of that name before recovery; a
    segment that did not scan, or was empty, is gone.  (Removals and truncations
    are assumed to succeed.) *)
Theorem recovered_segments_settled env d name :
  fs_reliable env → small_files (ld_files d) → has_suffix 5 (C ".seg") name = true →
  match find_file name (ld_files d), find_file name (recover_segment_dir_cb env d) with
  | Some f, Some f' =>
      df_data f' = ztake (zlen (df_data f')) (df_data f) ∧
      ∃ h ft, segment_scan_path (Ok (df_data f')) None None tt = ScanDone h ft (zlen (df_data f')) tt
  | Some f, None =>
      df_data f = [] ∨
      ∃ rv e, segment_scan_path (Ok (df_data f)) None None tt = ScanFail rv e tt
  | None, after => after = None
  end.
Proof.
  intros Hr Hsmall Hn. unfold recover_segment_dir_cb.
  destruct (find_file name (ld_files d)) as [f|] eqn:Hf; [|by apply recover_absent].
  pose proof (find_name _ _ _ Hf) as [Hname Hin].
  unfold small_files in Hsmall. rewrite Forall_forall in Hsmall. destruct (Hsmall f Hin) as [Hok Hsz].
  pose proof (recover_reaches env (ld_name d) name (df_data f) Hr Hn Hok Hsz (ld_files d) (ld_files d)) as Hrun.
  rewrite Hf in Hrun. specialize (Hrun eq_refl).
  assert (Hl : name ∈ map df_name (ld_files d)) by (apply list_elem_of_fmap; eauto).
  specialize (Hrun Hl). destruct (find_file name (fold_left _ _ _)) as [f'|]; cbn in Hrun; symmetry in Hrun.
  - destruct (recovered_stable _ _ Hok Hsz Hrun) as (Hset & _ & Hpre & _). done.
  - unfold recovered in Hrun. destruct (Z.eqb_spec (zlen (df_data f)) 0) as [Hz|Hz].
    { left. destruct (df_data f) as [|b l]; [done|]. rewrite zlen_cons in Hz. pose proof (zlen_nonneg l). lia. }
    right. destruct (segment_scan_path _ _ _ _) as [? ? ? ?|rv e []|] eqn:Hscan; [done|eauto|].
    exfalso. revert Hscan. unfold segment_scan_path, segment_scan_path_from_offset.
    apply Z.eqb_neq in Hz. rewrite Hz. unfold segment_scan_impl.
    destruct (segment_parse_header _ _) as [[[h0 off] e]|] eqn:Hp; [|done].
    destruct (scan_dek _ _ _ _); [|done]. pose proof (zlen_nonneg (df_data f)).
    apply parsed_nonwrap in Hp; [|done|lia]. apply loop_terminates; [done|lia].
Qed.

(** Complete frames fit in the room they were counted for. *)
Lemma reqs_size_complete e room ps : 0 <= room → reqs_size e (take (complete_count e room ps) ps) <= room.
Proof.
  revert room. induction ps as [|p ps IH]; intros room H0; [done|]. cbn [complete_count].
  destruct (Z.leb_spec (req_size e p) room); [|done]. cbn [take reqs_size].
  specialize (IH (room - req_size e p)). lia.
Qed.

(** C34: recovery keeps every committed frame of a plaintext segment.  Take any
    segment that was written without encryption, cut its file anywhere after the
    header, and put it in a group directory under a segment name: recovery leaves
    exactly the header and the frames that were complete, or the whole file when
    nothing was cut off. *)
Theorem recovery_keeps_complete_frames `{!OpenSSL_ok seg_openssl} env d name fp h dict draw fp1 draw1 ps chunks fp2 ft fp3 k f :
  fs_reliable env → has_suffix 5 (C ".seg") name = true →
  f_data fp = [] → header_wf h → footer_wf ft → sf_entry_count ft < 4294967296 →
  segment_write_header fp h dict None draw = (Ok tt, fp1, None, draw1) →
  Forall (λ p : request, is_u32 p.1.1 ∧ is_u32 p.2) ps → zlen ps <= UINT64_MAX →
  Forall2 (payload_decodes (with_dict_len h (zlen dict)) dict) ps chunks →
  write_frames fp1 None ps = (Ok tt, fp2, None) →
  segment_write_footer fp2 ft = (Ok tt, fp3) →
  no_false_footer (f_data fp3) (frame_starts false (zlen (f_data fp1)) ps) →
  bytes_ok (f_data fp3) → zlen (f_data fp3) <= UINT32_MAX → 0 < zlen (f_data fp1) <= k →
  k <= zlen (f_data fp3) →
  find_file name (ld_files d) = Some f → df_data f = ztake k (f_data fp3) →
  let n := complete_count false (k - zlen (f_data fp1)) ps in
  df_data <$> find_file name (recover_segment_dir_cb env d) =
  Some (if k =? zlen (f_data fp3) then f_data fp3
        else ztake (zlen (f_data fp1) + reqs_size false (take n ps)) (f_data fp3)).
Proof.
  intros Hr Hn Hfp Hwf Hftwf Hcnt Hh Hps Hpl Hdec Hw Hft Hclear Hok Hsz H1 Hk Hf Hdata n.
  pose proof (find_name _ _ _ Hf) as [Hname Hin].
  assert (Hlen : zlen (df_data f) = k) by (rewrite Hdata; apply zlen_ztake; lia).
  assert (Hokd : bytes_ok (df_data f)) by (rewrite Hdata; by apply Forall_take).
  pose proof (recover_reaches env (ld_name d) name (df_data f) Hr Hn Hokd ltac:(lia) (ld_files d) (ld_files d)) as Hrun.
  rewrite Hf in Hrun. specialize (Hrun eq_refl).
  assert (Hl : name ∈ map df_name (ld_files d)) by (apply list_elem_of_fmap; eauto).
  unfold recover_segment_dir_cb. rewrite (Hrun Hl). unfold recovered.
  destruct (Z.eqb_spec (zlen (df_data f)) 0) as [Hz|Hz]; [lia|].
  unfold segment_scan_path, segment_scan_path_from_offset. apply Z.eqb_neq in Hz. rewrite Hz, Hlen, Hdata.
  pose proof (scan_written_prefix fp h dict None draw fp1 None draw1 ps chunks fp2 None ft fp3 None None tt k) as Hs.
  unfold segment_scan_buffer in Hs. cbn [is_encrypted andb] in Hs.
  rewrite Hs by first [done|lia|exact I]. destruct (Z.eqb_spec k (zlen (f_data fp3))) as [->|Hne].
  - f_equal. rewrite (ztake_ge _ (f_data fp3)) by lia. by apply ztake_ge.
  - f_equal. fold n. apply ztake_ztake.
    assert (Hle : reqs_size false (take n ps) <= k - zlen (f_data fp1)); [|lia].
    unfold n. apply reqs_size_complete. lia.
Qed.
End recovery.

(** ** Sequence numbers *)
Lemma cstr_no_zero s : Forall (λ b, b ≠ 0) s → cstr s = s.
Proof. apply cstr_id. Qed.

Lemma digits_no_zero s : all_digits s → Forall (λ b, b ≠ 0) s.
Proof. intros H. eapply Forall_impl; [exact H|]. intros c Hc%isdigit_range. lia. Qed.

Lemma print_u64_digits v : is_u64 v → all_digits (print_u64 v).
Proof.
  intros Hv. destruct (print_digits_ok 20 v) as (Hd & _); [|lia|done].
  unfold is_u64 in Hv. change (10 ^ Z.of_nat 20) with 100000000000000000000. lia.
Qed.

Lemma tmp_name_ne name : tmp_name name ≠ name.
Proof. unfold tmp_name. intros H. apply (f_equal zlen) in H. rewrite zlen_app in H. change (zlen (C ".tmp")) with 4 in H. lia. Qed.

(** The temporary name is whole when the path has room for it. *)
Lemma atomic_tmp_whole w name : aw_dir_size w + zlen name + 4 <= 511 → atomic_tmp_name w name = tmp_name name.
Proof.
  intros H. unfold atomic_tmp_name. apply ztake_ge. unfold tmp_name. rewrite zlen_app. change (zlen (C ".tmp")) with 4. lia.
Qed.
Lemma rename_put old new data now files :
  old ≠ new → rename_file old new now (put_file old data now files) = put_file new data now (remove_name old (put_file old data now files)).
Proof. intros H. unfold rename_file. apply beq_false in H. by rewrite H, find_put_same. Qed.

(** C39: state files are replaced atomically.  Let the temporary file's path fit
    its buffer.  Whatever system call of [atomic_write_text_file] fails and
    wherever a crash stops it, the directory holds under the file's name either
    what it held before or the whole new text, never a part of it, and every other
    file but the temporary one is untouched.  On success the new text is there and
    the temporary file is gone; unless only the final directory sync failed, a
    failure leaves the old content. *)
Theorem state_write_atomic w now name text files r states :
  aw_dir_size w + zlen name + 4 <= 511 →
  atomic_write_text_file w now name text files = (r, states) →
  Forall (λ s,
    (df_data <$> find_file name s = df_data <$> find_file name files ∨
     df_data <$> find_file name s = Some text) ∧
    ∀ m, m ≠ name → m ≠ tmp_name name → find_file m s = find_file m files) states ∧
  (r = Ok tt →
     df_data <$> find_file name (List.last states files) = Some text ∧
     find_file (tmp_name name) (List.last states files) = None) ∧
  (r ≠ Ok tt → aw_fsync_dir w = true →
     find_file name (List.last states files) = find_file name files).
Proof.
  intros Hfit. pose proof (tmp_name_ne name) as Hne. unfold atomic_write_text_file. rewrite (atomic_tmp_whole w name Hfit).
  assert (Hput : ∀ d m, m ≠ tmp_name name → find_file m (put_file (tmp_name name) d now files) = find_file m files).
  { intros. by apply find_put_other. }
  assert (Hrm : ∀ d m, m ≠ tmp_name name →
    find_file m (remove_name (tmp_name name) (put_file (tmp_name name) d now files)) = find_file m files).
  { intros. rewrite find_remove_other by done. by apply Hput. }
  destruct (negb (aw_mkdir w)); [intros [= <- <-]; cbn [List.last]; split_and!; [by repeat constructor; auto|done|done]|].
  destruct (negb (aw_fopen w)); [intros [= <- <-]; cbn [List.last]; split_and!; [by repeat constructor; auto|done|done]|].
  destruct (negb (zlen text <=? aw_room w) || negb (aw_sync w)) eqn:Hshort; [intros [= <- <-]; cbn [List.last]; split_and!;
    [repeat constructor; intros; rewrite ?Hput, ?Hrm by done; auto|done|intros _ _; by rewrite ?Hrm by done]|].
  destruct (negb (aw_rename w)); [intros [= <- <-]; cbn [List.last]; split_and!;
    [repeat constructor; intros; rewrite ?Hput, ?Hrm by done; auto|done|intros _ _; by rewrite ?Hrm by done]|].
  apply orb_false_iff in Hshort as [Hroom _]. apply negb_false_iff, Z.leb_le in Hroom. rewrite rename_put, ztake_ge by (done || lia).
  intros [= <- <-]. cbn [List.last]. split; [|split].
  - rewrite !Forall_cons. split_and!; try apply Forall_nil; intros; rewrite ?Hput by done; auto.
    + right. by rewrite find_put_same.
    + rewrite find_put_other by done. by rewrite Hrm.
  - intros _. rewrite find_put_same. split; [done|]. rewrite find_put_other by done. apply find_remove_same.
  - intros Hr Hs. by rewrite Hs in Hr.
Qed.

Lemma after_write_ok w now name text st st' :
  after_write w now name text st = (Ok tt, st') →
  st_dirs st' = st_dirs st ∧ find_file name (st_state st') = Some (mkDirFile name text now).
Proof.
  unfold after_write, atomic_write_text_file. repeat case_match; cbn; intros [= ?]; simplify_eq; cbn.
  split; [done|]. match goal with H : negb _ || negb _ = false |- _ => apply orb_false_iff in H as [Hroom _] end.
  apply negb_false_iff, Z.leb_le in Hroom. rewrite ztake_ge by done. unfold rename_file. destruct (beq _ name) eqn:Hb.
  - apply beq_true in Hb as ->. apply find_put_same.
  - rewrite find_put_same. apply find_put_same.
Qed.

(** Names and numbers on disk.  A segment name gives back its sequence
    number, temporary and index names are never taken for segments, and the
    persisted next sequence number reads back as it was written. *)
Theorem segment_names_round_trip env w seq st st' :
  is_u64 seq → persist_next_segment_seq env w seq st = (Ok tt, st') →
  segment_seq_from_name (segment_name seq) = Some seq ∧
  segment_seq_from_name (segment_tmp_name seq) = None ∧
  segment_seq_from_name (index_name seq) = None ∧
  read_persisted_next_segment_seq st' = Some seq.
Proof.
  intros Hs Hw. split; [by apply seq_from_segment_name|].
  split; [by apply seq_from_other_name|]. split; [by apply seq_from_other_name|].
  apply after_write_ok in Hw as (_ & Hf). unfold read_persisted_next_segment_seq. rewrite Hf.
  cbn [df_data]. unfold parse_next_segment_seq.
  rewrite cstr_id.
  - by rewrite strtoull_print.
  - apply Forall_app. split; [by apply digits_no_zero, print_u64_digits|]. by repeat constructor.
Qed.

Lemma segment_names_round_trip_witness :
  segment_seq_from_name (segment_name 18446744073709551615) = Some 18446744073709551615.
Proof.
  eapply (segment_names_round_trip (mkFsEnv (λ _ _, true) (λ _ _, true) 0 0)
            (mkAtomicEnv 20 true true 100 true true true ENOSPC) 18446744073709551615 (mkStore [] [])).
  - vm_compute. split; congruence.
  - vm_compute. reflexivity.
Defined.

Lemma state_write_atomic_witness :
  Forall (λ s, df_data <$> find_file (C "boots") s = Some [1] ∨ df_data <$> find_file (C "boots") s = Some [2; 3])
    (atomic_write_text_file (mkAtomicEnv 20 true true 1 true true true ENOSPC) 9 (C "boots") [2; 3]
       [mkDirFile (C "boots") [1] 4]).2.
Proof.
  destruct (state_write_atomic (mkAtomicEnv 20 true true 1 true true true ENOSPC) 9 (C "boots") [2; 3]
    [mkDirFile (C "boots") [1] 4] _ _ ltac:(vm_compute; congruence) eq_refl) as [H _].
  eapply Forall_impl; [exact H|]. intros s [[Hs|Hs] _]; [left; exact Hs|right; exact Hs].
Defined.

Definition opt_le (o : option Z) (p : option Z) : Prop :=
  match o with None => True | Some x => match p with Some y => x <= y | None => False end end.

Lemma opt_le_trans a b c : opt_le a b → opt_le b c → opt_le a c.
Proof. destruct a, b, c; cbn; try done. lia. Qed.

Lemma max_cb_spec d ctx :
  opt_le ctx (scan_existing_segment_seq_max_cb d ctx) ∧
  ∀ f s, f ∈ ld_files d → segment_seq_from_name (df_name f) = Some s →
    opt_le (Some s) (scan_existing_segment_seq_max_cb d ctx).
Proof.
  unfold scan_existing_segment_seq_max_cb. generalize (ld_files d) as l. intros l. revert ctx.
  induction l as [|f l IH]; intros ctx; cbn [fold_left].
  { split; [destruct ctx; cbn; [lia|done]|]. by intros ? ? ?%elem_of_nil. }
  set (ctx' := match segment_seq_from_name (df_name f) with None => ctx | Some seq => _ end).
  assert (Hc : opt_le ctx ctx' ∧ ∀ s, segment_seq_from_name (df_name f) = Some s → opt_le (Some s) ctx').
  { unfold ctx'. destruct (segment_seq_from_name (df_name f)) as [s|]; [|split; [destruct ctx; cbn; [lia|done]|done]].
    destruct ctx as [m|]; [|split; [done|intros s' [= <-]; cbn; lia]].
    destruct (Z.ltb_spec m s); (split; [cbn; lia|intros s' [= <-]; cbn; lia]). }
  destruct Hc as [Hc1 Hc2]. destruct (IH ctx') as [I1 I2]. split; [by eapply opt_le_trans|].
  intros g s [->|Hg]%elem_of_cons Hs; [eapply opt_le_trans; [by apply Hc2|done]|by eapply I2].
Qed.

Lemma max_dirs_spec dirs ctx :
  opt_le ctx (for_each_segment_dir scan_existing_segment_seq_max_cb dirs ctx) ∧
  ∀ d f s, d ∈ dirs → is_segment_dir_name (ld_name d) = true → f ∈ ld_files d →
    segment_seq_from_name (df_name f) = Some s →
    opt_le (Some s) (for_each_segment_dir scan_existing_segment_seq_max_cb dirs ctx).
Proof.
  revert ctx. induction dirs as [|d dirs IH]; intros ctx; cbn [for_each_segment_dir].
  { split; [destruct ctx; cbn; [lia|done]|]. by intros ? ? ? ?%elem_of_nil. }
  set (ctx' := if is_segment_dir_name (ld_name d) then _ else ctx).
  destruct (IH ctx') as [I1 I2]. destruct (max_cb_spec d ctx) as [M1 M2]. split.
  - eapply opt_le_trans; [|exact I1]. unfold ctx'. destruct (is_segment_dir_name _); [done|]. destruct ctx; cbn; [lia|done].
  - intros d' f s [->|Hd]%elem_of_cons Hn Hf Hs; [|by eapply I2].
    eapply opt_le_trans; [|exact I1]. unfold ctx'. rewrite Hn. by eapply M2.
Qed.

(** Every segment on disk has a number up to the scanned maximum. *)
Lemma scan_max_bound st d f s :
  d ∈ st_dirs st → is_segment_dir_name (ld_name d) = true → f ∈ ld_files d →
  segment_seq_from_name (df_name f) = Some s → s <= scan_existing_segment_seq_max st.
Proof.
  intros Hd Hn Hf Hs. destruct (max_dirs_spec (st_dirs st) None) as [_ H].
  specialize (H d f s Hd Hn Hf Hs). unfold scan_existing_segment_seq_max. destruct (for_each_segment_dir _ _ _); done.
Qed.

(** ** Concrete recoveries *)
#[local] Existing Instance toy_lib.
#[local] Existing Instance toy_flatcc.

Definition demo_env : FsEnv := mkFsEnv (λ _ _, true) (λ _ _, true) 100000 77.
Definition demo_cut : DirFile := mkDirFile (C "7.seg") (ztake 240 (f_data (demo_data None))) 5.
Definition demo_dir : LogDir := mkLogDir (C "p3") [mkDirFile (C "8.seg") [1; 2; 3] 5; demo_cut].

Lemma demo_reliable : fs_reliable demo_env.
Proof. by split. Qed.
Lemma demo_data_ok : bytes_ok (f_data (demo_data None)).
Proof. apply all_u8_ok. vm_compute. reflexivity. Qed.

(** The cut segment keeps its two frames, the garbage file is removed. *)
Lemma recovered_segments_settled_witness :
  match find_file (C "7.seg") (recover_segment_dir_cb demo_env demo_dir) with
  | Some f' => zlen (df_data f') = 213 ∧ find_file (C "8.seg") (recover_segment_dir_cb demo_env demo_dir) = None ∧
      ∃ h ft, segment_scan_path (Ok (df_data f')) None None tt = ScanDone h ft (zlen (df_data f')) tt
  | None => False
  end.
Proof.
  pose proof (recovered_segments_settled demo_env demo_dir (C "7.seg") demo_reliable) as H.
  assert (Hs : small_files (ld_files demo_dir)).
  { constructor; [split; [apply all_u8_ok; reflexivity|vm_compute; congruence]|].
    constructor; [|constructor]. split; [apply Forall_take, demo_data_ok|vm_compute; congruence]. }
  specialize (H Hs ltac:(vm_compute; reflexivity)).
  assert (Hf : find_file (C "7.seg") (ld_files demo_dir) = Some demo_cut) by (vm_compute; reflexivity).
  rewrite Hf in H.
  assert (Hf' : find_file (C "7.seg") (recover_segment_dir_cb demo_env demo_dir) =
    Some (mkDirFile (C "7.seg") (ztake 213 (f_data (demo_data None))) 77)) by (vm_compute; reflexivity).
  rewrite Hf' in H |- *. destruct H as [_ H]. split; [vm_compute; reflexivity|]. split; [vm_compute; reflexivity|exact H].
Defined.

Lemma recovery_keeps_complete_frames_witness :
  df_data <$> find_file (C "7.seg") (recover_segment_dir_cb demo_env demo_dir) =
  Some (ztake 213 (f_data (demo_data None))).
Proof.
  destruct (demo_header_written None (or_introl eq_refl)) as [H1 H2].
  destruct (demo_body_written None (or_introl eq_refl)) as (H3 & H4 & H5).
  etransitivity.
  - exact (recovery_keeps_complete_frames (OpenSSL_ok0 := toy_openssl_ok) demo_env demo_dir (C "7.seg") demo_file
      (demo_header 4) (C "dict") 0 _ _ demo_reqs demo_chunks _
      demo_footer (demo_data None) 240 demo_cut demo_reliable ltac:(vm_compute; reflexivity) eq_refl
      (demo_header_wf 4 ltac:(unfold is_u32; lia)) demo_footer_wf ltac:(reflexivity) H1 demo_reqs_wf
      ltac:(vm_compute; congruence) (demo_decodes 4 (or_introl eq_refl)) H3 H4 H5 demo_data_ok
      ltac:(vm_compute; congruence) ltac:(split; vm_compute; congruence) ltac:(vm_compute; congruence)
      ltac:(vm_compute; reflexivity) eq_refl).
  - vm_compute. reflexivity.
Defined.
