(* ===== verification/Json.v ===== *)
(** * JSON documents (libjansson)

    The values and accessors that [src/src/recorder.c] uses of jansson.  Parsing
    and printing are parameters (class [Jansson]); what the store relies on is
    that a document written by [json_dumps] reads back ([Jansson_ok]).  Strings
    are C strings: without [JSON_ALLOW_NUL] the library rejects a NUL. *)
From S2P Require Import Prelude.

Inductive json :=
  | JNull
  | JBool (b : bool)
  | JInt (i : Z)
  | JReal (text : bytes)
  | JStr (s : bytes)
  | JArr (items : list json)
  | JObj (members : list (bytes * json)).

(** [json_object_get]: [None] for a missing key and for anything but an object. *)
Definition json_object_get (v : json) (key : bytes) : option json :=
  match v with
  | JObj ms => snd <$> List.find (λ m, beq m.1 key) ms
  | _ => None
  end.

Definition INT64_MIN : Z := -9223372036854775808.
Definition INT64_MAX : Z := 9223372036854775807.
Definition is_s64 (x : Z) : Prop := INT64_MIN <= x <= INT64_MAX.

Lemma s64_range x : is_s64 (s64 x).
Proof.
  unfold is_s64, s64, INT64_MIN, INT64_MAX. pose proof (u64_range x) as [? ?].
  cbv zeta. destruct (Z.ltb_spec (u64 x) 9223372036854775808); lia.
Qed.
Lemma u64_s64 x : is_u64 x → u64 (s64 x) = x.
Proof.
  intros Hx. unfold s64. rewrite (u64_id x Hx). unfold is_u64 in Hx. cbv zeta.
  destruct (Z.ltb_spec x 9223372036854775808); [by apply u64_id|].
  unfold u64. rewrite <- (Z.mod_add _ 1) by lia. rewrite Z.mod_small; lia.
Qed.

Class Jansson := {
  json_loads : bytes → option json;
  json_dumps : json → option bytes;
  json_utf8 : bytes → bool;
}.

(** [json_string], which copies a valid UTF-8 text and fails on any other. *)
Definition json_string `{Jansson} (s : bytes) : option json :=
  if json_utf8 s then Some (JStr s) else None.

(** Documents jansson can hold: UTF-8 strings without NUL, distinct keys,
    [json_int_t] integers. *)
Definition json_text_ok `{Jansson} (s : bytes) : Prop := json_utf8 s = true ∧ Forall (λ b, b ≠ 0) s.
Inductive json_wf `{Jansson} : json → Prop :=
  | wf_null : json_wf JNull
  | wf_bool b : json_wf (JBool b)
  | wf_int i : is_s64 i → json_wf (JInt i)
  | wf_str s : json_text_ok s → json_wf (JStr s)
  | wf_arr l : Forall json_wf l → json_wf (JArr l)
  | wf_obj ms :
      NoDup ms.*1 → Forall (λ m, json_text_ok m.1 ∧ json_wf m.2) ms → json_wf (JObj ms).
Create HintDb json.
#[export] Hint Constructors json_wf : json.
#[export] Hint Resolve s64_range : json.

Class Jansson_ok (J : Jansson) : Prop := {
  json_utf8_ascii s : Forall (λ b, 0 < b < 128) s → json_utf8 s = true;
  json_dumps_text v t : json_wf v → json_dumps v = Some t → Forall (λ b, b ≠ 0) t;
  json_loads_dumps v t :
    json_wf v → match v with JArr _ | JObj _ => True | _ => False end →
    json_dumps v = Some t → json_loads t = Some v;
}.

(** ** An instance of the interface

    Any injective printer does: documents are numbered, and the number is written
    in binary. *)
#[local] Instance json_eq_dec : EqDecision json.
Proof.
  refine (fix go (x y : json) : {x = y} + {x ≠ y} :=
    match x, y with
    | JNull, JNull => left eq_refl
    | JBool a, JBool b => cast_if (decide (a = b))
    | JInt a, JInt b => cast_if (decide (a = b))
    | JReal a, JReal b => cast_if (decide (a = b))
    | JStr a, JStr b => cast_if (decide (a = b))
    | JArr l, JArr k =>
        cast_if ((fix list_go (l k : list json) : {l = k} + {l ≠ k} :=
          match l, k with
          | [], [] => left eq_refl
          | u :: l', v :: k' => cast_if_and (go u v) (list_go l' k')
          | _, _ => right _
          end) l k)
    | JObj l, JObj k =>
        cast_if ((fix list_go (l k : list (bytes * json)) : {l = k} + {l ≠ k} :=
          match l, k with
          | [], [] => left eq_refl
          | u :: l', v :: k' =>
              cast_if_and3 (decide (u.1 = v.1)) (go u.2 v.2) (list_go l' k')
          | _, _ => right _
          end) l k)
    | _, _ => right _
    end); try (by intros [=]); try congruence;
  destruct u as [u1 u2], v as [v1 v2]; cbn in *; congruence.
Defined.

Abbreviation leaf := (bytes + (bool + Z))%type.
Fixpoint to_tree (v : json) : gen_tree leaf :=
  match v with
  | JNull => GenNode 0 []
  | JBool b => GenLeaf (inr (inl b))
  | JInt i => GenLeaf (inr (inr i))
  | JReal t => GenNode 1 [GenLeaf (inl t)]
  | JStr s => GenLeaf (inl s)
  | JArr l => GenNode 2 (map to_tree l)
  | JObj ms => GenNode 3 (map (λ m, GenNode 4 [GenLeaf (inl m.1); to_tree m.2]) ms)
  end.
Fixpoint of_tree (t : gen_tree leaf) : json :=
  match t with
  | GenLeaf (inl s) => JStr s
  | GenLeaf (inr (inl b)) => JBool b
  | GenLeaf (inr (inr i)) => JInt i
  | GenNode 1 (GenLeaf (inl s) :: _) => JReal s
  | GenNode 2 l => JArr (map of_tree l)
  | GenNode 3 l =>
      JObj (map (λ t, match t with
                      | GenNode _ (GenLeaf (inl k) :: v :: _) => (k, of_tree v)
                      | _ => ([], JNull)
                      end) l)
  | _ => JNull
  end.
Lemma of_to_tree : ∀ v, of_tree (to_tree v) = v.
Proof.
  fix IH 1. intros [| | | | | l|ms]; cbn; try reflexivity.
  - f_equal. induction l as [|v l IHl]; cbn; [reflexivity|]. by rewrite IH, IHl.
  - f_equal. induction ms as [|[k v] ms IHm]; cbn; [reflexivity|]. by rewrite IH, IHm.
Qed.
#[local] Instance json_countable : Countable json := inj_countable' to_tree of_tree of_to_tree.

Fixpoint print_bits (p : positive) : bytes :=
  match p with
  | xH => [49]
  | xO q => 48 :: print_bits q
  | xI q => 49 :: print_bits q
  end.
Fixpoint parse_bits (s : bytes) : option positive :=
  match s with
  | [] => None
  | [49] => Some xH
  | b :: s' => (if b =? 48 then xO else xI) <$> parse_bits s'
  end.
Lemma parse_print_bits p : parse_bits (print_bits p) = Some p.
Proof.
  induction p as [p IH|p IH|]; cbn [print_bits]; [| |reflexivity].
  - assert (Hne : print_bits p ≠ []) by (by destruct p).
    cbn. destruct (print_bits p); [done|]. by rewrite IH.
  - cbn. by rewrite IH.
Qed.
Lemma print_bits_text p : Forall (λ b, b ≠ 0) (print_bits p).
Proof. induction p; cbn; repeat constructor; done. Qed.

(** White space between tokens is ignored. *)
Definition drop_newlines (s : bytes) : bytes := List.filter (λ b, negb (b =? 10)) s.
Lemma drop_newlines_bits p : drop_newlines (print_bits p) = print_bits p.
Proof. induction p; cbn; by f_equal. Qed.

Definition toy_jansson : Jansson := {|
  json_loads t := parse_bits (drop_newlines t) ≫= decode;
  json_dumps v := Some (print_bits (encode v));
  json_utf8 s := forallb (λ b, (0 <? b) && (b <? 128)) s;
|}.
Lemma toy_jansson_ok : Jansson_ok toy_jansson.
Proof.
  split.
  - intros s Hs. cbn. apply forallb_forall. intros b Hb%list_elem_of_In.
    rewrite Forall_forall in Hs. specialize (Hs b Hb). apply andb_true_iff. rewrite !Z.ltb_lt. lia.
  - intros v t _ [= <-]. apply print_bits_text.
  - intros v t _ _ [= <-]. cbn. rewrite drop_newlines_bits, parse_print_bits. cbn. apply decode_encode.
Qed.
