(* ===== verification/Boots.v ===== *)
(** * The boot registry (src/src/recorder.c)

    [BootRegistry] is a bounded array of boots; an entry is found by the first 32
    bytes of its id.  It is rebuilt from the segments of the store and kept in
    the state file [boots] as JSON. *)
From S2P Require Import Prelude Bytes Crypto Segment Chunk Index CText Store Json.

Definition MAX_BOOTS : Z := 256.

Record BootEntry := mkBootEntry {
  be_id : bytes;
  be_seq : Z;
  be_first_realtime_ts : Z;
  be_last_clean_realtime_ts : Z;
}.
(** [boots[0 .. count)]. *)
Abbreviation BootRegistry := (list BootEntry).

#[export] Instance BootEntry_eq_dec : EqDecision BootEntry.
Proof. solve_decision. Defined.

Definition boot_registry_init : BootRegistry := [].

(** What [strncmp(.., .., RECORDER_BOOT_ID_SIZE)] and the copy see of an id. *)
Definition boot_key (id : bytes) : bytes := ztake RECORDER_BOOT_ID_SIZE (cstr id).

Fixpoint find_boot (key : bytes) (r : BootRegistry) : option nat :=
  match r with
  | [] => None
  | b :: r' => if beq (boot_key (be_id b)) key then Some O else S <$> find_boot key r'
  end.

(** The returned pointer is an index into the array; [None] is NULL. *)
Definition boot_registry_get (r : BootRegistry) (boot_id : option bytes) : option nat * BootRegistry :=
  match boot_id with
  | None => (None, r)
  | Some id =>
      match find_boot (boot_key id) r with
      | Some i => (Some i, r)
      | None =>
          if MAX_BOOTS <=? zlen r then (Some (pred (length r)), r)
          else (Some (length r), r ++ [mkBootEntry (boot_key id) (u32 (zlen r)) 0 0])
      end
  end.

Definition boot_registry_seq (r : BootRegistry) (boot_id : option bytes) : Z * BootRegistry :=
  let '(p, r') := boot_registry_get r boot_id in
  (match p ≫= (r' !!.) with Some b => be_seq b | None => 0 end, r').

(** Get an entry and update it in place. *)
Definition boot_update (id : bytes) (upd : BootEntry → BootEntry) (r : BootRegistry) : BootRegistry :=
  let '(p, r') := boot_registry_get r (Some id) in
  match p with Some i => alter upd i r' | None => r' end.

(** ** Rebuilding from the segments *)
Fixpoint strstr (needle s : bytes) : bool :=
  beq (ztake (zlen needle) s) needle || match s with [] => false | _ :: s' => strstr needle s' end.

Definition rebuild_entry (h : SegmentHeader) (ft : SegmentFooter) (b : BootEntry) : BootEntry :=
  mkBootEntry (be_id b) (sh_boot_seq h)
    (if (be_first_realtime_ts b =? 0) || (sh_first_realtime_ts h <? be_first_realtime_ts b)
     then sh_first_realtime_ts h else be_first_realtime_ts b)
    (if be_last_clean_realtime_ts b <? sf_last_realtime_ts ft
     then sf_last_realtime_ts ft else be_last_clean_realtime_ts b).

Section rebuild.
Context `{F : FlatCC}.

Definition rebuild_file (boots : BootRegistry) (f : DirFile) : BootRegistry :=
  if negb (strstr (C ".seg") (df_name f)) then boots
  else
    match segment_scan_path (Ok (df_data f)) None None tt with
    | ScanDone header footer _ _ => boot_update (sh_boot_id header) (rebuild_entry header footer) boots
    | _ => boots
    end.

Definition boot_registry_rebuild_from_segments_cb (d : LogDir) (boots : BootRegistry) : BootRegistry :=
  fold_left rebuild_file (ld_files d) boots.

Definition boot_registry_rebuild_from_segments (st : Store) : BootRegistry :=
  for_each_segment_dir boot_registry_rebuild_from_segments_cb (st_dirs st) boot_registry_init.
End rebuild.

(** ** The state file *)
Section state.
Context `{J : Jansson}.

Definition load_boot_node (boots : BootRegistry) (node : json) : BootRegistry :=
  match json_object_get node (C "boot_id"), json_object_get node (C "boot_seq"),
        json_object_get node (C "first_realtime_ts") with
  | Some (JStr id), Some (JInt seq), Some (JInt first) =>
      let last := match json_object_get node (C "last_realtime_ts_on_clean_shutdown") with
                  | Some (JInt i) => u64 i | _ => 0 end in
      boot_update id (λ b, mkBootEntry (be_id b) (u32 seq) (u64 first) last) boots
  | _, _, _ => boots
  end.

(** The registry after a successful load; on failure the caller's is kept. *)
Definition load_boot_state (st : Store) : Res BootRegistry :=
  match find_file (C "boots") (st_state st) with
  | None => Err EUNSET
  | Some f =>
      match json_loads (cstr (df_data f)) with
      | Some (JArr nodes) => Ok (fold_left load_boot_node nodes boot_registry_init)
      | _ => Err EUNSET
      end
  end.

Definition boot_node (b : BootEntry) : option json :=
  id ← json_string (be_id b);
  Some (JObj ([(C "boot_id", id); (C "boot_seq", JInt (be_seq b));
               (C "first_realtime_ts", JInt (s64 (be_first_realtime_ts b)))] ++
              (if be_last_clean_realtime_ts b =? 0 then []
               else [(C "last_realtime_ts_on_clean_shutdown", JInt (s64 (be_last_clean_realtime_ts b)))]))).

Definition persist_boot_state (env : FsEnv) (w : AtomicEnv) (boots : BootRegistry) (st : Store) : Res unit * Store :=
  match mapM boot_node boots ≫= (λ nodes, json_dumps (JArr nodes)) with
  | Some text => after_write w (fs_now env) (C "boots") text st
  | None => (Err EUNSET, st)
  end.
End state.
