(* ===== verification/BootsProofs.v ===== *)
(** * Properties of the boot registry *)
From S2P Require Import Prelude Bytes Crypto Segment SegmentImage Chunk Models ChunkModel.
From S2P Require Import SegmentSpec Index CText Store StoreProofs Json Boots.

(** The array is bounded, its ids are C strings of at most 32 bytes and no two
    entries share one. *)
Definition boots_wf (r : BootRegistry) : Prop :=
  zlen r <= MAX_BOOTS ∧ NoDup (map be_id r) ∧ Forall (λ b, boot_key (be_id b) = be_id b) r.

Lemma boots_wf_nil : boots_wf [].
Proof. split; [done|]. split; constructor. Qed.

Lemma alter_middle {A} (f : A → A) l x k : alter f (length l) (l ++ x :: k) = l ++ f x :: k.
Proof. by induction l; f_equal/=. Qed.

Lemma cstr_ztake n s : cstr (ztake n (cstr s)) = ztake n (cstr s).
Proof.
  apply cstr_id. apply Forall_take. induction s as [|b s IH]; cbn; [constructor|].
  destruct (Z.eqb_spec b 0); [constructor|]. by constructor.
Qed.
Lemma boot_key_idem id : boot_key (boot_key id) = boot_key id.
Proof.
  unfold boot_key at 1. unfold boot_key. rewrite cstr_ztake. apply ztake_ztake. lia.
Qed.

Lemma find_boot_some key r i :
  find_boot key r = Some i →
  ∃ l b k, r = (l ++ b :: k) ∧ length l = i ∧ boot_key (be_id b) = key.
Proof.
  revert i. induction r as [|b r IH]; intros i; cbn [find_boot]; [done|].
  destruct (beq _ _) eqn:Hb.
  - intros [= <-]. apply beq_true in Hb. by exists [], b, r.
  - intros (j & Hj & ->)%fmap_Some. destruct (IH j) as (l & b' & k & -> & <- & Hk); [done|].
    by exists (b :: l), b', k.
Qed.

Lemma find_boot_none key r : find_boot key r = None → Forall (λ b, boot_key (be_id b) ≠ key) r.
Proof.
  induction r as [|b r IH]; cbn [find_boot]; [constructor|]. destruct (beq _ _) eqn:Hb; [done|].
  intros H%fmap_None. apply beq_false in Hb. constructor; [done|by apply IH].
Qed.

(** The two ways [boot_registry_get] finds an entry while there is room. *)
Lemma boot_get_cases r id p r' :
  boots_wf r → boot_registry_get r (Some id) = (p, r') →
  (∃ l b k, r = (l ++ b :: k) ∧ r' = r ∧ p = Some (length l) ∧ be_id b = boot_key id) ∨
  (zlen r < MAX_BOOTS ∧ (boot_key id ∉ map be_id r) ∧ p = Some (length r) ∧
   r' = r ++ [mkBootEntry (boot_key id) (zlen r) 0 0]) ∨
  (zlen r = MAX_BOOTS ∧ r' = r ∧ p = Some (pred (length r)) ∧ boot_key id ∉ map be_id r).
Proof.
  intros (Hlen & Hnd & Hkeys) Hg. cbn [boot_registry_get] in Hg.
  destruct (find_boot (boot_key id) r) as [i|] eqn:Hf.
  - apply find_boot_some in Hf as (l & b & k & -> & <- & Hb). simplify_eq. left. exists l, b, k.
    split_and!; [done..|]. apply Forall_app in Hkeys as [_ [Hk _]%Forall_cons]. congruence.
  - assert (Hnew : boot_key id ∉ map be_id r).
    { apply find_boot_none in Hf. intros (b & Heq & Hb)%list_elem_of_fmap.
      rewrite Forall_forall in Hf, Hkeys. apply (Hf b Hb). by rewrite Hkeys. }
    right. destruct (Z.leb_spec MAX_BOOTS (zlen r)); simplify_eq; [right|left]; split_and!; try done; [lia|].
    do 3 f_equal. apply u32_id. unfold is_u32, MAX_BOOTS in *. pose proof (zlen_nonneg r). lia.
Qed.

Lemma boots_wf_snoc r id seq a b :
  boots_wf r → zlen r < MAX_BOOTS → boot_key id ∉ map be_id r →
  boots_wf (r ++ [mkBootEntry (boot_key id) seq a b]).
Proof.
  intros (Hlen & Hnd & Hkeys) Hl Hnew. split; [rewrite zlen_app, zlen_cons, zlen_nil; lia|].
  rewrite map_app, Forall_app. split; [|split; [done|]; constructor; [apply boot_key_idem|constructor]].
  apply NoDup_app. split; [done|]. split; [|apply NoDup_singleton].
  intros x Hx Hin. apply list_elem_of_singleton in Hin. cbn in Hin. by subst.
Qed.

Lemma boots_wf_replace l b b' k :
  be_id b' = be_id b → boots_wf (l ++ b :: k) → boots_wf (l ++ b' :: k).
Proof.
  intros Hid (Hlen & Hnd & Hkeys). split; [rewrite !zlen_app, !zlen_cons in *; lia|].
  rewrite !map_app in *. cbn [map] in *. rewrite Hid. split; [done|].
  rewrite Forall_app, Forall_cons in *. by rewrite Hid.
Qed.

Lemma boot_get_spec_wf r id p r' :
  boots_wf r → boot_registry_get r (Some id) = (p, r') → boots_wf r'.
Proof.
  intros Hwf Hg. destruct (boot_get_cases _ _ _ _ Hwf Hg) as [(l & b & k & -> & -> & _)|[(Hl & Hn & _ & ->)|(_ & -> & _)]];
    [done|by apply boots_wf_snoc|done].
Qed.

(** The boot registry.  Looking up an id keeps the registry well formed
    (at most 256 boots, distinct ids), only ever appends to it, and returns a
    valid entry that carries the id, unless the registry is full and does not
    know it; asking again returns the same entry and changes nothing. *)
Theorem boot_get_spec r id p r' :
  boots_wf r → boot_registry_get r (Some id) = (p, r') →
  boots_wf r' ∧ r `prefix_of` r' ∧
  (∃ i b, p = Some i ∧ r' !! i = Some b ∧ (be_id b = boot_key id ∨ zlen r = MAX_BOOTS ∧ r' = r)) ∧
  boot_registry_get r' (Some id) = (p, r').
Proof.
  intros Hwf Hg. destruct (boot_get_cases _ _ _ _ Hwf Hg) as [(l & b & k & Hr & -> & -> & Hb)|[(Hl & Hn & -> & ->)|(Hl & -> & -> & Hn)]].
  - split; [done|]. split; [done|]. split; [|done]. exists (length l), b. subst r.
    split; [done|]. split; [by apply list_lookup_middle|by left].
  - split; [by apply boots_wf_snoc|]. split; [by eexists|]. split.
    { eexists _, _. split; [done|]. split; [by apply list_lookup_middle|by left]. }
    pose proof (boots_wf_snoc r id (zlen r) 0 0 Hwf Hl Hn) as Hwf'.
    destruct (boot_registry_get (r ++ _) (Some id)) as [p2 r2] eqn:Hg2.
    destruct (boot_get_cases _ _ _ _ Hwf' Hg2) as [(l & b & k & Hr & -> & -> & Hb)|[(_ & Hin & _)|(_ & _ & _ & Hin)]].
    + destruct k as [|b2 k _] using rev_ind.
      { apply app_inj_tail in Hr as [-> _]. done. }
      rewrite app_comm_cons, app_assoc in Hr. apply app_inj_tail in Hr as [-> _].
      exfalso. apply Hn. rewrite map_app. apply elem_of_app. right. rewrite <- Hb. by left.
    + exfalso. apply Hin. rewrite map_app. apply elem_of_app. right. by left.
    + exfalso. apply Hin. rewrite map_app. apply elem_of_app. right. by left.
  - split; [done|]. split; [done|]. split; [|done].
    destruct (lookup_lt_is_Some_2 r (pred (length r))) as [b Hb].
    { unfold zlen, MAX_BOOTS in Hl. lia. }
    exists (pred (length r)), b. auto.
Qed.

(** Updating an entry through the returned pointer, while the registry has room. *)
Lemma boot_update_cases id upd r :
  boots_wf r → zlen r < MAX_BOOTS →
  (∃ l b k, r = (l ++ b :: k) ∧ be_id b = boot_key id ∧ boot_update id upd r = l ++ upd b :: k) ∨
  ((boot_key id ∉ map be_id r) ∧ boot_update id upd r = r ++ [upd (mkBootEntry (boot_key id) (zlen r) 0 0)]).
Proof.
  intros Hwf Hl. unfold boot_update. destruct (boot_registry_get r (Some id)) as [p r'] eqn:Hg.
  destruct (boot_get_cases _ _ _ _ Hwf Hg) as [(l & b & k & -> & -> & -> & Hb)|[(_ & Hn & -> & ->)|(? & _)]].
  - left. exists l, b, k. split_and!; [done..|]. by rewrite alter_middle.
  - right. split; [done|]. by rewrite alter_middle.
  - lia.
Qed.

(** ** Rebuilding *)
Section rebuild.
Context `{F : FlatCC}.

(** The segments that the rebuild visits, in order, as they scan. *)
Definition scanned_file (f : DirFile) : list (SegmentHeader * SegmentFooter) :=
  if negb (strstr (C ".seg") (df_name f)) then []
  else match segment_scan_path (Ok (df_data f)) None None tt with
       | ScanDone h ft _ _ => [(h, ft)]
       | _ => []
       end.
Definition scanned_segments (st : Store) : list (SegmentHeader * SegmentFooter) :=
  flat_map (λ d, if is_segment_dir_name (ld_name d) then flat_map scanned_file (ld_files d) else [])
    (st_dirs st).

Abbreviation visit := (λ r s, boot_update (sh_boot_id s.1) (rebuild_entry s.1 s.2) r).

Lemma rebuild_file_visits r f : rebuild_file r f = fold_left visit (scanned_file f) r.
Proof.
  unfold rebuild_file, scanned_file. destruct (negb _); [done|]. by destruct (segment_scan_path _ _ _ _).
Qed.

Lemma rebuild_visits st :
  boot_registry_rebuild_from_segments st = fold_left visit (scanned_segments st) [].
Proof.
  unfold boot_registry_rebuild_from_segments, scanned_segments, boot_registry_init.
  generalize (@nil BootEntry) as r. induction (st_dirs st) as [|d dirs IH]; intros r; [done|].
  cbn [for_each_segment_dir flat_map]. rewrite fold_left_app, IH. f_equal.
  destruct (is_segment_dir_name _); [|done]. unfold boot_registry_rebuild_from_segments_cb.
  revert r. induction (ld_files d) as [|f fs IHf]; intros r; [done|].
  cbn [fold_left flat_map]. by rewrite fold_left_app, IHf, rebuild_file_visits.
Qed.
End rebuild.

Definition same_boot (b : BootEntry) (s : SegmentHeader * SegmentFooter) : Prop :=
  be_id b = boot_key (sh_boot_id s.1).

(** What the registry knows after the visits [vs]. *)
Definition boots_cover (vs : list (SegmentHeader * SegmentFooter)) (r : BootRegistry) : Prop :=
  (∀ s, s ∈ vs → ∃ b, b ∈ r ∧ same_boot b s ∧ 0 < be_first_realtime_ts b <= sh_first_realtime_ts s.1 ∧
     sf_last_realtime_ts s.2 <= be_last_clean_realtime_ts b) ∧
  (∀ b, b ∈ r → (∃ s, s ∈ vs ∧ same_boot b s ∧ be_seq b = sh_boot_seq s.1) ∧
     ∃ s, s ∈ vs ∧ same_boot b s ∧ be_first_realtime_ts b = sh_first_realtime_ts s.1).

Abbreviation visits vs r := (fold_left (λ r s, boot_update (sh_boot_id s.1) (rebuild_entry s.1 s.2) r) vs r).

Lemma boot_update_grows id upd r :
  boots_wf r → zlen r <= zlen (boot_update id upd r).
Proof.
  intros Hwf. unfold boot_update. destruct (boot_registry_get r (Some id)) as [p r'] eqn:Hg.
  destruct (boot_get_cases _ _ _ _ Hwf Hg) as [(l & b & k & -> & -> & -> & Hb)|[(_ & Hn & -> & ->)|(? & -> & -> & _)]];
    unfold zlen; rewrite ?length_alter, ?length_app; cbn; lia.
Qed.

Lemma boot_update_wf id upd r :
  (∀ b, be_id (upd b) = be_id b) → boots_wf r → boots_wf (boot_update id upd r).
Proof.
  intros Hupd Hwf. destruct (Z.ltb_spec (zlen r) MAX_BOOTS).
  { destruct (boot_update_cases id upd r Hwf ltac:(done)) as [(l & b & k & -> & Hb & ->)|[Hn ->]].
    - eapply boots_wf_replace; [apply Hupd|done].
    - pose proof (boots_wf_snoc r id (zlen r) 0 0 Hwf ltac:(done) Hn) as Hs.
      eapply boots_wf_replace; [apply Hupd|done]. }
  unfold boot_update. destruct (boot_registry_get r (Some id)) as [p r'] eqn:Hg.
  pose proof (boot_get_spec_wf r id p r' Hwf Hg) as Hwf'. destruct p as [i|]; [|done].
  destruct (r' !! i) as [b|] eqn:Hb.
  - rewrite <- (take_drop_middle r' i b Hb) in Hwf' |- *.
    replace i with (length (take i r')) at 1 by (rewrite length_take; apply lookup_lt_Some in Hb; lia).
    rewrite alter_middle. eapply boots_wf_replace; [apply Hupd|done].
  - rewrite (list_alter_ext upd (λ b, b) r' r'), list_alter_id; [done..| |done]. intros x. by rewrite Hb.
Qed.

Lemma visits_grow vs r : boots_wf r → boots_wf (visits vs r) ∧ zlen r <= zlen (visits vs r).
Proof.
  revert r. induction vs as [|s vs IH]; intros r Hwf; [done|]. cbn [fold_left].
  destruct (IH (boot_update (sh_boot_id s.1) (rebuild_entry s.1 s.2) r)) as [? ?]; [by apply boot_update_wf|].
  pose proof (boot_update_grows (sh_boot_id s.1) (rebuild_entry s.1 s.2) r Hwf). split; [done|lia].
Qed.

Lemma rebuild_entry_spec h ft b :
  0 < sh_first_realtime_ts h → 0 <= be_first_realtime_ts b →
  let b' := rebuild_entry h ft b in
  be_id b' = be_id b ∧ be_seq b' = sh_boot_seq h ∧
  0 < be_first_realtime_ts b' <= sh_first_realtime_ts h ∧
  (0 < be_first_realtime_ts b → be_first_realtime_ts b' <= be_first_realtime_ts b) ∧
  (be_first_realtime_ts b' = sh_first_realtime_ts h ∨
   be_first_realtime_ts b' = be_first_realtime_ts b ∧ 0 < be_first_realtime_ts b) ∧
  be_last_clean_realtime_ts b <= be_last_clean_realtime_ts b' ∧
  sf_last_realtime_ts ft <= be_last_clean_realtime_ts b'.
Proof.
  intros Hh Hb b'. subst b'. unfold rebuild_entry. cbn.
  destruct (Z.eqb_spec (be_first_realtime_ts b) 0); cbn [orb];
    destruct (Z.ltb_spec (sh_first_realtime_ts h) (be_first_realtime_ts b));
    destruct (Z.ltb_spec (be_last_clean_realtime_ts b) (sf_last_realtime_ts ft)); repeat split; lia.
Qed.

(** Membership in concatenations. *)
Ltac mem := rewrite ?map_app; cbn [map]; rewrite ?elem_of_app, ?elem_of_cons, ?list_elem_of_singleton; tauto.

(** One more visit. *)
Lemma cover_step vs r s :
  boots_wf r → zlen r < MAX_BOOTS → boots_cover vs r → Forall (λ s, 0 < sh_first_realtime_ts s.1) (vs ++ [s]) →
  boots_cover (vs ++ [s]) (boot_update (sh_boot_id s.1) (rebuild_entry s.1 s.2) r).
Proof.
  intros Hwf Hl [Hc1 Hc2] Hpos. apply Forall_app in Hpos as [Hpos [Hs _]%Forall_cons].
  destruct (boot_update_cases (sh_boot_id s.1) (rebuild_entry s.1 s.2) r Hwf Hl) as [(l & b & k & -> & Hb & ->)|[Hn ->]].
  - destruct (Hc2 b) as [(sa & Hsa & Hba & _) (sb & Hsb & Hbb & Hfb)]; [mem|].
    assert (Hb0 : 0 < be_first_realtime_ts b) by (rewrite Forall_forall in Hpos; specialize (Hpos sb Hsb); lia).
    pose proof (rebuild_entry_spec s.1 s.2 b Hs ltac:(lia)) as (E1 & E2 & E3 & E4 & E5 & E6 & E7).
    set (b' := rebuild_entry s.1 s.2 b) in *. split.
    + intros t [Ht|Ht%list_elem_of_singleton]%elem_of_app.
      * destruct (Hc1 t Ht) as (c & Hc & Hct & Hcf & Hcl).
        apply elem_of_app in Hc as [Hc|[->|Hc]%elem_of_cons].
        -- exists c. split; [mem|done].
        -- exists b'. split; [mem|]. unfold same_boot in *. split; [congruence|]. lia.
        -- exists c. split; [mem|done].
      * subst t. exists b'. split; [mem|]. unfold same_boot. split; [congruence|]. lia.
    + intros c [Hc|[->|Hc]%elem_of_cons]%elem_of_app.
      * destruct (Hc2 c) as [(ta & ? & ?) (tb & ? & ?)]; [mem|]. split; [exists ta|exists tb]; (split; [mem|done]).
      * split.
        -- exists s. unfold same_boot. split; [mem|]. split; [congruence|done].
        -- destruct E5 as [E5|[E5 _]]; [exists s|exists sb]; unfold same_boot in *; (split; [mem|split; congruence]).
      * destruct (Hc2 c) as [(ta & ? & ?) (tb & ? & ?)]; [mem|]. split; [exists ta|exists tb]; (split; [mem|done]).
  - set (b := mkBootEntry _ _ _ _).
    pose proof (rebuild_entry_spec s.1 s.2 b Hs ltac:(done)) as (E1 & E2 & E3 & _ & E5 & _ & E7).
    set (b' := rebuild_entry s.1 s.2 b) in *. split.
    + intros t [Ht|Ht%list_elem_of_singleton]%elem_of_app.
      * destruct (Hc1 t Ht) as (c & Hc & Hct). exists c. split; [mem|done].
      * subst t. exists b'. split; [mem|]. by unfold same_boot.
    + intros c [Hc|Hc%list_elem_of_singleton]%elem_of_app.
      * destruct (Hc2 c Hc) as [(ta & ? & ?) (tb & ? & ?)]. split; [exists ta|exists tb]; (split; [mem|done]).
      * subst c. destruct E5 as [E5|[_ E5]]; [|cbn in E5; lia].
        split; exists s; unfold same_boot; (split; [mem|done]).
Qed.

Lemma visits_cover vs r us :
  boots_wf r → boots_cover us r → zlen (visits vs r) < MAX_BOOTS →
  Forall (λ s, 0 < sh_first_realtime_ts s.1) (us ++ vs) → boots_cover (us ++ vs) (visits vs r).
Proof.
  revert r us. induction vs as [|s vs IH]; intros r us Hwf Hc Hl Hpos; [by rewrite app_nil_r|].
  cbn [fold_left] in *. pose proof (visits_grow vs (boot_update (sh_boot_id s.1) (rebuild_entry s.1 s.2) r)
    (boot_update_wf _ (rebuild_entry s.1 s.2) _ (λ _, eq_refl) Hwf)) as [_ Hg].
  pose proof (boot_update_grows (sh_boot_id s.1) (rebuild_entry s.1 s.2) r Hwf).
  change (s :: vs) with ([s] ++ vs) in Hpos |- *. rewrite app_assoc in Hpos |- *.
  apply IH; [by apply boot_update_wf| |done|done]. apply cover_step; try done; [lia|].
  by apply Forall_app in Hpos as [? _].
Qed.

(** Rebuilding the registry.  From the segments on disk (whose first
    timestamps are not zero) and as long as the registry does not fill up, the
    rebuilt registry is well formed and has an entry for the boot of every segment
    that scans, with a first time at or before the segment's and a clean-shutdown
    time at or after its footer's; and every entry takes its number and its first
    time from segments of that boot. *)
Theorem rebuilt_boots_cover `{F : FlatCC} st :
  Forall (λ s, 0 < sh_first_realtime_ts s.1) (scanned_segments st) →
  zlen (boot_registry_rebuild_from_segments st) < MAX_BOOTS →
  boots_wf (boot_registry_rebuild_from_segments st) ∧
  boots_cover (scanned_segments st) (boot_registry_rebuild_from_segments st).
Proof.
  rewrite rebuild_visits. generalize (scanned_segments st) as vs. intros vs Hpos Hl.
  split; [apply visits_grow, boots_wf_nil|].
  apply (visits_cover vs [] []); [apply boots_wf_nil| |exact Hl|exact Hpos].
  split; [by intros s Hs%elem_of_nil|by intros b Hb%elem_of_nil].
Qed.

(** ** The state file *)
Section state.
Context `{J : Jansson} `{!Jansson_ok J}.

(** Entries that fit their C types and whose id jansson accepts. *)
Definition boot_ok (b : BootEntry) : Prop :=
  json_text_ok (be_id b) ∧ is_u32 (be_seq b) ∧ is_u64 (be_first_realtime_ts b) ∧
  is_u64 (be_last_clean_realtime_ts b).

Lemma ascii_text_ok s : forallb (λ b, (0 <? b) && (b <? 128)) s = true → json_text_ok s.
Proof.
  intros Hs. assert (Ha : Forall (λ b, 0 < b < 128) s).
  { apply Forall_forall. intros b Hb%list_elem_of_In. rewrite forallb_forall in Hs. specialize (Hs b Hb). bool_lia. }
  split; [by apply json_utf8_ascii|]. eapply Forall_impl; [exact Ha|]. cbn. lia.
Qed.

Lemma boot_node_ok b :
  boot_ok b → ∃ v, boot_node b = Some v ∧ json_wf v ∧
    ∀ r, boots_wf r → zlen r < MAX_BOOTS → be_id b ∉ map be_id r → boot_key (be_id b) = be_id b →
      load_boot_node r v = r ++ [b].
Proof.
  intros (Hid & Hseq & Hf & Hl). destruct b as [id seq first last]. cbn [be_id be_seq be_first_realtime_ts be_last_clean_realtime_ts] in *.
  unfold boot_node, json_string. cbn [be_id be_seq be_first_realtime_ts be_last_clean_realtime_ts].
  rewrite (proj1 Hid). cbn [mbind option_bind]. eexists. split; [reflexivity|].
  assert (Hs : is_s64 seq) by (unfold is_u32, is_s64, INT64_MIN, INT64_MAX in *; lia). split.
  - constructor.
    + destruct (last =? 0); vm_compute; repeat constructor; set_solver.
    + apply Forall_app. split; [|destruct (last =? 0)]; rewrite ?Forall_cons; split_and?;
        try apply Forall_nil; cbn [fst snd]; first [by apply ascii_text_ok|by auto with json].
  - intros r Hwf Hlt Hn Hk.
    assert (Hnode : ∀ ms, load_boot_node r (JObj ([(C "boot_id", JStr id); (C "boot_seq", JInt seq);
        (C "first_realtime_ts", JInt (s64 first))] ++ ms)) =
      boot_update id (λ b, mkBootEntry (be_id b) (u32 seq) (u64 (s64 first))
        (match snd <$> List.find (λ m, beq m.1 (C "last_realtime_ts_on_clean_shutdown")) ms with
         | Some (JInt i) => u64 i | _ => 0 end)) r) by done.
    rewrite Hnode. destruct (boot_update_cases id (λ b, mkBootEntry (be_id b) (u32 seq) (u64 (s64 first))
        (match snd <$> List.find (λ m, beq m.1 (C "last_realtime_ts_on_clean_shutdown"))
           (if last =? 0 then [] else [(C "last_realtime_ts_on_clean_shutdown", JInt (s64 last))]) with
         | Some (JInt i) => u64 i | _ => 0 end)) r Hwf Hlt) as [(l & b & k & -> & Hb & _)|[_ ->]].
    + exfalso. apply Hn. rewrite <- Hk, <- Hb, map_app. mem.
    + f_equal. f_equal. cbn [be_id]. rewrite Hk, u32_id, u64_s64 by done. f_equal.
      destruct (Z.eqb_spec last 0) as [->|]; [done|]. change (u64 (s64 last) = last). by apply u64_s64.
Qed.

Lemma load_nodes bs nodes r :
  Forall boot_ok bs → mapM boot_node bs = Some nodes → boots_wf (r ++ bs) →
  Forall json_wf nodes ∧ fold_left load_boot_node nodes r = r ++ bs.
Proof.
  revert nodes r. induction bs as [|b bs IH]; intros nodes r Hok Hm Hwf.
  { injection Hm as <-. rewrite app_nil_r. split; [constructor|done]. }
  apply Forall_cons in Hok as [Hb Hok]. cbn in Hm. apply bind_Some in Hm as (v & Hv & Hm).
  apply bind_Some in Hm as (vs & Hvs & [= <-]).
  destruct (boot_node_ok b Hb) as (v' & Hv' & Hwv & Hload). rewrite Hv in Hv'. simplify_eq.
  assert (Hr : boots_wf r ∧ zlen r < MAX_BOOTS ∧ (be_id b ∉ map be_id r) ∧ boot_key (be_id b) = be_id b).
  { destruct Hwf as (Hl & Hnd & Hk). rewrite zlen_app, zlen_cons in Hl. pose proof (zlen_nonneg bs).
    rewrite map_app in Hnd. apply NoDup_app in Hnd as (Hnd & Hdis & _). apply Forall_app in Hk as [Hk [Hkb _]%Forall_cons].
    split; [split; [lia|done]|]. split; [lia|]. split; [|done]. intros Hin. apply (Hdis _ Hin). cbn. mem. }
  destruct Hr as (Hwr & Hlt & Hn & Hkb). cbn [fold_left]. rewrite Hload by done.
  destruct (IH vs (r ++ [b]) Hok Hvs) as [Hw Hf]; [by rewrite <- app_assoc|].
  split; [by constructor|]. by rewrite Hf, <- app_assoc.
Qed.

(** The boots file.  When [persist_boot_state] succeeds, [load_boot_state]
    reads back the registry entry for entry, numbers and 64-bit times included. *)
Theorem boot_state_round_trip env w boots st st' :
  boots_wf boots → Forall boot_ok boots →
  persist_boot_state env w boots st = (Ok tt, st') →
  load_boot_state st' = Ok boots ∧ st_dirs st' = st_dirs st.
Proof.
  intros Hwf Hok. unfold persist_boot_state. destruct (mapM boot_node boots) as [nodes|] eqn:Hm; [|done].
  cbn [mbind option_bind]. destruct (json_dumps (JArr nodes)) as [text|] eqn:Ht; [|done].
  intros [Hd Hf]%after_write_ok. split; [|done]. unfold load_boot_state. rewrite Hf. cbn [df_data].
  destruct (load_nodes boots nodes [] Hok Hm Hwf) as [Hw Hl].
  assert (Hj : json_wf (JArr nodes)) by by constructor.
  rewrite cstr_id by by eapply json_dumps_text. rewrite (json_loads_dumps (JArr nodes) text Hj I Ht).
  unfold boot_registry_init. by rewrite Hl.
Qed.
End state.

(** A registry rebuilt after older boots were expired gives the next boot a
    number that an earlier boot already has: numbers are the array's length, not
    above the largest one in use. *)
Lemma boot_seq_collides :
  let rebuilt := [mkBootEntry (C "b") 1 5 9] in
  boot_registry_seq rebuilt (Some (C "c")) = (1, rebuilt ++ [mkBootEntry (C "c") 1 0 0]).
Proof. reflexivity. Qed.

(** ** Concrete registries *)
Definition demo_boots : BootRegistry :=
  [mkBootEntry (C "aa") 3 1700000000000000 18446744073709551615; mkBootEntry (C "bb") 4 1700000000000001 0].

Lemma demo_boots_wf : boots_wf demo_boots.
Proof. split; [by vm_compute|]. split; [vm_compute; repeat constructor; set_solver|by repeat constructor]. Qed.

Lemma boot_get_spec_witness :
  boots_wf (demo_boots ++ [mkBootEntry (C "cc") 2 0 0]).
Proof. exact (proj1 (boot_get_spec demo_boots (C "cc") _ _ demo_boots_wf eq_refl)). Defined.

Lemma boot_state_round_trip_witness :
  ∃ st', persist_boot_state (J := toy_jansson) (mkFsEnv (λ _ _, true) (λ _ _, true) 0 9)
    (mkAtomicEnv 20 true true 100000 true true true ENOSPC) demo_boots (mkStore [] []) = (Ok tt, st') ∧
    load_boot_state (J := toy_jansson) st' = Ok demo_boots.
Proof.
  eexists. split; [vm_compute; reflexivity|].
  eapply (boot_state_round_trip (J := toy_jansson) (Jansson_ok0 := toy_jansson_ok)
    (mkFsEnv (λ _ _, true) (λ _ _, true) 0 9) (mkAtomicEnv 20 true true 100000 true true true ENOSPC)
    demo_boots (mkStore [] [])); [exact demo_boots_wf| |vm_compute; reflexivity].
  repeat constructor; vm_compute; try congruence; repeat constructor; congruence.
Defined.

#[local] Existing Instance toy_lib.
#[local] Existing Instance toy_flatcc.

Definition demo_boot_store : Store :=
  mkStore [mkLogDir (C "p3") [mkDirFile (C "7.seg") (f_data (demo_data None)) 5; mkDirFile (C "7.idx") [] 5]] [].

Lemma rebuilt_boots_cover_witness :
  boots_cover (scanned_segments demo_boot_store) (boot_registry_rebuild_from_segments demo_boot_store) ∧
  length (scanned_segments demo_boot_store) = 1%nat.
Proof.
  split; [|vm_compute; reflexivity].
  apply (rebuilt_boots_cover demo_boot_store); [|vm_compute; reflexivity].
  vm_compute. repeat constructor.
Defined.
