(* ===== verification/Config.v ===== *)
(** * The configuration (src/src/recorder.c)

    The configuration record, its defaults, and the JSON file and drop-in
    fragments that change it.  A setter either returns the new value or fails
    ([Err EUNSET] is the [-1] after a message on stderr); a failed load ends the
    program, so the partial changes it made are not kept.  The build is the one
    with PCRE2; the regular-expression library is the class [RegexLib]. *)
From S2P Require Import Prelude Bytes CText Store Json.

Abbreviation fail := (Err EUNSET).

(** ** Data *)
Class RegexLib := {
  regex_code : Type;
  regex_compile : bytes → option regex_code;
}.

Section data.
Context `{RX : RegexLib}.

(** [ModifierMatchKind] with the field of [EntryModifier] it selects. *)
Inductive ModifierMatch :=
  | MODIFIER_MATCH_EXACT (match_exact : bytes)
  | MODIFIER_MATCH_PRESENT (match_present : bool)
  | MODIFIER_MATCH_REGEX (match_regex : regex_code).

Record EntryModifier := mkEntryModifier {
  em_match_field : bytes;
  em_match : ModifierMatch;
  em_negate : bool;
  em_rewrite : option (bytes * bytes);      (* rewrite_field, replacement *)
  em_drop : bool;
  em_set_priority : Z;                      (* -1: not set *)
  em_script_command : option (list bytes);
  em_script_run_on_replay : bool;
  em_script_timeout_sec : Z;
}.

Record PriorityGroup := mkPriorityGroup {
  pg_name : bytes;
  pg_priorities : list Z;
  pg_min_priority : Z;
  pg_durable_per_frame : bool;
  pg_durability_flush_frames : Z;
  pg_durability_flush_interval_sec : Z;
  pg_max_bytes : Z;
  pg_max_age_sec : Z;
  pg_static_dict_path : option bytes;
  pg_modifiers : list EntryModifier;
}.

Record RecorderConfig := mkRecorderConfig {
  cfg_capture_message_id : bool;
  cfg_capture_unit : bool;
  cfg_capture_hostname : bool;
  cfg_capture_comm : bool;
  cfg_capture_exe : bool;
  cfg_capture_pid : bool;
  cfg_capture_uid : bool;
  cfg_capture_gid : bool;
  cfg_capture_all_fields : bool;
  cfg_capture_fields_whitelist : list bytes;
  cfg_capture_fields_blacklist : list bytes;
  cfg_sanitize_output : bool;
  cfg_durable_priority_max : Z;
  cfg_durability_flush_frames : Z;
  cfg_durability_flush_interval_sec : Z;
  cfg_log_max_bytes : Z;
  cfg_min_free_bytes : Z;
  cfg_segment_max_bytes : Z;
  cfg_segment_max_age_sec : Z;
  cfg_compress_enabled : bool;
  cfg_compress_min_frame_bytes : Z;
  cfg_compress_if_smaller : bool;
  cfg_encryption_public_key : option bytes;
  cfg_static_dict_paths : list (option bytes);   (* one per priority *)
  cfg_modifiers : list EntryModifier;
  cfg_groups : list PriorityGroup;               (* groups[0 .. group_count) *)
  cfg_priority_to_group : list Z;                (* one per priority, -1: none *)
}.

Definition MAX_PRIORITY_GROUPS : Z := 8.
Definition MAX_GROUP_NAME_LEN : Z := 63.
Definition priorities8 : list Z := [0; 1; 2; 3; 4; 5; 6; 7].

Definition default_group (i : Z) : PriorityGroup :=
  mkPriorityGroup (C "p" ++ print_u64 i) [i] i false 0 0 0 0 None [].

Definition recorder_config_init : RecorderConfig :=
  mkRecorderConfig
    false true false false false true false false false [] [] true
    3 32 60 (64 * 1024 * 1024) 0 (4 * 1024 * 1024) 900
    true 256 true None (replicate 8 None) []
    (map default_group priorities8) priorities8.

(** ** The file's text *)
Definition is_blank (c : Z) : bool := (c =? 32) || (c =? 9).
Fixpoint skip_blanks (s : bytes) : bytes :=
  match s with
  | c :: s' => if is_blank c then skip_blanks s' else s
  | [] => []
  end.
Definition is_comment_line (line : bytes) : bool :=
  match skip_blanks line with c :: _ => c =? 35 | [] => false end.

(** The bytes up to the next newline, and what follows it when there is one. *)
Fixpoint split_line (s : bytes) : bytes * option bytes :=
  match s with
  | [] => ([], None)
  | c :: s' => if c =? 10 then ([], Some s') else let '(l, r) := split_line s' in (c :: l, r)
  end.

(** The loop over lines; every iteration consumes a byte, so the length of the
    input is enough fuel. *)
Fixpoint strip_lines (fuel : nat) (s : bytes) : bytes :=
  match fuel, s with
  | O, _ | _, [] => []
  | S fuel', _ =>
      let '(line, rest) := split_line s in
      (if is_comment_line line then [] else line) ++
      match rest with Some s' => 10 :: strip_lines fuel' s' | None => [] end
  end.
Definition strip_hash_comment_lines (input : bytes) : bytes := strip_lines (length input) input.

(** ** Typed keys *)
Definition json_get_bool_default (root : json) (key : bytes) (dst : bool) : Res bool :=
  match json_object_get root key with
  | None => Ok dst
  | Some (JBool b) => Ok b
  | Some _ => fail
  end.

Definition json_get_uint_default (root : json) (key : bytes) (dst : Z) : Res Z :=
  match json_object_get root key with
  | None => Ok dst
  | Some (JInt value) => if (value <? 0) || (UINT32_MAX <? value) then fail else Ok (u32 value)
  | Some _ => fail
  end.

(** The variant for keys of a group differs in its message only. *)
Definition json_get_group_uint_default (group : json) (key : bytes) (dst : Z) : Res Z :=
  match json_object_get group key with
  | None => Ok dst
  | Some (JInt value) => if (value <? 0) || (UINT32_MAX <? value) then fail else Ok (u32 value)
  | Some _ => fail
  end.

Definition json_get_int_default (root : json) (key : bytes) (min_value max_value dst : Z) : Res Z :=
  match json_object_get root key with
  | None => Ok dst
  | Some (JInt value) => if (value <? min_value) || (max_value <? value) then fail else Ok value
  | Some _ => fail
  end.

Definition size_scale (c : Z) : option Z :=
  let u := toupper c in
  if u =? 75 then Some 1024
  else if u =? 77 then Some (1024 * 1024)
  else if u =? 71 then Some (1024 * 1024 * 1024)
  else None.

Definition parse_size_string (text : bytes) : option Z :=
  let '(base, end_, erange) := strtoull10 text in
  if erange || beq end_ text then None
  else
    scale ← match end_ with
            | [] => Some 1
            | [c] => size_scale c
            | _ => None
            end;
    if UINT64_MAX / scale <? base then None else Some (u64 (base * scale)).

Definition json_get_size_default (root : json) (key : bytes) (dst : Z) : Res Z :=
  match json_object_get root key with
  | None => Ok dst
  | Some (JInt raw) => if raw <? 0 then fail else Ok (u64 raw)
  | Some (JStr text) => match parse_size_string text with Some v => Ok v | None => fail end
  | Some _ => fail
  end.

Definition json_get_group_size_default (group : json) (key : bytes) (dst : Z) : Res Z :=
  match json_object_get group key with
  | None => Ok dst
  | Some (JInt raw) => if raw <? 0 then fail else Ok (u64 raw)
  | Some (JStr text) => match parse_size_string text with Some v => Ok v | None => fail end
  | Some _ => fail
  end.

Definition json_get_optional_nonempty_string (root : json) (key : bytes) (dst : option bytes) : Res (option bytes) :=
  match json_object_get root key with
  | None => Ok dst
  | Some (JStr value) => if beq value [] then fail else Ok (Some value)
  | Some _ => fail
  end.

Definition nonempty_string (v : json) : option bytes :=
  match v with
  | JStr text => if beq text [] then None else Some text
  | _ => None
  end.

Definition json_get_string_array (root : json) (key : bytes) (dst : list bytes) : Res (list bytes) :=
  match json_object_get root key with
  | None => Ok dst
  | Some (JArr items) => match mapM nonempty_string items with Some l => Ok l | None => fail end
  | Some _ => fail
  end.

Fixpoint set_dict_paths (members : list (bytes * json)) (paths : list (option bytes)) : Res (list (option bytes)) :=
  match members with
  | [] => Ok paths
  | (key, JStr value) :: members' =>
      let '(prio, end_, erange) := strtol10 key in
      if erange || negb (beq end_ []) || (prio <? 0) || (7 <? prio) then fail
      else set_dict_paths members' (<[Z.to_nat prio := Some value]> paths)
  | _ => fail
  end.

Definition json_get_static_dict_paths (root : json) (dst : list (option bytes)) : Res (list (option bytes)) :=
  match json_object_get root (C "static_dict_paths") with
  | None => Ok dst
  | Some (JObj members) => set_dict_paths members (replicate 8 None)
  | Some _ => fail
  end.
End data.

(** ** Entry modifiers *)
Definition is_object (v : json) : bool := match v with JObj _ => true | _ => false end.
Definition is_bool_or_absent (o : option json) : bool :=
  match o with None | Some (JBool _) => true | Some _ => false end.
Definition is_true (o : option json) : bool := match o with Some (JBool true) => true | _ => false end.

Section modifiers.
Context `{RX : RegexLib}.

(** [match.field], or MESSAGE. *)
Definition modifier_field (m : json) : Res bytes :=
  match json_object_get m (C "field") with
  | None => Ok (C "MESSAGE")
  | Some v => match nonempty_string v with Some s => Ok s | None => fail end
  end.

Definition modifier_match (m : json) : Res ModifierMatch :=
  match json_object_get m (C "regex"), json_object_get m (C "exact"), json_object_get m (C "present") with
  | None, Some (JStr exact), None => Ok (MODIFIER_MATCH_EXACT exact)
  | None, None, Some (JBool present) => Ok (MODIFIER_MATCH_PRESENT present)
  | Some (JStr regex), None, None =>
      match regex_compile regex with Some code => Ok (MODIFIER_MATCH_REGEX code) | None => fail end
  | _, _, _ => fail
  end.

Definition modifier_set_priority (item : json) : Res Z :=
  match json_object_get item (C "set_priority") with
  | None => Ok (-1)
  | Some (JInt value) => if (value <? 0) || (7 <? value) then fail else Ok value
  | Some _ => fail
  end.

Definition modifier_rewrite (item : json) (mm : ModifierMatch) (negate : bool) : Res (option (bytes * bytes)) :=
  match json_object_get item (C "rewrite") with
  | None => Ok None
  | Some rewrite =>
      match json_object_get rewrite (C "field"), json_object_get rewrite (C "replacement") with
      | Some (JStr field), Some (JStr replacement) =>
          if beq field [] then fail
          else match mm with
               | MODIFIER_MATCH_REGEX _ => if negate then fail else Ok (Some (field, replacement))
               | _ => fail
               end
      | _, _ => fail
      end
  end.

(** The argv vector, whose first string is an absolute path. *)
Definition script_args (items : list json) : option (list bytes) :=
  args ← mapM nonempty_string items;
  match args with
  | (c :: _) :: _ => if c =? 47 then Some args else None
  | _ => None
  end.

Definition modifier_script (item : json) : Res (option (list bytes) * bool * Z) :=
  match json_object_get item (C "script") with
  | None => Ok (None, false, 10)
  | Some script =>
      match json_object_get script (C "command") with
      | Some (JArr command) =>
          let run_on_replay := json_object_get script (C "run_on_replay") in
          if negb (is_bool_or_absent run_on_replay) then fail
          else
            let? timeout_sec := match json_object_get script (C "timeout_sec") with
                                | None => Ok 10
                                | Some (JInt v) => if (v <? 1) || (86400 <? v) then fail else Ok v
                                | Some _ => fail
                                end in
            match script_args command with
            | Some args => Ok (Some args, is_true run_on_replay, timeout_sec)
            | None => fail
            end
      | _ => fail
      end
  end.

(** The body of the loop of [json_get_modifier_list]. *)
Definition parse_modifier (item : json) : Res EntryModifier :=
  match json_object_get item (C "match") with
  | Some m =>
      require is_object m else EUNSET;
      let? field := modifier_field m in
      let negate := json_object_get m (C "not") in
      require is_bool_or_absent negate else EUNSET;
      let? mm := modifier_match m in
      let drop := json_object_get item (C "drop") in
      require is_bool_or_absent drop else EUNSET;
      let? set_priority := modifier_set_priority item in
      let? rewrite := modifier_rewrite item mm (is_true negate) in
      let? (script, run_on_replay, timeout_sec) := modifier_script item in
      require is_true drop || (0 <=? set_priority) || bool_decide (is_Some rewrite)
              || bool_decide (is_Some script) else EUNSET;
      Ok (mkEntryModifier field mm (is_true negate) rewrite (is_true drop) set_priority
            script run_on_replay timeout_sec)
  | None => fail
  end.

Fixpoint parse_modifiers (items : list json) : Res (list EntryModifier) :=
  match items with
  | [] => Ok []
  | item :: items' =>
      let? m := parse_modifier item in
      let? ms := parse_modifiers items' in
      Ok (m :: ms)
  end.

Definition json_get_modifier_list (owner : json) (dst : list EntryModifier) : Res (list EntryModifier) :=
  match json_object_get owner (C "modifiers") with
  | None => Ok dst
  | Some (JArr items) => parse_modifiers items
  | Some _ => fail
  end.

Definition modifier_rewrite_field_is_supported (field : bytes) : bool :=
  beq field (C "MESSAGE") || beq field (C "MESSAGE_ID") || beq field (C "_HOSTNAME")
  || beq field (C "_SYSTEMD_UNIT") || beq field (C "_COMM") || beq field (C "_EXE").

Definition validate_modifier_list (l : list EntryModifier) : Res unit :=
  guard_res (forallb (λ m, match em_rewrite m with
                           | Some (field, _) => modifier_rewrite_field_is_supported field
                           | None => true
                           end) l) EUNSET.

Definition modifier_list_uses_full_entries (l : list EntryModifier) : bool :=
  existsb (λ m, match em_rewrite m with
                | Some (field, _) => negb (beq field (C "MESSAGE")) && negb (beq field (C "_SYSTEMD_UNIT"))
                | None => false
                end) l.

Definition config_uses_full_entries (cfg : RecorderConfig) : bool :=
  cfg_capture_all_fields cfg || cfg_capture_message_id cfg || cfg_capture_hostname cfg
  || cfg_capture_comm cfg || cfg_capture_exe cfg || cfg_capture_uid cfg || cfg_capture_gid cfg
  || modifier_list_uses_full_entries (cfg_modifiers cfg)
  || existsb (λ g, modifier_list_uses_full_entries (pg_modifiers g)) (cfg_groups cfg).

(** ** Priority groups *)
Definition add_priority (g : PriorityGroup) (prio : Z) : PriorityGroup :=
  mkPriorityGroup (pg_name g) (pg_priorities g ++ [prio])
    (if prio <? pg_min_priority g then prio else pg_min_priority g)
    (pg_durable_per_frame g) (pg_durability_flush_frames g) (pg_durability_flush_interval_sec g)
    (pg_max_bytes g) (pg_max_age_sec g) (pg_static_dict_path g) (pg_modifiers g).

(** The inner loop over [priorities]: the group, [seen_mask] and
    [priority_to_group]. *)
Fixpoint add_priorities (i : Z) (nodes : list json) (g : PriorityGroup) (seen_mask : Z) (p2g : list Z)
    : Res (PriorityGroup * Z * list Z) :=
  match nodes with
  | [] => Ok (g, seen_mask, p2g)
  | JInt prio :: nodes' =>
      if (prio <? 0) || (7 <? prio) then fail
      else if has_flag seen_mask (Z.shiftl 1 prio) then fail
      else add_priorities i nodes' (add_priority g prio) (Z.lor seen_mask (Z.shiftl 1 prio))
             (<[Z.to_nat prio := i]> p2g)
  | _ => fail
  end.

(** One entry of [priority_groups], after the groups [done_].  The program copies
    the name into an array of 64 bytes without looking at its length; for a longer
    name the definition says nothing about it ([ConfigProofs.config_names_short]). *)
Definition parse_group (cfg : RecorderConfig) (done_ : list PriorityGroup) (node : json)
    : Res (PriorityGroup * list json) :=
  match json_object_get node (C "name"), json_object_get node (C "priorities") with
  | Some (JStr name), Some (JArr priorities) =>
      require valid_group_name name else EUNSET;
      let? frames := json_get_group_uint_default node (C "durability_flush_frames")
                       (cfg_durability_flush_frames cfg) in
      let? interval := json_get_group_uint_default node (C "durability_flush_interval_sec")
                         (cfg_durability_flush_interval_sec cfg) in
      let? max_bytes := json_get_group_size_default node (C "max_bytes") 0 in
      let? max_age := json_get_group_uint_default node (C "max_age_sec") 0 in
      let? modifiers := json_get_modifier_list node [] in
      require negb (existsb (λ g, beq (pg_name g) name) done_) else EUNSET;
      require negb (zlen priorities =? 0) && (zlen priorities <=? 8) else EUNSET;
      Ok (mkPriorityGroup name [] 255 false frames interval max_bytes max_age None modifiers, priorities)
  | _, _ => fail
  end.

Fixpoint add_groups (cfg : RecorderConfig) (nodes : list json) (done_ : list PriorityGroup)
    (seen_mask : Z) (p2g : list Z) : Res (list PriorityGroup * Z * list Z) :=
  match nodes with
  | [] => Ok (done_, seen_mask, p2g)
  | node :: nodes' =>
      let? (g, priorities) := parse_group cfg done_ node in
      let? (g', seen', p2g') := add_priorities (zlen done_) priorities g seen_mask p2g in
      add_groups cfg nodes' (done_ ++ [g']) seen' p2g'
  end.

Definition json_get_priority_groups (root : json) (cfg : RecorderConfig) : Res (list PriorityGroup * list Z) :=
  match json_object_get root (C "priority_groups") with
  | None => Ok (cfg_groups cfg, cfg_priority_to_group cfg)
  | Some (JArr nodes) =>
      require negb (zlen nodes =? 0) && (zlen nodes <=? MAX_PRIORITY_GROUPS) else EUNSET;
      let? (groups, seen_mask, p2g) := add_groups cfg nodes [] 0 (replicate 8 (-1)) in
      require seen_mask =? 255 else EUNSET;
      Ok (groups, p2g)
  | Some _ => fail
  end.
End modifiers.

(** ** Loading *)
Section load.
Context `{RX : RegexLib} `{J : Jansson}.

(** The loop over a group's priorities: does any of them ask for durable frames,
    and which dictionary do they share. *)
Fixpoint group_settings (durable_max : Z) (paths : list (option bytes)) (prios : list Z)
    (dict_path : option bytes) (durable : bool) : Res (option bytes * bool) :=
  match prios with
  | [] => Ok (dict_path, durable)
  | prio :: prios' =>
      let durable' := durable || ((0 <=? durable_max) && (prio <=? u8 durable_max)) in
      match nth (Z.to_nat prio) paths None with
      | None => group_settings durable_max paths prios' dict_path durable'
      | Some candidate =>
          match dict_path with
          | None => group_settings durable_max paths prios' (Some candidate) durable'
          | Some p => if beq p candidate then group_settings durable_max paths prios' dict_path durable' else fail
          end
      end
  end.

Definition finish_group (cfg : RecorderConfig) (g : PriorityGroup) : Res PriorityGroup :=
  let? _ := validate_modifier_list (pg_modifiers g) in
  let? (dict_path, durable) := group_settings (cfg_durable_priority_max cfg) (cfg_static_dict_paths cfg)
                                 (pg_priorities g) None false in
  Ok (mkPriorityGroup (pg_name g) (pg_priorities g) (pg_min_priority g) durable
        (pg_durability_flush_frames g) (pg_durability_flush_interval_sec g)
        (pg_max_bytes g) (pg_max_age_sec g) dict_path (pg_modifiers g)).

Fixpoint finish_groups (cfg : RecorderConfig) (gs : list PriorityGroup) : Res (list PriorityGroup) :=
  match gs with
  | [] => Ok []
  | g :: gs' =>
      let? g' := finish_group cfg g in
      let? gs'' := finish_groups cfg gs' in
      Ok (g' :: gs'')
  end.

Definition set_groups (cfg : RecorderConfig) (groups : list PriorityGroup) (p2g : list Z) : RecorderConfig :=
  mkRecorderConfig
    (cfg_capture_message_id cfg) (cfg_capture_unit cfg) (cfg_capture_hostname cfg) (cfg_capture_comm cfg)
    (cfg_capture_exe cfg) (cfg_capture_pid cfg) (cfg_capture_uid cfg) (cfg_capture_gid cfg)
    (cfg_capture_all_fields cfg) (cfg_capture_fields_whitelist cfg) (cfg_capture_fields_blacklist cfg)
    (cfg_sanitize_output cfg) (cfg_durable_priority_max cfg) (cfg_durability_flush_frames cfg)
    (cfg_durability_flush_interval_sec cfg) (cfg_log_max_bytes cfg) (cfg_min_free_bytes cfg)
    (cfg_segment_max_bytes cfg) (cfg_segment_max_age_sec cfg) (cfg_compress_enabled cfg)
    (cfg_compress_min_frame_bytes cfg) (cfg_compress_if_smaller cfg) (cfg_encryption_public_key cfg)
    (cfg_static_dict_paths cfg) (cfg_modifiers cfg) groups p2g.

(** The chain of getters, in the order of the code, on the parsed root. *)
Definition config_read_scalars (root : json) (cfg : RecorderConfig) : Res RecorderConfig :=
  let? message_id := json_get_bool_default root (C "capture_message_id") (cfg_capture_message_id cfg) in
  let? unit_ := json_get_bool_default root (C "capture_unit") (cfg_capture_unit cfg) in
  let? hostname := json_get_bool_default root (C "capture_hostname") (cfg_capture_hostname cfg) in
  let? comm := json_get_bool_default root (C "capture_comm") (cfg_capture_comm cfg) in
  let? exe := json_get_bool_default root (C "capture_exe") (cfg_capture_exe cfg) in
  let? pid := json_get_bool_default root (C "capture_pid") (cfg_capture_pid cfg) in
  let? uid := json_get_bool_default root (C "capture_uid") (cfg_capture_uid cfg) in
  let? gid := json_get_bool_default root (C "capture_gid") (cfg_capture_gid cfg) in
  let? all_fields := json_get_bool_default root (C "capture_all_fields") (cfg_capture_all_fields cfg) in
  let? whitelist := json_get_string_array root (C "capture_fields_whitelist") (cfg_capture_fields_whitelist cfg) in
  let? blacklist := json_get_string_array root (C "capture_fields_blacklist") (cfg_capture_fields_blacklist cfg) in
  let? sanitize := json_get_bool_default root (C "sanitize_output") (cfg_sanitize_output cfg) in
  let? durable_max := json_get_int_default root (C "durable_priority_max") (-1) 7 (cfg_durable_priority_max cfg) in
  let? flush_frames := json_get_uint_default root (C "durability_flush_frames") (cfg_durability_flush_frames cfg) in
  let? flush_interval := json_get_uint_default root (C "durability_flush_interval_sec")
                           (cfg_durability_flush_interval_sec cfg) in
  let? log_max := json_get_size_default root (C "log_max_bytes") (cfg_log_max_bytes cfg) in
  let? min_free := json_get_size_default root (C "min_free_bytes") (cfg_min_free_bytes cfg) in
  let? segment_max := json_get_size_default root (C "segment_max_bytes") (cfg_segment_max_bytes cfg) in
  let? segment_age := json_get_uint_default root (C "segment_max_age_sec") (cfg_segment_max_age_sec cfg) in
  let? compress := json_get_bool_default root (C "compress_enabled") (cfg_compress_enabled cfg) in
  let? compress_min := json_get_uint_default root (C "compress_min_frame_bytes") (cfg_compress_min_frame_bytes cfg) in
  let? compress_smaller := json_get_bool_default root (C "compress_if_smaller") (cfg_compress_if_smaller cfg) in
  let? public_key := json_get_optional_nonempty_string root (C "encryption_public_key")
                       (cfg_encryption_public_key cfg) in
  let? dict_paths := json_get_static_dict_paths root (cfg_static_dict_paths cfg) in
  let? modifiers := json_get_modifier_list root (cfg_modifiers cfg) in
  Ok (mkRecorderConfig message_id unit_ hostname comm exe pid uid gid all_fields whitelist blacklist
        sanitize durable_max flush_frames flush_interval log_max min_free segment_max segment_age
        compress compress_min compress_smaller public_key dict_paths modifiers
        (cfg_groups cfg) (cfg_priority_to_group cfg)).

(** [readable path] is [access(path, R_OK) == 0]. *)
Definition path_readable (readable : bytes → bool) (path : option bytes) : bool :=
  match path with Some p => readable p | None => true end.

Definition config_apply (readable : bytes → bool) (root : json) (cfg : RecorderConfig) : Res RecorderConfig :=
  let? cfg1 := config_read_scalars root cfg in
  let? (groups, p2g) := json_get_priority_groups root cfg1 in
  require path_readable readable (cfg_encryption_public_key cfg1) else EUNSET;
  let? _ := validate_modifier_list (cfg_modifiers cfg1) in
  require forallb (path_readable readable) (cfg_static_dict_paths cfg1) else EUNSET;
  let? groups' := finish_groups cfg1 groups in
  Ok (set_groups cfg1 groups' p2g).

(** [raw] is what [slurp_file] reads. *)
Definition recorder_config_load (readable : bytes → bool) (raw : Res bytes) (cfg : RecorderConfig)
    : Res RecorderConfig :=
  match raw with
  | Err _ => fail
  | Ok text =>
      match json_loads (cstr (strip_hash_comment_lines text)) with
      | Some (JObj members) => config_apply readable (JObj members) cfg
      | _ => fail
      end
  end.

(** *** Fragments

    A directory entry as [stat] and [slurp_file] find it. *)
Record DropIn := mkDropIn {
  di_name : bytes;
  di_stat_ok : bool;
  di_regular : bool;
  di_content : Res bytes;
}.

Definition recorder_json_file_filter (name : bytes) : bool :=
  (5 <? zlen name) && beq (zdrop (zlen name - 5) name) (C ".json").

Definition path_len_ok (dir name : bytes) : bool := zlen dir + 1 + zlen name <? PATH_MAX.

Fixpoint load_fragments (readable : bytes → bool) (dir : bytes) (entries : list DropIn) (cfg : RecorderConfig)
    : Res RecorderConfig :=
  match entries with
  | [] => Ok cfg
  | e :: entries' =>
      if negb (path_len_ok dir (di_name e)) || negb (di_stat_ok e) then fail
      else if negb (di_regular e) then load_fragments readable dir entries' cfg
      else let? cfg' := recorder_config_load readable (di_content e) cfg in
           load_fragments readable dir entries' cfg'
  end.

(** [entries] is the directory in [alphasort] order, or why it cannot be read. *)
Definition recorder_config_load_dropins (readable : bytes → bool) (dir : bytes) (entries : Res (list DropIn))
    (cfg : RecorderConfig) : Res RecorderConfig :=
  match entries with
  | Err ENOENT => Ok cfg
  | Err _ => fail
  | Ok l => load_fragments readable dir (List.filter (λ e, recorder_json_file_filter (di_name e)) l) cfg
  end.
End load.
