(* ===== verification/ConfigProofs.v ===== *)
(** * Properties of the configuration *)
From S2P Require Import Prelude Bytes CText Store StoreProofs Json Config.

(** ** Bits *)
Lemma has_flag_bit x p : 0 <= p → has_flag x (Z.shiftl 1 p) = Z.testbit x p.
Proof.
  intros Hp. unfold has_flag. rewrite Z.shiftl_1_l. destruct (Z.testbit x p) eqn:Hb.
  - apply negb_true_iff, Z.eqb_neq. intros H. apply (f_equal (λ y, Z.testbit y p)) in H.
    rewrite Z.land_spec, Hb, Z.pow2_bits_true, Z.bits_0 in H by done. done.
  - apply negb_false_iff, Z.eqb_eq. apply Z.bits_inj'. intros n Hn.
    rewrite Z.land_spec, Z.bits_0. destruct (decide (n = p)) as [->|]; [by rewrite Hb|].
    rewrite Z.pow2_bits_false by done. apply andb_false_r.
Qed.
Lemma lor_bit x p q : 0 <= p → 0 <= q → Z.testbit (Z.lor x (Z.shiftl 1 p)) q = Z.testbit x q || (p =? q).
Proof.
  intros. rewrite Z.lor_spec, Z.shiftl_1_l. f_equal. rewrite Z.pow2_bits_eqb by done. done.
Qed.

(** ** Priority groups *)
Section groups.
Context `{RX : RegexLib}.

(** [min_priority] of a group: the smallest of its priorities, 255 before any. *)
Definition min_ok (g : PriorityGroup) : Prop :=
  match pg_priorities g with
  | [] => pg_min_priority g = 255
  | _ => pg_min_priority g ∈ pg_priorities g ∧ Forall (λ p, pg_min_priority g <= p) (pg_priorities g)
  end.

(** The groups read so far: each priority is in at most one group and once,
    [p2g] leads to it, and the mask has its bit. *)
Definition groups_inv (groups : list PriorityGroup) (seen : Z) (p2g : list Z) : Prop :=
  length p2g = 8%nat ∧ NoDup (map pg_name groups) ∧
  Forall (λ g, valid_group_name (pg_name g) = true ∧ NoDup (pg_priorities g) ∧ min_ok g) groups ∧
  (∀ i g p, groups !! i = Some g → p ∈ pg_priorities g →
     0 <= p <= 7 ∧ p2g !! Z.to_nat p = Some (Z.of_nat i) ∧ Z.testbit seen p = true) ∧
  (∀ p, 0 <= p <= 7 → Z.testbit seen p = true → ∃ i g, groups !! i = Some g ∧ p ∈ pg_priorities g).

(** What a complete configuration has. *)
Definition groups_wf (groups : list PriorityGroup) (p2g : list Z) : Prop :=
  1 <= zlen groups <= MAX_PRIORITY_GROUPS ∧ length p2g = 8%nat ∧ NoDup (map pg_name groups) ∧
  Forall (λ g, valid_group_name (pg_name g) = true ∧ pg_priorities g ≠ [] ∧
     NoDup (pg_priorities g) ∧ min_ok g) groups ∧
  (∀ i g p, groups !! i = Some g → p ∈ pg_priorities g →
     0 <= p <= 7 ∧ p2g !! Z.to_nat p = Some (Z.of_nat i)) ∧
  (∀ p, 0 <= p <= 7 → ∃ i g, p2g !! Z.to_nat p = Some (Z.of_nat i) ∧ groups !! i = Some g ∧ p ∈ pg_priorities g).

Lemma min_ok_add g p :
  min_ok g → p <= 7 → min_ok (add_priority g p).
Proof.
  unfold min_ok. destruct g as [nm prios mn ? ? ? ? ? ? ?].
  cbn [add_priority pg_priorities pg_min_priority].
  intros Hm Hp. destruct prios as [|q qs].
  - subst mn. cbn [app]. destruct (Z.ltb_spec p 255); [|lia]. split; [by left|]. by repeat constructor.
  - destruct Hm as [Hin Hall]. change (((q :: qs) ++ [p])) with (q :: (qs ++ [p])).
    assert (Hs : ∀ x, x ∈ q :: (qs ++ [p]) ↔ x ∈ q :: qs ∨ x = p).
    { intros x. rewrite !elem_of_cons, elem_of_app, list_elem_of_singleton. tauto. }
    split.
    + apply Hs. destruct (Z.ltb_spec p mn); [by right|by left].
    + apply Forall_forall. intros x [Hx| ->]%Hs; rewrite ?Forall_forall in Hall;
        [specialize (Hall x Hx)|]; destruct (Z.ltb_spec p mn); lia.
Qed.

Lemma groups_inv_add done_ g seen p2g p :
  groups_inv (done_ ++ [g]) seen p2g → 0 <= p <= 7 → Z.testbit seen p = false →
  groups_inv (done_ ++ [add_priority g p]) (Z.lor seen (Z.shiftl 1 p)) (<[Z.to_nat p := zlen done_]> p2g).
Proof.
  intros (Hlen & Hnd & Hall & Hto & Hof) Hp Hfree.
  assert (Hnew : ∀ i h, (done_ ++ [g]) !! i = Some h → p ∉ pg_priorities h).
  { intros i h Hi Hin. destruct (Hto i h p Hi Hin) as (_ & _ & ?). congruence. }
  assert (Hg : (done_ ++ [g]) !! length done_ = Some g) by by rewrite list_lookup_middle.
  split; [by rewrite length_insert|]. rewrite !map_app in *. split; [done|].
  apply Forall_app in Hall as [Hd [(Hv & Hn & Hm) _]%Forall_cons]. split; [|split].
  - apply Forall_app. split; [done|]. constructor; [|constructor]. split; [done|]. split; [|apply min_ok_add; [done|lia]].
    cbn [add_priority pg_priorities]. apply NoDup_app. split; [done|]. split; [|apply NoDup_singleton].
    intros x Hx Hxp%list_elem_of_singleton. subst x. by apply (Hnew _ _ Hg).
  - intros i h q Hi Hq.
    assert (Hcase : (∃ h', (done_ ++ [g]) !! i = Some h' ∧ q ∈ pg_priorities h') ∨ i = length done_ ∧ q = p).
    { destruct (decide (i < length done_)%nat) as [Hlt|Hge].
      - left. exists h. rewrite lookup_app_l in Hi |- * by done. done.
      - assert (i = length done_) as ->.
        { apply lookup_lt_Some in Hi. rewrite length_app in Hi. cbn in Hi. lia. }
        rewrite list_lookup_middle in Hi by done. injection Hi as <-. cbn [add_priority pg_priorities] in Hq.
        apply elem_of_app in Hq as [Hq|Hq%list_elem_of_singleton]; [left; by exists g|by right]. }
    destruct Hcase as [(h' & Hi' & Hq')|[-> ->]].
    + destruct (Hto i h' q Hi' Hq') as (Hr & Hl & Hb). rewrite lor_bit, Hb by lia. split; [done|]. split; [|done].
      rewrite list_lookup_insert_ne; [done|]. intros Heq. assert (p = q) as -> by lia. congruence.
    + split; [done|]. rewrite lor_bit, Z.eqb_refl, orb_true_r by lia. split; [|done].
      rewrite list_lookup_insert_eq by lia. done.
  - intros q Hq Hb. rewrite lor_bit in Hb by lia. apply orb_true_iff in Hb as [Hb|Hb].
    + destruct (Hof q Hq Hb) as (i & h & Hi & Hin).
      destruct (decide (i < length done_)%nat) as [Hlt|Hge].
      * exists i, h. rewrite lookup_app_l in Hi |- * by done. done.
      * assert (i = length done_) as ->.
        { apply lookup_lt_Some in Hi. rewrite length_app in Hi. cbn in Hi. lia. }
        rewrite list_lookup_middle in Hi by done. injection Hi as <-.
        exists (length done_), (add_priority g p). rewrite list_lookup_middle by done. split; [done|].
        cbn [add_priority pg_priorities]. apply elem_of_app. by left.
    + apply Z.eqb_eq in Hb as <-. exists (length done_), (add_priority g p).
      rewrite list_lookup_middle by done. split; [done|]. cbn [add_priority pg_priorities].
      apply elem_of_app. right. by left.
Qed.

Lemma add_priorities_ok done_ nodes g seen p2g g' seen' p2g' :
  groups_inv (done_ ++ [g]) seen p2g →
  add_priorities (zlen done_) nodes g seen p2g = Ok (g', seen', p2g') →
  groups_inv (done_ ++ [g']) seen' p2g' ∧ ∃ ps, length ps = length nodes ∧ g' = fold_left add_priority ps g.
Proof.
  revert g seen p2g. induction nodes as [|node nodes IH]; intros g seen p2g Hinv; cbn [add_priorities].
  { intros [= <- <- <-]. split; [done|]. by exists []. }
  destruct node as [| |prio| | | |]; try done. destruct (_ || _) eqn:Hr; [done|].
  apply orb_false_iff in Hr as [Hr1%Z.ltb_ge Hr2%Z.ltb_ge]. rewrite has_flag_bit by done.
  destruct (Z.testbit seen prio) eqn:Hb; [done|]. intros H.
  destruct (IH _ _ _ (groups_inv_add _ _ _ _ _ Hinv (conj Hr1 Hr2) Hb) H) as (Hinv' & ps & Hl & ->).
  split; [done|]. exists (prio :: ps). cbn. by rewrite Hl.
Qed.

(** Starting a group that no earlier one is named like. *)
Lemma groups_inv_new groups seen p2g g :
  groups_inv groups seen p2g → valid_group_name (pg_name g) = true →
  existsb (λ h, beq (pg_name h) (pg_name g)) groups = false → pg_priorities g = [] → pg_min_priority g = 255 →
  groups_inv (groups ++ [g]) seen p2g.
Proof.
  intros (Hlen & Hnd & Hall & Hto & Hof) Hv Hn Hp Hm. split; [done|]. rewrite map_app. split; [|split; [|split]].
  - apply NoDup_app. split; [done|]. split; [|apply NoDup_singleton].
    intros x (h & -> & Hh)%list_elem_of_fmap Hx%list_elem_of_singleton. cbn in Hx.
    enough (existsb (λ h, beq (pg_name h) (pg_name g)) groups = true) by congruence.
    apply existsb_exists. exists h. split; [by apply list_elem_of_In|]. by apply beq_true.
  - apply Forall_app. split; [done|]. constructor; [|constructor]. unfold min_ok. rewrite Hp.
    split; [done|]. split; [constructor|done].
  - intros i h p [Hi|[Hge Hi]]%lookup_app_Some Hin; [by eapply Hto|].
    apply list_lookup_singleton_Some in Hi as [_ <-]. rewrite Hp in Hin. by apply elem_of_nil in Hin.
  - intros p Hpr Hb. destruct (Hof p Hpr Hb) as (i & h & Hi & Hin). exists i, h. split; [|done].
    by apply lookup_app_l_Some.
Qed.

Lemma parse_group_ok cfg done_ node g prios :
  parse_group cfg done_ node = Ok (g, prios) →
  valid_group_name (pg_name g) = true ∧ existsb (λ h, beq (pg_name h) (pg_name g)) done_ = false ∧
  pg_priorities g = [] ∧ pg_min_priority g = 255 ∧ prios ≠ [].
Proof.
  unfold parse_group. destruct (json_object_get node (C "name")) as [[| | | |name| |]|]; try done.
  destruct (json_object_get node (C "priorities")) as [[| | | | |ps|]|]; try done.
  intros H. inv_ok H. injection H as <- <-. cbn [pg_name pg_priorities pg_min_priority].
  unfold guard_res in *. repeat match goal with H : (if ?b then _ else _) = Ok _ |- _ => destruct b eqn:?; [clear H|done] end.
  split_and!; try done; [by apply negb_true_iff|]. intros ->. done.
Qed.

Lemma fold_add_priority ps g : length (pg_priorities (fold_left add_priority ps g)) = (length (pg_priorities g) + length ps)%nat.
Proof.
  revert g. induction ps as [|p ps IH]; intros g; cbn [fold_left]; [cbn; lia|]. rewrite IH.
  cbn [add_priority pg_priorities]. rewrite length_app. cbn. lia.
Qed.

Lemma add_groups_ok cfg nodes groups seen p2g groups' seen' p2g' :
  groups_inv groups seen p2g → Forall (λ g, pg_priorities g ≠ []) groups →
  add_groups cfg nodes groups seen p2g = Ok (groups', seen', p2g') →
  groups_inv groups' seen' p2g' ∧ Forall (λ g, pg_priorities g ≠ []) groups' ∧ zlen groups' = zlen groups + zlen nodes.
Proof.
  revert groups seen p2g. induction nodes as [|node nodes IH]; intros groups seen p2g Hinv Hne; cbn [add_groups].
  { intros [= <- <- <-]. split_and!; [done..|]. solve_len. }
  intros H. apply rbind_ok in H as ([g prios] & Hg & H). apply rbind_ok in H as ([[g' seen1] p2g1] & Ha & H).
  apply parse_group_ok in Hg as (Hv & Hd & Hp & Hm & Hpr).
  apply add_priorities_ok in Ha as (Hinv' & ps & Hl & ->); [|by apply groups_inv_new].
  apply IH in H as (? & ? & Hlen); [|done|].
  - split_and!; [done..|]. rewrite Hlen, zlen_app, !zlen_cons, zlen_nil. lia.
  - apply Forall_app. split; [done|]. constructor; [|constructor]. intros Hnil.
    apply (f_equal length) in Hnil. rewrite fold_add_priority, Hl in Hnil. destruct prios; [done|]. cbn in Hnil. lia.
Qed.

Lemma all_bits_255 p : 0 <= p <= 7 → Z.testbit 255 p = true.
Proof. intros Hp. change 255 with (Z.ones 8). apply Z.ones_spec_low. lia. Qed.

Lemma priority_groups_wf root cfg groups p2g :
  groups_wf (cfg_groups cfg) (cfg_priority_to_group cfg) →
  json_get_priority_groups root cfg = Ok (groups, p2g) → groups_wf groups p2g.
Proof.
  intros Hwf. unfold json_get_priority_groups.
  destruct (json_object_get root _) as [[| | | | |nodes|]|]; try done; [|by intros [= <- <-]].
  intros H. inv_ok H. destruct a0 as [[gs seen] m]. apply rbind_ok in H as (u & Hu & H). injection H as <- <-.
  unfold guard_res in *. destruct (negb _ && _) eqn:Hn; [|done]. destruct (Z.eqb_spec seen 255) as [->|]; [|done].
  apply add_groups_ok in Hr0 as (Hinv & Hne & Hlen); [| |constructor].
  - destruct Hinv as (Hl & Hnd & Hall & Hto & Hof). rewrite zlen_nil in Hlen.
    split; [pose proof (zlen_nonneg nodes); bool_lia|]. split_and!; try done.
    + rewrite Forall_forall in Hall, Hne |- *. intros g Hg. destruct (Hall g Hg) as (? & ? & ?). auto.
    + intros i g p Hi Hp. by destruct (Hto i g p Hi Hp) as (? & ? & ?).
    + intros p Hp. destruct (Hof p Hp (all_bits_255 p Hp)) as (i & g & Hi & Hin). exists i, g.
      by destruct (Hto i g p Hi Hin) as (_ & ? & _).
  - split_and!; [done|constructor..| |]; [by intros i g p|]. intros p _. by rewrite Z.bits_0.
Qed.
End groups.

(** ** Values *)
Section values.
Context `{RX : RegexLib} `{J : Jansson}.

(** A modifier as the parser accepts it. *)
Definition modifier_ok (m : EntryModifier) : Prop :=
  em_match_field m ≠ [] ∧ -1 <= em_set_priority m <= 7 ∧ 1 <= em_script_timeout_sec m <= 86400 ∧
  (∀ field replacement, em_rewrite m = Some (field, replacement) →
     em_negate m = false ∧ ∃ code, em_match m = MODIFIER_MATCH_REGEX code) ∧
  (∀ args, em_script_command m = Some args →
     ∃ path rest, args = (47 :: path) :: rest ∧ Forall (λ a, a ≠ []) args) ∧
  (em_drop m = true ∨ 0 <= em_set_priority m ∨ is_Some (em_rewrite m) ∨ is_Some (em_script_command m)).

(** Only these fields can be rewritten. *)
Definition rewrites_supported (m : EntryModifier) : Prop :=
  ∀ field replacement, em_rewrite m = Some (field, replacement) →
  field ∈ [C "MESSAGE"; C "MESSAGE_ID"; C "_HOSTNAME"; C "_SYSTEMD_UNIT"; C "_COMM"; C "_EXE"].

Definition group_values_ok (g : PriorityGroup) : Prop :=
  is_u32 (pg_durability_flush_frames g) ∧ is_u32 (pg_durability_flush_interval_sec g) ∧
  is_u64 (pg_max_bytes g) ∧ is_u32 (pg_max_age_sec g) ∧ Forall modifier_ok (pg_modifiers g).

Definition values_ok (cfg : RecorderConfig) : Prop :=
  -1 <= cfg_durable_priority_max cfg <= 7 ∧
  is_u32 (cfg_durability_flush_frames cfg) ∧ is_u32 (cfg_durability_flush_interval_sec cfg) ∧
  is_u64 (cfg_log_max_bytes cfg) ∧ is_u64 (cfg_min_free_bytes cfg) ∧ is_u64 (cfg_segment_max_bytes cfg) ∧
  is_u32 (cfg_segment_max_age_sec cfg) ∧ is_u32 (cfg_compress_min_frame_bytes cfg) ∧
  length (cfg_static_dict_paths cfg) = 8%nat ∧
  Forall (λ f, f ≠ []) (cfg_capture_fields_whitelist cfg) ∧ Forall (λ f, f ≠ []) (cfg_capture_fields_blacklist cfg) ∧
  cfg_encryption_public_key cfg ≠ Some [] ∧
  Forall modifier_ok (cfg_modifiers cfg) ∧ Forall group_values_ok (cfg_groups cfg).

Lemma uint_ok root key dst v : is_u32 dst → json_get_uint_default root key dst = Ok v → is_u32 v.
Proof.
  unfold json_get_uint_default. destruct (json_object_get root key) as [[]|]; try done; [|congruence].
  destruct (_ || _); [done|]. intros _ [= <-]. apply u32_range.
Qed.
Lemma group_uint_ok root key dst v : is_u32 dst → json_get_group_uint_default root key dst = Ok v → is_u32 v.
Proof. exact (uint_ok root key dst v). Qed.
Lemma parse_size_range text v : parse_size_string text = Some v → is_u64 v.
Proof.
  unfold parse_size_string. destruct (strtoull10 text) as [[base end_] erange]. destruct (_ || _); [done|].
  intros (scale & _ & H)%bind_Some. destruct (_ <? _); [done|]. injection H as <-. apply u64_range.
Qed.
Lemma size_ok root key dst v : is_u64 dst → json_get_size_default root key dst = Ok v → is_u64 v.
Proof.
  unfold json_get_size_default. destruct (json_object_get root key) as [[]|]; try done; [| |congruence].
  - destruct (_ <? _); [done|]. intros _ [= <-]. apply u64_range.
  - destruct (parse_size_string s) eqn:Hs; [|done]. intros _ [= <-]. by eapply parse_size_range.
Qed.
Lemma group_size_ok root key dst v : is_u64 dst → json_get_group_size_default root key dst = Ok v → is_u64 v.
Proof. exact (size_ok root key dst v). Qed.
Lemma int_ok root key lo hi dst v : lo <= dst <= hi → json_get_int_default root key lo hi dst = Ok v → lo <= v <= hi.
Proof.
  unfold json_get_int_default. destruct (json_object_get root key) as [[]|]; try done; [|congruence].
  destruct (_ || _) eqn:Hb; [done|]. intros _ [= <-]. bool_lia.
Qed.
Lemma nonempty_string_ok v s : nonempty_string v = Some s → s ≠ [].
Proof. destruct v; try done. cbn. destruct (beq s0 []) eqn:Hb; [done|]. intros [= <-]. by apply beq_false. Qed.
Lemma nonempty_strings_ok l k : mapM nonempty_string l = Some k → Forall (λ s, s ≠ []) k.
Proof.
  intros H%mapM_Some. induction H as [|v s l k Hv _ IH]; [constructor|].
  constructor; [by eapply nonempty_string_ok|done].
Qed.
Lemma string_array_ok root key dst v :
  Forall (λ s, s ≠ []) dst → json_get_string_array root key dst = Ok v → Forall (λ s, s ≠ []) v.
Proof.
  unfold json_get_string_array. destruct (json_object_get root key) as [[]|]; try done; [|congruence].
  destruct (mapM nonempty_string items) eqn:Hm; [|done]. intros _ [= <-]. by eapply nonempty_strings_ok.
Qed.
Lemma optional_string_ok root key dst v :
  dst ≠ Some [] → json_get_optional_nonempty_string root key dst = Ok v → v ≠ Some [].
Proof.
  unfold json_get_optional_nonempty_string. destruct (json_object_get root key) as [[]|]; try done; [|congruence].
  destruct (beq s []) eqn:Hb; [done|]. apply beq_false in Hb. congruence.
Qed.
Lemma dict_paths_ok ms paths v : set_dict_paths ms paths = Ok v → length v = length paths.
Proof.
  revert paths. induction ms as [|[k [| | | |s| |]] ms IH]; intros paths; cbn [set_dict_paths]; try done.
  { by intros [= <-]. }
  destruct (strtol10 k) as [[prio end_] erange]. destruct (_ || _); [done|]. intros ->%IH. by rewrite length_insert.
Qed.
Lemma static_paths_ok root dst v :
  length dst = 8%nat → json_get_static_dict_paths root dst = Ok v → length v = 8%nat.
Proof.
  unfold json_get_static_dict_paths. destruct (json_object_get root _) as [[]|]; try done; [|congruence].
  by intros _ ->%dict_paths_ok.
Qed.

Lemma set_priority_ok item v : modifier_set_priority item = Ok v → -1 <= v <= 7.
Proof.
  unfold modifier_set_priority. destruct (json_object_get item _) as [[]|]; try done.
  - destruct (_ || _) eqn:Hb; [done|]. intros [= <-]. bool_lia.
  - intros [= <-]. lia.
Qed.
Lemma rewrite_ok item mm negate f r :
  modifier_rewrite item mm negate = Ok (Some (f, r)) → negate = false ∧ ∃ code, mm = MODIFIER_MATCH_REGEX code.
Proof.
  unfold modifier_rewrite. destruct (json_object_get item _) as [rw|]; [|done].
  destruct (json_object_get rw (C "field")) as [[]|]; try done.
  destruct (json_object_get rw (C "replacement")) as [[]|]; try done.
  destruct (beq _ _); [done|]. destruct mm; try done. destruct negate; [done|]. eauto.
Qed.
Lemma script_ok item s b t :
  modifier_script item = Ok (s, b, t) →
  1 <= t <= 86400 ∧ ∀ args, s = Some args → ∃ path rest, args = (47 :: path) :: rest ∧ Forall (λ a, a ≠ []) args.
Proof.
  unfold modifier_script. destruct (json_object_get item _) as [sc|]; [|intros [= <- <- <-]; split; [lia|done]].
  destruct (json_object_get sc _) as [[| | | | |command|]|]; try done. destruct (negb _); [done|].
  intros (t' & Ht & H)%rbind_ok. destruct (script_args command) as [args|] eqn:Ha; [|done]. injection H as <- <- <-. split.
  - destruct (json_object_get sc _) as [[]|]; try done; [|injection Ht as <-; lia].
    destruct (_ || _) eqn:Hb; [done|]. injection Ht as <-. bool_lia.
  - intros args' [= <-]. unfold script_args in Ha. apply bind_Some in Ha as (l & Hl & Hm).
    apply nonempty_strings_ok in Hl. destruct l as [|[|c p] l]; try done.
    destruct (Z.eqb_spec c 47) as [->|]; [|done]. injection Hm as <-. eauto.
Qed.

Lemma field_ok m s : modifier_field m = Ok s → s ≠ [].
Proof.
  unfold modifier_field. destruct (json_object_get m _) as [v|]; [|by intros [= <-]].
  destruct (nonempty_string v) eqn:Hn; [|done]. intros [= <-]. by eapply nonempty_string_ok.
Qed.

Lemma parse_modifier_ok item m : parse_modifier item = Ok m → modifier_ok m.
Proof.
  unfold parse_modifier. destruct (json_object_get item (C "match")) as [mt|]; [|done].
  intros H. do 8 (let a := fresh "a" in let Ha := fresh "Hr" in apply rbind_ok in H as (a & Ha & H)).
  destruct a6 as [[script replay] timeout]. apply rbind_ok in H as (u & Hu & H). injection H as <-.
  unfold modifier_ok. cbn [em_match_field em_match em_negate em_rewrite em_drop em_set_priority em_script_command em_script_timeout_sec].
  destruct (script_ok _ _ _ _ Hr6) as [Ht Hs]. pose proof (set_priority_ok _ _ Hr4). split_and!; try lia; try done; [by eapply field_ok|..].
  - intros f r ->. by eapply rewrite_ok.
  - unfold guard_res in Hu. destruct (_ || _) eqn:Hb; [|done]. rewrite !orb_true_iff, !bool_decide_eq_true, Z.leb_le in Hb. tauto.
Qed.

Lemma parse_modifiers_ok items l : parse_modifiers items = Ok l → Forall modifier_ok l.
Proof.
  revert l. induction items as [|item items IH]; intros l; cbn [parse_modifiers]; [intros [= <-]; constructor|].
  intros H. apply rbind_ok in H as (m & Hm & H). apply rbind_ok in H as (ms & Hms & H). injection H as <-.
  constructor; [by eapply parse_modifier_ok|by apply IH].
Qed.
Lemma modifier_list_ok owner dst l :
  Forall modifier_ok dst → json_get_modifier_list owner dst = Ok l → Forall modifier_ok l.
Proof.
  unfold json_get_modifier_list. destruct (json_object_get owner _) as [[]|]; try done; [|congruence].
  intros _. apply parse_modifiers_ok.
Qed.

Lemma validated_supported l : validate_modifier_list l = Ok tt → Forall rewrites_supported l.
Proof.
  unfold validate_modifier_list, guard_res. destruct (forallb _ l) eqn:Hf; [|done]. intros _.
  rewrite forallb_forall in Hf. apply Forall_forall. intros m Hm%list_elem_of_In f r Hr.
  specialize (Hf m Hm). rewrite Hr in Hf. unfold modifier_rewrite_field_is_supported in Hf.
  rewrite !orb_true_iff, !beq_true in Hf. rewrite !elem_of_cons. tauto.
Qed.

(** The two settings a group takes from its priorities. *)
Definition settings_of (cfg : RecorderConfig) (g : PriorityGroup) : Prop :=
  (pg_durable_per_frame g = true ↔ ∃ p, p ∈ pg_priorities g ∧ p <= cfg_durable_priority_max cfg) ∧
  (∀ p d, p ∈ pg_priorities g → nth (Z.to_nat p) (cfg_static_dict_paths cfg) None = Some d →
     pg_static_dict_path g = Some d).

Lemma group_settings_spec dmax paths prios dict durable dict' durable' :
  -1 <= dmax <= 7 → Forall (λ p, 0 <= p) prios →
  group_settings dmax paths prios dict durable = Ok (dict', durable') →
  (durable' = true ↔ durable = true ∨ ∃ p, p ∈ prios ∧ p <= dmax) ∧
  (∀ d, dict = Some d → dict' = Some d) ∧
  (∀ p d, p ∈ prios → nth (Z.to_nat p) paths None = Some d → dict' = Some d).
Proof.
  intros Hd. revert dict durable. induction prios as [|p prios IH]; intros dict durable Hpos; cbn [group_settings].
  { intros [= <- <-]. split_and!; [|done|by intros ? ? ?%elem_of_nil]. split; [auto|].
    intros [|(? & ?%elem_of_nil & _)]; done. }
  apply Forall_cons in Hpos as [Hp Hpos].
  assert (Hdur : durable || ((0 <=? dmax) && (p <=? u8 dmax)) = true ↔ durable = true ∨ p <= dmax).
  { rewrite orb_true_iff, andb_true_iff, !Z.leb_le. unfold u8. split.
    - intros [|[? Hle]]; [auto|]. rewrite Z.mod_small in Hle by lia. auto.
    - intros [|]; [auto|]. right. rewrite Z.mod_small by lia. lia. }
  set (durable1 := durable || _) in *.
  assert (Hor : ∀ P : Prop, (durable1 = true ∨ P) ↔ durable = true ∨ (p <= dmax ∨ P)) by (intros; rewrite Hdur; tauto).
  assert (Hex : (∃ q, q ∈ p :: prios ∧ q <= dmax) ↔ p <= dmax ∨ ∃ q, q ∈ prios ∧ q <= dmax).
  { split; [intros (q & [->|]%elem_of_cons & ?); eauto|].
    intros [|(q & ? & ?)]; [exists p|exists q]; rewrite elem_of_cons; auto. }
  rewrite Hex, <- Hor. destruct (nth (Z.to_nat p) paths None) as [c|] eqn:Hc.
  - destruct dict as [d0|].
    + destruct (beq d0 c) eqn:Hb; [|done]. apply beq_true in Hb as ->. intros (H1 & H2 & H3)%IH; [|done].
      split_and!; [done..|]. intros q d [->|Hq]%elem_of_cons Hn; [|by eapply H3].
      rewrite Hc in Hn. injection Hn as <-. by apply H2.
    + intros (H1 & H2 & H3)%IH; [|done]. split_and!; [done..|]. intros q d [->|Hq]%elem_of_cons Hn; [|by eapply H3].
      rewrite Hc in Hn. injection Hn as <-. by apply H2.
  - intros (H1 & H2 & H3)%IH; [|done]. split_and!; [done..|].
    intros q d [->|Hq]%elem_of_cons Hn; [congruence|by eapply H3].
Qed.

(** What [finish_group] keeps. *)
Definition same_group (g g' : PriorityGroup) : Prop :=
  pg_name g' = pg_name g ∧ pg_priorities g' = pg_priorities g ∧ pg_min_priority g' = pg_min_priority g ∧
  (group_values_ok g → group_values_ok g').

Lemma finish_groups_spec cfg gs gs' :
  -1 <= cfg_durable_priority_max cfg <= 7 → Forall (λ g, Forall (λ p, 0 <= p) (pg_priorities g)) gs →
  finish_groups cfg gs = Ok gs' →
  Forall2 same_group gs gs' ∧ Forall (settings_of cfg) gs' ∧ Forall (λ g, Forall rewrites_supported (pg_modifiers g)) gs'.
Proof.
  intros Hd. revert gs'. induction gs as [|g gs IH]; intros gs' Hpos; cbn [finish_groups].
  { intros [= <-]. split_and!; constructor. }
  apply Forall_cons in Hpos as [Hp Hpos]. intros H. apply rbind_ok in H as (g1 & Hg & H).
  apply rbind_ok in H as (gs1 & Hgs & H). injection H as <-. destruct (IH gs1 Hpos Hgs) as (I1 & I2 & I3).
  unfold finish_group in Hg. apply rbind_ok in Hg as ([] & Hv & Hg). apply rbind_ok in Hg as ([dict durable] & Hs & Hg).
  injection Hg as <-. apply group_settings_spec in Hs as (S1 & _ & S3); [|done|done].
  split_and!; constructor; try done.
  - split; [|exact S3]. cbn [pg_durable_per_frame pg_priorities]. rewrite S1. split; [by intros [|]|by right].
  - by apply validated_supported.
Qed.

Lemma fold_add_values ps g : group_values_ok g → group_values_ok (fold_left add_priority ps g).
Proof. revert g. induction ps as [|p ps IH]; intros g Hg; [done|]. by apply IH. Qed.

Lemma parse_group_values cfg done_ node g prios :
  values_ok cfg → parse_group cfg done_ node = Ok (g, prios) → group_values_ok g.
Proof.
  intros (_ & Hf & Hi & _). unfold parse_group. destruct (json_object_get node _) as [[]|]; try done.
  destruct (json_object_get node _) as [[]|]; try done. intros H. inv_ok H. injection H as <- _.
  unfold group_values_ok; cbn [pg_durability_flush_frames pg_durability_flush_interval_sec pg_max_bytes pg_max_age_sec pg_modifiers].
  assert (is_u32 0 ∧ is_u64 0) as [? ?] by by split.
  split_and!; first [eapply group_uint_ok; [|eassumption]; done|eapply group_size_ok; [|eassumption]; done
    |eapply modifier_list_ok; [|eassumption]; constructor].
Qed.

Lemma add_priorities_fields i nodes g seen p2g g' seen' p2g' :
  add_priorities i nodes g seen p2g = Ok (g', seen', p2g') → ∃ ps, g' = fold_left add_priority ps g.
Proof.
  revert g seen p2g. induction nodes as [|node nodes IH]; intros g seen p2g; cbn [add_priorities].
  { intros [= <- <- <-]. by exists []. }
  destruct node; try done. do 2 (case_match; [done|]). intros (ps & ->)%IH. by exists (i0 :: ps).
Qed.

Lemma add_groups_values cfg nodes groups seen p2g groups' seen' p2g' :
  values_ok cfg → Forall group_values_ok groups →
  add_groups cfg nodes groups seen p2g = Ok (groups', seen', p2g') → Forall group_values_ok groups'.
Proof.
  intros Hv. revert groups seen p2g. induction nodes as [|node nodes IH]; intros groups seen p2g Hg; cbn [add_groups].
  { by intros [= <- <- <-]. }
  intros H. apply rbind_ok in H as ([g prios] & Hpg & H). apply rbind_ok in H as ([[g' seen1] p2g1] & Ha & H).
  apply IH in H; [done|]. apply Forall_app. split; [done|]. constructor; [|constructor].
  apply add_priorities_fields in Ha as (ps & ->). by eapply fold_add_values, parse_group_values.
Qed.

Lemma priority_groups_values root cfg groups p2g :
  values_ok cfg → json_get_priority_groups root cfg = Ok (groups, p2g) → Forall group_values_ok groups.
Proof.
  intros Hv. unfold json_get_priority_groups.
  destruct (json_object_get root _) as [[]|]; try done; [|intros [= <- <-]; by apply Hv].
  intros H. inv_ok H. destruct a0 as [[gs seen] m]. apply rbind_ok in H as (u & Hu & H). injection H as <- <-.
  by eapply add_groups_values; [..|exact Hr0].
Qed.

Lemma read_scalars_ok root cfg cfg1 :
  values_ok cfg → config_read_scalars root cfg = Ok cfg1 →
  values_ok cfg1 ∧ cfg_groups cfg1 = cfg_groups cfg ∧ cfg_priority_to_group cfg1 = cfg_priority_to_group cfg.
Proof.
  intros (V1 & V2 & V3 & V4 & V5 & V6 & V7 & V8 & V9 & V10 & V11 & V12 & V13 & V14). unfold config_read_scalars.
  intros H. inv_ok H. injection H as <-. split; [|done].
  unfold values_ok. cbn [cfg_durable_priority_max cfg_durability_flush_frames cfg_durability_flush_interval_sec
    cfg_log_max_bytes cfg_min_free_bytes cfg_segment_max_bytes cfg_segment_max_age_sec cfg_compress_min_frame_bytes
    cfg_static_dict_paths cfg_capture_fields_whitelist cfg_capture_fields_blacklist cfg_encryption_public_key
    cfg_modifiers cfg_groups].
  assert (-1 <= a11 <= 7) by (by eapply int_ok; [|done]).
  repeat (split; [first [done|eapply uint_ok; [|eassumption]; done|eapply size_ok; [|eassumption]; done
    |eapply static_paths_ok; [|eassumption]; done|eapply string_array_ok; [|eassumption]; done
    |eapply optional_string_ok; [|eassumption]; done|eapply modifier_list_ok; [|eassumption]; done]|]). done.
Qed.

Definition config_wf (cfg : RecorderConfig) : Prop :=
  groups_wf (cfg_groups cfg) (cfg_priority_to_group cfg) ∧ values_ok cfg.
(** What loading a file adds: supported rewrites, and every group's durability
    and dictionary follow from its priorities. *)
Definition config_settled (cfg : RecorderConfig) : Prop :=
  Forall rewrites_supported (cfg_modifiers cfg) ∧
  Forall (λ g, Forall rewrites_supported (pg_modifiers g)) (cfg_groups cfg) ∧
  Forall (settings_of cfg) (cfg_groups cfg).

Lemma groups_wf_same gs gs' p2g : Forall2 same_group gs gs' → groups_wf gs p2g → groups_wf gs' p2g.
Proof.
  intros H2 (Hl & Hp & Hnd & Hall & Hto & Hof).
  assert (Hn : map pg_name gs' = map pg_name gs).
  { clear -H2. induction H2 as [|g g' gs gs' (Hn & _) _ IH]; cbn; [done|]. by rewrite Hn, IH. }
  split; [unfold zlen in *; by rewrite <- (Forall2_length _ _ _ H2)|]. split; [done|]. split; [by rewrite Hn|]. split_and!.
  - clear -Hall H2. induction H2 as [|g g' gs gs' (Hn & Hpr & Hm & _) _ IH]; constructor;
      apply Forall_cons in Hall as [(? & ? & ? & Hmin) ?]; [|by apply IH].
    unfold min_ok in *. by rewrite Hn, Hpr, Hm.
  - intros i g' p Hi Hin. destruct (Forall2_lookup_r _ _ _ _ _ H2 Hi) as (g & Hg & _ & Hpr & _).
    apply (Hto i g p Hg). by rewrite <- Hpr.
  - intros p Hpr. destruct (Hof p Hpr) as (i & g & Hi & Hg & Hin).
    destruct (Forall2_lookup_l _ _ _ _ _ H2 Hg) as (g' & Hg' & _ & Hp' & _). exists i, g'. by rewrite Hp'.
Qed.

Lemma config_apply_ok readable root cfg cfg' :
  config_wf cfg → config_apply readable root cfg = Ok cfg' → config_wf cfg' ∧ config_settled cfg'.
Proof.
  intros [Hg Hv] H. unfold config_apply in H. apply rbind_ok in H as (cfg1 & H1 & H).
  destruct (read_scalars_ok root cfg cfg1 Hv H1) as (Hv1 & Eg & Ep).
  apply rbind_ok in H as ([groups p2g] & H2 & H). inv_ok H. injection H as <-.
  assert (Hwf : groups_wf groups p2g) by (eapply priority_groups_wf; [|done]; by rewrite Eg, Ep).
  pose proof (priority_groups_values root cfg1 groups p2g Hv1 H2) as Hgv.
  destruct a0. apply validated_supported in Hr0.
  assert (Hpos : Forall (λ g, Forall (λ p, 0 <= p) (pg_priorities g)) groups).
  { apply Forall_forall. intros g (i & Hi)%list_elem_of_lookup. apply Forall_forall. intros p Hp.
    destruct Hwf as (_ & _ & _ & _ & Hto & _). destruct (Hto i g p Hi Hp) as [? _]. lia. }
  apply finish_groups_spec in Hr2 as (Hsame & Hset & Hsup); [|apply Hv1|done].
  split; [split|].
  - by eapply groups_wf_same.
  - destruct Hv1 as (V1 & V2 & V3 & V4 & V5 & V6 & V7 & V8 & V9 & V10 & V11 & V12 & V13 & V14).
    repeat (split; [done|]). cbn [set_groups cfg_groups]. clear -Hgv Hsame.
    induction Hsame as [|g g' gs gs' (_ & _ & _ & Hs) _ IH]; constructor; apply Forall_cons in Hgv as [? ?]; auto.
  - split_and!; done.
Qed.

Lemma config_load_ok readable raw cfg cfg' :
  config_wf cfg → recorder_config_load readable raw cfg = Ok cfg' → config_wf cfg' ∧ config_settled cfg'.
Proof.
  intros Hwf. unfold recorder_config_load. destruct raw as [text|]; [|done].
  destruct (json_loads _) as [[]|]; try done. by apply config_apply_ok.
Qed.

Lemma load_fragments_ok readable dir entries cfg cfg' :
  config_wf cfg → config_settled cfg → load_fragments readable dir entries cfg = Ok cfg' →
  config_wf cfg' ∧ config_settled cfg'.
Proof.
  revert cfg. induction entries as [|e entries IH]; intros cfg Hwf Hs; cbn [load_fragments]; [by intros [= <-]|].
  destruct (_ || _); [done|]. destruct (negb _); [by apply IH|]. intros H. apply rbind_ok in H as (cfg1 & H1 & H).
  apply config_load_ok in H1 as [Hwf1 Hs1]; [|done]. by apply (IH cfg1).
Qed.

Lemma init_wf : config_wf recorder_config_init.
Proof.
  split.
  - split; [vm_compute; split; congruence|]. split; [done|]. split; [|split; [|split]].
    + apply (bool_decide_unpack (NoDup (map pg_name (map default_group priorities8)))). vm_compute. exact I.
    + cbn [recorder_config_init cfg_groups]. unfold priorities8. cbn [map].
      repeat (apply Forall_cons; split; [split_and!; [reflexivity|done|apply NoDup_singleton|split; [by left|by repeat constructor]]|]).
      apply Forall_nil. done.
    + intros i g p. cbn. do 8 (destruct i as [|i]; [intros [= <-] ->%list_elem_of_singleton; split; [lia|done]|]). done.
    + intros p Hp. assert (Hc : p ∈ priorities8) by (unfold priorities8; rewrite !elem_of_cons; lia).
      exists (Z.to_nat p), (default_group p). unfold priorities8 in Hc.
      repeat (apply elem_of_cons in Hc as [->|Hc]; [split_and!; [reflexivity|reflexivity|by left]|]).
      by apply elem_of_nil in Hc.
  - unfold values_ok. assert (Hz : is_u32 0 ∧ is_u64 0) by by split. split_and!; try done; try apply Forall_nil; try done.
    apply Forall_forall. intros g (i & -> & _)%list_elem_of_fmap. unfold group_values_ok, default_group.
    cbn [pg_durability_flush_frames pg_durability_flush_interval_sec pg_max_bytes pg_max_age_sec pg_modifiers].
    destruct Hz. by split_and!.
Qed.

(** Start-up: the defaults, the configuration file, then the fragments. *)
Definition startup_config (readable : bytes → bool) (raw : Res bytes) (dir : bytes) (entries : Res (list DropIn))
    : Res RecorderConfig :=
  let? cfg := recorder_config_load readable raw recorder_config_init in
  recorder_config_load_dropins readable dir entries cfg.

Lemma startup_ok readable raw dir entries cfg :
  startup_config readable raw dir entries = Ok cfg → config_wf cfg ∧ config_settled cfg.
Proof.
  intros H. unfold startup_config in H. apply rbind_ok in H as (cfg1 & H1 & H).
  apply config_load_ok in H1 as [Hwf Hs]; [|apply init_wf]. unfold recorder_config_load_dropins in H.
  destruct entries as [l|[]]; try done; [by eapply load_fragments_ok|]. by injection H as <-.
Qed.

(** *** Names that fit

    Every group name of a document, and of the documents the program reads, fits
    into [name[64]]. *)
Definition group_names_short (root : json) : bool :=
  match json_object_get root (C "priority_groups") with
  | Some (JArr nodes) =>
      forallb (λ n, match json_object_get n (C "name") with Some (JStr name) => zlen name <? 64 | _ => true end) nodes
  | _ => true
  end.
Definition names_short (raw : Res bytes) : bool :=
  match raw with
  | Ok text => match json_loads (cstr (strip_hash_comment_lines text)) with Some root => group_names_short root | None => true end
  | Err _ => true
  end.
Definition config_names_short (raw : Res bytes) (entries : Res (list DropIn)) : bool :=
  names_short raw && match entries with Ok l => forallb (λ e, names_short (di_content e)) l | Err _ => true end.

Definition name_fits (g : PriorityGroup) : Prop := zlen (pg_name g) < 64.
Lemma fold_add_name ps g : pg_name (fold_left add_priority ps g) = pg_name g.
Proof. revert g. induction ps as [|p ps IH]; intros g; cbn [fold_left]; [done|]. by rewrite IH. Qed.
Lemma add_groups_fit cfg nodes : ∀ groups seen p2g groups' seen' p2g',
  forallb (λ n, match json_object_get n (C "name") with Some (JStr name) => zlen name <? 64 | _ => true end) nodes = true →
  Forall name_fits groups → add_groups cfg nodes groups seen p2g = Ok (groups', seen', p2g') → Forall name_fits groups'.
Proof.
  induction nodes as [|node nodes IH]; intros groups seen p2g groups' seen' p2g' Hs Hg; cbn [add_groups]; [by intros [= <- <- <-]|].
  cbn [forallb] in Hs. apply andb_true_iff in Hs as [Hn Hs].
  intros H. apply rbind_ok in H as ([g prios] & Hpg & H). apply rbind_ok in H as ([[g' seen1] p2g1] & Ha & H).
  apply IH in H; [done|done|]. apply Forall_app. split; [done|]. constructor; [|constructor].
  apply add_priorities_fields in Ha as (ps & ->). unfold name_fits. rewrite fold_add_name.
  unfold parse_group in Hpg. destruct (json_object_get node (C "name")) as [[]|]; try done.
  destruct (json_object_get node (C "priorities")) as [[]|]; try done. inv_ok Hpg. injection Hpg as <- _. by apply Z.ltb_lt.
Qed.

Lemma config_load_fit readable raw cfg cfg' :
  names_short raw = true → config_wf cfg → Forall name_fits (cfg_groups cfg) →
  recorder_config_load readable raw cfg = Ok cfg' → Forall name_fits (cfg_groups cfg').
Proof.
  intros Hs [Hg Hv] Hf. unfold recorder_config_load, names_short in *. destruct raw as [text|]; [|done].
  destruct (json_loads _) as [[| | | | | |members]|]; try done. set (root := JObj members) in *. intros H. unfold config_apply in H.
  apply rbind_ok in H as (cfg1 & H1 & H). destruct (read_scalars_ok root cfg cfg1 Hv H1) as (Hv1 & Eg & Ep).
  apply rbind_ok in H as ([groups p2g] & H2 & H). inv_ok H. injection H as <-.
  assert (Hwf : groups_wf groups p2g) by (eapply priority_groups_wf; [|done]; by rewrite Eg, Ep).
  assert (Hpos : Forall (λ g, Forall (λ p, 0 <= p) (pg_priorities g)) groups).
  { apply Forall_forall. intros g (i & Hi)%list_elem_of_lookup. apply Forall_forall. intros p Hp.
    destruct Hwf as (_ & _ & _ & _ & Hto & _). destruct (Hto i g p Hi Hp) as [? _]. lia. }
  assert (Hfit : Forall name_fits groups).
  { unfold json_get_priority_groups, group_names_short in *. destruct (json_object_get root _) as [[]|]; try done; cycle 1.
    { injection H2 as <- _. by rewrite Eg. }
    inv_ok H2. destruct a4 as [[gs seen] m]. apply rbind_ok in H2 as (u & Hu & H2). injection H2 as <- <-.
    eapply (add_groups_fit cfg1); [exact Hs|constructor|done]. }
  match goal with Hr : finish_groups _ _ = Ok _ |- _ => apply finish_groups_spec in Hr as (Hsame & _); [|apply Hv1|done] end.
  cbn [set_groups cfg_groups]. clear -Hfit Hsame.
  induction Hsame as [|g g' gs gs' (Hn & _) _ IH]; constructor; apply Forall_cons in Hfit as [? ?]; [|by apply IH].
  unfold name_fits. by rewrite Hn.
Qed.

Lemma load_fragments_fit readable dir entries : ∀ cfg cfg',
  forallb (λ e, names_short (di_content e)) entries = true → config_wf cfg → Forall name_fits (cfg_groups cfg) →
  load_fragments readable dir entries cfg = Ok cfg' → Forall name_fits (cfg_groups cfg').
Proof.
  induction entries as [|e entries IH]; intros cfg cfg' Hs Hwf Hf; cbn [load_fragments]; [by intros [= <-]|].
  cbn [forallb] in Hs. apply andb_true_iff in Hs as [He Hs]. destruct (_ || _); [done|]. destruct (negb _); [by apply IH|].
  intros H. apply rbind_ok in H as (cfg1 & H1 & H). pose proof (config_load_fit _ _ _ _ He Hwf Hf H1).
  apply config_load_ok in H1 as [Hwf1 _]; [|done]. by apply (IH cfg1).
Qed.
Lemma startup_fit readable raw dir entries cfg :
  config_names_short raw entries = true → startup_config readable raw dir entries = Ok cfg → Forall name_fits (cfg_groups cfg).
Proof.
  intros Hs H. unfold config_names_short in Hs. apply andb_true_iff in Hs as [Hr He].
  unfold startup_config in H. apply rbind_ok in H as (cfg1 & H1 & H).
  assert (Hf1 : Forall name_fits (cfg_groups cfg1)).
  { apply (config_load_fit readable raw recorder_config_init); [done|apply init_wf| |done].
    unfold recorder_config_init, priorities8. cbn [cfg_groups map]. by repeat constructor. }
  apply config_load_ok in H1 as [Hwf _]; [|apply init_wf]. unfold recorder_config_load_dropins in H.
  destruct entries as [l|[]]; try done; [|by injection H as <-]. eapply load_fragments_fit; [|exact Hwf|exact Hf1|exact H].
  apply forallb_forall. intros e He'. apply List.filter_In in He' as [He' _]. rewrite forallb_forall in He. by apply He.
Qed.

(** C38: priority groups.  Let no group name in the configuration file and its
    fragments have more than 63 bytes, the room that the program has for it.
    Whatever else they say, a configuration that the program starts with has one
    to eight groups with distinct valid names that fit, each with at least one
    priority and the smallest of them as its [min_priority]; every priority 0..7
    is in exactly one group, the one [priority_to_group] leads to. *)
Theorem loaded_groups_partition readable raw dir entries cfg :
  config_names_short raw entries = true →
  startup_config readable raw dir entries = Ok cfg →
  let groups := cfg_groups cfg in let p2g := cfg_priority_to_group cfg in
  1 <= zlen groups <= MAX_PRIORITY_GROUPS ∧ NoDup (map pg_name groups) ∧
  Forall (λ g, valid_group_name (pg_name g) = true ∧ zlen (pg_name g) < 64 ∧ pg_min_priority g ∈ pg_priorities g ∧
     Forall (λ p, pg_min_priority g <= p) (pg_priorities g) ∧ NoDup (pg_priorities g)) groups ∧
  ∀ p i, 0 <= p <= 7 →
    (p2g !! Z.to_nat p = Some (Z.of_nat i) ↔ ∃ g, groups !! i = Some g ∧ p ∈ pg_priorities g).
Proof.
  intros Hshort Hst. pose proof (startup_fit _ _ _ _ _ Hshort Hst) as Hfit.
  apply startup_ok in Hst as [[(Hl & Hp & Hnd & Hall & Hto & Hof) _] _]. cbv zeta. split_and!; try lia; try done.
  - rewrite Forall_forall in Hall, Hfit |- *. intros g Hg. destruct (Hall g Hg) as (Hv & Hne & Hn & Hm). unfold min_ok in Hm.
    specialize (Hfit g Hg). destruct (pg_priorities g); [done|]. by destruct Hm.
  - intros p i Hpr. split; [|intros (g & Hi & Hin); by destruct (Hto i g p Hi Hin)].
    intros Hi. destruct (Hof p Hpr) as (j & g & Hj & Hg & Hin). exists g. rewrite Hi in Hj.
    injection Hj as Hj. by replace i with j by lia.
Qed.

(** Configured values.  A configuration that the program starts with has
    every number in the range of its C type and of its key, and only modifiers
    that can run: a priority in 0..7, a timeout of 1 to 86400 seconds, an absolute
    script path, rewrites of supported fields with an un-negated regular
    expression, and at least one action each; a group syncs every frame exactly
    when one of its priorities is at or below [durable_priority_max], and uses
    the dictionary that its priorities name. *)
Theorem loaded_values_valid readable raw dir entries cfg :
  startup_config readable raw dir entries = Ok cfg →
  values_ok cfg ∧ Forall rewrites_supported (cfg_modifiers cfg) ∧
  Forall (λ g, Forall rewrites_supported (pg_modifiers g) ∧
     (pg_durable_per_frame g = true ↔ ∃ p, p ∈ pg_priorities g ∧ p <= cfg_durable_priority_max cfg) ∧
     ∀ p d, p ∈ pg_priorities g → nth (Z.to_nat p) (cfg_static_dict_paths cfg) None = Some d →
       pg_static_dict_path g = Some d) (cfg_groups cfg).
Proof.
  intros [[_ Hv] (Hm & Hg & Hs)]%startup_ok. split; [done|]. split; [done|].
  rewrite Forall_forall in Hg, Hs |- *. intros g Hin. destruct (Hs g Hin) as [H1 H2]. auto.
Qed.
End values.

(** ** Size strings *)
(** Size strings.  A decimal number with an optional K, M or G (either case)
    is accepted exactly when the scaled value fits 64 bits, and gives that value. *)
Theorem size_string_exact n c scale :
  is_u64 n → size_scale c = Some scale →
  parse_size_string (print_u64 n) = Some n ∧
  parse_size_string (print_u64 n ++ [c]) = if n * scale <=? UINT64_MAX then Some (n * scale) else None.
Proof.
  intros Hn Hc.
  assert (Hsc : (scale = 1024 ∨ scale = 1048576 ∨ scale = 1073741824) ∧ isdigit c = false).
  { unfold size_scale, toupper in Hc. unfold isdigit. destruct (islower c) eqn:Hlow; unfold islower in Hlow;
    repeat (match type of Hc with context [?a =? ?b] => destruct (Z.eqb_spec a b) end; [injection Hc as <-; split; [auto|];
      apply andb_false_iff; rewrite !Z.leb_gt; lia|]); done. }
  destruct Hsc as [Hsc Hd].
  assert (Hne : ∀ rest, print_u64 n ++ rest ≠ rest).
  { intros rest H. apply (f_equal length) in H. rewrite length_app in H.
    destruct (print_digits_ok 20 n) as (_ & _ & Hnil); [|lia|].
    { unfold is_u64 in Hn. change (10 ^ Z.of_nat 20) with 100000000000000000000. lia. }
    unfold print_u64 in H. destruct (print_digits 20 n); [done|]. cbn in H. lia. }
  unfold is_u64 in Hn. unfold parse_size_string. split.
  - replace (print_u64 n) with (print_u64 n ++ []) by apply app_nil_r. rewrite strtoull_print by done.
    destruct (beq [] _) eqn:Hb; [apply beq_true in Hb; by destruct (Hne [])|]. cbn [orb mbind option_bind].
    change (UINT64_MAX / 1) with UINT64_MAX. destruct (Z.ltb_spec UINT64_MAX n); [unfold UINT64_MAX in *; lia|].
    f_equal. rewrite Z.mul_1_r. by apply u64_id.
  - rewrite strtoull_print by done.
    destruct (beq [c] _) eqn:Hb; [apply beq_true in Hb; by destruct (Hne [c])|]. cbn [orb]. rewrite Hc. cbn [mbind option_bind].
    assert (Hdiv : UINT64_MAX / scale < n ↔ UINT64_MAX < n * scale).
    { pose proof (Z.div_mod UINT64_MAX scale). pose proof (Z.mod_pos_bound UINT64_MAX scale).
      split; intros; destruct Hsc as [->|[->| ->]]; lia. }
    destruct (Z.ltb_spec (UINT64_MAX / scale) n), (Z.leb_spec (n * scale) UINT64_MAX); try lia; [done|].
    f_equal. apply u64_id. unfold is_u64, UINT64_MAX in *. split; [|lia]. destruct Hsc as [->|[->| ->]]; lia.
Qed.

Lemma size_string_exact_witness : parse_size_string (C "16m") = Some 16777216.
Proof.
  destruct (size_string_exact 16 109 1048576) as [_ H]; [split; vm_compute; congruence|reflexivity|exact H].
Defined.

(** A minus sign is accepted and wraps around. *)
Lemma size_string_negative : parse_size_string (C "-1") = Some UINT64_MAX.
Proof. reflexivity. Qed.

(** A group may be called [state]; its directory is then the state directory,
    which no directory walk visits. *)
Lemma state_group_not_walked :
  valid_group_name (C "state") = true ∧ is_segment_dir_name (C "state") = false.
Proof. by split. Qed.

(** ** Comments *)
(** Lines joined by newlines. *)
Fixpoint join_lines (lines : list bytes) : bytes :=
  match lines with
  | [] => []
  | [l] => l
  | l :: ls => l ++ 10 :: join_lines ls
  end.

Lemma join_lines_cons l ls : ls ≠ [] → join_lines (l :: ls) = l ++ 10 :: join_lines ls.
Proof. by destruct ls. Qed.

Lemma split_line_spec s l r :
  split_line s = (l, r) →
  Forall (λ b, b ≠ 10) l ∧ s = l ++ match r with Some s' => 10 :: s' | None => [] end.
Proof.
  revert l r. induction s as [|c s IH]; intros l r; cbn [split_line]; [intros [= <- <-]; split; [constructor|done]|].
  destruct (Z.eqb_spec c 10) as [->|Hc]; [intros [= <- <-]; split; [constructor|done]|].
  destruct (split_line s) as [l' r']. intros [= <- <-]. destruct (IH l' r' eq_refl) as [Hl ->].
  split; [by constructor|done].
Qed.

Definition blank_comment (l : bytes) : bytes := if is_comment_line l then [] else l.

Lemma strip_lines_spec fuel s :
  (length s <= fuel)%nat →
  ∃ lines, lines ≠ [] ∧ Forall (Forall (λ b, b ≠ 10)) lines ∧ s = join_lines lines ∧
    strip_lines fuel s = join_lines (map blank_comment lines).
Proof.
  revert s. induction fuel as [|fuel IH]; intros s Hf.
  { destruct s; [|cbn in Hf; lia]. exists [[]]. split_and!; try done. by repeat constructor. }
  destruct s as [|c s]; [exists [[]]; split_and!; try done; by repeat constructor|].
  cbn [strip_lines]. destruct (split_line (c :: s)) as [l r] eqn:Hs. apply split_line_spec in Hs as [Hl Hs].
  fold (blank_comment l). destruct r as [s'|].
  - destruct (IH s') as (ls & Hne & Hls & Heq & Hst).
    { apply (f_equal length) in Hs. rewrite length_app in Hs. cbn in Hs, Hf. lia. }
    exists (l :: ls). split; [done|]. split; [by constructor|]. split.
    + by rewrite join_lines_cons, <- Heq.
    + cbn [map]. rewrite join_lines_cons, <- Hst; [done|]. by destruct ls.
  - exists [l]. split; [done|]. split; [by repeat constructor|]. rewrite app_nil_r in Hs. split; [done|].
    apply app_nil_r.
Qed.

Lemma blank_shorter lines : zlen (join_lines (map blank_comment lines)) <= zlen (join_lines lines).
Proof.
  assert (Hb : ∀ l, zlen (blank_comment l) <= zlen l).
  { intros l. unfold blank_comment. destruct (is_comment_line l); [|lia]. rewrite zlen_nil. apply zlen_nonneg. }
  induction lines as [|l ls IH]; [done|]. destruct ls as [|l2 ls].
  { cbn. apply Hb. }
  rewrite (join_lines_cons l) by done. change (map blank_comment (l :: l2 :: ls)) with (blank_comment l :: map blank_comment (l2 :: ls)).
  rewrite (join_lines_cons (blank_comment l)) by done. specialize (Hb l). rewrite !zlen_app, !zlen_cons. lia.
Qed.

(** Comments.  Stripping blanks every line whose first character after
    spaces and tabs is '#' and changes nothing else: the lines, and so the line
    numbers of error messages, stay, and the result fits the buffer. *)
Theorem comments_stripped text :
  ∃ lines, Forall (Forall (λ b, b ≠ 10)) lines ∧ text = join_lines lines ∧
    strip_hash_comment_lines text = join_lines (map (λ l, if is_comment_line l then [] else l) lines) ∧
    zlen (strip_hash_comment_lines text) <= zlen text.
Proof.
  destruct (strip_lines_spec (length text) text) as (lines & _ & Hl & Heq & Hst); [lia|].
  exists lines. split; [done|]. split; [done|]. unfold strip_hash_comment_lines. rewrite Hst. split; [done|].
  rewrite Heq. apply blank_shorter.
Qed.

(** ** A configuration *)
#[local] Instance toy_regex : RegexLib := {| regex_code := bytes; regex_compile s := Some s |}.
#[local] Existing Instance toy_jansson.

Definition demo_config : json :=
  JObj [(C "durable_priority_max", JInt 2); (C "log_max_bytes", JStr (C "8M"));
        (C "static_dict_paths", JObj [(C "3", JStr (C "/dict"))]);
        (C "priority_groups", JArr [
           JObj [(C "name", JStr (C "urgent")); (C "priorities", JArr [JInt 2; JInt 0; JInt 1]);
                 (C "max_age_sec", JInt 60)];
           JObj [(C "name", JStr (C "rest")); (C "priorities", JArr [JInt 3; JInt 4; JInt 5; JInt 6; JInt 7]);
                 (C "modifiers", JArr [JObj [(C "match", JObj [(C "regex", JStr (C "a"))]);
                    (C "rewrite", JObj [(C "field", JStr (C "MESSAGE")); (C "replacement", JStr (C "b"))])]])]])].
Definition demo_text : bytes := C "# groups" ++ 10 :: default [] (json_dumps demo_config).
Definition demo_loaded : Res RecorderConfig :=
  Eval vm_compute in startup_config (λ _, true) (Ok demo_text) (C "/etc/recorder.d") (Err ENOENT).

Lemma loaded_groups_partition_witness :
  match demo_loaded with
  | Ok cfg => map pg_name (cfg_groups cfg) = [C "urgent"; C "rest"] ∧ NoDup (map pg_name (cfg_groups cfg))
  | Err _ => False
  end.
Proof.
  pose proof (loaded_groups_partition (λ _, true) (Ok demo_text) (C "/etc/recorder.d") (Err ENOENT)) as H.
  assert (Hl : startup_config (λ _, true) (Ok demo_text) (C "/etc/recorder.d") (Err ENOENT) = demo_loaded)
    by (vm_compute; reflexivity).
  rewrite Hl in H. destruct demo_loaded as [cfg|] eqn:Hd; [|discriminate Hd].
  destruct (H cfg ltac:(vm_compute; reflexivity) eq_refl) as (_ & Hnd & _).
  split; [|exact Hnd]. unfold demo_loaded in Hd. injection Hd as <-. reflexivity.
Defined.

Lemma loaded_values_valid_witness :
  match demo_loaded with
  | Ok cfg => cfg_log_max_bytes cfg = 8388608 ∧ values_ok cfg
  | Err _ => False
  end.
Proof.
  pose proof (loaded_values_valid (λ _, true) (Ok demo_text) (C "/etc/recorder.d") (Err ENOENT)) as H.
  assert (Hl : startup_config (λ _, true) (Ok demo_text) (C "/etc/recorder.d") (Err ENOENT) = demo_loaded)
    by (vm_compute; reflexivity).
  rewrite Hl in H. destruct demo_loaded as [cfg|] eqn:Hd; [|discriminate Hd]. destruct (H cfg eq_refl) as (Hv & _).
  split; [|exact Hv]. unfold demo_loaded in Hd. injection Hd as <-. reflexivity.
Defined.
