(* ===== verification/Modifiers.v ===== *)
(** * Extracting and modifying entries (src/src/recorder.c)

    From a journal record or a fallback record to the entry that is stored: the
    captured fields, the tie order, the modifier lists with their rewrites,
    priority changes and scripts.  The build is the one with libsystemd and
    PCRE2; memory allocations succeed.

    libsystemd is seen through the record [JournalEntry]: what its functions
    answer while the journal is positioned on one entry. *)
From S2P Require Import Prelude Bytes Segment CText Entry Store Json Boots Config.

(** ** Journal fields *)
Record JournalEntry := mkJournalEntry {
  je_data : bytes → option bytes;        (* sd_journal_get_data, "FIELD=value" *)
  je_fields : list bytes;                (* sd_journal_enumerate_data *)
  je_realtime : Z;                       (* sd_journal_get_realtime_usec *)
  je_monotonic : option Z;               (* sd_journal_get_monotonic_usec *)
  je_cursor : option bytes;              (* sd_journal_get_cursor *)
}.

(** [memchr(data, c, len)]: what is before the first [c] and what follows it. *)
Fixpoint split_at (c : Z) (s : bytes) : option (bytes * bytes) :=
  match s with
  | [] => None
  | b :: s' => if b =? c then Some ([], s') else prod_map (cons b) id <$> split_at c s'
  end.

(** [None] is a field whose [data] is NULL; so is a NULL journal. *)
Definition journal_get_field (j : option JournalEntry) (field : bytes) : option bytes :=
  e ← j; data ← je_data e field; snd <$> split_at 61 data.

Definition journal_get_u64 (j : option JournalEntry) (field : bytes) : Z :=
  match journal_get_field j field with
  | Some v => if zlen v =? 0 then 0 else (strtoull10 (cstr (ztake 31 v))).1.1
  | None => 0
  end.
Definition journal_get_u32 (j : option JournalEntry) (field : bytes) : Z := u32 (journal_get_u64 j field).

Definition journal_field_nonempty (value : option bytes) : option bytes :=
  match value with Some v => if zlen v =? 0 then None else Some v | None => None end.
Definition clamp_u16 (value : Z) : Z := if UINT16_MAX <? value then UINT16_MAX else value.

(** The C string that is in [dst] afterwards. *)
Definition copy_journal_field (dst_size : Z) (value : option bytes) : bytes :=
  match value with Some v => cstr (ztake (dst_size - 1) v) | None => [] end.

Definition fixed_fields : list bytes :=
  [C "MESSAGE"; C "MESSAGE_ID"; C "_SYSTEMD_UNIT"; C "_HOSTNAME"; C "_COMM"; C "_EXE"; C "_PID"; C "_UID";
   C "_GID"; C "PRIORITY"; C "ERRNO"].
Definition journal_field_name_is_listed (name : bytes) (names : list bytes) : bool := existsb (beq name) names.
Definition journal_field_name_is_fixed (name : bytes) : bool := journal_field_name_is_listed name fixed_fields.

Definition journal_field_for_capture (j : option JournalEntry) (name : bytes) (capture_all_fields : bool)
    : option bytes :=
  let value := journal_get_field j name in
  if capture_all_fields then value else journal_field_nonempty value.

(** The bits of the configuration that select text fields. *)
Definition capture_owned_journal_field (j : option JournalEntry) (name : bytes) (capture capture_all_fields : bool)
    : option bytes :=
  if capture_all_fields || capture then journal_field_for_capture j name capture_all_fields else None.

Section extract.
Context `{RX : RegexLib}.

Fixpoint capture_extra_journal_fields (cfg : RecorderConfig) (fields : list bytes) : list JournalExtraField :=
  match fields with
  | [] => []
  | data :: fields' =>
      let rest := capture_extra_journal_fields cfg fields' in
      match split_at 61 data with
      | None => rest
      | Some (name, value) =>
          if (zlen name =? 0) || journal_field_name_is_fixed name
             || ((0 <? zlen (cfg_capture_fields_whitelist cfg))
                 && negb (journal_field_name_is_listed name (cfg_capture_fields_whitelist cfg)))
             || journal_field_name_is_listed name (cfg_capture_fields_blacklist cfg)
          then rest
          else mkJournalExtraField (Some name) (Some value) :: rest
      end
  end.

(** The number of the entry's boot (a [uint32_t]), registering it when it is new. *)
Definition enter_boot (realtime_ts : Z) (boot_id : bytes) (boots : BootRegistry) : Z * BootRegistry :=
  let '(seq, boots1) := boot_registry_seq boots (if zlen boot_id =? 0 then None else Some boot_id) in
  (u32 seq, boot_update boot_id (λ b,
     if be_first_realtime_ts b =? 0
     then mkBootEntry (be_id b) (be_seq b) realtime_ts (be_last_clean_realtime_ts b) else b) boots1).

Definition extract_entry (cfg : RecorderConfig) (boots : BootRegistry) (j : JournalEntry) : LogEntry * BootRegistry :=
  let js := Some j in
  let all := cfg_capture_all_fields cfg in
  let boot_id := copy_journal_field 33 (journal_field_nonempty (journal_get_field js (C "_BOOT_ID"))) in
  let '(boot_seq, boots') := enter_boot (je_realtime j) boot_id boots in
  (mkLogEntry (je_realtime j) (default 0 (je_monotonic j)) 0
     (if all || cfg_capture_pid cfg || negb (config_uses_full_entries cfg) then journal_get_u32 js (C "_PID") else 0)
     (if all || cfg_capture_uid cfg then journal_get_u32 js (C "_UID") else 0)
     (if all || cfg_capture_gid cfg then journal_get_u32 js (C "_GID") else 0)
     boot_seq (u8 (journal_get_u32 js (C "PRIORITY"))) (clamp_u16 (journal_get_u64 js (C "ERRNO"))) boot_id
     (capture_owned_journal_field js (C "MESSAGE") true all)
     (capture_owned_journal_field js (C "MESSAGE_ID") (cfg_capture_message_id cfg) all)
     (capture_owned_journal_field js (C "_HOSTNAME") (cfg_capture_hostname cfg) all)
     (capture_owned_journal_field js (C "_SYSTEMD_UNIT") (cfg_capture_unit cfg) all)
     (capture_owned_journal_field js (C "_COMM") (cfg_capture_comm cfg) all)
     (capture_owned_journal_field js (C "_EXE") (cfg_capture_exe cfg) all)
     (if all then capture_extra_journal_fields cfg (je_fields j) else []),
   boots').
End extract.

(** ** Tie order *)

(** The fields of [Recorder] that number entries of one timestamp:
    [have_last_received_monotonic_ts] is the option. *)
Record TieState := mkTieState {
  ti_last : option (Z * Z);          (* last_received_boot_seq, last_received_monotonic_ts *)
  ti_order : Z;                      (* monotonic_tie_order *)
}.
Definition tie_init : TieState := mkTieState None 0.

Definition set_tie_order (order : Z) (e : LogEntry) : LogEntry :=
  mkLogEntry (le_realtime_ts e) (le_monotonic_ts e) order (le_pid e) (le_uid e) (le_gid e) (le_boot_seq e)
    (le_priority e) (le_errno_value e) (le_boot_id e) (le_message e) (le_message_id e) (le_hostname e)
    (le_unit e) (le_comm e) (le_exe e) (le_extra_fields e).

Definition recorder_assign_monotonic_tie_order (t : TieState) (entry : LogEntry) : TieState * LogEntry :=
  let stamp := (le_boot_seq entry, le_monotonic_ts entry) in
  if le_monotonic_ts entry =? 0 then (t, set_tie_order 0 entry)
  else if bool_decide (ti_last t = Some stamp)
  then
    if ti_order t <? UINT16_MAX
    then (mkTieState (Some stamp) (ti_order t + 1), set_tie_order (ti_order t + 1) entry)
    else (mkTieState (Some stamp) (ti_order t), set_tie_order UINT16_MAX entry)
  else (mkTieState (Some stamp) 0, set_tie_order 0 entry).

(** ** Modifiers *)

(** What [pcre2_match] answers; the vector holds the span of every group up to
    [pcre2_get_ovector_count], [None] for [PCRE2_UNSET]. *)
Inductive MatchResult :=
  | PCRE2_NOMATCH
  | PCRE2_ERROR
  | PCRE2_MATCH (ovector : list (option (Z * Z))).

Class RegexMatch (RX : RegexLib) := {
  pcre2_match : regex_code → bytes → MatchResult;
}.

Definition entry_field_for_modifier (entry : LogEntry) (name : bytes) : option bytes :=
  if beq name (C "MESSAGE") then le_message entry
  else if beq name (C "MESSAGE_ID") then le_message_id entry
  else if beq name (C "_HOSTNAME") then le_hostname entry
  else if beq name (C "_SYSTEMD_UNIT") then le_unit entry
  else if beq name (C "_COMM") then le_comm entry
  else if beq name (C "_EXE") then le_exe entry
  else None.

Definition with_texts (e : LogEntry) (message message_id hostname unit_ comm exe : option bytes) : LogEntry :=
  mkLogEntry (le_realtime_ts e) (le_monotonic_ts e) (le_monotonic_tie_order e) (le_pid e) (le_uid e) (le_gid e)
    (le_boot_seq e) (le_priority e) (le_errno_value e) (le_boot_id e) message message_id hostname
    unit_ comm exe (le_extra_fields e).

(** Storing through the pointer that [entry_field_for_rewrite] returns; [None] when
    it returns NULL. *)
Definition entry_field_for_rewrite (entry : LogEntry) (name value : bytes) : option LogEntry :=
  let '(m, i, h, u, c, x) :=
    (le_message entry, le_message_id entry, le_hostname entry, le_unit entry, le_comm entry, le_exe entry) in
  let v := Some value in
  if beq name (C "MESSAGE") then Some (with_texts entry v i h u c x)
  else if beq name (C "MESSAGE_ID") then Some (with_texts entry m v h u c x)
  else if beq name (C "_HOSTNAME") then Some (with_texts entry m i v u c x)
  else if beq name (C "_SYSTEMD_UNIT") then Some (with_texts entry m i h v c x)
  else if beq name (C "_COMM") then Some (with_texts entry m i h u v x)
  else if beq name (C "_EXE") then Some (with_texts entry m i h u c v)
  else None.

(** [text] is the replacement without its terminator. *)
Fixpoint build_regex_replacement (text subject : bytes) (ovector : list (option (Z * Z))) : bytes :=
  match text with
  | [] => []
  | c :: text1 =>
      match text1 with
      | [] => [c]
      | d :: text2 =>
          if (c =? 36) && (d =? 36) then 36 :: build_regex_replacement text2 subject ovector
          else if (c =? 36) && isdigit d
          then
            match ovector !! Z.to_nat (d - 48) with
            | Some (Some (a, b)) => slice a (b - a) subject ++ build_regex_replacement text2 subject ovector
            | _ => build_regex_replacement text2 subject ovector
            end
          else c :: build_regex_replacement text1 subject ovector
      end
  end.

(** What is handed to the script worker. *)
Record ScriptJob := mkScriptJob {
  sj_argv : list bytes;
  sj_json_payload : bytes;
  sj_env : list (bytes * bytes);
  sj_timeout_sec : Z;
}.

Inductive ModResult := MOD_ERROR | MOD_KEEP | MOD_DROP.   (* -1, 0, 1 *)
#[export] Instance ModResult_eq_dec : EqDecision ModResult.
Proof. solve_decision. Defined.

Definition set_le_priority (priority : Z) (e : LogEntry) : LogEntry :=
  mkLogEntry (le_realtime_ts e) (le_monotonic_ts e) (le_monotonic_tie_order e) (le_pid e) (le_uid e) (le_gid e)
    (le_boot_seq e) priority (le_errno_value e) (le_boot_id e) (le_message e) (le_message_id e) (le_hostname e)
    (le_unit e) (le_comm e) (le_exe e) (le_extra_fields e).

Section modifiers.
Context `{RX : RegexLib} `{RM : !RegexMatch RX} `{J : Jansson}.

(** *** Scripts *)
Definition SCRIPT_FIELD_MAX : Z := 64 * 1024.
Definition SCRIPT_ENV_MAX : Z := 32.

(** The object's members and the environment, which grow together. *)
Definition script_add_field (name : bytes) (field : option bytes) (acc : list (bytes * json) * list (bytes * bytes))
    : list (bytes * json) * list (bytes * bytes) :=
  let '(members, env) := acc in
  match field with
  | None => acc
  | Some v =>
      if (zlen v =? 0) || (SCRIPT_FIELD_MAX <? zlen v) || existsb (Z.eqb 0) v || (SCRIPT_ENV_MAX <=? zlen env)
      then acc
      else match json_string v with
           | None => acc
           | Some value => (members ++ [(name, value)], env ++ [(name, v)])
           end
  end.

Definition script_fields (entry : LogEntry) : list (bytes * option bytes) :=
  [(C "REC_REALTIME_TS", Some (print_u64 (le_realtime_ts entry)));
   (C "REC_MONOTONIC_TS", Some (print_u64 (le_monotonic_ts entry)));
   (C "REC_BOOT_SEQ", Some (print_u64 (le_boot_seq entry)));
   (C "REC_PRIORITY", Some (print_u64 (le_priority entry)));
   (C "REC_PID", Some (print_u64 (le_pid entry)));
   (C "REC_UID", Some (print_u64 (le_uid entry)));
   (C "REC_GID", Some (print_u64 (le_gid entry)));
   (C "REC_BOOT_ID", Some (le_boot_id entry));
   (C "REC_MESSAGE", le_message entry);
   (C "REC_MESSAGE_ID", le_message_id entry);
   (C "REC_HOSTNAME", le_hostname entry);
   (C "REC_SYSTEMD_UNIT", le_unit entry);
   (C "REC_COMM", le_comm entry);
   (C "REC_EXE", le_exe entry)].

(** The jobs for the worker, which may refuse them: one or none. *)
Definition recorder_script_modifier_enqueue (modifier : EntryModifier) (argv : list bytes) (entry : LogEntry)
    (is_replay : bool) : list ScriptJob :=
  if is_replay && negb (em_script_run_on_replay modifier) then []
  else
    let '(members, env) :=
      fold_left (λ acc f, script_add_field f.1 f.2 acc) (script_fields entry) ([], []) in
    match json_dumps (JObj (members ++ [(C "REC_IS_REPLAY", JBool is_replay)])) with
    | None => []
    | Some payload => [mkScriptJob argv payload env (em_script_timeout_sec modifier)]
    end.

(** *** One list *)

(** Whether the modifier applies, with the match data of a regular expression;
    [None] is a failed match. *)
Definition modifier_matches (m : EntryModifier) (subject : option bytes)
    : option (bool * option (list (option (Z * Z)))) :=
  let result :=
    match em_match m with
    | MODIFIER_MATCH_PRESENT present => Some (Bool.eqb (bool_decide (is_Some subject)) present, None)
    | MODIFIER_MATCH_EXACT exact => Some (bool_decide (subject = Some exact), None)
    | MODIFIER_MATCH_REGEX code =>
        match subject with
        | None => Some (false, None)
        | Some s =>
            match pcre2_match code s with
            | PCRE2_ERROR => None
            | PCRE2_NOMATCH => Some (false, None)
            | PCRE2_MATCH ov => Some (true, Some ov)
            end
        end
    end in
  match result with
  | Some (matched, ov) => Some (if em_negate m then negb matched else matched, ov)
  | None => None
  end.

(** A rewrite of a matched entry; without match data the program has undefined
    behaviour, which [validate_modifier_list] and the parser exclude. *)
Definition modifier_rewrites (m : EntryModifier) (subject : option bytes) (ov : option (list (option (Z * Z))))
    (entry : LogEntry) : option LogEntry :=
  match em_rewrite m with
  | None => Some entry
  | Some (field, replacement) =>
      s ← subject; ovector ← ov;
      entry_field_for_rewrite entry field (cstr (build_regex_replacement replacement s ovector))
  end.

Fixpoint apply_modifier_list (items : list EntryModifier) (entry : LogEntry) (j : option JournalEntry)
    (is_replay : bool) : ModResult * LogEntry * list ScriptJob :=
  match items with
  | [] => (MOD_KEEP, entry, [])
  | m :: items' =>
      let subject := match entry_field_for_modifier entry (em_match_field m) with
                     | Some s => Some s
                     | None => journal_get_field j (em_match_field m)
                     end in
      match modifier_matches m subject with
      | None => (MOD_ERROR, entry, [])
      | Some (false, _) => apply_modifier_list items' entry j is_replay
      | Some (true, ov) =>
          match modifier_rewrites m subject ov entry with
          | None => (MOD_ERROR, entry, [])
          | Some entry1 =>
              let entry2 := if 0 <=? em_set_priority m then set_le_priority (u8 (em_set_priority m)) entry1 else entry1 in
              let jobs := match em_script_command m with
                          | Some argv => recorder_script_modifier_enqueue m argv entry2 is_replay
                          | None => []
                          end in
              if em_drop m then (MOD_DROP, entry2, jobs)
              else let '(r, e, jobs') := apply_modifier_list items' entry2 j is_replay in (r, e, jobs ++ jobs')
          end
      end
  end.

(** *** Global list, then the lists of the groups the entry is routed to *)
Definition MAX_MODIFIER_REROUTES : nat := 8.

(** The group of a priority; a priority above 7 reads past [priority_to_group] in
    the program. *)
Definition modifier_group (cfg : RecorderConfig) (priority : Z) : option PriorityGroup :=
  gi ← cfg_priority_to_group cfg !! Z.to_nat priority;
  if (0 <=? gi) && (gi <? zlen (cfg_groups cfg)) then cfg_groups cfg !! Z.to_nat gi else None.

Fixpoint reroute_loop (reroutes : nat) (cfg : RecorderConfig) (seen_priorities : Z) (entry : LogEntry)
    (j : option JournalEntry) (is_replay : bool) : ModResult * LogEntry * list ScriptJob :=
  match reroutes with
  | O => (MOD_DROP, entry, [])
  | S reroutes' =>
      match modifier_group cfg (le_priority entry) with
      | None => (MOD_ERROR, entry, [])
      | Some g =>
          let '(result, entry1, jobs) := apply_modifier_list (pg_modifiers g) entry j is_replay in
          if negb (bool_decide (result = MOD_KEEP)) then (result, entry1, jobs)
          else if le_priority entry1 =? le_priority entry then (MOD_KEEP, entry1, jobs)
          else if has_flag seen_priorities (Z.shiftl 1 (le_priority entry1)) then (MOD_DROP, entry1, jobs)
          else
            let '(r, e, jobs') :=
              reroute_loop reroutes' cfg (Z.lor seen_priorities (Z.shiftl 1 (le_priority entry1))) entry1 j is_replay in
            (r, e, jobs ++ jobs')
      end
  end.

Definition apply_entry_modifiers (cfg : RecorderConfig) (entry : LogEntry) (j : option JournalEntry)
    (is_replay : bool) : ModResult * LogEntry * list ScriptJob :=
  let '(result, entry1, jobs) := apply_modifier_list (cfg_modifiers cfg) entry j is_replay in
  if negb (bool_decide (result = MOD_KEEP)) then (result, entry1, jobs)
  else
    let '(r, e, jobs') :=
      reroute_loop MAX_MODIFIER_REROUTES cfg (Z.shiftl 1 (le_priority entry1)) entry1 j is_replay in
    (r, e, jobs ++ jobs').
End modifiers.
