(* ===== verification/ModifiersProofs.v ===== *)
(** * Properties of extraction and modifiers

    Rewrites mean what their template says, a modified entry keeps everything but
    its texts and its priority, the routing between priority groups always comes
    to a decision, and tie orders number entries of one timestamp. *)
From S2P Require Import Prelude Bytes Segment SegmentImage CText Chunk Entry Store Json Boots Config ConfigProofs Modifiers.

(** ** Replacement templates *)

(** A template as its author reads it: literal bytes and numbered groups. *)
Inductive RToken :=
  | RLit (c : Z)
  | RGroup (n : nat).

Definition token_wf (t : RToken) : Prop := match t with RLit _ => True | RGroup n => (n < 10)%nat end.
Definition token_text (t : RToken) : bytes :=
  match t with
  | RLit c => if c =? 36 then [36; 36] else [c]
  | RGroup n => [36; 48 + Z.of_nat n]
  end.
Definition token_value (subject : bytes) (ov : list (option (Z * Z))) (t : RToken) : bytes :=
  match t with
  | RLit c => [c]
  | RGroup n => match ov !! n with Some (Some (a, b)) => slice a (b - a) subject | _ => [] end
  end.
Definition template_text (ts : list RToken) : bytes := concat (map token_text ts).

Lemma build_literal c rest subject ov :
  c ≠ 36 → build_regex_replacement (c :: rest) subject ov = c :: build_regex_replacement rest subject ov.
Proof.
  intros Hc. apply Z.eqb_neq in Hc. destruct rest as [|d rest]; cbn [build_regex_replacement]; [done|].
  by rewrite Hc.
Qed.
Lemma build_dollar rest subject ov :
  build_regex_replacement (36 :: 36 :: rest) subject ov = 36 :: build_regex_replacement rest subject ov.
Proof. done. Qed.
Lemma build_group n rest subject ov :
  (n < 10)%nat →
  build_regex_replacement (36 :: (48 + Z.of_nat n) :: rest) subject ov =
    token_value subject ov (RGroup n) ++ build_regex_replacement rest subject ov.
Proof.
  intros Hn. cbn [build_regex_replacement token_value].
  replace (48 + Z.of_nat n =? 36) with false by (symmetry; apply Z.eqb_neq; lia).
  replace (isdigit (48 + Z.of_nat n)) with true by (symmetry; unfold isdigit; apply andb_true_iff; rewrite !Z.leb_le; lia).
  cbn [Z.eqb andb]. replace (Z.to_nat (48 + Z.of_nat n - 48)) with n by lia.
  by destruct (ov !! n) as [[[a b]|]|].
Qed.

Lemma template_denotes ts subject ov :
  Forall token_wf ts →
  build_regex_replacement (template_text ts) subject ov = concat (map (token_value subject ov) ts).
Proof.
  unfold template_text. induction 1 as [|t ts Ht _ IH]; [done|]. cbn [map concat]. destruct t as [c|n]; cbn [token_text].
  - destruct (Z.eqb_spec c 36) as [->|Hc]; cbn [app]; [rewrite build_dollar|rewrite build_literal by done]; by rewrite IH.
  - cbn [app]. rewrite build_group by done. by rewrite IH.
Qed.

(** Replacement templates.  For every template of literal bytes (with [$] written
    [$$]) and groups [$0] to [$9], the text that [build_regex_replacement] builds
    is the literals and, for each group, exactly the span of the subject that the
    group matched (nothing when it is unset or does not exist). *)
Theorem replacement_denotes ts subject ov :
  Forall token_wf ts →
  build_regex_replacement (template_text ts) subject ov = concat (map (token_value subject ov) ts).
Proof. apply template_denotes. Qed.

Lemma replacement_denotes_witness :
  build_regex_replacement (C "$2:$$-$1$7") (C "ab=cde") [Some (0, 6); Some (0, 2); Some (3, 6)] = C "cde:$-ab".
Proof.
  change (C "$2:$$-$1$7") with (template_text [RGroup 2; RLit 58; RLit 36; RLit 45; RGroup 1; RGroup 7]).
  rewrite replacement_denotes; [vm_compute; reflexivity|]. repeat constructor.
Defined.

(** ** One modifier list *)
(** [e'] is [e] with other texts and possibly another priority. *)
Definition same_origin (e e' : LogEntry) : Prop :=
  ∃ m i h u c x p, e' = set_le_priority p (with_texts e m i h u c x).

Lemma same_origin_refl e : same_origin e e.
Proof. destruct e. by eexists _, _, _, _, _, _, _. Qed.
Lemma same_origin_trans e1 e2 e3 : same_origin e1 e2 → same_origin e2 e3 → same_origin e1 e3.
Proof.
  intros (m & i & h & u & c & x & p & ->) (m2 & i2 & h2 & u2 & c2 & x2 & p2 & ->).
  by exists m2, i2, h2, u2, c2, x2, p2.
Qed.
Lemma same_origin_priority e p : same_origin e (set_le_priority p e).
Proof. destruct e. by eexists _, _, _, _, _, _, p. Qed.

(** A store through [entry_field_for_rewrite] changes one text. *)
Lemma rewrite_field_origin entry field value e :
  entry_field_for_rewrite entry field value = Some e → same_origin entry e ∧ le_priority e = le_priority entry.
Proof.
  unfold entry_field_for_rewrite. intros H.
  repeat (destruct (beq field _);
    [injection H as <-; split; [eexists _, _, _, _, _, _, (le_priority entry); unfold set_le_priority, with_texts; cbn; reflexivity|done]|]).
  done.
Qed.
Lemma rewrite_field_wf entry field value e :
  entry_wf entry → str_wf (Some value) → entry_field_for_rewrite entry field value = Some e → entry_wf e.
Proof.
  unfold entry_field_for_rewrite. intros [] Hv H.
  repeat (destruct (beq field _); [injection H as <-; by split|]). done.
Qed.
Lemma entry_field_wf entry name v : entry_wf entry → entry_field_for_modifier entry name = Some v → bytes_ok v.
Proof.
  unfold entry_field_for_modifier. intros [] H.
  assert (Hs : str_wf (Some v)) by (rewrite <- H; repeat (destruct (beq name _); [done|]); done).
  eapply Forall_impl; [exact Hs|]. unfold is_u8. cbn. lia.
Qed.

Lemma cstr_wf s : bytes_ok s → str_wf (Some (cstr s)).
Proof.
  unfold str_wf. induction 1 as [|b s Hb _ IH]; cbn [cstr]; [constructor|].
  destruct (Z.eqb_spec b 0); constructor; [|done]. unfold is_u8 in Hb. lia.
Qed.
Lemma build_bytes_ok text subject ov :
  bytes_ok text → bytes_ok subject → bytes_ok (build_regex_replacement text subject ov).
Proof.
  intros Ht Hs. remember (length text) as n eqn:Hn. revert text Hn Ht. induction (lt_wf n) as [n _ IH].
  intros [|c [|d text]] -> Ht; [constructor|done|].
  change (bytes_ok (if (c =? 36) && (d =? 36) then 36 :: build_regex_replacement text subject ov
    else if (c =? 36) && isdigit d
    then match ov !! Z.to_nat (d - 48) with
         | Some (Some (a, b)) => slice a (b - a) subject ++ build_regex_replacement text subject ov
         | _ => build_regex_replacement text subject ov
         end
    else c :: build_regex_replacement (d :: text) subject ov)).
  inversion_clear Ht as [|? ? Hc Ht']. inversion_clear Ht' as [|? ? Hd Ht]. cbn [length] in IH.
  assert (IH2 : bytes_ok (build_regex_replacement text subject ov)) by (eapply IH; [|done|done]; lia).
  destruct (_ && _); [by constructor|]. destruct (_ && _).
  - destruct (ov !! _) as [[[a b]|]|]; try done. apply Forall_app. split; [|done].
    unfold slice, ztake, zdrop. by apply Forall_take, Forall_drop.
  - constructor; [done|]. eapply IH; [|done|by constructor]. cbn [length]. lia.
Qed.

Section lists.
Context `{RX : RegexLib} `{RM : !RegexMatch RX} `{J : Jansson}.

Lemma modifier_rewrites_origin m subject ov e e' :
  modifier_rewrites m subject ov e = Some e' → same_origin e e' ∧ le_priority e' = le_priority e.
Proof.
  unfold modifier_rewrites. destruct (em_rewrite m) as [[field repl]|]; [|intros [= <-]; split; [apply same_origin_refl|done]].
  destruct subject as [s|]; [|done]. destruct ov as [ov|]; [|done]. cbn. apply rewrite_field_origin.
Qed.

(** Rules of a list that runs over an entry: the induction every property of a
    list needs. *)
Lemma modifier_list_ind (P : LogEntry → ModResult → LogEntry → Prop) j replay items :
  (∀ e, P e MOD_KEEP e) → (∀ e, P e MOD_ERROR e) →
  (∀ m e e1 e2, m ∈ items → same_origin e e1 → le_priority e1 = le_priority e →
     e2 = (if 0 <=? em_set_priority m then set_le_priority (u8 (em_set_priority m)) e1 else e1) →
     P e MOD_DROP e2 ∧ ∀ r e3, P e2 r e3 → P e r e3) →
  ∀ e r e' jobs, apply_modifier_list items e j replay = (r, e', jobs) → P e r e'.
Proof.
  intros Hk He Hm. induction items as [|m items IH]; intros e r e' jobs H; cbn [apply_modifier_list] in H.
  { injection H as <- <- _. apply Hk. }
  assert (IH' : ∀ e r e' jobs, apply_modifier_list items e j replay = (r, e', jobs) → P e r e').
  { apply IH. intros m' e1 e2 e3 Hin. by apply (Hm m'); right. }
  destruct (modifier_matches m _) as [[[] ov]|]; [|by eapply IH'|injection H as <- <- _; apply He].
  destruct (modifier_rewrites m _ ov e) as [e1|] eqn:Hr; [|injection H as <- <- _; apply He].
  apply modifier_rewrites_origin in Hr as [Ho Hp].
  destruct (Hm m e e1 _ (list_elem_of_here _ _) Ho Hp eq_refl) as [Hd Hn].
  destruct (em_drop m); [injection H as <- <- _; exact Hd|].
  destruct (apply_modifier_list items _ j replay) as [[r2 e3] jobs2] eqn:Hrec. injection H as <- <- _.
  apply Hn. by eapply IH'.
Qed.

Lemma modifier_list_origin items e j replay r e' jobs :
  apply_modifier_list items e j replay = (r, e', jobs) → same_origin e e'.
Proof.
  apply (modifier_list_ind (λ e _ e', same_origin e e')); [apply same_origin_refl..|].
  intros m e0 e1 e2 _ Ho _ ->. assert (same_origin e0 (if 0 <=? em_set_priority m then set_le_priority (u8 (em_set_priority m)) e1 else e1)).
  { destruct (0 <=? _); [|done]. eapply same_origin_trans; [done|apply same_origin_priority]. }
  split; [done|]. intros _ e3 H3. by eapply same_origin_trans.
Qed.

(** A priority that is in range stays there. *)
Lemma modifier_list_priority items e j replay r e' jobs :
  Forall modifier_ok items → 0 <= le_priority e <= 7 →
  apply_modifier_list items e j replay = (r, e', jobs) → 0 <= le_priority e' <= 7.
Proof.
  intros Hall He H. rewrite Forall_forall in Hall. revert He.
  refine (modifier_list_ind (λ e _ e', 0 <= le_priority e <= 7 → 0 <= le_priority e' <= 7) j replay items _ _ _ e r e' jobs H);
    [done..|].
  intros m e0 e1 e2 Hin _ Hp ->. destruct (Hall m Hin) as (_ & Hr & _).
  assert (Hgoal : 0 <= le_priority e0 <= 7 →
    0 <= le_priority (if 0 <=? em_set_priority m then set_le_priority (u8 (em_set_priority m)) e1 else e1) <= 7).
  { intros He0. destruct (Z.leb_spec 0 (em_set_priority m)); [|by rewrite Hp].
    cbn. unfold u8. rewrite Z.mod_small by lia. lia. }
  split; [done|]. intros _ e3 H3 He0. auto.
Qed.

(** With supported rewrites a list only fails when a match does. *)
Lemma rewrite_possible m subject ov e :
  modifier_ok m → rewrites_supported m → modifier_matches m subject = Some (true, ov) →
  is_Some (modifier_rewrites m subject ov e).
Proof.
  intros (_ & _ & _ & Hrw & _) Hs Hm. unfold modifier_rewrites. unfold rewrites_supported in Hs.
  destruct (em_rewrite m) as [[field repl]|]; [|by eexists].
  destruct (Hrw _ _ eq_refl) as [Hn (code & Hc)]. specialize (Hs _ _ eq_refl).
  unfold modifier_matches in Hm. rewrite Hn, Hc in Hm. destruct subject as [s|]; [|done].
  destruct (pcre2_match code s) as [| |ov']; try done. injection Hm as <-. cbn.
  unfold entry_field_for_rewrite.
  by repeat (apply elem_of_cons in Hs as [->|Hs]; [vm_compute; by eexists|]); apply not_elem_of_nil in Hs.
Qed.

Lemma modifier_list_no_error items e j replay r e' jobs :
  (∀ code s, pcre2_match code s ≠ PCRE2_ERROR) → Forall modifier_ok items → Forall rewrites_supported items →
  apply_modifier_list items e j replay = (r, e', jobs) → r ≠ MOD_ERROR.
Proof.
  intros Hre. revert e r e' jobs. induction items as [|m items IH]; intros e r e' jobs Hok Hs H; cbn [apply_modifier_list] in H.
  { by injection H as <- _ _. }
  apply Forall_cons in Hok as [Hm Hok], Hs as [Hsm Hs].
  destruct (modifier_matches m _) as [[[] ov]|] eqn:Hmm.
  - destruct (rewrite_possible m _ ov e Hm Hsm Hmm) as [e1 Hr]. rewrite Hr in H.
    destruct (em_drop m); [by injection H as <- _ _|].
    destruct (apply_modifier_list items _ j replay) as [[r2 e3] jobs2] eqn:Hrec. injection H as <- _ _. by eapply IH.
  - by eapply IH.
  - exfalso. unfold modifier_matches in Hmm. destruct (em_match m); try done.
    destruct (match entry_field_for_modifier e _ with Some _ => _ | None => _ end) as [s|]; [|done].
    destruct (pcre2_match match_regex s) eqn:Hp; try done. by apply (Hre match_regex s).
Qed.

(** Texts stay C strings of bytes. *)
Definition template_ok (m : EntryModifier) : Prop :=
  match em_rewrite m with Some (_, replacement) => bytes_ok replacement | None => True end.
Definition journal_ok (j : option JournalEntry) : Prop :=
  ∀ field v, journal_get_field j field = Some v → bytes_ok v.

Lemma set_priority_wf p e : is_u8 p → entry_wf e → entry_wf (set_le_priority p e).
Proof. intros Hp []. by split. Qed.

Lemma modifier_rewrites_wf m subject ov e e' :
  template_ok m → (∀ v, subject = Some v → bytes_ok v) → entry_wf e → modifier_rewrites m subject ov e = Some e' →
  entry_wf e'.
Proof.
  unfold modifier_rewrites, template_ok. intros Ht Hs He. destruct (em_rewrite m) as [[field repl]|]; [|by intros [= <-]].
  destruct subject as [s|]; [|done]. destruct ov as [ov|]; [|done]. apply rewrite_field_wf; [done|].
  apply cstr_wf, build_bytes_ok; [done|by apply Hs].
Qed.

Lemma modifier_list_wf items j replay : ∀ e r e' jobs,
  Forall template_ok items → journal_ok j → entry_wf e →
  apply_modifier_list items e j replay = (r, e', jobs) → entry_wf e'.
Proof.
  induction items as [|m items IH]; intros e r e' jobs Ht Hj He H; cbn [apply_modifier_list] in H.
  { by injection H as <- <- _. }
  apply Forall_cons in Ht as [Hm Ht]. set (subject := match entry_field_for_modifier e _ with Some _ => _ | None => _ end) in H.
  assert (Hsub : ∀ v, subject = Some v → bytes_ok v).
  { intros v. unfold subject. destruct (entry_field_for_modifier e _) as [s|] eqn:Hf; [|apply Hj].
    intros [= <-]. by eapply entry_field_wf. }
  destruct (modifier_matches m _) as [[[] ov]|]; [|by eapply IH|by injection H as <- <- _].
  destruct (modifier_rewrites m subject ov e) as [e1|] eqn:Hr; [|by injection H as <- <- _].
  apply modifier_rewrites_wf in Hr; [|done..].
  assert (He2 : entry_wf (if 0 <=? em_set_priority m then set_le_priority (u8 (em_set_priority m)) e1 else e1)).
  { destruct (0 <=? _); [|done]. apply set_priority_wf; [apply u8_range|done]. }
  destruct (em_drop m); [by injection H as <- <- _|].
  destruct (apply_modifier_list items _ j replay) as [[r2 e3] jobs2] eqn:Hrec. injection H as <- <- _. by eapply IH.
Qed.
End lists.

(** ** Routing between the groups *)
Section routing.
Context `{RX : RegexLib} `{RM : !RegexMatch RX} `{J : Jansson}.

(** The contract of the rerouting loop, without a bound on the passes and with
    the set of visited priorities as a list: pass the entry through the list of
    its group until it settles, is decided, or comes back to a visited priority. *)
Inductive routed (cfg : RecorderConfig) (j : option JournalEntry) (replay : bool)
    : list Z → LogEntry → ModResult → LogEntry → list ScriptJob → Prop :=
  | routed_settled seen e g e' jobs :
      modifier_group cfg (le_priority e) = Some g →
      apply_modifier_list (pg_modifiers g) e j replay = (MOD_KEEP, e', jobs) → le_priority e' = le_priority e →
      routed cfg j replay seen e MOD_KEEP e' jobs
  | routed_decided seen e g r e' jobs :
      modifier_group cfg (le_priority e) = Some g →
      apply_modifier_list (pg_modifiers g) e j replay = (r, e', jobs) → r ≠ MOD_KEEP →
      routed cfg j replay seen e r e' jobs
  | routed_back seen e g e' jobs :
      modifier_group cfg (le_priority e) = Some g →
      apply_modifier_list (pg_modifiers g) e j replay = (MOD_KEEP, e', jobs) → le_priority e' ≠ le_priority e →
      le_priority e' ∈ seen → routed cfg j replay seen e MOD_DROP e' jobs
  | routed_on seen e g e' jobs r e'' jobs' :
      modifier_group cfg (le_priority e) = Some g →
      apply_modifier_list (pg_modifiers g) e j replay = (MOD_KEEP, e', jobs) → le_priority e' ≠ le_priority e →
      le_priority e' ∉ seen → routed cfg j replay (le_priority e' :: seen) e' r e'' jobs' →
      routed cfg j replay seen e r e'' (jobs ++ jobs').

(** What a configuration that was loaded gives the routing. *)
Definition routes_total (cfg : RecorderConfig) : Prop :=
  ∀ p, 0 <= p <= 7 → ∃ g, modifier_group cfg p = Some g ∧ Forall modifier_ok (pg_modifiers g) ∧
    Forall rewrites_supported (pg_modifiers g).

Lemma startup_routes_total readable raw dir entries cfg :
  startup_config readable raw dir entries = Ok cfg → routes_total cfg.
Proof.
  intros [[(_ & _ & _ & _ & _ & Hof) Hv] (_ & Hs & _)]%startup_ok p Hp. destruct (Hof p Hp) as (i & g & Hi & Hg & _).
  exists g. unfold modifier_group. rewrite Hi. cbn. pose proof (lookup_lt_Some _ _ _ Hg) as Hlt.
  replace (0 <=? Z.of_nat i) with true by (symmetry; apply Z.leb_le; lia).
  replace (Z.of_nat i <? zlen (cfg_groups cfg)) with true by (symmetry; apply Z.ltb_lt; unfold zlen; lia).
  cbn. rewrite Nat2Z.id. split; [done|]. destruct Hv as (_ & _ & _ & _ & _ & _ & _ & _ & _ & _ & _ & _ & _ & Hgv).
  rewrite Forall_forall in Hgv, Hs. split; [by apply (Hgv g), list_elem_of_lookup_2 with i|by apply Hs, list_elem_of_lookup_2 with i].
Qed.

(** At most eight priorities have been visited, so the bound is never reached. *)
Lemma priorities_few (seen : list Z) : NoDup seen → Forall (λ p, 0 <= p <= 7) seen → (length seen <= 8)%nat.
Proof.
  intros Hnd Hin. change 8%nat with (length priorities8). apply submseteq_length.
  apply NoDup_submseteq; [done|]. intros p Hp. rewrite Forall_forall in Hin. specialize (Hin p Hp).
  unfold priorities8. assert (p = 0 ∨ p = 1 ∨ p = 2 ∨ p = 3 ∨ p = 4 ∨ p = 5 ∨ p = 6 ∨ p = 7) as H by lia.
  set_solver.
Qed.

Lemma reroute_routed cfg j replay fuel : ∀ mask seen e r e' jobs,
  routes_total cfg → NoDup seen → Forall (λ p, 0 <= p <= 7) seen → le_priority e ∈ seen →
  (∀ p, 0 <= p → Z.testbit mask p = bool_decide (p ∈ seen)) → (length seen + fuel = 9)%nat →
  reroute_loop fuel cfg mask e j replay = (r, e', jobs) → routed cfg j replay seen e r e' jobs.
Proof.
  induction fuel as [|fuel IH]; intros mask seen e r e' jobs Ht Hnd Hin He Hmask Hlen H; cbn [reroute_loop] in H.
  { pose proof (priorities_few seen Hnd Hin). lia. }
  pose proof Hin as Hin'. rewrite Forall_forall in Hin'. destruct (Ht _ (Hin' _ He)) as (g & Hg & Hok & _). rewrite Hg in H.
  destruct (apply_modifier_list (pg_modifiers g) e j replay) as [[res e1] jobs1] eqn:Hl.
  destruct (decide (res = MOD_KEEP)) as [->|Hne].
  2:{ rewrite bool_decide_eq_false_2 in H by done. injection H as <- <- <-. by eapply routed_decided. }
  rewrite bool_decide_eq_true_2 in H by done. cbn [negb] in H.
  assert (Hp1 : 0 <= le_priority e1 <= 7) by (eapply modifier_list_priority; [exact Hok|by apply Hin'|done]).
  destruct (Z.eqb_spec (le_priority e1) (le_priority e)) as [Heq|Heq].
  { injection H as <- <- <-. by eapply routed_settled. }
  rewrite has_flag_bit, Hmask in H by lia. destruct (decide (le_priority e1 ∈ seen)) as [Hs|Hs].
  { rewrite bool_decide_eq_true_2 in H by done. injection H as <- <- <-. by eapply routed_back. }
  rewrite bool_decide_eq_false_2 in H by done.
  destruct (reroute_loop fuel cfg _ e1 j replay) as [[r2 e2] jobs2] eqn:Hrec. injection H as <- <- <-.
  eapply routed_on; [done..|]. eapply IH; [..|exact Hrec]; try done.
  - by constructor.
  - by constructor.
  - by left.
  - intros p Hp. rewrite lor_bit, Hmask by lia. destruct (Z.eqb_spec (le_priority e1) p) as [->|Hd].
    + rewrite orb_true_r. symmetry. apply bool_decide_eq_true_2. by left.
    + rewrite orb_false_r. apply bool_decide_ext. rewrite elem_of_cons. split; [by right|by intros [->|]].
  - cbn [length]. lia.
Qed.

(** The relation is a function, so it determines the program's answer. *)
Lemma routed_deterministic cfg j replay seen e r1 e1 jobs1 r2 e2 jobs2 :
  routed cfg j replay seen e r1 e1 jobs1 → routed cfg j replay seen e r2 e2 jobs2 →
  r1 = r2 ∧ e1 = e2 ∧ jobs1 = jobs2.
Proof.
  intros Ha. revert r2 e2 jobs2. induction Ha; intros r2 e2 jobs2 Hb; inversion Hb; simplify_eq;
    match goal with H1 : apply_modifier_list ?l ?e _ _ = _, H2 : apply_modifier_list ?l ?e _ _ = _ |- _ => rewrite H1 in H2 end;
    simplify_eq; try done.
  match goal with H : routed _ _ _ (_ :: _) _ _ _ ?js, IH : ∀ _ _ _, routed _ _ _ _ _ _ _ _ → _ |- _ =>
    destruct (IH _ _ _ H) as (-> & -> & ->) end. done.
Qed.

Lemma apply_modifiers_routed cfg e j replay :
  routes_total cfg → Forall modifier_ok (cfg_modifiers cfg) → 0 <= le_priority e <= 7 →
  ∀ r0 e0 jobs0, apply_modifier_list (cfg_modifiers cfg) e j replay = (r0, e0, jobs0) →
  if decide (r0 = MOD_KEEP)
  then ∃ r e' jobs, apply_entry_modifiers cfg e j replay = (r, e', jobs0 ++ jobs) ∧
         routed cfg j replay [le_priority e0] e0 r e' jobs
  else apply_entry_modifiers cfg e j replay = (r0, e0, jobs0).
Proof.
  intros Ht Hok Hp r0 e0 jobs0 Hl. unfold apply_entry_modifiers. rewrite Hl.
  assert (Hp0 : 0 <= le_priority e0 <= 7) by (by eapply modifier_list_priority).
  destruct (decide (r0 = MOD_KEEP)) as [->|Hne]; [|by rewrite bool_decide_eq_false_2].
  rewrite bool_decide_eq_true_2 by done. cbn [negb].
  destruct (reroute_loop MAX_MODIFIER_REROUTES cfg _ e0 j replay) as [[r e'] jobs] eqn:Hr.
  exists r, e', jobs. split; [done|]. eapply reroute_routed; [..|exact Hr]; try done.
  - apply NoDup_singleton.
  - by constructor.
  - by left.
  - intros p Hpp. rewrite <- (Z.lor_0_l (Z.shiftl 1 _)), lor_bit, Z.bits_0 by lia. cbn [orb].
    destruct (Z.eqb_spec (le_priority e0) p); symmetry; [apply bool_decide_eq_true_2; subst; by left|].
    apply bool_decide_eq_false_2. rewrite list_elem_of_singleton. congruence.
Qed.

(** What every list keeps, the routing keeps. *)
Lemma routed_keeps (P : LogEntry → Prop) cfg j replay seen e r e' jobs :
  (∀ g e r e' jobs, modifier_group cfg (le_priority e) = Some g →
     apply_modifier_list (pg_modifiers g) e j replay = (r, e', jobs) → P e → P e') →
  routed cfg j replay seen e r e' jobs → P e → P e'.
Proof. intros Hstep. induction 1; eauto. Qed.

(** The last pass of a kept entry was the one of the group it is in. *)
Lemma routed_final cfg j replay seen e r e' jobs :
  routed cfg j replay seen e r e' jobs → r = MOD_KEEP →
  ∃ g e0 jobs0, modifier_group cfg (le_priority e') = Some g ∧ le_priority e0 = le_priority e' ∧
    apply_modifier_list (pg_modifiers g) e0 j replay = (MOD_KEEP, e', jobs0).
Proof.
  induction 1 as [seen e g e' jobs Hg Hl Hp|seen e g r e' jobs Hg Hl Hr|seen e g e' jobs Hg Hl Hp Hs|seen e g e' jobs r e'' jobs' Hg Hl Hp Hs Hr IH];
    intros Hk; try done; [|by apply IH].
  exists g, e, jobs. by rewrite Hp.
Qed.

Lemma routed_no_error cfg j replay seen e r e' jobs :
  (∀ code s, pcre2_match code s ≠ PCRE2_ERROR) → routes_total cfg → 0 <= le_priority e <= 7 →
  routed cfg j replay seen e r e' jobs → r ≠ MOD_ERROR.
Proof.
  intros Hre Ht Hp H. revert Hp.
  assert (Hstep : ∀ e g r e' jobs, 0 <= le_priority e <= 7 → modifier_group cfg (le_priority e) = Some g →
    apply_modifier_list (pg_modifiers g) e j replay = (r, e', jobs) → r ≠ MOD_ERROR ∧ 0 <= le_priority e' <= 7).
  { intros e1 g1 r1 e1' jobs1 Hp1 Hg1 Hl1. destruct (Ht _ Hp1) as (g & Hg & Hok & Hs). simplify_eq.
    split; [by eapply modifier_list_no_error|by eapply modifier_list_priority]. }
  induction H as [seen e g e' jobs Hg Hl Hq|seen e g r e' jobs Hg Hl Hr|seen e g e' jobs Hg Hl Hq Hs|seen e g e' jobs r e'' jobs' Hg Hl Hq Hs Hr IH];
    intros Hp; try done.
  - by destruct (Hstep _ _ _ _ _ Hp Hg Hl).
  - apply IH. by destruct (Hstep _ _ _ _ _ Hp Hg Hl).
Qed.

(** C12: routing between groups.  With a configuration the program starts with, the
    modifiers of an entry are its global list and then exactly the routing of the
    relation [routed], which has no bound on the number of passes: the limit of
    eight reroutes never cuts a chain short, every chain settles, is decided by a
    list, or returns to a priority it has visited (and is dropped). *)
Theorem modifiers_route readable raw dir entries cfg e j replay r0 e0 jobs0 :
  startup_config readable raw dir entries = Ok cfg → 0 <= le_priority e <= 7 →
  apply_modifier_list (cfg_modifiers cfg) e j replay = (r0, e0, jobs0) →
  (r0 ≠ MOD_KEEP → apply_entry_modifiers cfg e j replay = (r0, e0, jobs0)) ∧
  (r0 = MOD_KEEP → ∀ r e' jobs,
     apply_entry_modifiers cfg e j replay = (r, e', jobs) ↔
     ∃ jobs1, jobs = jobs0 ++ jobs1 ∧ routed cfg j replay [le_priority e0] e0 r e' jobs1).
Proof.
  intros Hcfg Hp Hl. pose proof (startup_routes_total _ _ _ _ _ Hcfg) as Ht.
  assert (Hok : Forall modifier_ok (cfg_modifiers cfg)) by (apply startup_ok in Hcfg as [[_ Hv] _]; apply Hv).
  pose proof (apply_modifiers_routed cfg e j replay Ht Hok Hp _ _ _ Hl) as H.
  split; intros Hr; [by rewrite decide_False in H|]. rewrite decide_True in H by done.
  destruct H as (r & e' & jobs & Ha & Hrt). intros r2 e2 jobs2. rewrite Ha. split.
  - intros [= <- <- <-]. by exists jobs.
  - intros (jobs1 & -> & Hrt2). destruct (routed_deterministic _ _ _ _ _ _ _ _ _ _ _ Hrt Hrt2) as (-> & -> & ->). done.
Qed.

(** One entry through the modifiers of a configuration. *)
Lemma modified_entry cfg e j replay r e' jobs :
  routes_total cfg → Forall modifier_ok (cfg_modifiers cfg) → 0 <= le_priority e <= 7 →
  apply_entry_modifiers cfg e j replay = (r, e', jobs) →
  (∀ P : LogEntry → Prop,
     (∀ items e r e' jobs, (items = cfg_modifiers cfg ∨ ∃ g, modifier_group cfg (le_priority e) = Some g ∧ items = pg_modifiers g) →
        apply_modifier_list items e j replay = (r, e', jobs) → P e → P e') → P e → P e') ∧
  (r = MOD_KEEP → ∃ g e0 jobs0, modifier_group cfg (le_priority e') = Some g ∧ le_priority e0 = le_priority e' ∧
    apply_modifier_list (pg_modifiers g) e0 j replay = (MOD_KEEP, e', jobs0)).
Proof.
  intros Ht Hok Hp H. destruct (apply_modifier_list (cfg_modifiers cfg) e j replay) as [[r0 e0] jobs0] eqn:Hl.
  pose proof (apply_modifiers_routed cfg e j replay Ht Hok Hp _ _ _ Hl) as Hrt. destruct (decide (r0 = MOD_KEEP)) as [->|Hne].
  - destruct Hrt as (r1 & e1 & jobs1 & Ha & Hrt). rewrite H in Ha. injection Ha as <- <- _. split; [|by apply routed_final with (1 := Hrt)].
    intros P Hstep HP. apply (routed_keeps P) with (2 := Hrt); [intros; eapply Hstep; eauto|eapply Hstep; eauto].
  - rewrite H in Hrt. injection Hrt as -> -> _. split; [intros P Hstep; eapply Hstep; eauto|done].
Qed.

(** C11: modified entries.  Whatever the modifiers of a loaded configuration do to a
    well-formed entry, only its six texts and its priority change, it stays
    well formed with a priority in 0..7, and they fail only when the
    regular-expression library reports an error; a kept entry has passed the list
    of the group it will be stored in without leaving it. *)
Theorem modifiers_keep_entry readable raw dir entries cfg e j replay r e' jobs :
  startup_config readable raw dir entries = Ok cfg → entry_wf e → le_priority e <= 7 →
  Forall template_ok (cfg_modifiers cfg) → Forall (λ g, Forall template_ok (pg_modifiers g)) (cfg_groups cfg) →
  journal_ok j → apply_entry_modifiers cfg e j replay = (r, e', jobs) →
  same_origin e e' ∧ entry_wf e' ∧ 0 <= le_priority e' <= 7 ∧
  ((∀ code s, pcre2_match code s ≠ PCRE2_ERROR) → r ≠ MOD_ERROR) ∧
  (r = MOD_KEEP → ∃ g e0 jobs0, modifier_group cfg (le_priority e') = Some g ∧ le_priority e0 = le_priority e' ∧
     apply_modifier_list (pg_modifiers g) e0 j replay = (MOD_KEEP, e', jobs0)).
Proof.
  intros Hcfg He Hp Htm Htg Hj H. pose proof (startup_routes_total _ _ _ _ _ Hcfg) as Ht.
  apply startup_ok in Hcfg as [[_ Hv] (Hs & _)].
  assert (Hok : Forall modifier_ok (cfg_modifiers cfg)) by apply Hv.
  assert (Hp' : 0 <= le_priority e <= 7) by (pose proof (ewf_priority e He); unfold is_u8 in *; lia).
  assert (Hg : ∀ p g, modifier_group cfg p = Some g → Forall template_ok (pg_modifiers g)).
  { intros p g Hmg. rewrite Forall_forall in Htg. apply Htg. unfold modifier_group in Hmg.
    destruct (cfg_priority_to_group cfg !! _) as [gi|]; [|done]. cbn in Hmg. destruct (_ && _); [|done].
    by apply list_elem_of_lookup_2 in Hmg. }
  destruct (modified_entry cfg e j replay r e' jobs Ht Hok Hp' H) as [Hinv Hfin].
  split; [|split; [|split; [|split; [|done]]]].
  - apply (Hinv (same_origin e)); [|apply same_origin_refl]. intros items e1 r1 e2 jobs1 _ Hl Ho.
    eapply same_origin_trans; [done|]. by eapply modifier_list_origin.
  - apply (Hinv entry_wf); [|done]. intros items e1 r1 e2 jobs1 Hi Hl Hw. eapply modifier_list_wf; [|done..].
    destruct Hi as [->|(g & Hmg & ->)]; [done|by eapply Hg].
  - apply (Hinv (λ e, 0 <= le_priority e <= 7)); [|done]. intros items e1 r1 e2 jobs1 Hi Hl Hq.
    eapply modifier_list_priority; [|done|done]. destruct Hi as [->|(g & Hmg & ->)]; [done|].
    destruct (Ht _ Hq) as (g' & Hg' & ? & _). by simplify_eq.
  - intros Hre. destruct (apply_modifier_list (cfg_modifiers cfg) e j replay) as [[r0 e0] jobs0] eqn:Hl.
    pose proof (modifier_list_no_error _ _ _ _ _ _ _ Hre Hok Hs Hl) as Hr0.
    pose proof (modifier_list_priority _ _ _ _ _ _ _ Hok Hp' Hl) as Hp0.
    pose proof (apply_modifiers_routed cfg e j replay Ht Hok Hp' _ _ _ Hl) as Hrt. destruct (decide (r0 = MOD_KEEP)) as [->|Hne].
    + destruct Hrt as (r1 & e1 & jobs1 & Ha & Hrt). rewrite H in Ha. injection Ha as <- <- _. by eapply routed_no_error.
    + rewrite H in Hrt. by injection Hrt as -> -> _.
Qed.
End routing.

(** ** Tie order *)

(** Entries received one after the other. *)
Fixpoint assign_all (t : TieState) (es : list LogEntry) : TieState * list LogEntry :=
  match es with
  | [] => (t, [])
  | e :: es' =>
      let '(t1, e1) := recorder_assign_monotonic_tie_order t e in
      let '(t2, es2) := assign_all t1 es' in (t2, e1 :: es2)
  end.

(** The stamps of the entries that have one, latest first. *)
Definition stamp (e : LogEntry) : Z * Z := (le_boot_seq e, le_monotonic_ts e).
Definition stamps (es : list LogEntry) : list (Z * Z) :=
  reverse (map stamp (List.filter (λ e, negb (le_monotonic_ts e =? 0)) es)).
(** How many of them are [s] without interruption. *)
Fixpoint run_length (s : Z * Z) (hist : list (Z * Z)) : nat :=
  match hist with
  | x :: hist' => if decide (x = s) then S (run_length s hist') else O
  | [] => O
  end.

Definition tie_inv (hist : list (Z * Z)) (t : TieState) : Prop :=
  match hist with
  | [] => ti_last t = None
  | s :: hist' => ti_last t = Some s ∧ ti_order t = Z.min UINT16_MAX (Z.of_nat (run_length s hist'))
  end.

Lemma stamps_snoc es e :
  stamps (es ++ [e]) = if le_monotonic_ts e =? 0 then stamps es else stamp e :: stamps es.
Proof.
  unfold stamps. rewrite List.filter_app, map_app. cbn [List.filter]. destruct (le_monotonic_ts e =? 0); cbn [negb map].
  - by rewrite app_nil_r.
  - by rewrite reverse_app.
Qed.

Definition expected_order (hist : list (Z * Z)) (e : LogEntry) : Z :=
  if le_monotonic_ts e =? 0 then 0 else Z.min UINT16_MAX (Z.of_nat (run_length (stamp e) hist)).

Lemma assign_step es t e t' e' :
  tie_inv (stamps es) t → recorder_assign_monotonic_tie_order t e = (t', e') →
  tie_inv (stamps (es ++ [e])) t' ∧ e' = set_tie_order (expected_order (stamps es) e) e.
Proof.
  intros Ht H. rewrite stamps_snoc. unfold recorder_assign_monotonic_tie_order, expected_order in *.
  destruct (le_monotonic_ts e =? 0); [by injection H as <- <-|].
  change (le_boot_seq e, le_monotonic_ts e) with (stamp e) in H.
  destruct (stamps es) as [|s hist] eqn:Hs; cbn [tie_inv run_length] in *.
  { rewrite Ht in H. rewrite bool_decide_eq_false_2 in H by done. by injection H as <- <-. }
  destruct Ht as [Hl Ho]. rewrite Hl in H. destruct (decide (s = stamp e)) as [->|Hne].
  - rewrite bool_decide_eq_true_2 in H by done. unfold UINT16_MAX in *.
    destruct (Z.ltb_spec (ti_order t) 65535); injection H as <- <-; cbn [ti_last ti_order].
    + rewrite Ho. split; [split; [done|lia]|]. f_equal. lia.
    + split; [split; [done|]; lia|]. f_equal. lia.
  - rewrite bool_decide_eq_false_2 in H by congruence. by injection H as <- <-.
Qed.

Lemma assign_all_order es0 es t t' out :
  tie_inv (stamps es0) t → assign_all t es = (t', out) →
  ∀ k e, es !! k = Some e → out !! k = Some (set_tie_order (expected_order (stamps (es0 ++ take k es)) e) e).
Proof.
  revert es0 t out. induction es as [|e0 es IH]; intros es0 t out Ht H k e Hk; [done|]. cbn [assign_all] in H.
  destruct (recorder_assign_monotonic_tie_order t e0) as [t1 e1] eqn:Ha.
  destruct (assign_all t1 es) as [t2 es2] eqn:Hr. injection H as -> <-.
  destruct (assign_step _ _ _ _ _ Ht Ha) as [Ht1 ->]. destruct k as [|k].
  - injection Hk as ->. cbn [take]. by rewrite app_nil_r.
  - change (es2 !! k = Some (set_tie_order (expected_order (stamps (es0 ++ e0 :: take k es)) e) e)).
    rewrite (IH (es0 ++ [e0]) t1 es2 Ht1 Hr k e Hk). by rewrite <- app_assoc.
Qed.

(** Tie order.  Of the entries received since the start, each gets as tie
    order the number of entries directly before it, among those with a monotonic
    stamp, that have its boot and stamp (at most 65535), and 0 without a stamp;
    nothing else of the entry changes. *)
Theorem tie_order_counts es t out k e :
  assign_all tie_init es = (t, out) → es !! k = Some e →
  out !! k = Some (set_tie_order (expected_order (stamps (take k es)) e) e).
Proof. intros H. by apply (assign_all_order []) with (2 := H). Qed.

(** ** Captured fields *)
Section capture.
Context `{RX : RegexLib}.

(** Whether [data] is stored as an extra field: a named field that is not stored
    elsewhere, on the whitelist when there is one and not on the blacklist. *)
Definition field_wanted (cfg : RecorderConfig) (name : bytes) : Prop :=
  name ≠ [] ∧ name ∉ fixed_fields ∧
  (cfg_capture_fields_whitelist cfg ≠ [] → name ∈ cfg_capture_fields_whitelist cfg) ∧
  name ∉ cfg_capture_fields_blacklist cfg.

Lemma listed_iff name l : journal_field_name_is_listed name l = true ↔ name ∈ l.
Proof.
  unfold journal_field_name_is_listed. rewrite existsb_exists. split.
  - intros (x & Hx & ->%beq_true). by apply list_elem_of_In.
  - intros Hin. exists name. split; [by apply list_elem_of_In|apply beq_refl].
Qed.

Lemma split_at_app c s n v : split_at c s = Some (n, v) ↔ s = n ++ c :: v ∧ c ∉ n.
Proof.
  revert n. induction s as [|b s IH]; intros n; cbn [split_at].
  { split; [done|]. by intros [H _]; destruct n. }
  destruct (Z.eqb_spec b c) as [->|Hb].
  - split; [by intros [= <- <-]; split; [|apply not_elem_of_nil]|]. intros [H Hn]. destruct n as [|x n]; [by injection H as ->|].
    injection H as -> _. destruct Hn. by left.
  - destruct (split_at c s) as [[n' v']|] eqn:Hs; cbn; split.
    + intros [= <- <-]. destruct (proj1 (IH n') eq_refl) as [-> Hn]. split; [done|]. by apply not_elem_of_cons.
    + intros [H Hn]. destruct n as [|x n]; [by injection H|]. injection H as -> ->. apply not_elem_of_cons in Hn as [_ Hn].
      by injection (proj2 (IH n) (conj eq_refl Hn)) as -> ->.
    + done.
    + intros [H Hn]. destruct n as [|x n]; [by injection H|]. injection H as -> ->. apply not_elem_of_cons in Hn as [_ Hn].
      discriminate (proj2 (IH n) (conj eq_refl Hn)).
Qed.

#[local] Instance field_wanted_dec cfg name : Decision (field_wanted cfg name).
Proof. unfold field_wanted. apply _. Defined.

Lemma capture_test cfg name :
  (zlen name =? 0) || journal_field_name_is_fixed name
  || ((0 <? zlen (cfg_capture_fields_whitelist cfg))
      && negb (journal_field_name_is_listed name (cfg_capture_fields_whitelist cfg)))
  || journal_field_name_is_listed name (cfg_capture_fields_blacklist cfg) = false ↔ field_wanted cfg name.
Proof.
  unfold field_wanted, journal_field_name_is_fixed. rewrite !orb_false_iff, andb_false_iff, negb_false_iff.
  rewrite Z.eqb_neq, Z.ltb_ge, listed_iff. rewrite <- !not_true_iff_false, !listed_iff.
  assert (H1 : zlen name ≠ 0 ↔ name ≠ []) by (destruct name; [by split|]; rewrite zlen_cons; pose proof (zlen_nonneg name); split; [done|lia]).
  assert (H2 : zlen (cfg_capture_fields_whitelist cfg) <= 0 ↔ cfg_capture_fields_whitelist cfg = []).
  { destruct (cfg_capture_fields_whitelist cfg) as [|x l]; [done|]. rewrite zlen_cons. pose proof (zlen_nonneg l). split; [lia|done]. }
  rewrite H1, H2. split; [|intros (?&?&?&?); split_and!; try done; destruct (decide (cfg_capture_fields_whitelist cfg = [])); auto].
  intros [[[? ?] [Hw|Hw]] ?]; split_and!; try done.
Qed.

(** Extra fields: with all fields captured, the extra fields of an entry are,
    in the order of the journal, exactly its named fields that are not stored
    elsewhere, are on the whitelist when one is configured and are not on the
    blacklist, each with the bytes before and after its first equals sign. *)
Theorem extra_fields_exact cfg fields :
  capture_extra_journal_fields cfg fields =
    map (λ nv, mkJournalExtraField (Some nv.1) (Some nv.2))
      (filter (λ nv, field_wanted cfg nv.1) (omap (split_at 61) fields)) ∧
  ∀ data name value, split_at 61 data = Some (name, value) ↔ data = name ++ 61 :: value ∧ 61 ∉ name.
Proof.
  split; [|intros; apply split_at_app]. induction fields as [|data fields IH]; [done|].
  cbn [capture_extra_journal_fields omap list_omap]. destruct (split_at 61 data) as [[name value]|]; [|done].
  rewrite filter_cons. cbn [fst]. pose proof (capture_test cfg name) as Ht.
  destruct (_ || journal_field_name_is_listed name (cfg_capture_fields_blacklist cfg)) eqn:Hb; rewrite IH.
  - rewrite decide_False; [done|]. intros Hw. by apply Ht in Hw.
  - rewrite decide_True; [done|]. by apply Ht.
Qed.
End capture.
