(* ===== verification/Builds.v ===== *)
(** * The builds without PCRE2 (src/src/recorder.c)

    [apply_modifier_list] exists three times: with PCRE2 (Modifiers), with the
    regular expressions of the C library (HAVE_LIBC_REGEX), and without any.  The
    last two have no rewrites, which their parser refuses; they differ in the
    regular expressions only.  Here are these two, and that the three agree
    wherever the library calls do. *)
From S2P Require Import Prelude Bytes Segment CText Entry Store Json Boots Config Modifiers.

(** [regexec] without submatches: whether it answers 0. *)
Class RegExec (RX : RegexLib) := {
  regexec : regex_code → bytes → bool;
}.

Section builds.
Context `{RX : RegexLib} `{RM : !RegexMatch RX} `{RE : !RegExec RX} `{J : Jansson}.

Definition modifier_subject (m : EntryModifier) (entry : LogEntry) (j : option JournalEntry) : option bytes :=
  match entry_field_for_modifier entry (em_match_field m) with
  | Some s => Some s
  | None => journal_get_field j (em_match_field m)
  end.

(** The conditions of the two lists, before the negation; [None] is the return
    with -1. *)
Definition matches_libc (m : EntryModifier) (subject : option bytes) : option bool :=
  match em_match m with
  | MODIFIER_MATCH_PRESENT present => Some (Bool.eqb (bool_decide (is_Some subject)) present)
  | MODIFIER_MATCH_EXACT exact => Some (bool_decide (subject = Some exact))
  | MODIFIER_MATCH_REGEX code =>
      Some (match subject with
            | Some s => if existsb (Z.eqb 0) s then false else regexec code s
            | None => false
            end)
  end.
Definition matches_plain (m : EntryModifier) (subject : option bytes) : option bool :=
  match em_match m with
  | MODIFIER_MATCH_PRESENT present => Some (Bool.eqb (bool_decide (is_Some subject)) present)
  | MODIFIER_MATCH_EXACT exact => Some (bool_decide (subject = Some exact))
  | MODIFIER_MATCH_REGEX _ => None
  end.

(** The loop, which the two builds share. *)
Fixpoint apply_matching (matches : EntryModifier → option bytes → option bool) (items : list EntryModifier)
    (entry : LogEntry) (j : option JournalEntry) (is_replay : bool) : ModResult * LogEntry * list ScriptJob :=
  match items with
  | [] => (MOD_KEEP, entry, [])
  | m :: items' =>
      match matches m (modifier_subject m entry j) with
      | None => (MOD_ERROR, entry, [])
      | Some matched =>
          if negb (if em_negate m then negb matched else matched)
          then apply_matching matches items' entry j is_replay
          else
            let entry1 := if 0 <=? em_set_priority m then set_le_priority (u8 (em_set_priority m)) entry else entry in
            let jobs := match em_script_command m with
                        | Some argv => recorder_script_modifier_enqueue m argv entry1 is_replay
                        | None => []
                        end in
            if em_drop m then (MOD_DROP, entry1, jobs)
            else let '(r, e, jobs') := apply_matching matches items' entry1 j is_replay in (r, e, jobs ++ jobs')
      end
  end.
Definition apply_modifier_list_libc := apply_matching matches_libc.
Definition apply_modifier_list_plain := apply_matching matches_plain.

(** ** Where the builds agree *)
Definition no_rewrite (m : EntryModifier) : Prop := em_rewrite m = None.
Definition is_regex (m : EntryModifier) : bool :=
  match em_match m with MODIFIER_MATCH_REGEX _ => true | _ => false end.

(** Without rewrites the texts of an entry stay as they are. *)
Lemma subject_priority m p entry j : modifier_subject m (set_le_priority p entry) j = modifier_subject m entry j.
Proof. reflexivity. Qed.

(** The loop with PCRE2 is the shared loop, for modifiers without rewrites whose
    conditions agree on the subjects the entry gives them. *)
Lemma apply_matching_pcre2 matches j replay items : ∀ entry,
  Forall no_rewrite items →
  Forall (λ m, fst <$> modifier_matches m (modifier_subject m entry j) =
               (λ b : bool, if em_negate m then negb b else b) <$> matches m (modifier_subject m entry j)) items →
  apply_matching matches items entry j replay = apply_modifier_list items entry j replay.
Proof.
  induction items as [|m items IH]; intros entry Hr Hm; [done|]. apply Forall_cons in Hr as [Hr Hrs]. apply Forall_cons in Hm as [Hm Hms].
  cbn [apply_matching apply_modifier_list]. fold (modifier_subject m entry j).
  destruct (modifier_matches m _) as [[b ov]|], (matches m _) as [b'|]; cbn in Hm; [|done..].
  injection Hm as ->. destruct (if em_negate m then negb b' else b'); cbn [negb]; [|by apply IH].
  unfold modifier_rewrites. rewrite Hr. cbv zeta. rewrite IH; [done|done|].
  by destruct (0 <=? em_set_priority m).
Qed.

(** A list without regular expressions and rewrites does the same in every build. *)
Lemma builds_agree items entry j replay :
  Forall no_rewrite items → Forall (λ m, is_regex m = false) items →
  apply_modifier_list_libc items entry j replay = apply_modifier_list items entry j replay ∧
  apply_modifier_list_plain items entry j replay = apply_modifier_list items entry j replay.
Proof.
  intros Hr Hx. split; apply apply_matching_pcre2; try done; (eapply Forall_impl; [exact Hx|]); intros m Hm;
    unfold is_regex in Hm; unfold modifier_matches, matches_libc, matches_plain; by destruct (em_match m).
Qed.

(** With regular expressions the build on the C library does what PCRE2 does,
    where the two libraries agree and no subject of one holds a NUL, at which the
    C library's build gives up. *)
Lemma libc_agrees items entry j replay :
  Forall no_rewrite items →
  (∀ m code s, m ∈ items → em_match m = MODIFIER_MATCH_REGEX code → modifier_subject m entry j = Some s →
     existsb (Z.eqb 0) s = false ∧
     match pcre2_match code s with
     | PCRE2_MATCH _ => regexec code s = true
     | PCRE2_NOMATCH => regexec code s = false
     | PCRE2_ERROR => False
     end) →
  apply_modifier_list_libc items entry j replay = apply_modifier_list items entry j replay.
Proof.
  intros Hr Hx. apply apply_matching_pcre2; [done|]. apply Forall_forall. intros m Hm. specialize (λ c s, Hx m c s Hm).
  unfold modifier_matches, matches_libc. destruct (em_match m) as [x|p|code]; [done..|].
  destruct (modifier_subject m entry j) as [s|]; [|done]. destruct (Hx code s eq_refl eq_refl) as [-> H].
  destruct (pcre2_match code s); [|done|]; by rewrite H.
Qed.

(** Without any regular expressions a list is given up at the first one; the
    parser of that build refuses them. *)
Lemma plain_stops m items entry j replay :
  is_regex m = true → apply_modifier_list_plain (m :: items) entry j replay = (MOD_ERROR, entry, []).
Proof. unfold is_regex, apply_modifier_list_plain. cbn [apply_matching]. unfold matches_plain. by destruct (em_match m). Qed.
End builds.
