(* ===== verification/Fallback.v ===== *)
(** * Log input without journald (src/src/fallback_source.c)

    Datagrams of a syslog socket and records of /dev/kmsg, and the entry that
    [extract_fallback_entry] of recorder.c makes of them.  What poll, recvmsg,
    read and the files under /proc answer is an argument ([FallbackIo]);
    allocations succeed.  Char arrays are the C strings they hold. *)
From S2P Require Import Prelude Bytes Segment CText Entry Store Json Boots Config Modifiers.

Definition FALLBACK_MESSAGE_MAX : Z := 64 * 1024.

Record FallbackSource := mkFallbackSource {
  fb_syslog : bool;                  (* syslog_fd >= 0 *)
  fb_kmsg : bool;                    (* kmsg_fd >= 0 *)
  fb_hostname : bytes;
  fb_boot_id : bytes;
}.

Record FallbackRecord := mkFallbackRecord {
  fr_realtime_ts : Z;
  fr_monotonic_ts : Z;
  fr_pid : Z;
  fr_uid : Z;
  fr_gid : Z;
  fr_priority : Z;
  fr_boot_id : bytes;
  fr_hostname : bytes;
  fr_comm : bytes;
  fr_exe : bytes;
  fr_message : bytes;
}.

(** ** Files *)
Fixpoint first_line (s : bytes) : bytes :=
  match s with
  | [] => []
  | c :: s' => if (c =? 13) || (c =? 10) then [] else c :: first_line s'
  end.

(** [content] is what the file holds, [None] when it cannot be read. *)
Definition read_text_file (content : option bytes) (dst_size : Z) : bytes :=
  match content with
  | Some data => first_line (cstr (ztake (dst_size - 1) data))
  | None => []
  end.

Definition isxdigit (c : Z) : bool := isdigit c || ((65 <=? c) && (c <=? 70)) || ((97 <=? c) && (c <=? 102)).

Definition read_boot_id (content : option bytes) : bytes :=
  let out := ztake 32 (List.filter isxdigit (read_text_file content 64)) in
  if zlen out =? 32 then out else [].

(** ** Syslog datagrams *)
Fixpoint span_digits (s : bytes) : bytes * bytes :=
  match s with
  | c :: s' => if isdigit c then prod_map (cons c) id (span_digits s') else ([], s)
  | [] => ([], [])
  end.

Definition starts_with (c : Z) (s : bytes) : bool := match s with b :: _ => b =? c | [] => false end.

(** The priority and the text behind it.  A number above 191 is used although its
    header is not removed. *)
Definition parse_pri (data : bytes) : Z * bytes :=
  if (zlen data <? 3) || negb (starts_with 60 data) then (13, data)
  else
    let '(number, _) := span_digits (slice 1 15 data) in
    let behind := zdrop (1 + zlen number) data in
    if (zlen number =? 0) || negb (starts_with 62 behind) then (13, data)
    else
      let pri := (strtoull10 number).1.1 in
      (pri, if pri <=? 191 then zdrop 1 behind else data).

(** [TAG\[PID\]: message], when the text looks like that. *)
Definition parse_tag (message : bytes) : option (bytes * bytes) :=
  match split_at 58 message with
  | Some (before, 32 :: text) =>
      if zlen before <? 256
      then
        let tag := match split_at 91 before with Some (t, _) => t | None => before end in
        if zlen tag =? 0 then None else Some (tag, text)
      else None
  | _ => None
  end.

(** priority, comm and message. *)
Definition parse_syslog_payload (data : bytes) : Z * bytes * bytes :=
  let '(pri, message) := parse_pri data in
  let '(comm, message) := match parse_tag message with Some (tag, text) => (cstr tag, text) | None => ([], message) end in
  (u8 (Z.land pri 7), comm, cstr message).

(** ** Records *)
Inductive Received :=
  | RecvAgain                        (* EAGAIN, a truncated datagram or nothing *)
  | RecvError
  | RecvData (data : bytes) (cred : option (Z * Z * Z)).   (* pid, uid, gid *)

Record FallbackIo := mkFallbackIo {
  fi_poll : option bool;             (* None: poll failed; false: timeout *)
  fi_broken : bool;                  (* POLLERR, POLLHUP or POLLNVAL on a descriptor in use *)
  fi_syslog_ready : bool;
  fi_kmsg_ready : bool;
  fi_syslog : Received;
  fi_kmsg : Received;
  fi_realtime : Z;
  fi_monotonic : Z;
  fi_proc_comm : Z → option bytes;   (* /proc/<pid>/comm *)
  fi_proc_exe : Z → option bytes;    (* readlink of /proc/<pid>/exe *)
}.

Inductive NextResult :=
  | NextError
  | NextNone
  | NextRecord (record : FallbackRecord).

Definition read_process_metadata (io : FallbackIo) (pid : Z) (comm : bytes) : bytes * bytes :=
  if pid =? 0 then (comm, [])
  else
    (if zlen comm =? 0 then read_text_file (fi_proc_comm io pid) 256 else comm,
     match fi_proc_exe io pid with Some link => cstr (ztake (PATH_MAX - 1) link) | None => [] end).

Definition receive_syslog (src : FallbackSource) (io : FallbackIo) : NextResult :=
  match fi_syslog io with
  | RecvAgain => NextNone
  | RecvError => NextError
  | RecvData data cred =>
      let '(pid, uid, gid) := default (0, 0, 0) cred in
      let '(priority, comm, message) := parse_syslog_payload (ztake FALLBACK_MESSAGE_MAX data) in
      let '(comm, exe) := read_process_metadata io pid comm in
      NextRecord (mkFallbackRecord (fi_realtime io) (fi_monotonic io) pid uid gid priority
                    (fb_boot_id src) (fb_hostname src) comm exe message)
  end.

Definition receive_kmsg (src : FallbackSource) (io : FallbackIo) : NextResult :=
  match fi_kmsg io with
  | RecvAgain => NextNone
  | RecvError => NextError
  | RecvData data0 _ =>
      let data := ztake (FALLBACK_MESSAGE_MAX - 1) data0 in
      if zlen data =? 0 then NextNone
      else
        let priority := match split_at 44 data with
                        | Some (number, _) => (strtoull10 (cstr number)).1.1
                        | None => 6
                        end in
        let message := match split_at 59 data with Some (_, text) => text | None => data end in
        NextRecord (mkFallbackRecord (fi_realtime io) (fi_monotonic io) 0 0 0
                      (if priority <=? 7 then priority else 6)
                      (fb_boot_id src) (fb_hostname src) (C "kernel") [] (cstr message))
  end.

Definition fallback_source_next (src : FallbackSource) (io : FallbackIo) : NextResult :=
  match fi_poll io with
  | None => NextError
  | Some false => NextNone
  | Some true =>
      if fi_broken io then NextError
      else if fb_syslog src && fi_syslog_ready io then receive_syslog src io
      else if fb_kmsg src && fi_kmsg_ready io then receive_kmsg src io
      else NextNone
  end.

(** [fallback_source_open] when its descriptors are there: [hostname] is what
    gethostname stored, [None] when it failed. *)
Definition fallback_source_open (syslog kmsg : bool) (hostname boot_id : option bytes) : Res FallbackSource :=
  if syslog || kmsg
  then Ok (mkFallbackSource syslog kmsg (match hostname with Some h => cstr (ztake 255 h) | None => [] end)
             (read_boot_id boot_id))
  else Err EINVAL.

(** ** The entry *)
Definition set_owned_log_field (value : bytes) : option bytes := if zlen value =? 0 then None else Some value.

Section extract.
Context `{RX : RegexLib}.

Definition extract_fallback_entry (cfg : RecorderConfig) (boots : BootRegistry) (record : FallbackRecord)
    : Res (LogEntry * BootRegistry) :=
  let all := cfg_capture_all_fields cfg in
  let text capture value := if all || capture then set_owned_log_field value else None in
  if 33 <=? zlen (fr_boot_id record) then Err EUNSET
  else
    let '(boot_seq, boots') := enter_boot (fr_realtime_ts record) (fr_boot_id record) boots in
    Ok (mkLogEntry (fr_realtime_ts record) (fr_monotonic_ts record) 0
          (if all || cfg_capture_pid cfg || negb (config_uses_full_entries cfg) then fr_pid record else 0)
          (if all || cfg_capture_uid cfg then fr_uid record else 0)
          (if all || cfg_capture_gid cfg then fr_gid record else 0)
          boot_seq (if fr_priority record <=? 7 then fr_priority record else 5) 0 (fr_boot_id record)
          (set_owned_log_field (fr_message record)) None
          (text (cfg_capture_hostname cfg) (fr_hostname record)) None
          (text (cfg_capture_comm cfg) (fr_comm record))
          (text (cfg_capture_exe cfg) (fr_exe record)) [],
        boots').
End extract.
