(* ===== verification/FallbackProofs.v ===== *)
(** * Properties of the inputs

    Syslog datagrams are taken apart as clients put them together, and every
    entry that an input yields is well formed. *)
From S2P Require Import Prelude Bytes Segment SegmentImage CText Chunk Entry Store StoreProofs Json Boots BootsProofs.
From S2P Require Import Config ConfigProofs Modifiers ModifiersProofs Fallback.

(** ** Syslog datagrams *)
Definition pri_text_ok (pri : Z) : bool :=
  forallb isdigit (print_u64 pri) && (0 <? zlen (print_u64 pri)) && (zlen (print_u64 pri) <=? 3).
Lemma pri_texts pri : 0 <= pri <= 191 → pri_text_ok pri = true.
Proof.
  intros Hp. assert (H : forallb pri_text_ok (map Z.of_nat (seq 0 192)) = true) by (vm_compute; reflexivity).
  rewrite forallb_forall in H. apply H, in_map_iff. exists (Z.to_nat pri). split; [lia|]. apply in_seq. lia.
Qed.

Lemma span_digits_app ds c rest :
  forallb isdigit ds = true → isdigit c = false → span_digits (ds ++ c :: rest) = (ds, c :: rest).
Proof.
  induction ds as [|d ds IH]; cbn [forallb app span_digits]; intros Hd Hc; [by rewrite Hc|].
  apply andb_true_iff in Hd as [-> Hd]. by rewrite (IH Hd Hc).
Qed.

Lemma parse_pri_header pri message :
  0 <= pri <= 191 → parse_pri (60 :: print_u64 pri ++ 62 :: message) = (pri, message).
Proof.
  intros Hp. pose proof (pri_texts pri Hp) as Ht. unfold pri_text_ok in Ht.
  apply andb_true_iff in Ht as [[Hd Hpos%Z.ltb_lt]%andb_true_iff Hlen%Z.leb_le]. unfold parse_pri.
  assert (Hl : zlen (60 :: print_u64 pri ++ 62 :: message) = zlen (print_u64 pri) + zlen message + 2) by solve_len.
  pose proof (zlen_nonneg message). rewrite Hl.
  destruct (Z.ltb_spec (zlen (print_u64 pri) + zlen message + 2) 3); [lia|]. cbn [starts_with Z.eqb Pos.eqb negb orb].
  unfold slice. change (zdrop 1 (60 :: ?l)) with l. rewrite ztake_app_ge by lia.
  destruct (Z.to_nat (15 - zlen (print_u64 pri))) as [|k] eqn:Hk; [lia|].
  unfold ztake at 1. rewrite Hk. cbn [take]. rewrite span_digits_app by done.
  assert (Hb : zdrop (1 + zlen (print_u64 pri)) (60 :: print_u64 pri ++ 62 :: message) = 62 :: message).
  { change (60 :: ?l) with ([60] ++ l). rewrite app_assoc. apply zdrop_app_eq. solve_len. }
  rewrite Hb. destruct (Z.eqb_spec (zlen (print_u64 pri)) 0); [lia|]. cbn [starts_with Z.eqb Pos.eqb negb orb].
  rewrite <- (app_nil_r (print_u64 pri)). rewrite strtoull_print by (try done; unfold is_u64; lia). cbn [fst].
  destruct (Z.leb_spec pri 191); [done|lia].
Qed.

Lemma parse_tag_conventional tag pid text :
  tag ≠ [] → 58 ∉ tag → 91 ∉ tag → (pid = [] ∨ ∃ r, pid = 91 :: r ∧ 58 ∉ r) → zlen (tag ++ pid) < 256 →
  parse_tag (tag ++ pid ++ 58 :: 32 :: text) = Some (tag, text).
Proof.
  intros Ht Hc Hb Hpid Hlen. unfold parse_tag.
  assert (Hs : split_at 58 (tag ++ pid ++ 58 :: 32 :: text) = Some (tag ++ pid, 32 :: text)).
  { apply split_at_app. rewrite <- app_assoc. split; [done|]. rewrite elem_of_app.
    destruct Hpid as [->|(r & -> & Hr)]; [intros [|?%not_elem_of_nil]; done|]. rewrite elem_of_cons. intros [|[|]]; done. }
  rewrite Hs. destruct (Z.ltb_spec (zlen (tag ++ pid)) 256); [|lia].
  assert (Hz : zlen tag ≠ 0) by (destruct tag; [done|rewrite zlen_cons; pose proof (zlen_nonneg tag); lia]).
  destruct Hpid as [->|(r & -> & Hr)].
  - rewrite app_nil_r. destruct (split_at 91 tag) as [[t v]|] eqn:Hsp.
    + apply split_at_app in Hsp as [-> _]. destruct Hb. apply elem_of_app. right. by left.
    + by destruct (Z.eqb_spec (zlen tag) 0).
  - rewrite (proj2 (split_at_app 91 (tag ++ 91 :: r) tag r)) by done. by destruct (Z.eqb_spec (zlen tag) 0).
Qed.

(** Syslog datagrams.  A datagram in the conventional form, a priority in angle
    brackets, a tag with an optional process id in brackets, a colon, a space and
    the text, is taken apart into the severity, the tag and the text. *)
Theorem syslog_payload_parses pri tag pid text :
  0 <= pri <= 191 → tag ≠ [] → 58 ∉ tag → 91 ∉ tag → is_cstr tag → is_cstr text →
  (pid = [] ∨ ∃ r, pid = 91 :: r ∧ 58 ∉ r) → zlen (tag ++ pid) < 256 →
  parse_syslog_payload (60 :: print_u64 pri ++ 62 :: tag ++ pid ++ 58 :: 32 :: text) = (pri mod 8, tag, text).
Proof.
  intros Hp Ht Hc Hb Hct Hx Hpid Hlen. unfold parse_syslog_payload.
  rewrite parse_pri_header, parse_tag_conventional by done. rewrite !cstr_id by done.
  change 7 with (Z.ones 3). rewrite Z.land_ones by lia. change (2 ^ 3) with 8.
  unfold u8. rewrite (Z.mod_small (pri mod 8)); [done|]. pose proof (Z.mod_pos_bound pri 8). lia.
Qed.

Lemma syslog_payload_parses_witness :
  parse_syslog_payload (C "<38>sshd[815]: session opened") = (6, C "sshd", C "session opened").
Proof.
  change (C "<38>sshd[815]: session opened")
    with (60 :: print_u64 38 ++ 62 :: C "sshd" ++ C "[815]" ++ 58 :: 32 :: C "session opened").
  rewrite syslog_payload_parses; [reflexivity|lia|done|..].
  - apply (bool_decide_unpack _). vm_compute. exact I.
  - apply (bool_decide_unpack _). vm_compute. exact I.
  - by repeat constructor.
  - by repeat constructor.
  - right. exists (C "815]"). split; [reflexivity|]. apply (bool_decide_unpack _). vm_compute. exact I.
  - reflexivity.
Defined.

(** ** Boots of entries *)
Lemma enter_boot_ok rt id boots seq boots' :
  enter_boot rt id boots = (seq, boots') → is_u32 seq ∧ (boots_wf boots → boots_wf boots').
Proof.
  intros H. unfold enter_boot, boot_registry_seq in H.
  destruct (boot_registry_get boots _) as [p r'] eqn:Hg. injection H as <- <-. split; [apply u32_range|]. intros Hwf.
  apply boot_update_wf; [intros b; by destruct (be_first_realtime_ts b =? 0)|].
  destruct (zlen id =? 0); [by injection Hg as _ <-|by eapply boot_get_spec_wf].
Qed.

(** ** Entries of the journal *)
Section entries.
Context `{RX : RegexLib}.

(** Texts without NUL bytes and stamps of 64 bits. *)
Record journal_entry_ok (j : JournalEntry) : Prop := {
  jo_text : ∀ field v, journal_get_field (Some j) field = Some v → str_wf (Some v);
  jo_realtime : is_u64 (je_realtime j);
  jo_monotonic : is_u64 (default 0 (je_monotonic j));
}.

Lemma capture_field_wf j name capture all :
  journal_entry_ok j → str_wf (capture_owned_journal_field (Some j) name capture all).
Proof.
  intros Hj. unfold capture_owned_journal_field, journal_field_for_capture. destruct (_ || _); [|done].
  destruct (journal_get_field (Some j) name) as [v|] eqn:Hv; [|by destruct all].
  pose proof (jo_text j Hj _ _ Hv). destruct all; [done|]. cbn [journal_field_nonempty]. by destruct (_ =? _).
Qed.

Lemma copy_field_cstr n value : 1 <= n → is_cstr (copy_journal_field n value) ∧ zlen (copy_journal_field n value) <= n - 1.
Proof.
  intros Hn. unfold copy_journal_field. destruct value as [v|]; [|split; [constructor|rewrite zlen_nil; lia]].
  assert (H : ∀ s, is_cstr (cstr s) ∧ zlen (cstr s) <= zlen s).
  { induction s as [|b s [IH1 IH2]]; cbn [cstr]; [split; [constructor|done]|].
    destruct (Z.eqb_spec b 0); [split; [constructor|rewrite zlen_nil, zlen_cons; pose proof (zlen_nonneg s); lia]|].
    split; [by constructor|]. rewrite !zlen_cons. lia. }
  destruct (H (ztake (n - 1) v)) as [H1 H2]. split; [done|]. rewrite zlen_ztake_min in H2 by lia. lia.
Qed.

Lemma journal_u32 j field : is_u32 (journal_get_u32 j field).
Proof. apply u32_range. Qed.

Lemma clamp_range v : is_u64 v → is_u16 (clamp_u16 v).
Proof. unfold clamp_u16, is_u64, is_u16, UINT16_MAX. destruct (Z.ltb_spec 65535 v); lia. Qed.
Lemma journal_u64_range j field : is_u64 (journal_get_u64 j field).
Proof.
  unfold journal_get_u64. destruct (journal_get_field j field); [|split; lia]. destruct (_ =? _); [split; lia|apply strtoull_range].
Qed.

Lemma extract_entry_wf cfg boots j e boots' :
  journal_entry_ok j → extract_entry cfg boots j = (e, boots') → entry_wf e ∧ (boots_wf boots → boots_wf boots').
Proof.
  intros Hj H. unfold extract_entry in H.
  set (id := copy_journal_field 33 _) in H. destruct (enter_boot _ id boots) as [seq b1] eqn:He.
  apply enter_boot_ok in He as [Hs Hb1]. injection H as <- <-. split; [|done].
  assert (H0 : is_u32 0) by (split; lia). assert (Hid := copy_field_cstr 33 (journal_field_nonempty (journal_get_field (Some j) (C "_BOOT_ID"))) ltac:(lia)).
  split; cbn; try (by apply capture_field_wf); try (destruct (_ || _); [apply journal_u32|done]).
  - apply Hj.
  - apply Hj.
  - split; lia.
  - done.
  - apply u8_range.
  - apply clamp_range, journal_u64_range.
  - exact Hid.
Qed.

(** ** Entries without journald *)

(** What the system hands over: bytes, and credentials of 32 bits. *)
Definition received_ok (r : Received) : Prop :=
  match r with
  | RecvData data cred => bytes_ok data ∧ match cred with Some (p, u, g) => is_u32 p ∧ is_u32 u ∧ is_u32 g | None => True end
  | _ => True
  end.
Definition content_ok (c : option bytes) : Prop := match c with Some b => bytes_ok b | None => True end.
Record fallback_io_ok (io : FallbackIo) : Prop := {
  io_syslog : received_ok (fi_syslog io);
  io_kmsg : received_ok (fi_kmsg io);
  io_realtime : is_u64 (fi_realtime io);
  io_monotonic : is_u64 (fi_monotonic io);
  io_comm : ∀ pid, content_ok (fi_proc_comm io pid);
  io_exe : ∀ pid, content_ok (fi_proc_exe io pid);
}.

Lemma split_at_bytes c s n v : split_at c s = Some (n, v) → bytes_ok s → bytes_ok n ∧ bytes_ok v.
Proof.
  intros [-> _]%split_at_app H. apply Forall_app in H as [? H]. by apply Forall_cons in H as [_ ?].
Qed.
Lemma first_line_wf s : str_wf (Some s) → str_wf (Some (first_line s)).
Proof.
  unfold str_wf. induction 1 as [|c s Hc _ IH]; cbn [first_line]; [constructor|]. destruct (_ || _); by constructor.
Qed.
Lemma read_text_wf c n : content_ok c → str_wf (Some (read_text_file c n)).
Proof.
  destruct c as [b|]; [|constructor]. intros Hb. apply first_line_wf, cstr_wf. by apply Forall_take.
Qed.

Lemma parse_pri_bytes data pri message : bytes_ok data → parse_pri data = (pri, message) → bytes_ok message.
Proof.
  intros Hd. unfold parse_pri. destruct (_ || _); [by intros [= _ <-]|].
  destruct (span_digits _) as [number ?]. destruct (_ || _); [by intros [= _ <-]|]. intros [= _ <-].
  destruct (_ <=? _); [|done]. by apply Forall_drop, Forall_drop.
Qed.
Lemma parse_tag_bytes message tag text : bytes_ok message → parse_tag message = Some (tag, text) → bytes_ok tag ∧ bytes_ok text.
Proof.
  intros Hm. unfold parse_tag. destruct (split_at 58 message) as [[before after]|] eqn:Hs; [|done].
  apply split_at_bytes in Hs as [Hb Ha]; [|done]. destruct after as [|c text0]; [done|].
  apply Forall_cons in Ha as [_ Ht]. intros H.
  assert (H' : (if zlen before <? 256
      then let tag := match split_at 91 before with Some (t, _) => t | None => before end in
           if zlen tag =? 0 then None else Some (tag, text0) else None) = Some (tag, text)).
  { destruct c as [|c|c]; try done. do 6 (destruct c as [c|c|]; try done). }
  clear H. destruct (_ <? _); [|done]. cbv zeta in H'.
  assert (Hg : bytes_ok (match split_at 91 before with Some (t, _) => t | None => before end)).
  { destruct (split_at 91 before) as [[t v]|] eqn:Hs; [|done]. by apply split_at_bytes in Hs as [? _]. }
  destruct (_ =? _); [done|]. by injection H' as <- <-.
Qed.

Lemma syslog_payload_wf data pri comm message :
  bytes_ok data → parse_syslog_payload data = (pri, comm, message) →
  0 <= pri <= 7 ∧ str_wf (Some comm) ∧ str_wf (Some message).
Proof.
  intros Hd. unfold parse_syslog_payload. destruct (parse_pri data) as [p m] eqn:Hp.
  apply parse_pri_bytes in Hp; [|done].
  destruct (match parse_tag m with Some _ => _ | None => _ end) as [c m2] eqn:Hc. intros [= <- <- <-].
  assert (H : str_wf (Some c) ∧ bytes_ok m2).
  { destruct (parse_tag m) as [[tag text]|] eqn:Ht; injection Hc as <- <-; [|by split; [constructor|]].
    apply parse_tag_bytes in Ht as [? ?]; [|done]. split; [by apply cstr_wf|done]. }
  destruct H as [? ?]. split; [|split; [done|by apply cstr_wf]].
  change (Z.land p 7) with (Z.land p (Z.ones 3)). rewrite Z.land_ones by lia. unfold u8. change (2 ^ 3) with 8.
  pose proof (Z.mod_pos_bound p 8 ltac:(lia)). rewrite Z.mod_small by lia. lia.
Qed.

(** A record holds C strings and numbers of its types. *)
Record record_ok (r : FallbackRecord) : Prop := {
  ro_realtime : is_u64 (fr_realtime_ts r);
  ro_monotonic : is_u64 (fr_monotonic_ts r);
  ro_pid : is_u32 (fr_pid r);
  ro_uid : is_u32 (fr_uid r);
  ro_gid : is_u32 (fr_gid r);
  ro_priority : 0 <= fr_priority r <= 7;
  ro_boot : is_cstr (fr_boot_id r) ∧ zlen (fr_boot_id r) <= 32;
  ro_hostname : str_wf (Some (fr_hostname r));
  ro_comm : str_wf (Some (fr_comm r));
  ro_exe : str_wf (Some (fr_exe r));
  ro_message : str_wf (Some (fr_message r));
}.

Definition source_ok (src : FallbackSource) : Prop :=
  is_cstr (fb_boot_id src) ∧ zlen (fb_boot_id src) <= 32 ∧ str_wf (Some (fb_hostname src)).

Lemma source_open_ok syslog kmsg hostname boot_id src :
  content_ok hostname → content_ok boot_id → fallback_source_open syslog kmsg hostname boot_id = Ok src → source_ok src.
Proof.
  intros Hh Hb. unfold fallback_source_open. destruct (_ || _); [|done]. intros [= <-]. unfold source_ok. cbn [fb_boot_id fb_hostname].
  assert (Hx : ∀ s, is_cstr (List.filter isxdigit s)).
  { intros s. apply Forall_forall. intros c Hc. apply list_elem_of_In, filter_In in Hc as [_ Hc]. intros ->. discriminate Hc. }
  split; [|split].
  - unfold read_boot_id. destruct (_ =? _); [|constructor]. unfold ztake. apply Forall_take, Hx.
  - unfold read_boot_id. destruct (Z.eqb_spec (zlen (ztake 32 (List.filter isxdigit (read_text_file boot_id 64)))) 32); [lia|].
    rewrite zlen_nil. lia.
  - destruct hostname as [h|]; [|constructor]. apply cstr_wf. by apply Forall_take.
Qed.

Lemma source_next_ok src io r :
  source_ok src → fallback_io_ok io → fallback_source_next src io = NextRecord r → record_ok r.
Proof.
  intros (Hs1 & Hs2 & Hs3) [Hsys Hk Hrt Hmt Hpc Hpe] H. unfold fallback_source_next in H.
  destruct (fi_poll io) as [[]|]; try done. destruct (fi_broken io); [done|]. destruct (_ && _).
  - unfold receive_syslog in H. destruct (fi_syslog io) as [| |data cred]; try done. destruct Hsys as [Hd Hc].
    assert (Hcr : let '(p, u, g) := default (0, 0, 0) cred in is_u32 p ∧ is_u32 u ∧ is_u32 g)
      by (destruct cred as [[[p u] g]|]; [done|by repeat split; lia]).
    destruct (default (0, 0, 0) cred) as [[pid uid] gid]. destruct Hcr as (Hp & Hu & Hg).
    destruct (parse_syslog_payload _) as [[pri comm] message] eqn:Hparse.
    apply syslog_payload_wf in Hparse as (Hpri & Hcomm & Hmsg); [|by apply Forall_take].
    destruct (read_process_metadata io pid comm) as [comm' exe] eqn:Hm. injection H as <-.
    assert (Hmeta : str_wf (Some comm') ∧ str_wf (Some exe)).
    { unfold read_process_metadata in Hm. destruct (pid =? 0); injection Hm as <- <-; [by split; [|constructor]|].
      split; [destruct (_ =? _); [apply read_text_wf, Hpc|done]|].
      specialize (Hpe pid). destruct (fi_proc_exe io pid); [|constructor]. apply cstr_wf. by apply Forall_take. }
    destruct Hmeta. by split.
  - destruct (_ && _); [|done]. unfold receive_kmsg in H. destruct (fi_kmsg io) as [| |data cred]; try done. destruct Hk as [Hd _].
    destruct (zlen _ =? 0); [done|]. injection H as <-.
    assert (Hd' : bytes_ok (ztake (FALLBACK_MESSAGE_MAX - 1) data)) by by apply Forall_take.
    split; cbn; try done; try (split; lia).
    + set (p := match split_at 44 _ with Some _ => _ | None => _ end). assert (0 <= p).
      { subst p. destruct (split_at 44 _) as [[n v]|]; [apply strtoull_range|lia]. }
      destruct (Z.leb_spec p 7); lia.
    + repeat constructor; lia.
    + apply cstr_wf. destruct (split_at 59 _) as [[n v]|] eqn:Hsp; [|done]. by apply split_at_bytes in Hsp as [_ ?].
Qed.

Lemma set_owned_wf v : str_wf (Some v) → str_wf (set_owned_log_field v).
Proof. unfold set_owned_log_field. by destruct (_ =? _). Qed.

Lemma extract_fallback_wf cfg boots r :
  boots_wf boots → record_ok r →
  ∃ e boots', extract_fallback_entry cfg boots r = Ok (e, boots') ∧ entry_wf e ∧ le_priority e <= 7 ∧ boots_wf boots'.
Proof.
  intros Hb []. unfold extract_fallback_entry. destruct ro_boot0 as [Hb1 Hb2].
  destruct (Z.leb_spec 33 (zlen (fr_boot_id r))); [lia|].
  destruct (enter_boot _ _ boots) as [seq boots'] eqn:He. apply enter_boot_ok in He as [Hs Hb'].
  eexists _, _. split; [done|]. assert (is_u32 0) by (split; lia). split; [|split; [|by apply Hb']].
  - assert (Htext : ∀ (b : bool) v, str_wf (Some v) → str_wf (if b then set_owned_log_field v else None)).
    { intros [] v Hv; [by apply set_owned_wf|done]. }
    split; cbn; try done; try (by apply Htext); try (by apply set_owned_wf); try (by destruct (_ || _)); try (split; lia).
    destruct (Z.leb_spec (fr_priority r) 7); unfold is_u8; lia.
  - cbn. destruct (Z.leb_spec (fr_priority r) 7); lia.
Qed.

(** Input without journald.  Whatever arrives on the syslog socket or from the
    kernel, a record that [fallback_source_next] yields always becomes an entry,
    and the entry is well formed: numbers of their widths, texts without NUL
    bytes, a boot id of at most 32 characters and a priority in 0..7; the boot
    registry stays bounded with distinct ids. *)
Theorem fallback_entries_wf syslog kmsg hostname boot_id src io r cfg boots :
  content_ok hostname → content_ok boot_id → fallback_source_open syslog kmsg hostname boot_id = Ok src →
  fallback_io_ok io → fallback_source_next src io = NextRecord r → boots_wf boots →
  ∃ e boots', extract_fallback_entry cfg boots r = Ok (e, boots') ∧ entry_wf e ∧ le_priority e <= 7 ∧ boots_wf boots'.
Proof.
  intros Hh Hb Ho Hio Hn Hboots. apply extract_fallback_wf; [done|]. eapply source_next_ok; [|done..].
  exact (source_open_ok _ _ _ _ _ Hh Hb Ho).
Qed.
End entries.
