(* ===== verification/Retention.v ===== *)
(** * Retention (src/src/recorder.c)

    Which closed segments are removed when a size or age limit is exceeded, or
    when a more important priority needs room.  The recorder's part that matters
    here is its configuration and the paths of its open segments. *)
From S2P Require Import Prelude Bytes Crypto Segment Chunk Index CText Store Json Boots Config.

Record RetainedFile := mkRetainedFile {
  rf_dir_name : bytes;
  rf_name : bytes;              (* the last component of [path] *)
  rf_min_priority : Z;
  rf_group_index : Z;           (* -1: no configured group *)
  rf_segment_seq : Z;
  rf_size : Z;
  rf_modified_at : Z;
}.
#[export] Instance RetainedFile_eq_dec : EqDecision RetainedFile.
Proof. solve_decision. Defined.

Definition MAX_RETAINED : Z := 4096.

(** Group directory and name of the segments that writers have open. *)
Abbreviation ActivePaths := (list (bytes * bytes)).
Definition path_is_active_segment (active : ActivePaths) (dir name : bytes) : bool :=
  existsb (λ p, beq p.1 dir && beq p.2 name) active.

(** [retention_sort]'s test: [a] goes before [b]. *)
Definition retained_before (a b : RetainedFile) : bool :=
  (rf_min_priority b <? rf_min_priority a) ||
  ((rf_min_priority a =? rf_min_priority b) && (rf_segment_seq a <? rf_segment_seq b)).

(** The inner loop for [files[i] = x] over [files[i+1 ..]]: what is at [i]
    afterwards, and the rest. *)
Fixpoint sort_inner (x : RetainedFile) (rest : list RetainedFile) : RetainedFile * list RetainedFile :=
  match rest with
  | [] => (x, [])
  | y :: rest' =>
      if retained_before y x
      then let '(z, r) := sort_inner y rest' in (z, x :: r)
      else let '(z, r) := sort_inner x rest' in (z, y :: r)
  end.
Fixpoint sort_outer (n : nat) (files : list RetainedFile) : list RetainedFile :=
  match n, files with
  | S n', x :: rest => let '(z, r) := sort_inner x rest in z :: sort_outer n' r
  | _, _ => []
  end.
Definition retention_sort (files : list RetainedFile) : list RetainedFile := sort_outer (length files) files.

Section retention.
Context `{RX : RegexLib} `{F : FlatCC}.

(** The loop over [priority_to_group] for the group named like the directory. *)
Definition group_of_dir (cfg : RecorderConfig) (dir : bytes) : option (Z * Z) :=
  let fix go (p2g : list Z) :=
    match p2g with
    | [] => None
    | gi :: p2g' =>
        match (if 0 <=? gi then cfg_groups cfg !! Z.to_nat gi else None) with
        | Some g => if beq (pg_name g) dir then Some (pg_min_priority g, gi) else go p2g'
        | None => go p2g'
        end
    end in
  go (cfg_priority_to_group cfg).

Definition collect_file (cfg : RecorderConfig) (active : ActivePaths) (dir : bytes)
    (files : list RetainedFile) (f : DirFile) : list RetainedFile :=
  if MAX_RETAINED <=? zlen files then files
  else
    match segment_seq_from_name (df_name f) with
    | None => files
    | Some seq =>
        if path_is_active_segment active dir (df_name f) then files
        else
          let '(min_priority, group_index) :=
            match segment_scan_path (Ok (df_data f)) None None tt with
            | ScanDone _ _ _ _ => default (7, -1) (group_of_dir cfg dir)
            | _ => (7, -1)
            end in
          files ++ [mkRetainedFile dir (df_name f) min_priority group_index seq
                      (u64 (zlen (df_data f))) (df_mtime f)]
    end.

Definition collect_closed_segments (cfg : RecorderConfig) (active : ActivePaths) (st : Store) : list RetainedFile :=
  for_each_segment_dir (λ d files, fold_left (collect_file cfg active (ld_name d)) (ld_files d) files)
    (st_dirs st) [].

(** ** Removing *)
Record RetentionState := mkRetentionState {
  rs_store : Store;
  rs_total : Z;
  rs_group_bytes : list Z;      (* one per group slot *)
}.

(** The directories after a successful [unlink] of the segment and an attempt to
    unlink its index. *)
Definition drop_in_dir (env : FsEnv) (file : RetainedFile) (d : LogDir) : LogDir :=
  if beq (ld_name d) (rf_dir_name file)
  then mkLogDir (ld_name d)
         (unlink env (ld_name d) (index_name (rf_segment_seq file)) (remove_name (rf_name file) (ld_files d)))
  else d.
Definition drop_segment (env : FsEnv) (file : RetainedFile) (st : Store) : Store :=
  mkStore (map (drop_in_dir env file) (st_dirs st)) (st_state st).

Definition sub_group_bytes (gi size : Z) (gb : list Z) : list Z :=
  if 0 <=? gi then alter (λ b, if size <=? b then b - size else b) (Z.to_nat gi) gb else gb.

(** The result tells whether the segment was unlinked. *)
Definition retention_remove_file (env : FsEnv) (file : RetainedFile) (s : RetentionState) : bool * RetentionState :=
  if fs_unlink_ok env (rf_dir_name file) (rf_name file)
  then (true, mkRetentionState (drop_segment env file (rs_store s))
                (if rf_size file <? rs_total s then rs_total s - rf_size file else 0)
                (sub_group_bytes (rf_group_index file) (rf_size file) (rs_group_bytes s)))
  else (false, s).

Definition add_group_bytes (gb : list Z) (f : RetainedFile) : list Z :=
  if 0 <=? rf_group_index f then alter (λ b, u64 (b + rf_size f)) (Z.to_nat (rf_group_index f)) gb else gb.
Definition sum_group_bytes (files : list RetainedFile) : list Z :=
  fold_left add_group_bytes files (replicate 8 0).

(** The three reasons of [retention_enforce]. *)
Definition over_log_max (cfg : RecorderConfig) (s : RetentionState) : bool :=
  negb (cfg_log_max_bytes cfg =? 0) && (cfg_log_max_bytes cfg <? rs_total s).
Definition file_group (cfg : RecorderConfig) (f : RetainedFile) : option PriorityGroup :=
  if 0 <=? rf_group_index f then cfg_groups cfg !! Z.to_nat (rf_group_index f) else None.
Definition over_group_max (cfg : RecorderConfig) (s : RetentionState) (f : RetainedFile) : bool :=
  match file_group cfg f, rs_group_bytes s !! Z.to_nat (rf_group_index f) with
  | Some g, Some b => negb (pg_max_bytes g =? 0) && (pg_max_bytes g <? b)
  | _, _ => false
  end.
Definition expired (cfg : RecorderConfig) (now : Z) (f : RetainedFile) : bool :=
  match file_group cfg f with
  | Some g => negb (pg_max_age_sec g =? 0) && (rf_modified_at f <? now)
              && (pg_max_age_sec g <=? now - rf_modified_at f)
  | None => false
  end.

(** The removal loop, with the files it removed ([changed] is that there are any). *)
Fixpoint enforce_loop (env : FsEnv) (cfg : RecorderConfig) (files : list RetainedFile) (s : RetentionState)
    : RetentionState * list RetainedFile :=
  match files with
  | [] => (s, [])
  | f :: files' =>
      if over_log_max cfg s || over_group_max cfg s f || expired cfg (fs_now env) f
      then
        let '(ok, s1) := retention_remove_file env f s in
        let '(s2, removed) := enforce_loop env cfg files' s1 in
        (s2, if ok then f :: removed else removed)
      else enforce_loop env cfg files' s
  end.

Context `{J : Jansson}.

(** The registry is rebuilt and persisted when anything was removed; [w] is how
    that write goes. *)
Definition after_removal (env : FsEnv) (w : AtomicEnv) (removed : list RetainedFile) (boots : BootRegistry)
    (st : Store) : BootRegistry * Store :=
  match removed with
  | [] => (boots, st)
  | _ => let rebuilt := boot_registry_rebuild_from_segments st in
         (rebuilt, (persist_boot_state env w rebuilt st).2)
  end.

Definition retention_enforce (env : FsEnv) (w : AtomicEnv) (cfg : RecorderConfig) (active : ActivePaths)
    (boots : BootRegistry) (st : Store) : BootRegistry * Store * list RetainedFile :=
  let files := collect_closed_segments cfg active st in
  let '(s, removed) := enforce_loop env cfg (retention_sort files)
                         (mkRetentionState st (count_store_bytes st) (sum_group_bytes files)) in
  (after_removal env w removed boots (rs_store s), removed).

(** ** Making room

    [available] is [recorder_available_bytes] on the log directory, which depends
    on what is in the store; [None] is a failed [statvfs]. *)
Definition room_for (available : Store → option Z) (required : Z) (st : Store) : bool :=
  match available st with Some a => required <=? a | None => false end.

Fixpoint reclaim_loop (env : FsEnv) (available : Store → option Z) (priority required : Z)
    (files : list RetainedFile) (s : RetentionState) : RetentionState * list RetainedFile :=
  match files with
  | [] => (s, [])
  | f :: files' =>
      if rf_min_priority f <=? priority then reclaim_loop env available priority required files' s
      else
        let '(ok, s1) := retention_remove_file env f s in
        if room_for available required (rs_store s1) then (s1, if ok then [f] else [])
        else
          let '(s2, removed) := reclaim_loop env available priority required files' s1 in
          (s2, if ok then f :: removed else removed)
  end.

Definition retention_reclaim_lower_priority (env : FsEnv) (w : AtomicEnv) (cfg : RecorderConfig)
    (active : ActivePaths) (available : Store → option Z) (priority required : Z) (boots : BootRegistry)
    (st : Store) : BootRegistry * Store * list RetainedFile :=
  match available st with
  | None => (boots, st, [])
  | Some a =>
      if required <=? a then (boots, st, [])
      else
        let files := retention_sort (collect_closed_segments cfg active st) in
        let '(s, removed) := reclaim_loop env available priority required files
                               (mkRetentionState st 0 (sum_group_bytes files)) in
        (after_removal env w removed boots (rs_store s), removed)
  end.
End retention.
