(* ===== verification/RetentionProofs.v ===== *)
(** * Properties of retention *)
From S2P Require Import Prelude Bytes Crypto Segment Chunk Models ChunkModel SegmentSpec Index.
From S2P Require Import CText Store StoreProofs Json Boots BootsProofs Config ConfigProofs.
From S2P Require Import Retention.

(** ** The order *)
(** [a] may come before [b]: less important first, then oldest first. *)
Definition retained_le (a b : RetainedFile) : Prop :=
  rf_min_priority b < rf_min_priority a ∨
  rf_min_priority a = rf_min_priority b ∧ rf_segment_seq a <= rf_segment_seq b.

Lemma retained_before_spec a b : retained_before a b = false ↔ retained_le b a.
Proof.
  unfold retained_before, retained_le. rewrite orb_false_iff, andb_false_iff, !Z.ltb_ge, Z.eqb_neq. lia.
Qed.
Lemma retained_le_total a b : retained_le a b ∨ retained_le b a.
Proof. unfold retained_le. lia. Qed.
#[local] Instance retained_le_trans : Transitive retained_le.
Proof. intros a b c. unfold retained_le. lia. Qed.
#[local] Instance retained_le_refl : Reflexive retained_le.
Proof. intros a. unfold retained_le. lia. Qed.

Lemma sort_inner_spec x rest z r :
  sort_inner x rest = (z, r) →
  x :: rest ≡ₚ z :: r ∧ Forall (retained_le z) r ∧ length r = length rest.
Proof.
  revert x z r. induction rest as [|y rest IH]; intros x z r; cbn [sort_inner].
  { intros [= <- <-]. split; [done|]. split; [constructor|done]. }
  destruct (retained_before y x) eqn:Hb.
  - destruct (sort_inner y rest) as [z' r'] eqn:Hs. intros [= <- <-].
    destruct (IH y z' r' Hs) as (Hp & Hall & Hl). split; [|split; [|cbn; lia]].
    + by rewrite (perm_swap x z'), <- Hp.
    + constructor; [|done]. assert (Hyx : retained_le y x).
      { destruct (retained_le_total y x) as [|Hx]; [done|]. apply retained_before_spec in Hx. congruence. }
      assert (Hzy : retained_le z' y); [|by etrans].
      assert (Hin : y ∈ z' :: r') by (rewrite <- Hp; by left).
      apply elem_of_cons in Hin as [->|Hin]; [done|]. rewrite Forall_forall in Hall. by apply Hall.
  - destruct (sort_inner x rest) as [z' r'] eqn:Hs. intros [= <- <-].
    destruct (IH x z' r' Hs) as (Hp & Hall & Hl). split; [|split; [|cbn; lia]].
    + rewrite (perm_swap y z'), <- Hp. apply perm_swap.
    + constructor; [|done]. apply retained_before_spec in Hb.
      assert (Hzx : retained_le z' x); [|by etrans].
      assert (Hin : x ∈ z' :: r') by (rewrite <- Hp; by left).
      apply elem_of_cons in Hin as [->|Hin]; [done|]. rewrite Forall_forall in Hall. by apply Hall.
Qed.

Lemma sort_outer_spec n files :
  length files = n → sort_outer n files ≡ₚ files ∧ StronglySorted retained_le (sort_outer n files).
Proof.
  revert files. induction n as [|n IH]; intros [|x rest] Hn; cbn [sort_outer]; try done; [split; [done|constructor]|].
  destruct (sort_inner x rest) as [z r] eqn:Hs. destruct (sort_inner_spec x rest z r Hs) as (Hp & Hall & Hl).
  destruct (IH r) as [Hpr Hsr]; [cbn in Hn; lia|]. split; [by rewrite Hpr|].
  constructor; [done|]. rewrite Forall_forall in Hall |- *. intros y Hy. apply Hall. by rewrite <- Hpr.
Qed.
Lemma retention_sort_perm files : retention_sort files ≡ₚ files.
Proof. by apply sort_outer_spec. Qed.

(** The removal order.  [retention_sort] permutes the files and puts those of
    the least important group first, and within a group the oldest segment. *)
Theorem retention_sort_sorts files :
  retention_sort files ≡ₚ files ∧ StronglySorted retained_le (retention_sort files).
Proof. by apply sort_outer_spec. Qed.

(** ** Sizes of a store *)
Fixpoint files_bytes (files : list DirFile) : Z :=
  match files with [] => 0 | f :: fs => zlen (df_data f) + files_bytes fs end.
Fixpoint dirs_bytes (dirs : list LogDir) : Z :=
  match dirs with
  | [] => 0
  | d :: ds => (if is_segment_dir_name (ld_name d) then files_bytes (ld_files d) else 0) + dirs_bytes ds
  end.
Definition store_bytes (st : Store) : Z := dirs_bytes (st_dirs st) + files_bytes (st_state st).

Lemma files_bytes_nonneg files : 0 <= files_bytes files.
Proof. induction files as [|f files IH]; cbn [files_bytes]; [lia|]. pose proof (zlen_nonneg (df_data f)). lia. Qed.
Lemma dirs_bytes_nonneg dirs : 0 <= dirs_bytes dirs.
Proof.
  induction dirs as [|d dirs IH]; cbn [dirs_bytes]; [lia|]. pose proof (files_bytes_nonneg (ld_files d)).
  destruct (is_segment_dir_name _); lia.
Qed.

Lemma store_bytes_nonneg st : 0 <= store_bytes st.
Proof. unfold store_bytes. pose proof (dirs_bytes_nonneg (st_dirs st)). pose proof (files_bytes_nonneg (st_state st)). lia. Qed.

Lemma count_files acc files :
  0 <= acc → acc + files_bytes files <= UINT64_MAX →
  fold_left (λ total f, u64 (total + zlen (df_data f))) files acc = acc + files_bytes files.
Proof.
  revert acc. induction files as [|f files IH]; intros acc Ha Hs; cbn [fold_left files_bytes] in *; [lia|].
  pose proof (zlen_nonneg (df_data f)). pose proof (files_bytes_nonneg files).
  assert (Hu : u64 (acc + zlen (df_data f)) = acc + zlen (df_data f)).
  { apply u64_id. unfold is_u64, UINT64_MAX in *. lia. }
  rewrite Hu, IH; lia.
Qed.

Lemma count_store_bytes_exact st : store_bytes st <= UINT64_MAX → count_store_bytes st = store_bytes st.
Proof.
  unfold store_bytes, count_store_bytes. intros Hs. pose proof (files_bytes_nonneg (st_state st)).
  assert (Hd : ∀ dirs acc, 0 <= acc → acc + dirs_bytes dirs <= UINT64_MAX →
    for_each_segment_dir count_store_bytes_cb dirs acc = acc + dirs_bytes dirs).
  { induction dirs as [|d dirs IH]; intros acc Ha Hb; cbn [for_each_segment_dir dirs_bytes] in *; [lia|].
    pose proof (dirs_bytes_nonneg dirs). pose proof (files_bytes_nonneg (ld_files d)).
    destruct (is_segment_dir_name _); [|rewrite IH; lia]. unfold count_store_bytes_cb.
    rewrite count_files by lia. rewrite IH; lia. }
  pose proof (dirs_bytes_nonneg (st_dirs st)). rewrite Hd by lia. rewrite count_files; lia.
Qed.

Lemma remove_name_bytes name files : files_bytes (remove_name name files) <= files_bytes files.
Proof.
  unfold remove_name. induction files as [|f files IH]; cbn [List.filter]; [done|]. pose proof (zlen_nonneg (df_data f)).
  destruct (negb _); cbn [files_bytes] in *; lia.
Qed.
Lemma remove_name_bytes_in name files f :
  f ∈ files → df_name f = name → files_bytes (remove_name name files) + zlen (df_data f) <= files_bytes files.
Proof.
  unfold remove_name. induction files as [|g files IH]; [by intros ?%elem_of_nil|].
  intros Hf Hn. cbn [List.filter files_bytes]. pose proof (zlen_nonneg (df_data g)).
  pose proof (remove_name_bytes name files) as Hm. unfold remove_name in Hm.
  apply elem_of_cons in Hf as [->|Hf].
  - rewrite Hn, beq_refl. cbn [negb]. lia.
  - specialize (IH Hf Hn). destruct (negb _); cbn [files_bytes]; lia.
Qed.
Lemma unlink_bytes env dir name files : files_bytes (unlink env dir name files) <= files_bytes files.
Proof. unfold unlink. destruct (fs_unlink_ok _ _ _); [apply remove_name_bytes|lia]. Qed.

(** A collected segment that is still in the store. *)
Definition present (st : Store) (f : RetainedFile) : Prop :=
  ∃ d g, d ∈ st_dirs st ∧ ld_name d = rf_dir_name f ∧ is_segment_dir_name (ld_name d) = true ∧
    g ∈ ld_files d ∧ df_name g = rf_name f ∧ zlen (df_data g) = rf_size f.

Definition dir_bytes (d : LogDir) : Z := if is_segment_dir_name (ld_name d) then files_bytes (ld_files d) else 0.

Lemma drop_in_dir_name env f d : ld_name (drop_in_dir env f d) = ld_name d.
Proof. unfold drop_in_dir. by destruct (beq _ _). Qed.
Lemma drop_in_dir_bytes env f d : dir_bytes (drop_in_dir env f d) <= dir_bytes d.
Proof.
  unfold dir_bytes. rewrite drop_in_dir_name. destruct (is_segment_dir_name _); [|lia]. unfold drop_in_dir.
  destruct (beq _ _); [|lia]. cbn [ld_files]. etrans; [apply unlink_bytes|apply remove_name_bytes].
Qed.
Lemma drop_in_dir_bytes_in env f d g :
  ld_name d = rf_dir_name f → is_segment_dir_name (ld_name d) = true → g ∈ ld_files d → df_name g = rf_name f →
  dir_bytes (drop_in_dir env f d) + zlen (df_data g) <= dir_bytes d.
Proof.
  intros Hn Hs Hg Hgn. unfold dir_bytes. rewrite drop_in_dir_name, Hs. unfold drop_in_dir. rewrite Hn, beq_refl. cbn [ld_files].
  pose proof (unlink_bytes env (rf_dir_name f) (index_name (rf_segment_seq f)) (remove_name (rf_name f) (ld_files d))).
  pose proof (remove_name_bytes_in (rf_name f) (ld_files d) g Hg Hgn). lia.
Qed.

Lemma drop_segment_bytes env f st : present st f → store_bytes (drop_segment env f st) + rf_size f <= store_bytes st.
Proof.
  intros (d & g & Hd & Hn & Hs & Hg & Hgn & Hsz). unfold store_bytes, drop_segment. cbn [st_dirs st_state].
  enough (dirs_bytes (map (drop_in_dir env f) (st_dirs st)) + rf_size f <= dirs_bytes (st_dirs st)) by lia.
  assert (Hmono : ∀ ds, dirs_bytes (map (drop_in_dir env f) ds) <= dirs_bytes ds).
  { induction ds as [|e ds IH]; cbn [map dirs_bytes]; [done|]. fold (dir_bytes e) (dir_bytes (drop_in_dir env f e)).
    pose proof (drop_in_dir_bytes env f e). lia. }
  induction (st_dirs st) as [|e ds IH]; [by apply elem_of_nil in Hd|]. cbn [map dirs_bytes].
  fold (dir_bytes e) (dir_bytes (drop_in_dir env f e)). apply elem_of_cons in Hd as [<-|Hd].
  - pose proof (drop_in_dir_bytes_in env f d g Hn Hs Hg Hgn). specialize (Hmono ds). lia.
  - pose proof (drop_in_dir_bytes env f e). specialize (IH Hd). lia.
Qed.

(** Removing one segment keeps the others. *)
Definition path_of (f : RetainedFile) : bytes * bytes := (rf_dir_name f, rf_name f).
Definition names_ok (f : RetainedFile) : Prop :=
  is_u64 (rf_segment_seq f) ∧ segment_seq_from_name (rf_name f) = Some (rf_segment_seq f).

Lemma elem_of_remove_name name g files : g ∈ files → df_name g ≠ name → g ∈ remove_name name files.
Proof.
  intros Hg Hn. unfold remove_name. apply list_elem_of_In, List.filter_In. split; [by apply list_elem_of_In|].
  apply beq_false in Hn. by rewrite Hn.
Qed.

Lemma segment_not_index name seq s : segment_seq_from_name name = Some s → is_u64 seq → name ≠ index_name seq.
Proof. intros Hs Hu ->. unfold index_name in Hs. by rewrite seq_from_other_name in Hs. Qed.

Lemma drop_keeps_present env f g st :
  names_ok f → names_ok g → path_of f ≠ path_of g → present st f → present (drop_segment env g st) f.
Proof.
  intros [_ Hfn] [Hgu _] Hne (d & df & Hd & Hn & Hs & Hdf & Hdn & Hsz).
  exists (drop_in_dir env g d), df. cbn [drop_segment st_dirs]. rewrite drop_in_dir_name.
  split; [by apply list_elem_of_fmap_2|]. split_and!; try done.
  unfold drop_in_dir. destruct (beq (ld_name d) (rf_dir_name g)) eqn:Hb; [|done]. apply beq_true in Hb. cbn [ld_files].
  assert (Hin : df ∈ remove_name (rf_name g) (ld_files d)).
  { apply elem_of_remove_name; [done|]. intros Heq. apply Hne. unfold path_of. congruence. }
  unfold unlink. destruct (fs_unlink_ok _ _ _); [|done]. apply elem_of_remove_name; [done|].
  rewrite Hdn. by eapply segment_not_index.
Qed.

(** ** The enforcement loop *)
Fixpoint group_sum (i : nat) (files : list RetainedFile) : Z :=
  match files with
  | [] => 0
  | f :: fs => (if rf_group_index f =? Z.of_nat i then rf_size f else 0) + group_sum i fs
  end.

Lemma group_sum_app i l k : group_sum i (l ++ k) = group_sum i l + group_sum i k.
Proof. induction l as [|f l IH]; cbn [app group_sum]; [lia|]. destruct (_ =? _); lia. Qed.
Lemma group_sum_perm i l k : l ≡ₚ k → group_sum i l = group_sum i k.
Proof. induction 1; cbn [group_sum]; repeat destruct (_ =? _); lia. Qed.
Lemma group_sum_nonneg i l : Forall (λ f, 0 <= rf_size f) l → 0 <= group_sum i l.
Proof. induction 1 as [|f l Hf _ IH]; cbn [group_sum]; [lia|]. destruct (_ =? _); lia. Qed.

Section enforce.
Context `{RX : RegexLib}.
Context (env : FsEnv) (cfg : RecorderConfig) (Hrel : fs_reliable env).

(** What holds of the files still to visit. *)
Definition loop_inv (fs : list RetainedFile) (s : RetentionState) : Prop :=
  NoDup (map path_of fs) ∧ Forall names_ok fs ∧ Forall (present (rs_store s)) fs ∧
  Forall (λ f, 0 <= rf_size f ∧ -1 <= rf_group_index f) fs ∧
  store_bytes (rs_store s) <= rs_total s ∧
  ∀ i b, rs_group_bytes s !! i = Some b → group_sum i fs <= b.

Lemma sub_group_lookup f gb i b :
  -1 <= rf_group_index f → gb !! i = Some b → (rf_group_index f = Z.of_nat i → rf_size f <= b) →
  sub_group_bytes (rf_group_index f) (rf_size f) gb !! i =
  Some (b - if rf_group_index f =? Z.of_nat i then rf_size f else 0).
Proof.
  intros Hr Hb Hle. unfold sub_group_bytes. destruct (Z.leb_spec 0 (rf_group_index f)).
  - destruct (Z.eqb_spec (rf_group_index f) (Z.of_nat i)) as [He|He].
    + rewrite He, Nat2Z.id, list_lookup_alter_eq, Hb. cbn. f_equal. specialize (Hle He).
      destruct (Z.leb_spec (rf_size f) b); lia.
    + rewrite list_lookup_alter_ne by lia. rewrite Hb. f_equal. lia.
  - destruct (Z.eqb_spec (rf_group_index f) (Z.of_nat i)); [lia|]. rewrite Hb. f_equal. lia.
Qed.

Lemma loop_inv_skip f fs s : loop_inv (f :: fs) s → loop_inv fs s.
Proof.
  intros (Hnd & Hn & Hp & Hs & Ht & Hg). cbn [map] in Hnd. apply NoDup_cons in Hnd as [_ Hnd].
  apply Forall_cons in Hn as [_ Hn]. apply Forall_cons in Hp as [_ Hp]. apply Forall_cons in Hs as [[Hs0 _] Hs].
  split_and!; try done. intros i b Hb. specialize (Hg i b Hb). cbn [group_sum] in Hg. destruct (_ =? _); lia.
Qed.

Lemma loop_inv_remove f fs s :
  loop_inv (f :: fs) s →
  ∃ s1, retention_remove_file env f s = (true, s1) ∧ loop_inv fs s1 ∧ rs_total s1 <= rs_total s ∧
    ∀ i b, rs_group_bytes s !! i = Some b →
      rs_group_bytes s1 !! i = Some (b - if rf_group_index f =? Z.of_nat i then rf_size f else 0).
Proof.
  intros (Hnd & Hn & Hp & Hs & Ht & Hg). unfold retention_remove_file. rewrite (proj1 Hrel). eexists. split; [reflexivity|].
  cbn [map] in Hnd. apply NoDup_cons in Hnd as [Hnew Hnd]. apply Forall_cons in Hn as [Hnf Hn].
  apply Forall_cons in Hp as [Hpf Hp]. apply Forall_cons in Hs as [[Hs0 Hgi] Hs].
  assert (Hgrp : ∀ i b, rs_group_bytes s !! i = Some b →
    sub_group_bytes (rf_group_index f) (rf_size f) (rs_group_bytes s) !! i =
    Some (b - if rf_group_index f =? Z.of_nat i then rf_size f else 0)).
  { intros i b Hb. apply sub_group_lookup; [done|done|]. intros He. specialize (Hg i b Hb). cbn [group_sum] in Hg.
    rewrite He, Z.eqb_refl in Hg. assert (0 <= group_sum i fs); [|lia].
    apply group_sum_nonneg. eapply Forall_impl; [exact Hs|]. by intros ? [? ?]. }
  pose proof (drop_segment_bytes env f (rs_store s) Hpf) as Hdrop. pose proof (store_bytes_nonneg (drop_segment env f (rs_store s))).
  split; [|split; [cbn; destruct (Z.ltb_spec (rf_size f) (rs_total s)); lia|exact Hgrp]].
  cbn [rs_store rs_total rs_group_bytes]. unfold loop_inv. cbn [rs_store rs_total rs_group_bytes]. split_and!; try done.
  - rewrite Forall_forall in Hp, Hn |- *. intros g Hg'. apply drop_keeps_present; auto.
    intros Heq. apply Hnew. rewrite <- Heq. by apply list_elem_of_fmap_2.
  - destruct (Z.ltb_spec (rf_size f) (rs_total s)); lia.
  - intros i b Hb. destruct (rs_group_bytes s !! i) as [b0|] eqn:Hb0.
    + rewrite (Hgrp i b0 Hb0) in Hb. injection Hb as <-. specialize (Hg i b0 Hb0). cbn [group_sum] in Hg. lia.
    + exfalso. revert Hb. unfold sub_group_bytes. destruct (0 <=? _); [|by rewrite Hb0].
      destruct (decide (Z.to_nat (rf_group_index f) = i)) as [->|]; [rewrite list_lookup_alter_eq, Hb0|rewrite list_lookup_alter_ne, Hb0 by done]; done.
Qed.

Lemma enforce_loop_spec fs s s' removed :
  loop_inv fs s → enforce_loop env cfg fs s = (s', removed) →
  ∃ kept, fs ≡ₚ removed ++ kept ∧
    store_bytes (rs_store s') <= rs_total s' <= rs_total s ∧
    (kept ≠ [] → cfg_log_max_bytes cfg ≠ 0 → rs_total s' <= cfg_log_max_bytes cfg) ∧
    Forall (λ f, expired cfg (fs_now env) f = false) kept ∧
    ∀ i b, rs_group_bytes s !! i = Some b → ∃ b', rs_group_bytes s' !! i = Some b' ∧
      b' - group_sum i kept = b - group_sum i fs ∧
      ∀ f g, f ∈ kept → rf_group_index f = Z.of_nat i → file_group cfg f = Some g → pg_max_bytes g ≠ 0 →
        b' <= pg_max_bytes g.
Proof.
  revert s s' removed. induction fs as [|f fs IH]; intros s s' removed Hinv; cbn [enforce_loop].
  { intros [= <- <-]. exists []. pose proof Hinv as (_ & _ & _ & _ & Ht & _).
    split_and!; try done; try lia. intros i b Hb. exists b. split_and!; [done|done|].
    by intros ? ? ?%elem_of_nil. }
  destruct (over_log_max cfg s || over_group_max cfg s f || expired cfg (fs_now env) f) eqn:Hr.
  - destruct (loop_inv_remove f fs s Hinv) as (s1 & -> & Hinv1 & Ht1 & Hg1).
    destruct (enforce_loop env cfg fs s1) as [s2 rem] eqn:Hl. intros [= <- <-].
    destruct (IH s1 s2 rem Hinv1 Hl) as (kept & Hp & Htot & Hlog & Hexp & Hgrp).
    exists kept. split; [by rewrite Hp|]. split; [lia|]. split; [done|]. split; [done|].
    intros i b Hb. destruct (Hgrp i _ (Hg1 i b Hb)) as (b' & Hb' & Heq & Hmax). exists b'.
    split; [done|]. split; [cbn [group_sum]; lia|done].
  - apply orb_false_iff in Hr as [[Hlm Hgm]%orb_false_iff Hex]. intros Hl.
    pose proof (loop_inv_skip f fs s Hinv) as Hinv1. destruct (IH s s' removed Hinv1 Hl) as (kept & Hp & Htot & Hlog & Hexp & Hgrp).
    exists (f :: kept). split; [by rewrite Hp, Permutation_middle|]. split; [done|]. split; [|split; [by constructor|]].
    + intros _ Hlm0. unfold over_log_max in Hlm. destruct (Z.eqb_spec (cfg_log_max_bytes cfg) 0); [done|].
      cbn [negb andb] in Hlm. apply Z.ltb_ge in Hlm. lia.
    + intros i b Hb. destruct (Hgrp i b Hb) as (b' & Hb' & Heq & Hmax). exists b'. split; [done|].
      split; [cbn [group_sum]; lia|]. intros f' g [->|Hf']%elem_of_cons Hi Hg Hm0; [|by eapply Hmax].
      assert (Hle : group_sum i kept <= group_sum i fs).
      { rewrite (group_sum_perm i fs (removed ++ kept)), group_sum_app by done.
        assert (0 <= group_sum i removed); [|lia]. apply group_sum_nonneg.
        destruct Hinv1 as (_ & _ & _ & Hs & _). rewrite Hp in Hs. apply Forall_app in Hs as [Hs _].
        eapply Forall_impl; [exact Hs|]. by intros ? [? ?]. }
      unfold over_group_max in Hgm. rewrite Hg, Hi, Nat2Z.id, Hb in Hgm.
      destruct (Z.eqb_spec (pg_max_bytes g) 0); [done|]. cbn [negb andb] in Hgm. apply Z.ltb_ge in Hgm. lia.
Qed.
End enforce.

(** ** What is collected *)
Section collect.
Context `{RX : RegexLib} `{F : FlatCC}.

(** Names are unique, as in a file system. *)
Definition store_names_unique (st : Store) : Prop :=
  NoDup (map ld_name (st_dirs st)) ∧ Forall (λ d, NoDup (map df_name (ld_files d))) (st_dirs st).

(** What every collected file is: a closed, numbered segment of its directory. *)
Definition collected_from (active : ActivePaths) (dirs : list LogDir) (f : RetainedFile) : Prop :=
  ∃ d g, d ∈ dirs ∧ g ∈ ld_files d ∧ is_segment_dir_name (ld_name d) = true ∧
    rf_dir_name f = ld_name d ∧ rf_name f = df_name g ∧ rf_size f = u64 (zlen (df_data g)) ∧
    segment_seq_from_name (df_name g) = Some (rf_segment_seq f) ∧
    path_is_active_segment active (ld_name d) (df_name g) = false ∧ -1 <= rf_group_index f.

Lemma group_of_dir_index cfg dir mp gi : group_of_dir cfg dir = Some (mp, gi) → 0 <= gi.
Proof.
  unfold group_of_dir. induction (cfg_priority_to_group cfg) as [|i p2g IH]; [done|].
  destruct (Z.leb_spec 0 i); [|exact IH]. destruct (cfg_groups cfg !! Z.to_nat i); [|exact IH].
  destruct (beq _ _); [|exact IH]. by intros [= <- <-].
Qed.

Lemma collect_file_cases cfg active dir files g :
  collect_file cfg active dir files g = files ∨
  ∃ f, collect_file cfg active dir files g = files ++ [f] ∧ rf_dir_name f = dir ∧ rf_name f = df_name g ∧
    rf_size f = u64 (zlen (df_data g)) ∧ segment_seq_from_name (df_name g) = Some (rf_segment_seq f) ∧
    path_is_active_segment active dir (df_name g) = false ∧ -1 <= rf_group_index f.
Proof.
  unfold collect_file. destruct (_ <=? _); [by left|]. destruct (segment_seq_from_name (df_name g)) as [seq|] eqn:Hs; [|by left].
  destruct (path_is_active_segment _ _ _) eqn:Ha; [by left|]. right.
  destruct (match segment_scan_path _ _ _ _ with ScanDone _ _ _ _ => _ | _ => _ end) as [mp gi] eqn:Hg.
  eexists. split; [reflexivity|]. cbn. split_and!; try done.
  destruct (segment_scan_path _ _ _ _); [|injection Hg as <- <-; lia..].
  destruct (group_of_dir cfg dir) as [[a b]|] eqn:Hd; cbn in Hg; injection Hg as <- <-; [|lia].
  apply group_of_dir_index in Hd. lia.
Qed.

(** One directory: what it adds, and that its paths are new. *)
Lemma collect_dir cfg active dirs d files :
  d ∈ dirs → is_segment_dir_name (ld_name d) = true → NoDup (map df_name (ld_files d)) →
  Forall (collected_from active dirs) files → NoDup (map path_of files) →
  Forall (λ f, rf_dir_name f ≠ ld_name d) files →
  Forall (collected_from active dirs) (fold_left (collect_file cfg active (ld_name d)) (ld_files d) files) ∧
  NoDup (map path_of (fold_left (collect_file cfg active (ld_name d)) (ld_files d) files)) ∧
  Forall (λ f, f ∈ files ∨ rf_dir_name f = ld_name d) (fold_left (collect_file cfg active (ld_name d)) (ld_files d) files).
Proof.
  intros Hd Hs Hnd Hc Hp Hnew. revert Hnd.
  enough (Hgen : ∀ gs acc, gs `suffix_of` ld_files d → NoDup (map df_name gs) →
    Forall (collected_from active dirs) acc → NoDup (map path_of acc) →
    Forall (λ f, rf_dir_name f = ld_name d → rf_name f ∉ map df_name gs) acc →
    Forall (λ f, f ∈ files ∨ rf_dir_name f = ld_name d) acc →
    Forall (collected_from active dirs) (fold_left (collect_file cfg active (ld_name d)) gs acc) ∧
    NoDup (map path_of (fold_left (collect_file cfg active (ld_name d)) gs acc)) ∧
    Forall (λ f, f ∈ files ∨ rf_dir_name f = ld_name d) (fold_left (collect_file cfg active (ld_name d)) gs acc)).
  { intros Hnd. apply Hgen; try done; apply Forall_forall; intros f Hf; [|by left].
    rewrite Forall_forall in Hnew. intros He. by destruct (Hnew f Hf). }
  induction gs as [|g gs IH]; intros acc Hsuf Hnd Hacc Hpa Hfresh Hor; [done|]. cbn [fold_left].
  cbn [map] in *. apply NoDup_cons in Hnd as [Hg Hnd].
  assert (Hsuf' : gs `suffix_of` ld_files d) by (destruct Hsuf as [k ->]; exists (k ++ [g]); by rewrite <- app_assoc).
  assert (Hfresh' : Forall (λ f, rf_dir_name f = ld_name d → rf_name f ∉ map df_name gs) acc).
  { eapply Forall_impl; [exact Hfresh|]. cbn. intros f Hf He Hin. apply (Hf He). by right. }
  destruct (collect_file_cases cfg active (ld_name d) acc g) as [->|(f & -> & E1 & E2 & E3 & E4 & E5 & E6)]; [by apply IH|].
  apply IH; try done.
  - apply Forall_app. split; [done|]. constructor; [|constructor]. exists d, g. split_and!; try done.
    destruct Hsuf as [k ->]. mem.
  - rewrite map_app. apply NoDup_app. split; [done|]. split; [|apply NoDup_singleton].
    intros x (f' & -> & Hf')%list_elem_of_fmap Hx%list_elem_of_singleton. rewrite Forall_forall in Hfresh.
    unfold path_of in Hx. injection Hx as Hx1 Hx2. apply (Hfresh f' Hf'); [congruence|]. rewrite Hx2, E2. by left.
  - apply Forall_app. split; [done|]. constructor; [|constructor]. intros _. by rewrite E2.
  - apply Forall_app. split; [done|]. constructor; [by right|constructor].
Qed.

Lemma collect_closed_ok cfg active st :
  store_names_unique st →
  Forall (collected_from active (st_dirs st)) (collect_closed_segments cfg active st) ∧
  NoDup (map path_of (collect_closed_segments cfg active st)).
Proof.
  intros [Hdn Hfn]. unfold collect_closed_segments.
  enough (Hgen : ∀ ds acc, ds `suffix_of` st_dirs st →
    Forall (collected_from active (st_dirs st)) acc → NoDup (map path_of acc) →
    Forall (λ f, rf_dir_name f ∉ map ld_name ds) acc →
    Forall (collected_from active (st_dirs st))
      (for_each_segment_dir (λ d files, fold_left (collect_file cfg active (ld_name d)) (ld_files d) files) ds acc) ∧
    NoDup (map path_of (for_each_segment_dir (λ d files, fold_left (collect_file cfg active (ld_name d)) (ld_files d) files) ds acc))).
  { apply Hgen; try done; constructor. }
  induction ds as [|d ds IH]; intros acc Hsuf Hacc Hpa Hfresh; [done|]. cbn [for_each_segment_dir map] in *.
  assert (Hsuf' : ds `suffix_of` st_dirs st) by (destruct Hsuf as [k ->]; exists (k ++ [d]); by rewrite <- app_assoc).
  assert (Hd : d ∈ st_dirs st) by (destruct Hsuf as [k ->]; mem).
  assert (Hdd : ld_name d ∉ map ld_name ds).
  { destruct Hsuf as [k Hk]. rewrite Hk, map_app in Hdn. apply NoDup_app in Hdn as (_ & _ & Hdn).
    cbn [map] in Hdn. by apply NoDup_cons in Hdn as [? _]. }
  assert (Hfresh1 : Forall (λ f, rf_dir_name f ∉ map ld_name ds) acc).
  { eapply Forall_impl; [exact Hfresh|]. cbn. intros f Hf Hin. apply Hf. by right. }
  destruct (is_segment_dir_name (ld_name d)) eqn:Hs; [|by apply IH].
  rewrite Forall_forall in Hfn. destruct (collect_dir cfg active (st_dirs st) d acc) as (C1 & C2 & C3); try done; [by apply Hfn| |].
  { eapply Forall_impl; [exact Hfresh|]. cbn. intros f Hf He. apply Hf. rewrite He. by left. }
  apply IH; try done. rewrite Forall_forall in C3, Hfresh1 |- *. intros f Hf.
  destruct (C3 f Hf) as [Hin| ->]; [by apply Hfresh1|done].
Qed.

(** *** The closed segments of a store

    Its group's least important priority and index, as far as the file is a segment. *)
Definition closed_group (cfg : RecorderConfig) (dir : bytes) (f : DirFile) : Z * Z :=
  match segment_scan_path (Ok (df_data f)) None None tt with
  | ScanDone _ _ _ _ => default (7, -1) (group_of_dir cfg dir)
  | _ => (7, -1)
  end.
(** What a file of a group directory is for retention; [None] for a file that is
    not a segment or that a writer has open. *)
Definition closed_segment (cfg : RecorderConfig) (active : ActivePaths) (dir : bytes) (f : DirFile) : option RetainedFile :=
  match segment_seq_from_name (df_name f) with
  | None => None
  | Some seq =>
      if path_is_active_segment active dir (df_name f) then None
      else
        let '(min_priority, group_index) := closed_group cfg dir f in
        Some (mkRetainedFile dir (df_name f) min_priority group_index seq (u64 (zlen (df_data f))) (df_mtime f))
  end.
Definition closed_in_dir (cfg : RecorderConfig) (active : ActivePaths) (d : LogDir) : list RetainedFile :=
  if is_segment_dir_name (ld_name d) then omap (closed_segment cfg active (ld_name d)) (ld_files d) else [].
Definition closed_segments (cfg : RecorderConfig) (active : ActivePaths) (st : Store) : list RetainedFile :=
  concat (map (closed_in_dir cfg active) (st_dirs st)).

(** Up to 4096 of them are collected, which is all the loop has room for. *)
Lemma collect_file_below cfg active dir files f :
  zlen files < 4096 → collect_file cfg active dir files f = files ++ option_list (closed_segment cfg active dir f).
Proof.
  intros Hlt. unfold collect_file, closed_segment. destruct (Z.leb_spec MAX_RETAINED (zlen files)); [unfold MAX_RETAINED in *; lia|].
  destruct (segment_seq_from_name _); [|by rewrite app_nil_r]. destruct (path_is_active_segment _ _ _); [by rewrite app_nil_r|].
  fold (closed_group cfg dir f). by destruct (closed_group cfg dir f).
Qed.
Lemma collect_files_below cfg active dir gs : ∀ files,
  zlen (files ++ omap (closed_segment cfg active dir) gs) <= 4096 →
  fold_left (collect_file cfg active dir) gs files = files ++ omap (closed_segment cfg active dir) gs.
Proof.
  induction gs as [|g gs IH]; intros files Hl; cbn [fold_left omap list_omap] in *; [by rewrite app_nil_r|].
  destruct (Z.ltb_spec (zlen files) 4096) as [Hlt|Hge].
  - rewrite collect_file_below by done. fold (omap (M := list) (closed_segment cfg active dir) gs) in *.
    destruct (closed_segment cfg active dir g) as [x|]; cbn [option_list]; rewrite IH; rewrite <- ?app_assoc; done.
  - assert (Hfull : collect_file cfg active dir files g = files).
    { unfold collect_file. destruct (Z.leb_spec MAX_RETAINED (zlen files)); [done|unfold MAX_RETAINED in *; lia]. }
    fold (omap (M := list) (closed_segment cfg active dir) gs) in *. rewrite Hfull. rewrite zlen_app in Hl.
    destruct (closed_segment cfg active dir g) as [x|]; [rewrite zlen_cons in Hl; pose proof (zlen_nonneg (omap (M := list) (closed_segment cfg active dir) gs)); lia|].
    apply IH. by rewrite zlen_app.
Qed.
Lemma collects_closed cfg active st :
  zlen (closed_segments cfg active st) <= 4096 → collect_closed_segments cfg active st = closed_segments cfg active st.
Proof.
  unfold collect_closed_segments, closed_segments. rewrite <- (app_nil_l (concat _)). generalize (@nil RetainedFile) as acc.
  induction (st_dirs st) as [|d ds IH]; intros acc; cbn [for_each_segment_dir map concat]; intros Hl; [by rewrite app_nil_r|].
  unfold closed_in_dir at 1. unfold closed_in_dir at 1 in Hl. destruct (is_segment_dir_name (ld_name d)); [|by apply IH].
  rewrite app_assoc in Hl |- *. rewrite <- collect_files_below; [apply IH; rewrite collect_files_below; [exact Hl|]|];
    rewrite zlen_app in Hl; pose proof (zlen_nonneg (concat (map (closed_in_dir cfg active) ds))); lia.
Qed.

(** Removing one takes it and nothing else from them. *)
Lemma closed_remove cfg active dir name files :
  omap (closed_segment cfg active dir) (remove_name name files) =
  filter (λ x, rf_name x ≠ name) (omap (closed_segment cfg active dir) files).
Proof.
  unfold remove_name. induction files as [|f files IH]; [done|]. cbn [List.filter omap list_omap].
  fold (omap (M := list) (closed_segment cfg active dir) files).
  destruct (closed_segment cfg active dir f) as [x|] eqn:Hx.
  - assert (Hn : rf_name x = df_name f).
    { unfold closed_segment in Hx. destruct (segment_seq_from_name _); [|done]. destruct (path_is_active_segment _ _ _); [done|].
      destruct (closed_group cfg dir f). by injection Hx as <-. }
    destruct (beq (df_name f) name) eqn:Hb; cbn [negb].
    + apply beq_true in Hb. rewrite filter_cons_False by (rewrite Hn, Hb; tauto). exact IH.
    + apply beq_false in Hb. rewrite filter_cons_True by (by rewrite Hn). cbn [omap list_omap]. rewrite Hx. by f_equal.
  - destruct (negb _); [|exact IH]. cbn [omap list_omap]. rewrite Hx. exact IH.
Qed.
Lemma closed_name cfg active dir (files : list DirFile) x :
  x ∈ omap (closed_segment cfg active dir) files → rf_dir_name x = dir ∧ segment_seq_from_name (rf_name x) = Some (rf_segment_seq x).
Proof.
  intros (f & Hf & Hx)%list_elem_of_omap. unfold closed_segment in Hx. destruct (segment_seq_from_name _) eqn:Hs; [|done].
  destruct (path_is_active_segment _ _ _); [done|].
  destruct (closed_group cfg dir f). by injection Hx as <-.
Qed.
Lemma filter_all {A} (P : A → Prop) `{∀ x, Decision (P x)} l : Forall P l → filter P l = l.
Proof. induction 1 as [|x l Hx _ IH]; [done|]. rewrite filter_cons_True by done. by rewrite IH. Qed.
Lemma filter_none_left {A} (P : A → Prop) `{∀ x, Decision (P x)} l : Forall (λ x, ¬ P x) l → filter P l = [].
Proof. induction 1 as [|x l Hx _ IH]; [done|]. by rewrite filter_cons_False. Qed.
Lemma filter_same {A} (P Q : A → Prop) `{∀ x, Decision (P x)} `{∀ x, Decision (Q x)} l :
  Forall (λ x, P x ↔ Q x) l → filter P l = filter Q l.
Proof.
  induction 1 as [|x l Hx _ IH]; [done|]. destruct (decide (P x)) as [Hp|Hp].
  - rewrite !filter_cons_True by tauto. by rewrite IH.
  - rewrite !filter_cons_False by tauto. exact IH.
Qed.

Lemma closed_drop_dir env cfg active f d :
  names_ok f → closed_in_dir cfg active (drop_in_dir env f d) = filter (λ x, path_of x ≠ path_of f) (closed_in_dir cfg active d).
Proof.
  intros [Hu _]. unfold closed_in_dir. rewrite drop_in_dir_name. destruct (is_segment_dir_name (ld_name d)); [|done].
  unfold drop_in_dir. destruct (beq (ld_name d) (rf_dir_name f)) eqn:Hb.
  - apply beq_true in Hb. cbn [ld_files].
    assert (Hidx : ∀ files, omap (closed_segment cfg active (ld_name d)) (unlink env (ld_name d) (index_name (rf_segment_seq f)) files) =
      omap (closed_segment cfg active (ld_name d)) files).
    { intros files. unfold unlink. destruct (fs_unlink_ok _ _ _); [|done]. rewrite closed_remove. apply filter_all.
      apply Forall_forall. intros x Hx. apply closed_name in Hx as [_ Hs]. by eapply segment_not_index. }
    rewrite Hidx, closed_remove. apply filter_same. apply Forall_forall. intros x Hx. apply closed_name in Hx as [Hd _].
    unfold path_of. rewrite Hd, Hb. split; [intros Hn [= He]; done|]. intros Hn He. apply Hn. by rewrite He.
  - apply beq_false in Hb. symmetry. apply filter_all. apply Forall_forall. intros x Hx. apply closed_name in Hx as [Hd _].
    unfold path_of. rewrite Hd. by intros [= He _].
Qed.
Lemma closed_drop env cfg active f st :
  names_ok f → closed_segments cfg active (drop_segment env f st) = filter (λ x, path_of x ≠ path_of f) (closed_segments cfg active st).
Proof.
  intros Hf. unfold closed_segments, drop_segment. cbn [st_dirs]. induction (st_dirs st) as [|d ds IH]; [done|]. cbn [map concat].
  by rewrite filter_app, closed_drop_dir, IH.
Qed.
End collect.

(** ** Enforcement *)
Lemma segment_seq_range name seq : segment_seq_from_name name = Some seq → is_u64 seq.
Proof.
  unfold segment_seq_from_name. destruct (strtoull10 name) as [[v r] [|]] eqn:Hs; cbn [orb]; [done|].
  pose proof (strtoull_range name) as Hr. rewrite Hs in Hr. destruct (negb _); [done|]. by intros [= <-].
Qed.

Lemma files_bytes_elem g files : g ∈ files → zlen (df_data g) <= files_bytes files.
Proof.
  induction files as [|f files IH]; [by intros ?%elem_of_nil|]. cbn [files_bytes].
  pose proof (files_bytes_nonneg files). pose proof (zlen_nonneg (df_data f)).
  intros [->|Hg]%elem_of_cons; [lia|]. specialize (IH Hg). lia.
Qed.
Lemma dirs_bytes_elem d dirs : d ∈ dirs → dir_bytes d <= dirs_bytes dirs.
Proof.
  induction dirs as [|e dirs IH]; [by intros ?%elem_of_nil|]. cbn [dirs_bytes]. fold (dir_bytes e).
  pose proof (dirs_bytes_nonneg dirs). assert (0 <= dir_bytes e).
  { unfold dir_bytes. destruct (is_segment_dir_name _); [apply files_bytes_nonneg|done]. }
  intros [->|Hg]%elem_of_cons; [lia|]. specialize (IH Hg). lia.
Qed.

(** Collected files are in the store and have its names. *)
Lemma collected_present active st f :
  store_bytes st <= UINT64_MAX → collected_from active (st_dirs st) f →
  names_ok f ∧ present st f ∧ 0 <= rf_size f ∧ -1 <= rf_group_index f.
Proof.
  intros Hs (d & g & Hd & Hg & Hn & E1 & E2 & E3 & E4 & _ & E6).
  assert (Hsz : rf_size f = zlen (df_data g)).
  { rewrite E3. apply u64_id. pose proof (zlen_nonneg (df_data g)). pose proof (files_bytes_elem g _ Hg).
    pose proof (dirs_bytes_elem d _ Hd). unfold dir_bytes in *. rewrite Hn in *.
    pose proof (files_bytes_nonneg (st_state st)). unfold store_bytes, is_u64, UINT64_MAX in *. lia. }
  split_and!; [| |rewrite Hsz; apply zlen_nonneg|done].
  - split; [by eapply segment_seq_range|]. by rewrite E2.
  - exists d, g. split_and!; try done; congruence.
Qed.

Lemma group_sum_bounded (env : FsEnv) i fs st :
  NoDup (map path_of fs) → Forall names_ok fs → Forall (present st) fs → Forall (λ f, 0 <= rf_size f) fs →
  group_sum i fs <= store_bytes st.
Proof.
  revert st. induction fs as [|f fs IH]; intros st Hnd Hn Hp Hs; cbn [group_sum map] in *; [apply store_bytes_nonneg|].
  apply NoDup_cons in Hnd as [Hnew Hnd]. apply Forall_cons in Hn as [Hnf Hn]. apply Forall_cons in Hp as [Hpf Hp].
  apply Forall_cons in Hs as [Hsf Hs]. pose proof (drop_segment_bytes env f st Hpf).
  assert (Hp' : Forall (present (drop_segment env f st)) fs).
  { rewrite Forall_forall in Hp, Hn |- *. intros g Hg. apply drop_keeps_present; auto.
    intros Heq. apply Hnew. rewrite <- Heq. by apply list_elem_of_fmap_2. }
  specialize (IH _ Hnd Hn Hp' Hs). destruct (_ =? _); lia.
Qed.

Lemma sum_group_bytes_acc i fs gb b :
  Forall (λ f, 0 <= rf_size f ∧ -1 <= rf_group_index f) fs → gb !! i = Some b → 0 <= b →
  b + group_sum i fs <= UINT64_MAX → fold_left add_group_bytes fs gb !! i = Some (b + group_sum i fs).
Proof.
  revert gb b. induction fs as [|f fs IH]; intros gb b Hs Hb H0 Hmax; cbn [fold_left group_sum] in *; [rewrite Hb; f_equal; lia|].
  apply Forall_cons in Hs as [[Hsz Hgi] Hs].
  assert (0 <= group_sum i fs) by (apply group_sum_nonneg; eapply Forall_impl; [exact Hs|]; by intros ? [? ?]).
  assert (Hnew : add_group_bytes gb f !! i = Some (b + if rf_group_index f =? Z.of_nat i then rf_size f else 0)).
  { unfold add_group_bytes. destruct (Z.leb_spec 0 (rf_group_index f)); destruct (Z.eqb_spec (rf_group_index f) (Z.of_nat i)) as [He|He].
    - rewrite He, Nat2Z.id, list_lookup_alter_eq, Hb. cbn. f_equal. apply u64_id. unfold is_u64, UINT64_MAX in *. lia.
    - rewrite list_lookup_alter_ne by lia. rewrite Hb. f_equal. lia.
    - lia.
    - rewrite Hb. f_equal. lia. }
  rewrite (IH _ _ Hs Hnew); [f_equal; destruct (_ =? _); lia|destruct (_ =? _); lia|destruct (_ =? _); lia].
Qed.

Lemma add_group_bytes_length fs gb : length (fold_left add_group_bytes fs gb) = length gb.
Proof.
  revert gb. induction fs as [|f fs IH]; intros gb; cbn [fold_left]; [done|]. rewrite IH. unfold add_group_bytes.
  destruct (0 <=? _); [apply length_alter|done].
Qed.

Section limits.
Context `{RX : RegexLib} `{F : FlatCC} `{J : Jansson}.

Lemma after_write_dirs w now name text st : st_dirs (after_write w now name text st).2 = st_dirs st.
Proof. unfold after_write. by destruct (atomic_write_text_file _ _ _ _ _). Qed.
Lemma persist_boot_dirs env w boots st : st_dirs (persist_boot_state env w boots st).2 = st_dirs st.
Proof.
  unfold persist_boot_state. destruct (mapM boot_node boots ≫= _); [|done]. apply after_write_dirs.
Qed.
Lemma after_removal_dirs env w removed boots st : st_dirs (after_removal env w removed boots st).2 = st_dirs st.
Proof. unfold after_removal. destruct removed; [done|]. apply persist_boot_dirs. Qed.

(** The counters the loop starts from. *)
Lemma enforce_start (env : FsEnv) cfg active st :
  store_names_unique st → store_bytes st <= UINT64_MAX →
  let files := collect_closed_segments cfg active st in
  loop_inv (retention_sort files) (mkRetentionState st (count_store_bytes st) (sum_group_bytes files)) ∧
  ∀ i, (i < 8)%nat → sum_group_bytes files !! i = Some (group_sum i (retention_sort files)).
Proof.
  intros Hu Hsz files. destruct (collect_closed_ok cfg active st Hu) as [Hcf Hnd]. fold files in Hcf, Hnd.
  assert (Hok : Forall (λ f, names_ok f ∧ present st f ∧ 0 <= rf_size f ∧ -1 <= rf_group_index f) files).
  { eapply Forall_impl; [exact Hcf|]. intros f Hf. by eapply collected_present. }
  pose proof (retention_sort_perm files) as Hperm.
  assert (Hnd' : NoDup (map path_of (retention_sort files))) by by rewrite Hperm.
  rewrite <- Hperm in Hok. apply Forall_and in Hok as [Hn Hok].
  apply Forall_and in Hok as [Hp Hok]. pose proof Hok as [Hs0 Hgi]%Forall_and.
  assert (Hb : ∀ i, (i < 8)%nat → sum_group_bytes files !! i = Some (group_sum i (retention_sort files))).
  { intros i Hi. unfold sum_group_bytes. rewrite (group_sum_perm i _ _ Hperm).
    rewrite (sum_group_bytes_acc i files (replicate 8 0) 0); [f_equal|by rewrite <- Hperm|by apply lookup_replicate|done|].
    rewrite Z.add_0_l, <- (group_sum_perm i _ _ Hperm).
    pose proof (group_sum_bounded env i (retention_sort files) st Hnd' Hn Hp Hs0). lia. }
  split; [|exact Hb]. unfold loop_inv. cbn [rs_store rs_total rs_group_bytes]. rewrite count_store_bytes_exact by done.
  split_and!; try done.
  intros i b Hib. destruct (decide (i < 8)%nat) as [Hi|Hi]; [rewrite Hb in Hib by done; injection Hib as <-; lia|].
  exfalso. apply lookup_lt_Some in Hib. unfold sum_group_bytes in Hib. rewrite add_group_bytes_length, length_replicate in Hib. lia.
Qed.

(** The store after removing segments in order. *)
Definition drop_all (env : FsEnv) (fs : list RetainedFile) (st : Store) : Store :=
  fold_left (λ st f, drop_segment env f st) fs st.

Lemma closed_drop_all env cfg active fs : ∀ st,
  Forall names_ok fs →
  closed_segments cfg active (drop_all env fs st) = filter (λ x, path_of x ∉ map path_of fs) (closed_segments cfg active st).
Proof.
  induction fs as [|f fs IH]; intros st Hn; cbn [drop_all fold_left map].
  { symmetry. apply filter_all. apply Forall_forall. intros x _. apply not_elem_of_nil. }
  apply Forall_cons in Hn as [Hf Hn]. fold (drop_all env fs (drop_segment env f st)). rewrite IH, closed_drop by done.
  rewrite list_filter_filter. apply list_filter_iff. intros x. rewrite not_elem_of_cons. tauto.
Qed.

(** A list without its first part, picked by what the files are called. *)
Lemma filter_rest l removed kept :
  NoDup (map path_of l) → l ≡ₚ removed ++ kept → filter (λ x, path_of x ∉ map path_of removed) l ≡ₚ kept.
Proof.
  intros Hnd Hp. rewrite Hp in Hnd |- *. rewrite map_app in Hnd. apply NoDup_app in Hnd as (_ & Hdis & _).
  rewrite filter_app, filter_none_left, filter_all; [done| |].
  - apply Forall_forall. intros x Hx Hin. apply (Hdis _ Hin). by apply list_elem_of_fmap_2.
  - apply Forall_forall. intros x Hx Hn. apply Hn. by apply list_elem_of_fmap_2.
Qed.

Lemma enforce_loop_drops env cfg fs : ∀ s s' removed,
  fs_reliable env → enforce_loop env cfg fs s = (s', removed) → rs_store s' = drop_all env removed (rs_store s).
Proof.
  induction fs as [|f fs IH]; intros s s' removed Hrel; cbn [enforce_loop]; [by intros [= <- <-]|].
  destruct (_ || _); [|by apply IH]. unfold retention_remove_file. rewrite (proj1 Hrel).
  set (s1 := mkRetentionState _ _ _). destruct (enforce_loop env cfg fs s1) as [s2 rem] eqn:Hl. intros [= <- <-].
  by rewrite (IH _ _ _ Hrel Hl).
Qed.

(** C33: retention limits.  Let there be at most 4096 closed segments, which is
    what the program's array has room for, and let removals succeed.  Then
    [retention_enforce] removes some of the closed segments, and of those that are
    left in the store: unless there is none, the files under the group directories
    are within [log_max_bytes]; the segments of every group are within its
    [max_bytes]; and none has reached its group's [max_age_sec].  (Names in a
    directory are unique and the store is smaller than 2^64 bytes.) *)
Theorem retention_enforces_limits env w cfg active boots st boots' st' removed :
  fs_reliable env → store_names_unique st → store_bytes st <= UINT64_MAX → zlen (cfg_groups cfg) <= 8 →
  zlen (closed_segments cfg active st) <= 4096 →
  retention_enforce env w cfg active boots st = (boots', st', removed) →
  let kept := closed_segments cfg active st' in
  closed_segments cfg active st ≡ₚ removed ++ kept ∧
  (cfg_log_max_bytes cfg ≠ 0 → kept ≠ [] → dirs_bytes (st_dirs st') <= cfg_log_max_bytes cfg) ∧
  (∀ i g, cfg_groups cfg !! i = Some g → pg_max_bytes g ≠ 0 → 0 <= pg_max_bytes g → group_sum i kept <= pg_max_bytes g) ∧
  Forall (λ f, expired cfg (fs_now env) f = false) kept.
Proof.
  intros Hrel Hu Hsz Hng Hcap. unfold retention_enforce.
  destruct (enforce_start env cfg active st Hu Hsz) as [Hinv Hb]. destruct (collect_closed_ok cfg active st Hu) as [Hcf Hnd].
  rewrite (collects_closed _ _ _ Hcap) in *. set (files := closed_segments cfg active st) in *.
  destruct (enforce_loop _ _ _ _) as [s rem] eqn:Hl. intros [= Ha Hrem]. subst rem. set (kept' := closed_segments cfg active st').
  pose proof (f_equal (st_dirs ∘ snd) Ha) as Hdirs. cbn in Hdirs. rewrite after_removal_dirs in Hdirs.
  destruct (enforce_loop_spec env cfg Hrel _ _ _ _ Hinv Hl) as (kept & Hpk & Htot & Hlog & Hexp & Hgrp).
  rewrite (retention_sort_perm files) in Hpk.
  assert (Hkept : kept' ≡ₚ kept).
  { unfold kept'. apply enforce_loop_drops in Hl; [|done]. cbn [rs_store] in Hl.
    assert (Hst : closed_segments cfg active st' = closed_segments cfg active (rs_store s)) by (unfold closed_segments; by rewrite Hdirs).
    rewrite Hst, Hl, closed_drop_all; [by apply filter_rest|].
    assert (Hall : Forall names_ok files).
    { eapply Forall_impl; [exact Hcf|]. intros f Hf. by eapply collected_present in Hf as [? _]. }
    rewrite Hpk in Hall. by apply Forall_app in Hall as [? _]. }
  split; [by rewrite Hkept|]. split; [|split; [|by rewrite Hkept]].
  - intros Hlm Hk. assert (Hk2 : kept ≠ []) by (intros ->; by apply Permutation_nil_r in Hkept).
    specialize (Hlog Hk2 Hlm). rewrite <- Hdirs. pose proof (files_bytes_nonneg (st_state (rs_store s))).
    unfold store_bytes in Htot. lia.
  - intros i g Hi Hm0 Hm. rewrite (group_sum_perm i _ _ Hkept). cbn [rs_group_bytes] in Hgrp.
    assert (Hi8 : (i < 8)%nat) by (apply lookup_lt_Some in Hi; unfold zlen in Hng; lia).
    destruct (Hgrp i _ (Hb i Hi8)) as (b' & Hb' & Heq & Hmax). assert (b' = group_sum i kept) as -> by lia.
    destruct (decide (Exists (λ f, rf_group_index f = Z.of_nat i) kept)) as [Hex|Hno].
    + apply Exists_exists in Hex as (f & Hf & Hfi). apply (Hmax f g Hf Hfi); [|done].
      unfold file_group. rewrite Hfi, Nat2Z.id. destruct (Z.leb_spec 0 (Z.of_nat i)); [done|lia].
    + assert (group_sum i kept = 0); [|lia]. apply not_Exists_Forall in Hno; [|intros; apply _].
      clear -Hno. induction Hno as [|f l Hf _ IH]; cbn [group_sum]; [done|].
      destruct (Z.eqb_spec (rf_group_index f) (Z.of_nat i)); [done|lia].
Qed.

(** ** What retention leaves alone *)
Definition still_there (st : Store) (dir : bytes) (g : DirFile) : Prop :=
  ∃ d, d ∈ st_dirs st ∧ ld_name d = dir ∧ g ∈ ld_files d.

Lemma drop_keeps_file env f st dir g seq :
  names_ok f → segment_seq_from_name (df_name g) = Some seq → (dir, df_name g) ≠ path_of f →
  still_there st dir g → still_there (drop_segment env f st) dir g.
Proof.
  intros [Hu _] Hseq Hne (d & Hd & Hn & Hg). exists (drop_in_dir env f d). cbn [drop_segment st_dirs].
  rewrite drop_in_dir_name. split; [by apply list_elem_of_fmap_2|]. split; [done|]. unfold drop_in_dir.
  destruct (beq (ld_name d) (rf_dir_name f)) eqn:Hb; [|done]. apply beq_true in Hb. cbn [ld_files].
  assert (Hin : g ∈ remove_name (rf_name f) (ld_files d)).
  { apply elem_of_remove_name; [done|]. intros Heq. apply Hne. unfold path_of. congruence. }
  unfold unlink. destruct (fs_unlink_ok _ _ _); [|done]. apply elem_of_remove_name; [done|]. by eapply segment_not_index.
Qed.

Lemma remove_file_keeps env f s ok s1 dir g seq :
  names_ok f → segment_seq_from_name (df_name g) = Some seq → (dir, df_name g) ≠ path_of f →
  retention_remove_file env f s = (ok, s1) → still_there (rs_store s) dir g → still_there (rs_store s1) dir g.
Proof.
  intros Hf Hseq Hne. unfold retention_remove_file. destruct (fs_unlink_ok _ _ _); intros [= <- <-]; [|done].
  by eapply drop_keeps_file.
Qed.

Lemma enforce_loop_keeps env cfg fs s s' removed dir g seq :
  Forall names_ok fs → segment_seq_from_name (df_name g) = Some seq → (dir, df_name g) ∉ map path_of fs →
  enforce_loop env cfg fs s = (s', removed) → still_there (rs_store s) dir g → still_there (rs_store s') dir g.
Proof.
  intros Hn Hseq. revert s s' removed. induction Hn as [|f fs Hf Hn IH]; intros s s' removed Hnot; cbn [enforce_loop map] in *.
  { by intros [= <- <-]. }
  apply not_elem_of_cons in Hnot as [Hne Hnot]. destruct (_ || _); [|by eapply IH].
  destruct (retention_remove_file env f s) as [ok s1] eqn:Hr. destruct (enforce_loop env cfg fs s1) as [s2 rem] eqn:Hl.
  intros [= <- <-] Hst. eapply (IH s1 s2 rem); [done|done|]. by eapply remove_file_keeps.
Qed.

Lemma reclaim_loop_keeps env av pr req fs s s' removed dir g seq :
  Forall names_ok fs → segment_seq_from_name (df_name g) = Some seq → (dir, df_name g) ∉ map path_of fs →
  reclaim_loop env av pr req fs s = (s', removed) → still_there (rs_store s) dir g → still_there (rs_store s') dir g.
Proof.
  intros Hn Hseq. revert s s' removed. induction Hn as [|f fs Hf Hn IH]; intros s s' removed Hnot; cbn [reclaim_loop map] in *.
  { by intros [= <- <-]. }
  apply not_elem_of_cons in Hnot as [Hne Hnot]. destruct (_ <=? _); [by eapply IH|].
  destruct (retention_remove_file env f s) as [ok s1] eqn:Hr.
  destruct (room_for _ _ _); [intros [= <- <-]; by eapply remove_file_keeps|].
  destruct (reclaim_loop env av pr req fs s1) as [s2 rem] eqn:Hl.
  intros [= <- <-] Hst. eapply (IH s1 s2 rem); [done|done|]. by eapply remove_file_keeps.
Qed.

(** An active path is never collected. *)
Lemma active_not_collected cfg active st dir name :
  store_names_unique st → path_is_active_segment active dir name = true →
  Forall names_ok (retention_sort (collect_closed_segments cfg active st)) ∧
  (dir, name) ∉ map path_of (retention_sort (collect_closed_segments cfg active st)).
Proof.
  intros Hu Ha. destruct (collect_closed_ok cfg active st Hu) as [Hcf _].
  rewrite <- (retention_sort_perm (collect_closed_segments cfg active st)) in Hcf. split.
  - eapply Forall_impl; [exact Hcf|]. intros f (d & g & _ & _ & _ & _ & E2 & _ & E4 & _).
    split; [by eapply segment_seq_range|]. by rewrite E2.
  - intros (f & Hf & Hin)%list_elem_of_fmap. rewrite Forall_forall in Hcf.
    destruct (Hcf f Hin) as (d & g & _ & _ & _ & E1 & E2 & _ & _ & E5 & _). unfold path_of in Hf. congruence.
Qed.

(** C37: open segments.  Neither [retention_enforce] nor the reclaim for another
    priority ever removes or changes a segment that a writer has open, whatever
    fails on the way. *)
Theorem retention_spares_active env w cfg active available priority required boots st dir g seq :
  store_names_unique st → path_is_active_segment active dir (df_name g) = true →
  segment_seq_from_name (df_name g) = Some seq → still_there st dir g →
  still_there (retention_enforce env w cfg active boots st).1.2 dir g ∧
  still_there (retention_reclaim_lower_priority env w cfg active available priority required boots st).1.2 dir g.
Proof.
  intros Hu Ha Hseq Hst. destruct (active_not_collected cfg active st dir (df_name g) Hu Ha) as [Hn Hnot].
  assert (Hsame : ∀ removed s, still_there s dir g → still_there (after_removal env w removed boots s).2 dir g).
  { intros removed s (d & Hd & ?). exists d. by rewrite after_removal_dirs. }
  split.
  - unfold retention_enforce. destruct (enforce_loop _ _ _ _) as [s removed] eqn:Hl. cbn [fst].
    apply Hsame. by eapply enforce_loop_keeps in Hl.
  - unfold retention_reclaim_lower_priority. destruct (available st); [|done]. destruct (_ <=? _); [done|].
    destruct (reclaim_loop _ _ _ _ _ _) as [s removed] eqn:Hl. cbn [fst]. apply Hsame. by eapply reclaim_loop_keeps in Hl.
Qed.

(** ** Making room *)
Lemma reclaim_loop_spec env av pr req fs s s' removed :
  fs_reliable env → reclaim_loop env av pr req fs s = (s', removed) →
  rs_store s' = drop_all env removed (rs_store s) ∧
  removed `prefix_of` List.filter (λ f, pr <? rf_min_priority f) fs ∧
  (∀ r f k, removed = r ++ f :: k → r ≠ [] → room_for av req (drop_all env r (rs_store s)) = false) ∧
  (room_for av req (rs_store s') = true ∨ removed = List.filter (λ f, pr <? rf_min_priority f) fs).
Proof.
  intros [Hu _]. revert s s' removed. induction fs as [|f fs IH]; intros s s' removed; cbn [reclaim_loop List.filter].
  { intros [= <- <-]. split_and!; [done|done| |by right]. intros [|] ? ?; done. }
  rewrite Z.leb_antisym. destruct (pr <? rf_min_priority f) eqn:Hp; cbn [negb]; [|by apply IH].
  unfold retention_remove_file. rewrite Hu. cbn [rs_store].
  destruct (room_for av req (drop_segment env f (rs_store s))) eqn:Hroom.
  - intros [= <- <-]. split_and!; [done|apply prefix_cons, prefix_nil| |by left].
    intros [|x [|]] f' k [=]; done.
  - set (s1 := mkRetentionState _ _ _). destruct (reclaim_loop env av pr req fs s1) as [s2 rem] eqn:Hl. intros [= <- <-].
    destruct (IH s1 s2 rem Hl) as (H1 & H2 & H3 & H4). split_and!; [done|by apply prefix_cons| |].
    + intros [|x r] f' k Heq Hne; [done|]. injection Heq as <- Heq. cbn [drop_all fold_left]. destruct r as [|y r]; [exact Hroom|].
      by apply (H3 (y :: r) f' k Heq).
    + destruct H4 as [H4|H4]; [by left|right; by rewrite H4].
Qed.

(** Making room.  Reclaiming for [priority] removes only closed segments of
    groups whose every priority is less important, in the removal order, stops as
    soon as there is room, and otherwise goes on until none is left; with enough
    room to start with it does nothing.  (Removals are assumed to succeed.) *)
Theorem reclaim_least_important_first env w cfg active available priority required boots st boots' st' removed :
  fs_reliable env →
  retention_reclaim_lower_priority env w cfg active available priority required boots st = (boots', st', removed) →
  let candidates := List.filter (λ f, priority <? rf_min_priority f)
                      (retention_sort (collect_closed_segments cfg active st)) in
  removed `prefix_of` candidates ∧
  (∀ r f k, removed = r ++ f :: k → room_for available required (drop_all env r st) = false) ∧
  (available st = None ∨ room_for available required (drop_all env removed st) = true ∨ removed = candidates) ∧
  st_dirs st' = st_dirs (drop_all env removed st).
Proof.
  intros Hrel. unfold retention_reclaim_lower_priority. cbv zeta. destruct (available st) as [a|] eqn:Hav.
  2: { intros [= <- <- <-]. split_and!; [apply prefix_nil|intros [|] ? ?; done|by left|done]. }
  destruct (Z.leb_spec required a) as [Hle|Hlt].
  { intros [= <- <- <-]. split_and!; [apply prefix_nil|intros [|] ? ?; done| |done]. right. left.
    unfold room_for. cbn [drop_all fold_left]. rewrite Hav. by apply Z.leb_le. }
  destruct (reclaim_loop _ _ _ _ _ _) as [s rem] eqn:Hl. intros [= Ha Hrem]. subst rem.
  destruct (reclaim_loop_spec _ _ _ _ _ _ _ _ Hrel Hl) as (H1 & H2 & H3 & H4). cbn [rs_store] in *.
  split_and!; [done| |rewrite <- H1; by right|].
  - intros [|x r] f k Heq; [|by apply (H3 (x :: r) f k Heq)]. unfold room_for. cbn [drop_all fold_left]. rewrite Hav.
    apply Z.leb_gt. lia.
  - pose proof (f_equal (st_dirs ∘ snd) Ha) as Hdirs. cbn in Hdirs. by rewrite <- Hdirs, after_removal_dirs, H1.
Qed.
End limits.

(** ** A concrete store *)
#[local] Existing Instance toy_lib.
#[local] Existing Instance toy_flatcc.
#[local] Existing Instance toy_regex.
#[local] Existing Instance toy_jansson.

Definition limited_config : RecorderConfig :=
  let c := recorder_config_init in
  mkRecorderConfig false true false false false true false false false [] [] true 3 32 60
    700 0 (4 * 1024 * 1024) 900 true 256 true None (replicate 8 None) [] (cfg_groups c) (cfg_priority_to_group c).
Definition demo_segment (name : string) : DirFile := mkDirFile (C name) (f_data (demo_data None)) 5.
Definition demo_full_store : Store :=
  mkStore [mkLogDir (C "p1") [demo_segment "9.seg"];
           mkLogDir (C "p3") [demo_segment "8.seg"; demo_segment "7.seg"; mkDirFile (C "7.idx") [1; 2; 3] 5]] [].
Definition good_write : AtomicEnv := mkAtomicEnv 20 true true 100000 true true true ENOSPC.

Lemma demo_store_unique : store_names_unique demo_full_store.
Proof.
  split; [apply (bool_decide_unpack (NoDup (map ld_name (st_dirs demo_full_store)))); vm_compute; exact I|].
  repeat (apply Forall_cons; split);
    [apply (bool_decide_unpack (NoDup (map df_name [demo_segment "9.seg"]))); vm_compute; exact I
    |apply (bool_decide_unpack (NoDup (map df_name [demo_segment "8.seg"; demo_segment "7.seg"; mkDirFile (C "7.idx") [1; 2; 3] 5])));
     vm_compute; exact I|apply Forall_nil; done].
Qed.

(** The oldest segment of the less important group goes, which is enough. *)
Lemma retention_enforces_limits_witness :
  let r := retention_enforce demo_env good_write limited_config [] [] demo_full_store in
  map rf_name r.2 = [C "7.seg"] ∧ map rf_name (closed_segments limited_config [] r.1.2) = [C "9.seg"; C "8.seg"] ∧
  dirs_bytes (st_dirs r.1.2) <= 700.
Proof.
  intros r. split; [vm_compute; reflexivity|]. split; [vm_compute; reflexivity|].
  destruct (retention_enforces_limits demo_env good_write limited_config [] [] demo_full_store r.1.1 r.1.2 r.2)
    as (_ & Hl & _); [exact demo_reliable|exact demo_store_unique|vm_compute; congruence|vm_compute; congruence|vm_compute; congruence|
      rewrite <- !surjective_pairing; reflexivity|].
  apply Hl; [discriminate|]. vm_compute. discriminate.
Defined.

Lemma retention_spares_active_witness :
  still_there (retention_enforce demo_env good_write limited_config [(C "p3", C "7.seg")] [] demo_full_store).1.2
    (C "p3") (demo_segment "7.seg").
Proof.
  assert (Hst : still_there demo_full_store (C "p3") (demo_segment "7.seg")).
  { eexists. split; [right; left|]. split; [reflexivity|]. right. left. }
  exact (proj1 (retention_spares_active demo_env good_write limited_config [(C "p3", C "7.seg")] (λ _, None) 0 0 []
    demo_full_store (C "p3") (demo_segment "7.seg") 7 demo_store_unique eq_refl eq_refl Hst)).
Defined.

Lemma reclaim_least_important_first_witness :
  let r := retention_reclaim_lower_priority demo_env good_write limited_config [] (λ st, Some (1000 - store_bytes st))
             2 600 [] demo_full_store in
  map rf_name r.2 = [C "7.seg"; C "8.seg"] ∧
  room_for (λ st, Some (1000 - store_bytes st)) 600 (drop_all demo_env [hd (mkRetainedFile [] [] 0 0 0 0 0) r.2] demo_full_store) = false.
Proof.
  intros r. split; [vm_compute; reflexivity|].
  destruct (reclaim_least_important_first demo_env good_write limited_config [] (λ st, Some (1000 - store_bytes st)) 2 600 []
    demo_full_store r.1.1 r.1.2 r.2 demo_reliable) as (_ & H & _); [rewrite <- !surjective_pairing; reflexivity|].
  assert (Hr : ∃ a b, r.2 = [a; b]) by (vm_compute; eauto). destruct Hr as (a & b & Hr). rewrite Hr in H |- *.
  exact (H [a] b [] eq_refl).
Defined.
