(* ===== verification/Writer.v ===== *)
(** * The segment writer (src/src/recorder.c)

    [PriorityWriter] and the operations that open, fill, flush and close the
    segment of one priority group.  The fields of the struct are grouped by when
    they change; the path buffers are functions of group name and number.

    What the system calls of one operation answer is an argument ([FlushIo],
    [CloseIo]); [ftello] and the memory allocations are assumed to succeed, and
    the monotonic clock to read the same second during one operation.  A write
    reaches the file when [fwrite] accepts it. *)
From S2P Require Import Prelude Bytes Crypto Segment Models Chunk Index Entry.

Definition CHUNK_SIZE : Z := 512.

(** zstd at level 1 into a buffer of [ZSTD_compressBound] bytes; [None] is a
    result for which [ZSTD_isError] holds. *)
Class WriterLib := {
  writer_flatcc :: FlatCC;
  ZSTD_compress : bytes → option bytes;
  ZSTD_compress_usingDict : bytes → bytes → option bytes;     (* source, dictionary *)
}.

(** Decompressing into a buffer of the original size gives the original. *)
Class WriterLib_ok (W : WriterLib) := {
  ZSTD_decompress_compress : ∀ raw c, ZSTD_compress raw = Some c → ZSTD_decompress (zlen raw) c = Some raw;
  ZSTD_decompress_compress_usingDict : ∀ raw dict c,
    ZSTD_compress_usingDict raw dict = Some c → ZSTD_decompress_usingDict (zlen raw) c dict = Some raw;
}.

(** What is fixed when a segment is opened. *)
Record WriterSegment := mkWriterSegment {
  ws_index_header : SegmentHeader;
  ws_boot_seq : Z;
  ws_clock_jump_seen_seq : Z;
  ws_first_realtime_ts : Z;
  ws_first_monotonic_ts : Z;
  ws_opened_mono_sec : Z;
  ws_compress_enabled : bool;
  ws_compress_min_frame_bytes : Z;
  ws_compress_if_smaller : bool;
  ws_use_compact_entries : bool;
  ws_durable_per_frame : bool;
  ws_durability_flush_frames : Z;
  ws_durability_flush_interval_sec : Z;
  ws_dict_bytes : bytes;                 (* empty: NULL or [dict_len == 0] *)
}.

(** What every entry updates. *)
Record WriterStats := mkWriterStats {
  wt_entry_count : Z;
  wt_previous_realtime_ts : Z;
  wt_max_realtime_ts : Z;
  wt_last_monotonic_ts : Z;
  wt_realtime_nonmonotonic : bool;
}.

Section writer.
Context `{W : WriterLib}.

(** What every frame updates. *)
Record WriterFile := mkWriterFile {
  wf_fp : File;
  wf_encryptor : option SegmentEncryptor;
  wf_index_writer : IndexWriter;
  wf_bytes_written : Z;
  wf_unsynced_frames : Z;
  wf_last_sync_mono_sec : Z;
}.

(** While [pw_open] is false, [fp], [encryptor] and [index_writer] are NULL in the
    program; here the files keep their last content. *)
Record PriorityWriter := mkPriorityWriter {
  pw_open : bool;
  pw_group_index : Z;
  pw_group_name : bytes;
  pw_segment_seq : Z;
  pw_boot_id : bytes;
  pw_timezone : bytes;
  pw_segment : WriterSegment;
  pw_stats : WriterStats;
  pw_file : WriterFile;
  pw_last_chunk_flush_mono_sec : Z;
  pw_entries : list FullEntry;             (* entries[0 .. count) *)
  pw_compact_entries : list CompactEntry;  (* compact_entries[0 .. count) *)
}.

Definition pw_count (w : PriorityWriter) : Z :=
  if ws_use_compact_entries (pw_segment w) then zlen (pw_compact_entries w) else zlen (pw_entries w).

(** ** Flushing a chunk *)

(** Results of [fflush] after the frame and of the sync when one is due. *)
Record FlushIo := mkFlushIo {
  fl_fflush : Res unit;
  fl_sync : Res unit;
}.

Definition finalize_chunk (w : PriorityWriter) : bytes :=
  if ws_use_compact_entries (pw_segment w)
  then journal_DefaultChunk_create (pw_compact_entries w)
  else journal_Chunk_create (pw_entries w).

(** Frame flags and stored bytes. *)
Definition compress_chunk (s : WriterSegment) (raw : bytes) : Z * bytes :=
  if ws_compress_enabled s && (ws_compress_min_frame_bytes s <=? zlen raw)
  then
    let compressed :=
      if zlen (ws_dict_bytes s) =? 0 then ZSTD_compress raw
      else ZSTD_compress_usingDict raw (ws_dict_bytes s) in
    match compressed with
    | Some c =>
        if negb (ws_compress_if_smaller s) || (zlen c <? zlen raw)
        then (SEGMENT_FRAME_FLAG_ZSTD, c) else (SEGMENT_FRAME_FLAG_NONE, raw)
    | None => (SEGMENT_FRAME_FLAG_NONE, raw)
    end
  else (SEGMENT_FRAME_FLAG_NONE, raw).

Definition interval_due (s : WriterSegment) (f : WriterFile) (now : Z) : bool :=
  negb (ws_durability_flush_interval_sec s =? 0)
  && (ws_durability_flush_interval_sec s <=? now - wf_last_sync_mono_sec f).
Definition flush_sync_due (s : WriterSegment) (f : WriterFile) (now : Z) : bool :=
  ws_durable_per_frame s
  || (negb (ws_durability_flush_frames s =? 0) && (ws_durability_flush_frames s <=? wf_unsynced_frames f))
  || interval_due s f now.

(** The body of [writer_flush_chunk] up to [out:]. *)
Definition write_chunk (io : FlushIo) (now : Z) (w : PriorityWriter) : Res unit * WriterFile :=
  let s := pw_segment w in
  let f := pw_file w in
  let raw := finalize_chunk w in
  if UINT32_MAX <? zlen raw then (Err EUNSET, f)
  else
    let '(frame_flags, stored) := compress_chunk s raw in
    let stored_size32 := u32 (zlen stored) in
    let frame_offset := zlen (f_data (wf_fp f)) in
    let '(r, fp, encryptor) :=
      segment_write_frame (wf_fp f) (wf_encryptor f) frame_flags (ztake stored_size32 stored) (zlen raw) in
    let f1 := mkWriterFile fp encryptor (wf_index_writer f) (wf_bytes_written f)
                (wf_unsynced_frames f) (wf_last_sync_mono_sec f) in
    match (let? _ := r in fl_fflush io) with
    | Err e => (Err e, f1)
    | Ok _ =>
        let frame_info :=
          mkSegmentFrameInfo frame_flags stored_size32 (zlen raw) frame_offset
            (u32 (16 + stored_size32 + 4 + match encryptor with Some _ => 16 | None => 0 end)) in
        let '(ri, index_writer) :=
          index_writer_append (wf_index_writer f) (ws_index_header s) frame_info raw in
        match ri with
        | Err e => (Err e, mkWriterFile fp encryptor index_writer (wf_bytes_written f)
                             (wf_unsynced_frames f) (wf_last_sync_mono_sec f))
        | Ok _ =>
            let f2 := mkWriterFile fp encryptor index_writer (zlen (f_data fp))
                        (u32 (wf_unsynced_frames f + 1)) (wf_last_sync_mono_sec f) in
            if flush_sync_due s f2 now
            then match fl_sync io with
                 | Err e => (Err e, f2)
                 | Ok _ => (Ok tt, mkWriterFile fp encryptor index_writer (zlen (f_data fp)) 0 now)
                 end
            else (Ok tt, f2)
        end
    end.

(** [out:] clears the builder and the count whether the frame was written or not. *)
Definition clear_chunk (now : Z) (f : WriterFile) (w : PriorityWriter) : PriorityWriter :=
  mkPriorityWriter (pw_open w) (pw_group_index w) (pw_group_name w) (pw_segment_seq w) (pw_boot_id w)
    (pw_timezone w) (pw_segment w) (pw_stats w) f now [] [].

Definition writer_flush_chunk (io : FlushIo) (now : Z) (w : PriorityWriter) : Res unit * PriorityWriter :=
  if pw_count w =? 0 then (Ok tt, w)
  else let '(r, f) := write_chunk io now w in (r, clear_chunk now f w).

(** ** Taking an entry *)

(** The part of [recorder_submit_entry] between opening and flushing. *)
Definition add_stats (entry : LogEntry) (t : WriterStats) : WriterStats :=
  mkWriterStats (u64 (wt_entry_count t + 1)) (le_realtime_ts entry)
    (if wt_max_realtime_ts t <? le_realtime_ts entry then le_realtime_ts entry else wt_max_realtime_ts t)
    (le_monotonic_ts entry)
    (wt_realtime_nonmonotonic t || (le_realtime_ts entry <? wt_previous_realtime_ts t)).

Definition append_entry (entry : LogEntry) (w : PriorityWriter) : Res PriorityWriter :=
  let with_entries full compact :=
    mkPriorityWriter (pw_open w) (pw_group_index w) (pw_group_name w) (pw_segment_seq w) (pw_boot_id w)
      (pw_timezone w) (pw_segment w) (add_stats entry (pw_stats w)) (pw_file w)
      (pw_last_chunk_flush_mono_sec w) full compact in
  if ws_use_compact_entries (pw_segment w)
  then match serialize_compact_entry entry with
       | None => Err EUNSET
       | Some ref => Ok (with_entries (pw_entries w) (pw_compact_entries w ++ [ref]))
       end
  else match serialize_entry entry with
       | None => Err EUNSET
       | Some ref => Ok (with_entries (pw_entries w ++ [ref]) (pw_compact_entries w))
       end.

(** ** Closing *)
Record CloseIo := mkCloseIo {
  cl_flush : FlushIo;
  cl_sync : Res unit;
}.

Definition closing_footer (t : WriterStats) (rotation_reason : Z) : SegmentFooter :=
  mkSegmentFooter (if wt_realtime_nonmonotonic t then SEGMENT_FOOTER_FLAG_REALTIME_NONMONOTONIC else 0)
    rotation_reason (wt_entry_count t) (wt_max_realtime_ts t) (wt_last_monotonic_ts t) false.

(** The writer after its files were closed: [forget] is the full clean-up at the
    end of a successful close. *)
Definition closed_writer (forget : bool) (f : WriterFile) (w : PriorityWriter) : PriorityWriter :=
  let s := pw_segment w in
  mkPriorityWriter false (pw_group_index w) (pw_group_name w) (pw_segment_seq w)
    (if forget then [] else pw_boot_id w) (if forget then [] else pw_timezone w)
    (mkWriterSegment (ws_index_header s) (ws_boot_seq s) (ws_clock_jump_seen_seq s) (ws_first_realtime_ts s)
       (ws_first_monotonic_ts s) (ws_opened_mono_sec s) (ws_compress_enabled s)
       (ws_compress_min_frame_bytes s) (ws_compress_if_smaller s) (ws_use_compact_entries s)
       (ws_durable_per_frame s) (ws_durability_flush_frames s) (ws_durability_flush_interval_sec s)
       (if forget then [] else ws_dict_bytes s))
    (pw_stats w) f (pw_last_chunk_flush_mono_sec w) (pw_entries w) (pw_compact_entries w).

Definition writer_close_segment (io : CloseIo) (now : Z) (rotation_reason : Z) (w : PriorityWriter)
    : Res unit * PriorityWriter :=
  if negb (pw_open w) then (Ok tt, w)
  else
    match writer_flush_chunk (cl_flush io) now w with
    | (Err e, w1) => (Err e, w1)
    | (Ok _, w1) =>
        let f := pw_file w1 in
        let '(r, fp) := segment_write_footer (wf_fp f) (closing_footer (pw_stats w1) rotation_reason) in
        let after iw bytes_written :=
          mkWriterFile fp None iw bytes_written (wf_unsynced_frames f) (wf_last_sync_mono_sec f) in
        match (let? _ := r in cl_sync io) with
        | Err e => (Err e, closed_writer false (after (wf_index_writer f) (wf_bytes_written f)) w1)
        | Ok _ =>
            let bytes_written := zlen (f_data fp) in
            let '(ri, index_fp) := index_writer_close (wf_index_writer f) bytes_written in
            let iw := mkIndexWriter index_fp (iw_record_count (wf_index_writer f)) in
            match ri with
            | Err e => (Err e, closed_writer false (after iw bytes_written) w1)
            | Ok _ => (Ok tt, closed_writer true (after iw bytes_written) w1)
            end
        end
    end.

(** A sync outside a flush; [sync] is how it goes. *)
Definition writer_sync_if_due (sync : Res unit) (now : Z) (w : PriorityWriter) : Res unit * PriorityWriter :=
  let s := pw_segment w in
  let f := pw_file w in
  if negb (pw_open w) || (wf_unsynced_frames f =? 0) then (Ok tt, w)
  else if ws_durable_per_frame s || interval_due s f now
  then match sync with
       | Err e => (Err e, w)
       | Ok _ =>
           (Ok tt, mkPriorityWriter (pw_open w) (pw_group_index w) (pw_group_name w) (pw_segment_seq w)
                     (pw_boot_id w) (pw_timezone w) (pw_segment w) (pw_stats w)
                     (mkWriterFile (wf_fp f) (wf_encryptor f) (wf_index_writer f) (wf_bytes_written f) 0 now)
                     (pw_last_chunk_flush_mono_sec w) (pw_entries w) (pw_compact_entries w))
       end
  else (Ok tt, w).

(** ** A new writer *)
Definition zero_header : SegmentHeader := mkSegmentHeader 0 0 0 [] [] 0 0 0.
Definition zero_file : WriterFile := mkWriterFile (mkFile [] 0 EUNSET) None (mkIndexWriter (mkFile [] 0 EUNSET) 0) 0 0 0.
Definition writer_init (group_name : bytes) (group_index : Z) : PriorityWriter :=
  mkPriorityWriter false group_index group_name 0 [] []
    (mkWriterSegment zero_header 0 0 0 0 0 false 0 false false false 0 0 [])
    (mkWriterStats 0 0 0 0 false) zero_file 0 [] [].
End writer.
