(* ===== verification/WriterProofs.v ===== *)
(** * What a segment writer keeps

    An open writer stands for the list of entries it has taken: those in the
    frames of its file, then those still in the builder.  Taking, flushing and
    closing keep that correspondence, and the closed file scans back to exactly
    that list. *)
From S2P Require Import Prelude Bytes Crypto Segment SegmentImage SegmentScan SegmentWrite Models SegmentSpec.
From S2P Require Import Chunk ChunkModel Index Entry Writer.

(** ** Entries as a reader sees them *)
Inductive StoredEntry :=
  | StoredCompact (e : CompactEntry)
  | StoredFull (e : FullEntry).
#[export] Instance StoredEntry_eq_dec : EqDecision StoredEntry.
Proof. solve_decision. Defined.

Definition stored_of (compact : bool) (e : LogEntry) : option StoredEntry :=
  if compact then StoredCompact <$> serialize_compact_entry e else StoredFull <$> serialize_entry e.

(** ** The summary in the footer *)
Definition realtimes (es : list LogEntry) : list Z := map le_realtime_ts es.

Definition open_stats (rt mono : Z) : WriterStats := mkWriterStats 0 rt rt mono false.
Definition add_all (es : list LogEntry) (t : WriterStats) : WriterStats :=
  fold_left (λ t e, add_stats e t) es t.

(** The footer of a segment that holds [es]: number of entries, largest realtime
    stamp, last monotonic stamp, and whether the realtime stamps ever decrease. *)
Record footer_summarises (ft : SegmentFooter) (reason : Z) (es : list LogEntry) : Prop := {
  fs_reason : sf_rotation_reason ft = reason;
  fs_count : sf_entry_count ft = u64 (zlen es);
  fs_max_upper : Forall (λ e, le_realtime_ts e <= sf_last_realtime_ts ft) es;
  fs_max_taken : ∃ e, e ∈ es ∧ le_realtime_ts e = sf_last_realtime_ts ft;
  fs_last : ∃ e, list.last es = Some e ∧ le_monotonic_ts e = sf_last_monotonic_ts ft;
  fs_order : has_flag (sf_footer_flags ft) SEGMENT_FOOTER_FLAG_REALTIME_NONMONOTONIC = false ↔
             Sorted Z.le (realtimes es);
}.

Lemma add_all_app es1 es2 t : add_all (es1 ++ es2) t = add_all es2 (add_all es1 t).
Proof. apply fold_left_app. Qed.

Lemma sorted_snoc (l : list Z) x y :
  Sorted Z.le ((l ++ [x]) ++ [y]) ↔ Sorted Z.le (l ++ [x]) ∧ x <= y.
Proof.
  induction l as [|a l IH]; cbn.
  - split; [|intros [_ H]; by repeat constructor].
    intros H. split; [by repeat constructor|]. apply Sorted_inv in H as [_ H]. by apply HdRel_inv in H.
  - split.
    + intros [Hs Hh]%Sorted_inv. apply IH in Hs as [Hs Hxy]. split; [|done]. constructor; [done|].
      destruct l; cbn in *; by apply HdRel_inv in Hh; constructor.
    + intros [[Hs Hh]%Sorted_inv Hxy]. constructor; [by apply IH|].
      destruct l; cbn in *; by apply HdRel_inv in Hh; constructor.
Qed.

(** The running summary of a non-empty list that starts with the entry the
    segment was opened for. *)
Lemma add_all_spec e0 es :
  let t := add_all (e0 :: es) (open_stats (le_realtime_ts e0) (le_monotonic_ts e0)) in
  let l := e0 :: es in
  wt_entry_count t = u64 (zlen l) ∧
  Forall (λ e, le_realtime_ts e <= wt_max_realtime_ts t) l ∧
  (∃ e, e ∈ l ∧ le_realtime_ts e = wt_max_realtime_ts t) ∧
  (∃ e, list.last l = Some e ∧ le_monotonic_ts e = wt_last_monotonic_ts t ∧
        le_realtime_ts e = wt_previous_realtime_ts t) ∧
  (wt_realtime_nonmonotonic t = false ↔ Sorted Z.le (realtimes l)).
Proof.
  induction es as [|e es IH] using rev_ind; cbv zeta.
  - cbn. rewrite !Z.ltb_irrefl. split_and!; try done.
    + by repeat constructor.
    + exists e0. split; [by apply list_elem_of_singleton|done].
    + by exists e0.
    + split; [intros _; by repeat constructor|done].
  - rewrite app_comm_cons, add_all_app. set (t := add_all (e0 :: es) _) in *.
    clearbody t. destruct IH as (Hc & Hu & (em & Hem & Hmax) & (el & Hel & Hmono & Hprev) & Hs).
    unfold add_all. cbn [fold_left]. unfold add_stats. cbn [wt_entry_count wt_max_realtime_ts
      wt_last_monotonic_ts wt_previous_realtime_ts wt_realtime_nonmonotonic].
    split_and!.
    + rewrite Hc. unfold u64, zlen. rewrite length_app, Zplus_mod_idemp_l. f_equal. cbn. lia.
    + apply Forall_app. split.
      * eapply Forall_impl; [exact Hu|]. cbv beta. intros x Hx. destruct (Z.ltb_spec (wt_max_realtime_ts t) (le_realtime_ts e)); lia.
      * constructor; [|constructor]. destruct (Z.ltb_spec (wt_max_realtime_ts t) (le_realtime_ts e)); lia.
    + destruct (Z.ltb_spec (wt_max_realtime_ts t) (le_realtime_ts e)).
      * exists e. split; [apply elem_of_app; right; by apply list_elem_of_singleton|done].
      * exists em. split; [apply elem_of_app; by left|done].
    + exists e. by rewrite last_snoc.
    + assert (Hl : ∃ l', realtimes (e0 :: es) = l' ++ [le_realtime_ts el]).
      { apply last_Some in Hel as [l' ->]. exists (realtimes l'). apply map_app. }
      destruct Hl as [l' Hl]. unfold realtimes in *. rewrite map_app. setoid_rewrite Hl.
      cbn [map]. by rewrite sorted_snoc, <-Hl, <-Hs, orb_false_iff, Z.ltb_ge, Hprev.
Qed.

(** ** The entries of an open writer *)
Section holds.
Context `{W : WriterLib} `{!WriterLib_ok W} `{!FlatCC_ok writer_flatcc} `{!OpenSSL_ok seg_openssl}.

Definition entries_of_chunk (h : SegmentHeader) (chunk : bytes) : list StoredEntry :=
  if has_flag (sh_flags h) SEGMENT_FLAG_COMPACT_ENTRIES
  then map StoredCompact (journal_DefaultChunk_entries chunk)
  else map StoredFull (journal_Chunk_entries chunk).

(** A reader that collects every entry of every chunk. *)
Definition collect_entries : segment_frame_cb (list StoredEntry) :=
  λ h _ chunk acc, (0, acc ++ entries_of_chunk h chunk).

(** The entries in the builder. *)
Definition pending_entries (w : PriorityWriter) : list StoredEntry :=
  if ws_use_compact_entries (pw_segment w)
  then map StoredCompact (pw_compact_entries w) else map StoredFull (pw_entries w).

(** The settings of the segment agree with its header. *)
Record segment_settings (s : WriterSegment) : Prop := {
  st_header_wf : header_wf (ws_index_header s);
  st_compact : has_flag (sh_flags (ws_index_header s)) SEGMENT_FLAG_COMPACT_ENTRIES = ws_use_compact_entries s;
  st_dict : zlen (ws_dict_bytes s) ≠ 0 → has_flag (sh_flags (ws_index_header s)) SEGMENT_FLAG_HAS_STATIC_DICT = true;
  st_smaller : ws_compress_enabled s = true → ws_compress_if_smaller s = true;
}.

(** The file holds the header and frames whose chunks, followed by the builder,
    are the serialised [es]. *)
Definition file_holds (w : PriorityWriter) (es : list LogEntry) : Prop :=
  let s := pw_segment w in
  let h := ws_index_header s in
  let dict := ws_dict_bytes s in
  ∃ fp0 enc0 draw0 fp1 enc1 draw1 ps chunks,
    f_data fp0 = [] ∧
    segment_write_header fp0 h dict enc0 draw0 = (Ok tt, fp1, enc1, draw1) ∧
    write_frames fp1 enc1 ps = (Ok tt, wf_fp (pw_file w), wf_encryptor (pw_file w)) ∧
    Forall (λ p, is_u32 p.1.1 ∧ is_u32 p.2) ps ∧
    Forall2 (payload_decodes (with_dict_len h (zlen dict)) dict) ps chunks ∧
    mapM (stored_of (ws_use_compact_entries s)) es =
      Some (concat (map (entries_of_chunk h) chunks) ++ pending_entries w).

Record writer_holds (w : PriorityWriter) (es : list LogEntry) : Prop := {
  wh_open : pw_open w = true;
  wh_settings : segment_settings (pw_segment w);
  wh_wf : Forall entry_wf es;
  wh_stats : pw_stats w =
    add_all es (open_stats (ws_first_realtime_ts (pw_segment w)) (ws_first_monotonic_ts (pw_segment w)));
  wh_first : match es with
    | [] => True
    | e :: _ => le_realtime_ts e = ws_first_realtime_ts (pw_segment w) ∧
                le_monotonic_ts e = ws_first_monotonic_ts (pw_segment w)
    end;
  wh_unused : if ws_use_compact_entries (pw_segment w) then pw_entries w = [] else pw_compact_entries w = [];
  wh_file : file_holds w es;
}.

(** ** Taking an entry *)
Lemma append_pending e w w' :
  append_entry e w = Ok w' →
  pw_open w' = pw_open w ∧ pw_segment w' = pw_segment w ∧ pw_file w' = pw_file w ∧
  pw_stats w' = add_stats e (pw_stats w) ∧
  (if ws_use_compact_entries (pw_segment w) then pw_entries w' = pw_entries w
   else pw_compact_entries w' = pw_compact_entries w) ∧
  ∃ x, stored_of (ws_use_compact_entries (pw_segment w)) e = Some x ∧
       pending_entries w' = pending_entries w ++ [x].
Proof.
  unfold append_entry, pending_entries, stored_of. destruct (ws_use_compact_entries (pw_segment w)) eqn:Hc.
  - destruct (serialize_compact_entry e) as [c|]; [|done]. intros [= <-]. cbn. rewrite Hc.
    split_and!; try done. exists (StoredCompact c). by rewrite map_app.
  - destruct (serialize_entry e) as [c|]; [|done]. intros [= <-]. cbn. rewrite Hc.
    split_and!; try done. exists (StoredFull c). by rewrite map_app.
Qed.

Lemma mapM_snoc {A B} (f : A → option B) l k x y :
  mapM f l = Some k → f x = Some y → mapM f (l ++ [x]) = Some (k ++ [y]).
Proof.
  intros Hl Hx. apply mapM_Some in Hl. apply mapM_Some. apply Forall2_app; [done|]. by repeat constructor.
Qed.

Lemma append_holds e w w' es :
  writer_holds w es → entry_wf e →
  (es = [] → le_realtime_ts e = ws_first_realtime_ts (pw_segment w) ∧
             le_monotonic_ts e = ws_first_monotonic_ts (pw_segment w)) →
  append_entry e w = Ok w' → writer_holds w' (es ++ [e]).
Proof.
  intros [Ho Hset Hwf Hst Hf Hun Hfile] He He0 Ha.
  apply append_pending in Ha as (Ho' & Hseg & Hfile' & Hst' & Hun' & x & Hx & Hp).
  destruct Hfile as (fp0 & enc0 & draw0 & fp1 & enc1 & draw1 & ps & chunks & Hz0 & Hh & Hw & Hps & Hd & Hm).
  split; rewrite ?Hseg; try done.
  - by rewrite Ho'.
  - apply Forall_app. split; [done|]. by constructor.
  - rewrite Hst', Hst, add_all_app. done.
  - destruct es as [|e0 es]; cbn; [by apply He0|done].
  - by destruct (ws_use_compact_entries _); rewrite Hun'.
  - unfold file_holds. rewrite Hseg, Hfile', Hp.
    exists fp0, enc0, draw0, fp1, enc1, draw1, ps, chunks. split_and!; try done.
    rewrite app_assoc. by apply mapM_snoc.
Qed.

(** ** Flushing *)
Lemma write_frames_snoc fp enc ps fp1 enc1 flags payload ulen fp2 enc2 :
  write_frames fp enc ps = (Ok tt, fp1, enc1) →
  segment_write_frame fp1 enc1 flags payload ulen = (Ok tt, fp2, enc2) →
  write_frames fp enc (ps ++ [(flags, payload, ulen)]) = (Ok tt, fp2, enc2).
Proof.
  revert fp enc. induction ps as [|[[fl p] u] ps IH]; intros fp enc; cbn [write_frames app].
  - intros [= -> ->] H. by rewrite H.
  - destruct (segment_write_frame fp enc fl p u) as [[[[]|] ?] ?]; [|done]. apply IH.
Qed.

Lemma pending_wf w es k :
  Forall entry_wf es →
  mapM (stored_of (ws_use_compact_entries (pw_segment w))) es = Some (k ++ pending_entries w) →
  if ws_use_compact_entries (pw_segment w)
  then Forall compact_wf (pw_compact_entries w) else Forall full_wf (pw_entries w).
Proof.
  intros Hwf Hm. unfold pending_entries in Hm. apply mapM_Some in Hm.
  assert (H : Forall (λ x, ∃ e, entry_wf e ∧ stored_of (ws_use_compact_entries (pw_segment w)) e = Some x)
    (k ++ if ws_use_compact_entries (pw_segment w) then map StoredCompact (pw_compact_entries w)
          else map StoredFull (pw_entries w))).
  { clear -Hwf Hm. revert Hwf. induction Hm; intros Hwf; [constructor|].
    apply Forall_cons in Hwf as [? ?]. constructor; [by eexists|auto]. }
  apply Forall_app in H as [_ H]. unfold stored_of in H.
  destruct (ws_use_compact_entries _); rewrite Forall_map in H; (eapply Forall_impl; [exact H|]).
  - intros x (e & He & Hx). cbv beta in *. destruct (serialize_compact_entry e) eqn:E; [|done].
    injection Hx as <-. by eapply serialize_compact_entry_wf.
  - intros x (e & He & Hx). cbv beta in *. destruct (serialize_entry e) eqn:E; [|done].
    injection Hx as <-. by eapply serialize_entry_wf.
Qed.

(** The finished chunk verifies and reads back as the builder's entries. *)
Lemma finalize_reads w es k :
  segment_settings (pw_segment w) → Forall entry_wf es →
  mapM (stored_of (ws_use_compact_entries (pw_segment w))) es = Some (k ++ pending_entries w) →
  entries_of_chunk (ws_index_header (pw_segment w)) (finalize_chunk w) = pending_entries w ∧
  (if ws_use_compact_entries (pw_segment w)
   then journal_DefaultChunk_verify_as_root (finalize_chunk w)
   else journal_Chunk_verify_as_root (finalize_chunk w)) = true.
Proof.
  intros [_ Hc _ _] Hwf Hm. apply pending_wf in Hm; [|done].
  unfold entries_of_chunk, finalize_chunk, pending_entries. rewrite Hc.
  destruct (ws_use_compact_entries (pw_segment w)).
  - split; [by rewrite DefaultChunk_read_create|by apply DefaultChunk_verify_create].
  - split; [by rewrite Chunk_read_create|by apply Chunk_verify_create].
Qed.

(** What is stored of a chunk decompresses to it. *)
Lemma compress_decodes s raw flags stored :
  segment_settings s → zlen raw <= UINT32_MAX → compress_chunk s raw = (flags, stored) →
  is_u32 flags ∧ is_u32 (zlen stored) ∧
  decompress_payload (with_dict_len (ws_index_header s) (zlen (ws_dict_bytes s))) (ws_dict_bytes s)
    (mkSegmentFrameInfo flags (zlen stored) (zlen raw) 0 0) stored = Some raw.
Proof.
  intros [_ _ Hd Hsm] Hraw. pose proof (zlen_nonneg raw) as Hnn. unfold UINT32_MAX in Hraw.
  assert (Hplain : is_u32 SEGMENT_FRAME_FLAG_NONE ∧ is_u32 (zlen raw) ∧
    decompress_payload (with_dict_len (ws_index_header s) (zlen (ws_dict_bytes s))) (ws_dict_bytes s)
      (mkSegmentFrameInfo SEGMENT_FRAME_FLAG_NONE (zlen raw) (zlen raw) 0 0) raw = Some raw).
  { split_and!; [done|unfold is_u32; lia|]. unfold decompress_payload. cbn. by rewrite ztake_ge. }
  unfold compress_chunk. destruct (ws_compress_enabled s && _) eqn:Hen; [|by intros [= <- <-]].
  apply andb_true_iff in Hen as [Hen _]. rewrite (Hsm Hen).
  destruct (if zlen (ws_dict_bytes s) =? 0 then _ else _) as [c|] eqn:Hz; [|by intros [= <- <-]].
  destruct (Z.ltb_spec (zlen c) (zlen raw)); cbn [negb orb]; intros [= <- <-]; [|done].
  pose proof (zlen_nonneg c). split_and!; [done|unfold is_u32; lia|].
  unfold decompress_payload. cbn [fi_stored_len fi_flags fi_uncompressed_len sh_flags sh_dict_len with_dict_len].
  replace (negb (has_flag SEGMENT_FRAME_FLAG_ZSTD SEGMENT_FRAME_FLAG_ZSTD)) with false by done.
  rewrite (ztake_ge (zlen c) c), (ztake_ge (zlen _) (ws_dict_bytes s)) by lia.
  destruct (Z.eqb_spec (zlen (ws_dict_bytes s)) 0) as [Hz0|Hz0].
  - rewrite andb_false_r, (ZSTD_decompress_compress _ _ Hz), Z.eqb_refl. done.
  - rewrite (Hd Hz0). cbn [andb negb].
    rewrite (ZSTD_decompress_compress_usingDict _ _ _ Hz), Z.eqb_refl. done.
Qed.

(** One successful [write_chunk]: one frame more in the file. *)
Lemma write_chunk_ok io now w f' :
  segment_settings (pw_segment w) → write_chunk io now w = (Ok tt, f') →
  ∃ flags stored, is_u32 flags ∧ is_u32 (zlen (finalize_chunk w)) ∧
    decompress_payload (with_dict_len (ws_index_header (pw_segment w)) (zlen (ws_dict_bytes (pw_segment w))))
      (ws_dict_bytes (pw_segment w))
      (mkSegmentFrameInfo flags (zlen stored) (zlen (finalize_chunk w)) 0 0) stored = Some (finalize_chunk w) ∧
    segment_write_frame (wf_fp (pw_file w)) (wf_encryptor (pw_file w)) flags stored (zlen (finalize_chunk w)) =
      (Ok tt, wf_fp f', wf_encryptor f') ∧ wf_bytes_written f' = zlen (f_data (wf_fp f')).
Proof.
  intros Hset. unfold write_chunk. set (raw := finalize_chunk w).
  pose proof (zlen_nonneg raw) as Hnn. destruct (Z.ltb_spec UINT32_MAX (zlen raw)); [done|].
  destruct (compress_chunk (pw_segment w) raw) as [flags stored] eqn:Hc.
  pose proof (compress_decodes _ _ _ _ Hset ltac:(done) Hc) as (Hfl & Hst & Hdec).
  rewrite (u32_id (zlen stored)), (ztake_ge (zlen stored) stored) by (done || lia).
  destruct (segment_write_frame _ _ _ _ _) as [[r fp] enc] eqn:Hwf. destruct r as [[]|]; [|done].
  cbn [rbind]. destruct (fl_fflush io); [|done].
  destruct (index_writer_append _ _ _ _) as [[[]|] iw]; [|done].
  intros Hf. exists flags, stored. unfold UINT32_MAX in *.
  destruct (flush_sync_due _ _ _); [destruct (fl_sync io); [|done]|]; injection Hf as <-;
    (split_and!; try done; unfold is_u32; lia).
Qed.

Lemma flush_holds io now w w' es :
  writer_holds w es → writer_flush_chunk io now w = (Ok tt, w') →
  writer_holds w' es ∧ pending_entries w' = [] ∧ pw_segment w' = pw_segment w.
Proof.
  intros Hw. unfold writer_flush_chunk. destruct (Z.eqb_spec (pw_count w) 0) as [Hz0|Hz0].
  { intros [= <-]. split_and!; try done. unfold pw_count, pending_entries in *.
    destruct (ws_use_compact_entries _), (pw_compact_entries w), (pw_entries w);
      try done; rewrite zlen_cons in Hz0; (match type of Hz0 with context [zlen ?l] => pose proof (zlen_nonneg l) end); lia. }
  destruct (write_chunk io now w) as [r f] eqn:Hc. intros [= -> <-].
  destruct Hw as [Ho Hset Hwf Hst Hf Hun Hfile].
  apply write_chunk_ok in Hc as (flags & stored & Hfl & Hul & Hdec & Hwr & _); [|done].
  destruct Hfile as (fp0 & enc0 & draw0 & fp1 & enc1 & draw1 & ps & chunks & Hd0 & Hh & Hw & Hps & Hd & Hm).
  pose proof (finalize_reads _ _ _ Hset Hwf Hm) as [Hread Hver].
  assert (Hpend : pending_entries (clear_chunk now f w) = []).
  { unfold pending_entries, clear_chunk. cbn. by destruct (ws_use_compact_entries _). }
  split_and!; try done. split; try done; [by cbn; destruct (ws_use_compact_entries _)|].
  exists fp0, enc0, draw0, fp1, enc1, draw1, (ps ++ [(flags, stored, zlen (finalize_chunk w))]),
    (chunks ++ [finalize_chunk w]).
  cbn [clear_chunk pw_segment pw_file]. split_and!; try done.
  - by eapply write_frames_snoc.
  - apply Forall_app. split; [done|]. by apply Forall_singleton.
  - apply Forall2_app; [done|]. constructor; [|constructor]. split; [done|].
    cbn [sh_flags with_dict_len]. rewrite (st_compact _ Hset). done.
  - fold (clear_chunk now f w). rewrite Hpend, app_nil_r, map_app, concat_app. cbn [map concat].
    rewrite app_nil_r, Hread. done.
Qed.

(** ** Closing *)

(** No position before the footer reads as one. *)
Definition no_footer_inside (data : bytes) : Prop :=
  ∀ o, 0 <= o → o + 48 < zlen data → footer_at (zdrop o data) (zlen data - o) = None.

Lemma frame_starts_before encrypted ps : ∀ off,
  Forall (λ o, off <= o ∧ o < off + reqs_size encrypted ps) (frame_starts encrypted off ps).
Proof.
  induction ps as [|p ps IH]; intros off; cbn [frame_starts reqs_size]; [constructor|].
  assert (Hp : 0 < req_size encrypted p).
  { unfold req_size, frame_tag_len, SEGMENT_GCM_TAG_SIZE. pose proof (zlen_nonneg p.1.2). destruct encrypted; lia. }
  assert (Hr : 0 <= reqs_size encrypted ps).
  { clear. induction ps as [|p ps IH]; cbn [reqs_size]; [lia|].
    unfold req_size, frame_tag_len, SEGMENT_GCM_TAG_SIZE. pose proof (zlen_nonneg p.1.2). destruct encrypted; lia. }
  constructor; [lia|]. eapply Forall_impl; [apply IH|]. cbv beta. intros o. lia.
Qed.

(** A segment of header, frames and footer: its size, and that its frame starts
    cannot be mistaken when nothing inside reads as a footer. *)
Lemma written_shape h dict fp1 enc1 ps chunks fp2 enc2 ft fp3 :
  Forall (λ p : request, is_u32 p.1.1 ∧ is_u32 p.2) ps →
  Forall2 (payload_decodes h dict) ps chunks → enc_index enc1 0 →
  write_frames fp1 enc1 ps = (Ok tt, fp2, enc2) →
  segment_write_footer fp2 ft = (Ok tt, fp3) →
  no_footer_inside (f_data fp3) →
  zlen (f_data fp1) <= zlen (f_data fp3) ∧ zlen ps <= zlen (f_data fp3) ∧
  no_false_footer (f_data fp3) (frame_starts (is_encrypted enc1) (zlen (f_data fp1)) ps).
Proof.
  intros Hps Hdec Hi Hw Hft Hno.
  destruct (write_body_images _ _ _ _ _ _ _ _ _ _ Hps Hdec Hi Hw Hft)
    as (fs & Hdata & Hwfs & Hch & Hlen & Hm & _).
  pose proof (match_images (is_encrypted enc1) fs ps Hwfs Hm) as Himg.
  pose proof (zlen_images_ge fs) as Hge.
  assert (Hsz : zlen (f_data fp3) = zlen (f_data fp1) + reqs_size (is_encrypted enc1) ps + 48)
    by (rewrite Hdata, !zlen_app, Himg, zlen_footer_bytes; lia).
  pose proof (zlen_nonneg (f_data fp1)). pose proof (zlen_nonneg (images fs)).
  split_and!; [lia| |].
  - unfold zlen in *. lia.
  - unfold no_false_footer. eapply Forall_impl; [apply frame_starts_before|]. cbv beta.
    intros o Ho. apply Hno; lia.
Qed.

(** Writing keeps the key. *)
Lemma write_frame_opens fp enc fl p u fp' enc' d :
  segment_write_frame fp enc fl p u = (Ok tt, fp', enc') → opens enc' d ↔ opens enc d.
Proof.
  unfold segment_write_frame. destruct enc as [e|]; cycle 1.
  - destruct (_ <? _); [done|]. destruct (write_each _ _) as [r f]. by intros [= _ _ <-].
  - destruct (negb _); [done|]. destruct (_ <? _); [done|]. destruct (se_frame_index e =? UINT64_MAX); [done|]. cbv zeta.
    destruct (recorder_crypto_aes_gcm_encrypt _ _ _ _) as [[[] ct] tag]; try done.
    destruct (write_each _ _) as [r f]. by intros [= _ _ <-].
Qed.

Lemma write_frames_opens fp enc ps fp' enc' d :
  write_frames fp enc ps = (Ok tt, fp', enc') → opens enc' d ↔ opens enc d.
Proof.
  revert fp enc. induction ps as [|[[fl p] u] ps IH]; intros fp enc; cbn [write_frames].
  - by intros [= -> ->].
  - destruct (segment_write_frame fp enc fl p u) as [[[[]|] fp1] enc1] eqn:Hw; [|done].
    intros H. rewrite (IH _ _ H). by eapply write_frame_opens.
Qed.

Lemma flush_opens io now w w' d :
  segment_settings (pw_segment w) → writer_flush_chunk io now w = (Ok tt, w') →
  opens (wf_encryptor (pw_file w')) d ↔ opens (wf_encryptor (pw_file w)) d.
Proof.
  intros Hset. unfold writer_flush_chunk. destruct (pw_count w =? 0); [by intros [= <-]|].
  destruct (write_chunk io now w) as [r f] eqn:Hc. intros [= -> <-].
  apply write_chunk_ok in Hc as (fl & st & _ & _ & _ & Hwr & _); [|done]. by eapply write_frame_opens.
Qed.

(** The running summary gives the footer the contract asks for. *)
Lemma closing_summarises w es reason :
  writer_holds w es → es ≠ [] → footer_summarises (present_footer (closing_footer (pw_stats w) reason)) reason es.
Proof.
  intros Hw Hne. rewrite (wh_stats _ _ Hw). pose proof (wh_first _ _ Hw) as Hf. destruct es as [|e0 es]; [done|].
  destruct Hf as [<- <-]. pose proof (add_all_spec e0 es) as (Hc & Hu & Hm & (e & Hl & Hmono & _) & Hs).
  set (t := add_all _ _) in *. clearbody t. split; try done; cbn [present_footer closing_footer sf_last_monotonic_ts].
  - by exists e.
  - rewrite <-Hs. cbn. by destruct (wt_realtime_nonmonotonic t).
Qed.

Lemma closing_footer_wf w es reason :
  writer_holds w es → es ≠ [] → is_u32 reason → footer_wf (closing_footer (pw_stats w) reason).
Proof.
  intros Hw Hne Hr. pose proof (closing_summarises _ _ reason Hw Hne) as [_ Hc _ (em & Hem & Hmax) (el & Hel & Hmono) _].
  pose proof (wh_wf _ _ Hw) as Hwf. rewrite Forall_forall in Hwf.
  split; cbn in *; try done.
  - unfold is_u32, SEGMENT_FOOTER_FLAG_REALTIME_NONMONOTONIC. destruct (wt_realtime_nonmonotonic _); lia.
  - rewrite Hc. apply u64_range.
  - rewrite <-Hmax. apply Hwf in Hem. apply Hem.
  - rewrite <-Hmono. apply last_Some_elem_of, Hwf in Hel. apply Hel.
Qed.

(** The contract of a closed segment: what a reader finds in [data]. *)
Definition segment_contains (h : SegmentHeader) (compact : bool) (reason : Z) (data : bytes)
    (d : option SegmentDecryptor) (es : list LogEntry) : Prop :=
  ∃ stored ft, mapM (stored_of compact) es = Some stored ∧ footer_summarises ft reason es ∧
    segment_scan_buffer data (zlen data) d (Some collect_entries) [] = ScanDone h ft (zlen data) stored.

Lemma req_size_nonneg enc p : 0 <= req_size enc p.
Proof. unfold req_size. pose proof (zlen_nonneg p.1.2). pose proof (frame_tag_len_nonneg enc). lia. Qed.
Lemma deliveries_from enc ps : ∀ chunks off, 0 <= off →
  Forall (λ x : SegmentFrameInfo * bytes, 0 <= fi_file_offset x.1) (req_deliveries enc 0 off ps chunks).
Proof.
  induction ps as [|p ps IH]; intros [|c chunks] off Hoff; cbn [req_deliveries]; try by constructor.
  destruct (Z.ltb_spec off 0); [lia|]. cbn [app]. constructor; [done|]. apply IH. pose proof (req_size_nonneg enc p). lia.
Qed.
Lemma delivered_chunks enc ps chunks : ∀ off, 0 <= off → length ps = length chunks →
  (req_deliveries enc 0 off ps chunks).*2 = chunks.
Proof.
  revert chunks. induction ps as [|p ps IH]; intros [|c chunks] off Hoff Hl; cbn [req_deliveries]; try done.
  destruct (Z.ltb_spec off 0); [lia|]. cbn [app fmap list_fmap snd]. f_equal. injection Hl as Hl. apply IH; [|done].
  pose proof (req_size_nonneg enc p). lia.
Qed.

(** What any reader is given of [data]: the whole file, and frame after frame
    the chunks that hold the entries [es]. *)
Definition scans_to (h : SegmentHeader) (compact : bool) (data : bytes) (d : option SegmentDecryptor) (es : list LogEntry)
    (ft : SegmentFooter) : Prop :=
  ∃ dels, mapM (stored_of compact) es = Some (concat (map (entries_of_chunk h) dels.*2)) ∧
    Forall (λ x : SegmentFrameInfo * bytes, 0 <= fi_file_offset x.1) dels ∧
    ∀ T (cb : segment_frame_cb T) ctx, cb_total cb →
      segment_scan_buffer data (zlen data) d (Some cb) ctx = ScanDone h ft (zlen data) (feed cb h dels ctx).
Definition writer_header (w : PriorityWriter) : SegmentHeader :=
  with_dict_len (ws_index_header (pw_segment w)) (zlen (ws_dict_bytes (pw_segment w))).

(** What the file of a closed segment is made of: a header, frames that hold the
    entries [es] and a footer that summarises them, as the functions of segment.c
    write them; the footer of the file gives [reason], and [d] opens its frames. *)
Definition closed_image (h : SegmentHeader) (compact : bool) (reason : Z) (data : bytes)
    (d : option SegmentDecryptor) (es : list LogEntry) : Prop :=
  ∃ h0 dict fp0 enc0 draw0 fp1 enc1 draw1 ps chunks fp2 enc2 ft fp3,
    header_wf h0 ∧ footer_wf ft ∧ f_data fp0 = [] ∧ h = with_dict_len h0 (zlen dict) ∧
    segment_write_header fp0 h0 dict enc0 draw0 = (Ok tt, fp1, enc1, draw1) ∧
    write_frames fp1 enc1 ps = (Ok tt, fp2, enc2) ∧
    Forall (λ p : request, is_u32 p.1.1 ∧ is_u32 p.2) ps ∧ Forall2 (payload_decodes h dict) ps chunks ∧
    mapM (stored_of compact) es = Some (concat (map (entries_of_chunk h) chunks)) ∧
    footer_summarises (present_footer ft) reason es ∧ segment_write_footer fp2 ft = (Ok tt, fp3) ∧
    opens enc2 d ∧ data = f_data fp3.

Lemma close_image io now reason w w' es d :
  writer_holds w es → es ≠ [] → is_u32 reason → writer_close_segment io now reason w = (Ok tt, w') →
  opens (wf_encryptor (pw_file w)) d →
  closed_image (writer_header w) (ws_use_compact_entries (pw_segment w)) reason (f_data (wf_fp (pw_file w'))) d es.
Proof.
  intros Hw Hne Hr Hclose Hd.
  unfold writer_close_segment in Hclose. rewrite (wh_open _ _ Hw) in Hclose. cbn [negb] in Hclose.
  destruct (writer_flush_chunk (cl_flush io) now w) as [[[]|] w1] eqn:Hfl; [|done].
  pose proof (proj2 (flush_opens _ _ _ _ d (wh_settings _ _ Hw) Hfl) Hd) as Hd1.
  apply flush_holds with (es := es) in Hfl as (Hw1 & Hpend & Hseg); [|done].
  pose proof (closing_footer_wf _ _ reason Hw1 Hne Hr) as Hftwf.
  pose proof (closing_summarises _ _ reason Hw1 Hne) as Hsum.
  destruct (segment_write_footer _ _) as [[[]|] fp3] eqn:Hft; cbn [rbind] in Hclose; [|done].
  destruct (cl_sync io); [|done]. destruct (index_writer_close _ _) as [[[]|] ifp]; [|done].
  injection Hclose as <-. cbn [closed_writer pw_file wf_fp] in *.
  destruct (wh_file _ _ Hw1) as (fp0 & enc0 & draw0 & fp1 & enc1 & draw1 & ps & chunks & Hd0 & Hh & Hwf & Hps & Hdec & Hm).
  rewrite Hseg in *. rewrite Hpend, app_nil_r in Hm.
  assert (Hset : segment_settings (pw_segment w)) by (pose proof (wh_settings _ _ Hw1) as HH; by rewrite Hseg in HH).
  exists (ws_index_header (pw_segment w)), (ws_dict_bytes (pw_segment w)), fp0, enc0, draw0, fp1, enc1, draw1, ps, chunks,
    (wf_fp (pw_file w1)), (wf_encryptor (pw_file w1)), (closing_footer (pw_stats w1) reason), fp3.
  split_and!; try done. by apply st_header_wf.
Qed.

(** Such a file scans to its entries. *)
Lemma image_scans h compact reason data d es :
  closed_image h compact reason data d es → zlen data <= UINT32_MAX → no_footer_inside data →
  ∃ ft, footer_summarises ft reason es ∧ scans_to h compact data d es ft.
Proof.
  intros (h0 & dict & fp0 & enc0 & draw0 & fp1 & enc1 & draw1 & ps & chunks & fp2 & enc2 & ft & fp3 & Hwf0 & Hftwf & Hd0 & -> &
    Hh & Hwf & Hps & Hdec & Hm & Hsum & Hft & Hd & ->) Hmax Hno.
  pose proof (proj1 (write_frames_opens _ _ _ _ _ d Hwf) Hd) as Hop.
  assert (Hi : enc_index enc1 0) by (by apply write_header_image in Hh as (? & ? & ? & ? & ? & ? & ? & _)).
  destruct (written_shape _ _ _ _ _ _ _ _ _ _ Hps Hdec Hi Hwf Hft Hno) as (Hs1 & Hs2 & Hclear).
  assert (Hlen : length ps = length chunks) by by eapply Forall2_length.
  exists (present_footer ft). split; [done|].
  exists (req_deliveries (is_encrypted enc1) 0 (zlen (f_data fp1)) ps chunks).
  pose proof (zlen_nonneg (f_data fp1)). split_and!.
  - by rewrite delivered_chunks.
  - apply deliveries_from. lia.
  - intros T cb ctx Hcb. unfold segment_scan_buffer.
    apply (scan_written fp0 _ _ enc0 draw0 fp1 enc1 draw1 ps chunks fp2 enc2 ft fp3 d cb ctx 0 Hd0 Hwf0 Hftwf Hh ltac:(lia) Hps);
      try done. unfold UINT32_MAX, UINT64_MAX in *. lia.
Qed.
Lemma close_scans io now reason w w' es d :
  writer_holds w es → es ≠ [] → is_u32 reason → writer_close_segment io now reason w = (Ok tt, w') →
  opens (wf_encryptor (pw_file w)) d →
  let data := f_data (wf_fp (pw_file w')) in
  zlen data <= UINT32_MAX → no_footer_inside data →
  ∃ ft, footer_summarises ft reason es ∧ scans_to (writer_header w) (ws_use_compact_entries (pw_segment w)) data d es ft.
Proof. intros Hw Hne Hr Hclose Hd data. by apply image_scans, (close_image io now reason w w'). Qed.

Lemma feed_collected h dels : ∀ acc, feed collect_entries h dels acc = acc ++ concat (map (entries_of_chunk h) dels.*2).
Proof.
  induction dels as [|[i c] dels IH]; intros acc; cbn; [by rewrite app_nil_r|]. unfold feed in IH. rewrite IH. by rewrite <- app_assoc.
Qed.

Lemma scans_collected h compact data d es ft : scans_to h compact data d es ft →
  ∃ stored, mapM (stored_of compact) es = Some stored ∧
    segment_scan_buffer data (zlen data) d (Some collect_entries) [] = ScanDone h ft (zlen data) stored.
Proof. intros (dels & Hm & _ & Hscan). eexists. split; [exact Hm|]. rewrite Hscan by done. by rewrite feed_collected. Qed.

Lemma image_contains h compact reason data d es :
  closed_image h compact reason data d es → zlen data <= UINT32_MAX → no_footer_inside data →
  segment_contains h compact reason data d es.
Proof.
  intros Hi Hmax Hno. destruct (image_scans _ _ _ _ _ _ Hi Hmax Hno) as (ft & Hsum & (stored & Hm & Hscan)%scans_collected).
  by exists stored, ft.
Qed.

(** The file of an open writer whose builder is empty: no position in it reads as
    a footer. *)
Definition no_footer_in (data : bytes) : Prop :=
  ∀ o, 0 <= o < zlen data → footer_at (zdrop o data) (zlen data - o) = None.

Lemma flushed_scans w es d :
  writer_holds w es → pending_entries w = [] → opens (wf_encryptor (pw_file w)) d →
  let data := f_data (wf_fp (pw_file w)) in
  zlen data <= UINT32_MAX → no_footer_in data →
  scans_to (writer_header w) (ws_use_compact_entries (pw_segment w)) data d es zero_footer.
Proof.
  intros Hw Hp Hd data Hmax Hno. unfold data in *. clear data.
  destruct (wh_file _ _ Hw) as (fp0 & enc0 & draw0 & fp1 & enc1 & draw1 & ps & chunks & Hd0 & Hh & Hwf & Hps & Hdec & Hm).
  rewrite Hp, app_nil_r in Hm. pose proof (proj1 (write_frames_opens _ _ _ _ _ d Hwf) Hd) as Hop.
  assert (Hi : enc_index enc1 0) by (by apply write_header_image in Hh as (? & ? & ? & ? & ? & ? & ? & _)).
  destruct (write_frames_images _ _ _ _ _ _ _ _ _ Hps Hdec Hi Hwf) as (fs & Hdata & Hwfs & Hch & Hlen & Hmt & _).
  pose proof (match_images (is_encrypted enc1) fs ps Hwfs Hmt) as Himg. pose proof (zlen_images_ge fs).
  pose proof (zlen_nonneg (f_data fp1)). pose proof (zlen_nonneg (images fs)).
  assert (Hsz : zlen (f_data (wf_fp (pw_file w))) = zlen (f_data fp1) + reqs_size (is_encrypted enc1) ps)
    by (rewrite Hdata, zlen_app; lia).
  assert (Hpl : length ps = length chunks) by by eapply Forall2_length.
  exists (req_deliveries (is_encrypted enc1) 0 (zlen (f_data fp1)) ps chunks). split_and!.
  - by rewrite delivered_chunks.
  - apply deliveries_from. lia.
  - intros T cb ctx Hcb. unfold segment_scan_buffer.
    apply (scan_unfinished fp0 _ _ enc0 draw0 fp1 enc1 draw1 ps chunks (wf_fp (pw_file w)) (wf_encryptor (pw_file w)) d
      cb ctx 0 Hd0 (st_header_wf _ (wh_settings _ _ Hw)) Hh); try done; try lia.
    + unfold zlen, UINT32_MAX, UINT64_MAX in *. lia.
    + eapply Forall_impl; [apply frame_starts_before|]. cbv beta. intros o Ho. apply Hno. lia.
Qed.

(** C8: a closed segment is complete.  When [writer_close_segment] succeeds on a
    writer that has taken the entries [es], the file it leaves scans, for whoever
    has the key, to exactly those entries in order, and its footer has their number,
    their largest realtime stamp, the last monotonic stamp, whether realtime ever
    went backwards, and the reason of the rotation. *)
Theorem closed_segment_complete io now reason w w' es d :
  writer_holds w es → es ≠ [] → is_u32 reason → writer_close_segment io now reason w = (Ok tt, w') →
  opens (wf_encryptor (pw_file w)) d →
  let data := f_data (wf_fp (pw_file w')) in
  zlen data <= UINT32_MAX → no_footer_inside data →
  ∃ stored ft, mapM (stored_of (ws_use_compact_entries (pw_segment w))) es = Some stored ∧
    footer_summarises ft reason es ∧
    segment_scan_buffer data (zlen data) d (Some collect_entries) [] =
      ScanDone (with_dict_len (ws_index_header (pw_segment w)) (zlen (ws_dict_bytes (pw_segment w))))
        ft (zlen data) stored.
Proof. intros Hw Hne Hr Hclose Hd data. by apply image_contains, (close_image io now reason w w'). Qed.

(** ** Failures *)
Lemma write_frame_grows fp enc fl p u r fp' enc' :
  0 <= f_budget fp → segment_write_frame fp enc fl p u = (r, fp', enc') →
  f_data fp `prefix_of` f_data fp'.
Proof.
  intros Hb. assert (Hw : ∀ bufs r fp1, write_each fp bufs = (r, fp1) → f_data fp `prefix_of` f_data fp1).
  { intros bufs r1 fp1 Hw. destruct (write_each_prefix _ _ _ _ Hb Hw) as (k & _ & ->). by apply prefix_app_r. }
  unfold segment_write_frame. cbv zeta. destruct (match enc with Some _ => _ | None => _ end); [by intros [= _ <- _]|].
  destruct (_ <? _); [by intros [= _ <- _]|]. destruct enc as [e|].
  - destruct (se_frame_index e =? UINT64_MAX); [by intros [= _ <- _]|].
    destruct (recorder_crypto_aes_gcm_encrypt _ _ _ _) as [[[] ct] tag]; try by intros [= _ <- _].
    destruct (write_each _ _) as [r1 fp1] eqn:E. intros [= _ <- _]. by eapply Hw.
  - destruct (write_each _ _) as [r1 fp1] eqn:E. intros [= _ <- _]. by eapply Hw.
Qed.

Lemma flush_grows io now w r w' :
  0 <= f_budget (wf_fp (pw_file w)) → writer_flush_chunk io now w = (r, w') →
  f_data (wf_fp (pw_file w)) `prefix_of` f_data (wf_fp (pw_file w')).
Proof.
  intros Hb. unfold writer_flush_chunk. destruct (pw_count w =? 0); [by intros [= _ <-]|].
  destruct (write_chunk io now w) as [r1 f] eqn:Hc. intros [= _ <-]. cbn. revert Hc.
  unfold write_chunk. cbv zeta. destruct (_ <? _); [by intros [= _ <-]|].
  destruct (compress_chunk _ _) as [fl stored].
  destruct (segment_write_frame _ _ _ _ _) as [[rw fp] enc] eqn:Hw. apply write_frame_grows in Hw; [|done].
  destruct (rbind rw _); [|by intros [= _ <-]].
  destruct (index_writer_append _ _ _ _) as [[|] iw]; [|by intros [= _ <-]].
  destruct (flush_sync_due _ _ _); [destruct (fl_sync io)|]; by intros [= _ <-].
Qed.

Lemma write_footer_grows fp ft r fp' : segment_write_footer fp ft = (r, fp') → f_data fp `prefix_of` f_data fp'.
Proof.
  unfold segment_write_footer, write_all. destruct (has_flag _ _); [by intros [= _ <-]|].
  destruct (_ <=? _); intros [= _ <-]; by apply prefix_app_r.
Qed.

(** Whatever step of [writer_flush_chunk] fails, the builder is emptied, while the
    segment stays open and its counters, which end up in the footer, still include
    its entries: when no complete frame was written, these entries are gone. *)
Lemma failed_flush_empties io now w e w' :
  writer_flush_chunk io now w = (Err e, w') →
  pw_count w ≠ 0 ∧ pw_entries w' = [] ∧ pw_compact_entries w' = [] ∧
  pw_open w' = pw_open w ∧ pw_stats w' = pw_stats w.
Proof.
  unfold writer_flush_chunk. destruct (Z.eqb_spec (pw_count w) 0); [done|].
  destruct (write_chunk io now w) as [r f]. intros [= -> <-]. done.
Qed.

(** Writers only append.  Whatever the system calls answer, taking an entry,
    flushing and closing a segment never change a byte that is already in its
    file, so the frames that were complete stay complete. *)
Theorem writer_only_appends w now :
  0 <= f_budget (wf_fp (pw_file w)) →
  (∀ e w', append_entry e w = Ok w' → f_data (wf_fp (pw_file w')) = f_data (wf_fp (pw_file w))) ∧
  (∀ io r w', writer_flush_chunk io now w = (r, w') →
     f_data (wf_fp (pw_file w)) `prefix_of` f_data (wf_fp (pw_file w'))) ∧
  (∀ io reason r w', writer_close_segment io now reason w = (r, w') →
     f_data (wf_fp (pw_file w)) `prefix_of` f_data (wf_fp (pw_file w'))).
Proof.
  intros Hb. split_and!.
  - intros e w' Ha. by apply append_pending in Ha as (_ & _ & -> & _).
  - intros io r w' Hf. by eapply flush_grows.
  - intros io reason r w' Hc. unfold writer_close_segment in Hc. destruct (negb (pw_open w)); [by injection Hc as _ <-|].
    destruct (writer_flush_chunk _ now w) as [[[]|] w4] eqn:Hf4; apply flush_grows in Hf4; try done.
    2:{ by injection Hc as _ <-. }
    destruct (segment_write_footer _ _) as [rf fp] eqn:Hft. apply write_footer_grows in Hft.
    assert (Hall : f_data (wf_fp (pw_file w)) `prefix_of` f_data fp) by (by etrans).
    destruct (rbind rf _); [|by injection Hc as _ <-].
    destruct (index_writer_close _ _) as [[|] ifp]; by injection Hc as _ <-.
Qed.
End holds.
