(* ===== verification/Recorder.v ===== *)
(** * The recorder: segments, rotation and shutdown (src/src/recorder.c)

    The [Recorder] with its writers and the store they write to, and the
    operations of its life: start-up, taking an entry (with the rotation of the
    segment it would not fit), flushing and shutting down.

    Answers of the system are arguments.  A writer's files are seen in the store
    when an operation on it ends ([publish]): retention, which runs in between,
    looks at closed segments only. *)
From S2P Require Import Prelude Bytes Crypto Segment SegmentWrite Models Chunk Index CText Entry Store Json Boots Config.
From S2P Require Import Retention Writer.

Definition CLOCK_BACKWARD_JUMP_THRESHOLD_USEC : Z := 1000.
Definition CLOCK_FORWARD_JUMP_THRESHOLD_USEC : Z := 1000000.
Definition DEFAULT_SEGMENT_MAX_BYTES : Z := 4 * 1024 * 1024.

Inductive RotateReason :=
  | ROTATE_REASON_NONE
  | ROTATE_REASON_BOOT_ID
  | ROTATE_REASON_TIMEZONE
  | ROTATE_REASON_CLOCK_BACKWARD
  | ROTATE_REASON_CLOCK_FORWARD
  | ROTATE_REASON_AGE
  | ROTATE_REASON_SIZE.
#[export] Instance RotateReason_eq_dec : EqDecision RotateReason.
Proof. solve_decision. Defined.

(** [(uint32_t)decision.reason]. *)
Definition rotate_reason_code (r : RotateReason) : Z :=
  match r with
  | ROTATE_REASON_NONE => 0 | ROTATE_REASON_BOOT_ID => 1 | ROTATE_REASON_TIMEZONE => 2
  | ROTATE_REASON_CLOCK_BACKWARD => 3 | ROTATE_REASON_CLOCK_FORWARD => 4
  | ROTATE_REASON_AGE => 5 | ROTATE_REASON_SIZE => 6
  end.

Record RotateDecision := mkRotateDecision {
  rd_reason : RotateReason;
  rd_delta_diff : Z;
}.

(** What the clocks say during one operation: monotonic seconds, the UTC offset
    that [current_timezone_string] formats, and the time files are stamped with. *)
Record Clock := mkClock {
  ck_mono_sec : Z;
  ck_timezone : bytes;
  ck_time : Z;
}.

Section recorder.
Context `{RX : RegexLib} `{W : WriterLib} `{J : Jansson}.

Record Recorder := mkRecorder {
  r_config : RecorderConfig;
  r_boots : BootRegistry;
  r_next_segment_seq : Z;
  r_writers : list PriorityWriter;      (* writers[0 .. group_count) *)
  r_clock_jump_seq : Z;
  r_clock_jump_usec : Z;
  r_clock_offset : option Z;            (* last_clock_offset_usec once initialized *)
  r_store : Store;
  r_draw : nat;                         (* random bytes drawn so far *)
}.

Definition set_writers (ws : list PriorityWriter) (r : Recorder) : Recorder :=
  mkRecorder (r_config r) (r_boots r) (r_next_segment_seq r) ws (r_clock_jump_seq r)
    (r_clock_jump_usec r) (r_clock_offset r) (r_store r) (r_draw r).
Definition set_store (st : Store) (r : Recorder) : Recorder :=
  mkRecorder (r_config r) (r_boots r) (r_next_segment_seq r) (r_writers r) (r_clock_jump_seq r)
    (r_clock_jump_usec r) (r_clock_offset r) st (r_draw r).
Definition set_boots (b : BootRegistry) (r : Recorder) : Recorder :=
  mkRecorder (r_config r) b (r_next_segment_seq r) (r_writers r) (r_clock_jump_seq r)
    (r_clock_jump_usec r) (r_clock_offset r) (r_store r) (r_draw r).
Definition set_seq (seq : Z) (r : Recorder) : Recorder :=
  mkRecorder (r_config r) (r_boots r) seq (r_writers r) (r_clock_jump_seq r)
    (r_clock_jump_usec r) (r_clock_offset r) (r_store r) (r_draw r).
Definition set_draw (n : nat) (r : Recorder) : Recorder :=
  mkRecorder (r_config r) (r_boots r) (r_next_segment_seq r) (r_writers r) (r_clock_jump_seq r)
    (r_clock_jump_usec r) (r_clock_offset r) (r_store r) n.
Definition set_writer (i : nat) (w : PriorityWriter) (r : Recorder) : Recorder :=
  set_writers (<[i := w]> (r_writers r)) r.

Definition recorder_segment_limit (r : Recorder) : Z :=
  if cfg_segment_max_bytes (r_config r) =? 0 then DEFAULT_SEGMENT_MAX_BYTES
  else cfg_segment_max_bytes (r_config r).

(** ** The clock *)

(** [int64_t] arithmetic on the samples; [-1] is a failed [clock_gettime].  C
    division truncates. *)
Definition recorder_sample_clock (boot1 realtime boot2 : Z) (r : Recorder) : Recorder :=
  let with_clock jump_seq jump_usec offset :=
    mkRecorder (r_config r) (r_boots r) (r_next_segment_seq r) (r_writers r) jump_seq jump_usec
      (Some offset) (r_store r) (r_draw r) in
  if (realtime <? 0) || (boot1 <? 0) || (boot2 <? 0) then r
  else
    let offset := realtime - (boot1 + Z.quot (boot2 - boot1) 2) in
    match r_clock_offset r with
    | None => with_clock (r_clock_jump_seq r) (r_clock_jump_usec r) offset
    | Some last =>
        let jump := offset - last in
        if (jump <? - CLOCK_BACKWARD_JUMP_THRESHOLD_USEC) || (CLOCK_FORWARD_JUMP_THRESHOLD_USEC <? jump)
        then with_clock (u64 (r_clock_jump_seq r + 1)) jump offset
        else with_clock (r_clock_jump_seq r) (r_clock_jump_usec r) offset
    end.

(** ** Rotation *)
Definition writer_should_rotate (ck : Clock) (r : Recorder) (w : PriorityWriter) (entry : LogEntry)
    : RotateDecision :=
  let s := pw_segment w in
  if negb (pw_open w) then mkRotateDecision ROTATE_REASON_NONE 0
  else if negb (ws_clock_jump_seen_seq s =? r_clock_jump_seq r)
  then mkRotateDecision (if r_clock_jump_usec r <? 0 then ROTATE_REASON_CLOCK_BACKWARD
                         else ROTATE_REASON_CLOCK_FORWARD) (r_clock_jump_usec r)
  else if (le_realtime_ts entry <? ws_first_realtime_ts s)
          && (CLOCK_BACKWARD_JUMP_THRESHOLD_USEC <? ws_first_realtime_ts s - le_realtime_ts entry)
  then mkRotateDecision ROTATE_REASON_CLOCK_BACKWARD (- CLOCK_BACKWARD_JUMP_THRESHOLD_USEC)
  else if negb (zlen (pw_boot_id w) =? 0) && negb (zlen (le_boot_id entry) =? 0)
          && negb (beq (pw_boot_id w) (le_boot_id entry))
  then mkRotateDecision ROTATE_REASON_BOOT_ID 0
  else if negb (beq (pw_timezone w) (ck_timezone ck))
  then mkRotateDecision ROTATE_REASON_TIMEZONE 0
  else if negb (cfg_segment_max_age_sec (r_config r) =? 0)
          && (cfg_segment_max_age_sec (r_config r) <=? ck_mono_sec ck - ws_opened_mono_sec s)
  then mkRotateDecision ROTATE_REASON_AGE 0
  else if recorder_segment_limit r <=? wf_bytes_written (pw_file w)
  then mkRotateDecision ROTATE_REASON_SIZE 0
  else mkRotateDecision ROTATE_REASON_NONE 0.

(** ** Files of a group *)
Definition on_dir (dir : bytes) (fn : list DirFile → list DirFile) (st : Store) : Store :=
  mkStore (map (λ d, if beq (ld_name d) dir then mkLogDir (ld_name d) (fn (ld_files d)) else d) (st_dirs st))
    (st_state st).
Definition mkdir_p (dir : bytes) (st : Store) : Store :=
  if existsb (λ d, beq (ld_name d) dir) (st_dirs st) then st
  else mkStore (st_dirs st ++ [mkLogDir dir []]) (st_state st).

(** The files of a writer as the store shows them. *)
Definition publish (now : Z) (w : PriorityWriter) (st : Store) : Store :=
  on_dir (pw_group_name w) (λ files,
    put_file (index_name (pw_segment_seq w)) (f_data (iw_fp (wf_index_writer (pw_file w)))) now
      (put_file (segment_name (pw_segment_seq w)) (f_data (wf_fp (pw_file w))) now files)) st.

(** Group directory and name of every open segment. *)
Definition active_paths (ws : list PriorityWriter) : ActivePaths :=
  map (λ w, (pw_group_name w, segment_name (pw_segment_seq w))) (List.filter pw_open ws).

(** ** Opening a segment *)
Record OpenIo := mkOpenIo {
  op_fs : FsEnv;
  op_mkdir : Res unit;
  op_persist : AtomicEnv;              (* writing [segment_seq] *)
  op_fopen : Res (Z * Errno);          (* room of the new file, errno once it is full *)
  op_slurp : bytes → Res bytes;        (* slurp_file on the dictionary *)
  op_index : option (Z * Errno);       (* the same for the index *)
  op_sync : Res unit;
  op_rename : Res unit;
  op_fsync_dir : Res unit;
}.

Definition new_file (room : Z * Errno) : File := mkFile [] room.1 room.2.

Definition writer_group (r : Recorder) (w : PriorityWriter) : PriorityGroup :=
  default (default_group 0) (cfg_groups (r_config r) !! Z.to_nat (pw_group_index w)).

Definition open_encryptor (cfg : RecorderConfig) : Res (option SegmentEncryptor) :=
  match cfg_encryption_public_key cfg with
  | None => Ok None
  | Some path => let? e := segment_encryptor_create path in Ok (Some e)
  end.
(** An empty dictionary is an error; [[]] when none is configured. *)
Definition open_dict (io : OpenIo) (g : PriorityGroup) : Res bytes :=
  match pg_static_dict_path g with
  | None => Ok []
  | Some path => let? dict := op_slurp io path in if zlen dict =? 0 then Err EUNSET else Ok dict
  end.

Definition new_header (ck : Clock) (r : Recorder) (seq : Z) (entry : LogEntry)
    (encryptor : option SegmentEncryptor) (dict : bytes) : SegmentHeader :=
  let flags :=
    (if config_uses_full_entries (r_config r) then 0 else SEGMENT_FLAG_COMPACT_ENTRIES)
    + (if is_encrypted encryptor then SEGMENT_FLAG_ENCRYPTED else 0)
    + (if zlen dict =? 0 then 0 else SEGMENT_FLAG_HAS_STATIC_DICT) in
  mkSegmentHeader flags seq (le_boot_seq entry) (le_boot_id entry) (ck_timezone ck)
    (le_realtime_ts entry) (le_monotonic_ts entry) 0.

(** The writer once everything succeeded. *)
Definition opened_writer (ck : Clock) (r : Recorder) (w : PriorityWriter) (entry : LogEntry)
    (header : SegmentHeader) (dict : bytes) (fp : File) (encryptor : option SegmentEncryptor)
    (iw : IndexWriter) : PriorityWriter :=
  let cfg := r_config r in
  let g := writer_group r w in
  mkPriorityWriter true (pw_group_index w) (pw_group_name w) (pw_segment_seq w)
    (sh_boot_id header) (sh_timezone header)
    (mkWriterSegment header (le_boot_seq entry) (r_clock_jump_seq r)
       (le_realtime_ts entry) (le_monotonic_ts entry) (ck_mono_sec ck)
       (cfg_compress_enabled cfg) (cfg_compress_min_frame_bytes cfg) (cfg_compress_if_smaller cfg)
       (negb (config_uses_full_entries cfg)) (pg_durable_per_frame g) (pg_durability_flush_frames g)
       (pg_durability_flush_interval_sec g) dict)
    (mkWriterStats 0 (le_realtime_ts entry) (le_realtime_ts entry) (le_monotonic_ts entry) false)
    (mkWriterFile fp encryptor iw (zlen (f_data fp)) 0 (ck_mono_sec ck))
    (ck_mono_sec ck) (pw_entries w) (pw_compact_entries w).

Definition with_seq (seq : Z) (w : PriorityWriter) : PriorityWriter :=
  mkPriorityWriter (pw_open w) (pw_group_index w) (pw_group_name w) seq (pw_boot_id w) (pw_timezone w)
    (pw_segment w) (pw_stats w) (pw_file w) (pw_last_chunk_flush_mono_sec w) (pw_entries w)
    (pw_compact_entries w).

(** From [fopen] on, for the number [seq] that was taken; [st] is the store. *)
Definition create_segment (io : OpenIo) (ck : Clock) (entry : LogEntry) (r : Recorder) (w : PriorityWriter)
    : Res unit * Recorder * PriorityWriter :=
  let seq := pw_segment_seq w in
  let dir := pw_group_name w in
  let now := ck_time ck in
  let tmp := segment_tmp_name seq in
  let put_tmp data := on_dir dir (put_file tmp data now) in
  let drop_tmp := on_dir dir (unlink (op_fs io) dir tmp) in
  let drop_index := on_dir dir (unlink (op_fs io) dir (index_name seq)) in
  match op_fopen io with
  | Err e => (Err e, r, w)
  | Ok room =>
      let st := put_tmp [] (r_store r) in
      match (let? encryptor := open_encryptor (r_config r) in
             let? dict := open_dict io (writer_group r w) in Ok (encryptor, dict)) with
      | Err e => (Err e, set_store (drop_tmp st) r, w)
      | Ok (encryptor0, dict) =>
          let header := new_header ck r seq entry encryptor0 dict in
          let '(rh, fp, encryptor, draw) :=
            segment_write_header (new_file room) header dict encryptor0 (r_draw r) in
          let r := set_draw draw r in
          let st := put_tmp (f_data fp) st in
          match rh with
          | Err e => (Err e, set_store st r, w)
          | Ok _ =>
              match index_writer_open (new_file <$> op_index io) seq (sh_flags header) with
              | Err e => (Err e, set_store (drop_tmp st) r, w)
              | Ok iw =>
                  let st := on_dir dir (put_file (index_name seq) (f_data (iw_fp iw)) now) st in
                  match (let? _ := op_sync io in op_rename io) with
                  | Err e => (Err e, set_store (drop_tmp (drop_index st)) r, w)
                  | Ok _ =>
                      let st := on_dir dir (λ files, put_file (segment_name seq) (f_data fp) now
                                              (remove_name tmp files)) st in
                      match op_fsync_dir io with
                      | Err e => (Err e, set_store (drop_index st) r, w)
                      | Ok _ => (Ok tt, set_store st r, opened_writer ck r w entry header dict fp encryptor iw)
                      end
                  end
              end
          end
      end
  end.

Definition writer_open_segment (io : OpenIo) (ck : Clock) (entry : LogEntry) (r : Recorder) (w : PriorityWriter)
    : Res unit * Recorder * PriorityWriter :=
  match op_mkdir io with
  | Err e => (Err e, r, w)
  | Ok _ =>
      let next := u64 (r_next_segment_seq r + 1) in
      let w1 := with_seq (r_next_segment_seq r) w in
      let '(rp, st) :=
        persist_next_segment_seq (op_fs io) (op_persist io) next (mkdir_p (pw_group_name w) (r_store r)) in
      let r1 := set_store st (set_seq next r) in
      match rp with
      | Err e => (Err e, r1, w1)
      | Ok _ => create_segment io ck entry r1 w1
      end
  end.

(** ** Closing, and taking an entry *)
Record CloseEnv := mkCloseEnv {
  ce_io : CloseIo;
  ce_fs : FsEnv;              (* for retention *)
  ce_boots : AtomicEnv;
}.

Definition run_retention (fs : FsEnv) (boots : AtomicEnv) (r : Recorder) : Recorder :=
  let '(b, st, _) := retention_enforce fs boots (r_config r) (active_paths (r_writers r)) (r_boots r) (r_store r) in
  set_boots b (set_store st r).

Definition recorder_close_writer (io : CloseEnv) (ck : Clock) (i : nat) (w : PriorityWriter)
    (rotation_reason : Z) (r : Recorder) : Res unit * Recorder :=
  let '(res, w') := writer_close_segment (ce_io io) (ck_mono_sec ck) rotation_reason w in
  let r1 := set_writer i w' r in
  let r2 := if pw_open w then set_store (publish (ck_time ck) w' (r_store r1)) r1 else r1 in
  match res with
  | Err e => (Err e, r2)
  | Ok _ => (Ok tt, run_retention (ce_fs io) (ce_boots io) r2)
  end.

Record SubmitIo := mkSubmitIo {
  si_rotate : CloseEnv;
  si_open : OpenIo;
  si_flush : FlushIo;
  si_close : CloseEnv;
}.

(** The index into [writers]; [None] is a priority without a group.  A priority
    above 7 reads past [priority_to_group] in the program. *)
Definition priority_group (cfg : RecorderConfig) (priority : Z) : option nat :=
  gi ← cfg_priority_to_group cfg !! Z.to_nat priority;
  if (0 <=? gi) && (gi <? zlen (cfg_groups cfg)) then Some (Z.to_nat gi) else None.

Definition ensure_open (io : SubmitIo) (ck : Clock) (entry : LogEntry) (i : nat) (r : Recorder) : Res unit * Recorder :=
  match r_writers r !! i with
  | None => (Err EUNSET, r)
  | Some w =>
      if pw_open w then (Ok tt, r)
      else
        let '(res, r1, w1) := writer_open_segment (si_open io) ck entry r w in
        (res, set_writer i w1 r1)
  end.

Definition recorder_ensure_writer (io : SubmitIo) (ck : Clock) (entry : LogEntry) (r : Recorder) : Res unit * Recorder :=
  match priority_group (r_config r) (le_priority entry) with
  | None => (Err EUNSET, r)
  | Some i =>
      match r_writers r !! i with
      | None => (Err EUNSET, r)
      | Some w =>
          let decision := writer_should_rotate ck r w entry in
          if decide (rd_reason decision = ROTATE_REASON_NONE) then ensure_open io ck entry i r
          else
            match recorder_close_writer (si_rotate io) ck i w (rotate_reason_code (rd_reason decision)) r with
            | (Err e, r1) => (Err e, r1)
            | (Ok _, r1) => ensure_open io ck entry i r1
            end
      end
  end.

Definition recorder_submit_entry (io : SubmitIo) (ck : Clock) (entry : LogEntry) (r : Recorder) : Res unit * Recorder :=
  match priority_group (r_config r) (le_priority entry) with
  | None => (Err EUNSET, r)
  | Some i =>
      match recorder_ensure_writer io ck entry r with
      | (Err e, r1) => (Err e, r1)
      | (Ok _, r1) =>
          match r_writers r1 !! i with
          | None => (Err EUNSET, r1)
          | Some w =>
              match append_entry entry w with
              | Err e => (Err e, r1)
              | Ok w1 =>
                  let '(rf, w2) :=
                    if pw_count w1 =? CHUNK_SIZE
                    then writer_flush_chunk (si_flush io) (ck_mono_sec ck) w1 else (Ok tt, w1) in
                  let r2 := set_store (publish (ck_time ck) w2 (r_store r1)) (set_writer i w2 r1) in
                  match rf with
                  | Err e => (Err e, r2)
                  | Ok _ =>
                      if recorder_segment_limit r2 <=? wf_bytes_written (pw_file w2)
                      then recorder_close_writer (si_close io) ck i w2
                             (rotation_reason_code SEGMENT_ROTATION_REASON_SIZE) r2
                      else (Ok tt, r2)
                  end
              end
          end
      end
  end.

(** ** Running out of space *)
Record RecoveryIo := mkRecoveryIo {
  ry_available : Store → option Z;
  ry_fs : FsEnv;
  ry_boots : AtomicEnv;
  ry_first : SubmitIo;
  ry_errno : Errno;            (* errno when a failure leaves it alone *)
  ry_retry : SubmitIo;
}.

(** The result is the number of segments that were removed. *)
Definition reclaim (io : RecoveryIo) (priority required : Z) (r : Recorder) : Z * Recorder :=
  let '(b, st, removed) :=
    retention_reclaim_lower_priority (ry_fs io) (ry_boots io) (r_config r) (active_paths (r_writers r))
      (ry_available io) priority required (r_boots r) (r_store r) in
  (zlen removed, set_boots b (set_store st r)).

Definition recorder_submit_entry_with_recovery (io : RecoveryIo) (ck : Clock) (entry : LogEntry) (r : Recorder)
    : Res unit * Recorder :=
  let min_free := cfg_min_free_bytes (r_config r) in
  let required_bytes := if recorder_segment_limit r <? min_free then min_free else recorder_segment_limit r in
  let r0 := if min_free =? 0 then r else (reclaim io (le_priority entry) required_bytes r).2 in
  match recorder_submit_entry (ry_first io) ck entry r0 with
  | (Ok _, r1) => (Ok tt, r1)
  | (Err e, r1) =>
      let saved_errno := if decide (e = EUNSET) then ry_errno io else e in
      if decide (saved_errno = ENOSPC ∨ saved_errno = EDQUOT)
      then
        let '(n, r2) := reclaim io (le_priority entry) required_bytes r1 in
        if 0 <? n then recorder_submit_entry (ry_retry io) ck entry r2 else (Err saved_errno, r2)
      else (Err saved_errno, r1)
  end.

(** ** Start-up *)
Record StartIo := mkStartIo {
  sr_prepare : Res unit;          (* log directory and store id *)
  sr_fs : FsEnv;
  sr_seq : AtomicEnv;
  sr_boots : AtomicEnv;
  sr_retention_boots : AtomicEnv;
}.

Fixpoint init_writers (i : Z) (groups : list PriorityGroup) : list PriorityWriter :=
  match groups with
  | [] => []
  | g :: groups' => writer_init (pg_name g) i :: init_writers (i + 1) groups'
  end.

Definition first_segment_seq (st : Store) : Z :=
  let scanned_next := u64 (scan_existing_segment_seq_max st + 1) in
  match read_persisted_next_segment_seq st with
  | Some persisted_next => if scanned_next <? persisted_next then persisted_next else scanned_next
  | None => scanned_next
  end.

(** [recorder_init] from the log directory on.  The registry that was loaded is
    replaced by the rebuilt one on both branches. *)
Definition recorder_init (io : StartIo) (cfg : RecorderConfig) (st : Store) : Res Recorder :=
  match sr_prepare io with
  | Err e => Err e
  | Ok _ =>
      let st1 := recover_store (sr_fs io) st in
      let seq := first_segment_seq st1 in
      let '(_, st2) := persist_next_segment_seq (sr_fs io) (sr_seq io) seq st1 in
      let boots := boot_registry_rebuild_from_segments st2 in
      let '(_, st3) := persist_boot_state (sr_fs io) (sr_boots io) boots st2 in
      Ok (run_retention (sr_fs io) (sr_retention_boots io)
            (mkRecorder cfg boots seq (init_writers 0 (cfg_groups cfg)) 0 0 None st3 O))
  end.

(** ** Flushing everything and shutting down *)

(** The loop of [recorder_flush_all]; it stops at the first failure. *)
Fixpoint flush_writers (ios : list (FlushIo * Res unit)) (now : Z) (ws : list PriorityWriter)
    : Res unit * list PriorityWriter :=
  match ios, ws with
  | (io, sync) :: ios', w :: ws' =>
      match writer_flush_chunk io now w with
      | (Err e, w1) => (Err e, w1 :: ws')
      | (Ok _, w1) =>
          match writer_sync_if_due sync now w1 with
          | (Err e, w2) => (Err e, w2 :: ws')
          | (Ok _, w2) => let '(r, ws2) := flush_writers ios' now ws' in (r, w2 :: ws2)
          end
      end
  | _, _ => (Ok tt, ws)
  end.

Definition publish_open (now : Z) (ws : list PriorityWriter) (st : Store) : Store :=
  fold_left (λ st w, if pw_open w then publish now w st else st) ws st.

Definition recorder_flush_all (ios : list (FlushIo * Res unit)) (ck : Clock) (r : Recorder) : Res unit * Recorder :=
  let '(res, ws) := flush_writers ios (ck_mono_sec ck) (r_writers r) in
  (res, set_store (publish_open (ck_time ck) ws (r_store r)) (set_writers ws r)).

(** The closing loop of [recorder_shutdown], with whether every close succeeded. *)
Fixpoint close_writers (ios : list CloseIo) (ck : Clock) (ws : list PriorityWriter) (st : Store)
    : bool * list PriorityWriter * Store :=
  match ios, ws with
  | io :: ios', w :: ws' =>
      let '(ok, w1, st1) :=
        if pw_open w
        then
          let '(res, w1) :=
            writer_close_segment io (ck_mono_sec ck) (rotation_reason_code SEGMENT_ROTATION_REASON_SHUTDOWN) w in
          (match res with Ok _ => true | Err _ => false end, w1, publish (ck_time ck) w1 st)
        else (true, w, st) in
      let '(oks, ws1, st2) := close_writers ios' ck ws' st1 in
      (ok && oks, w1 :: ws1, st2)
  | _, _ => (true, ws, st)
  end.

(** Largest realtime stamp of the open segment, and the boot of the writer. *)
Definition shutdown_mark (w : PriorityWriter) : Z * bytes :=
  (if pw_open w then wt_max_realtime_ts (pw_stats w) else 0, pw_boot_id w).
Definition note_clean_shutdown (boots : BootRegistry) (mark : Z * bytes) : BootRegistry :=
  let '(max_last_rt, boot_id) := mark in
  if zlen boot_id =? 0 then boots
  else boot_update boot_id (λ b,
         if be_last_clean_realtime_ts b <? max_last_rt
         then mkBootEntry (be_id b) (be_seq b) (be_first_realtime_ts b) max_last_rt else b) boots.

Record ShutdownIo := mkShutdownIo {
  sd_flush : list (FlushIo * Res unit);
  sd_close : list CloseIo;
  sd_fs : FsEnv;
  sd_retention_boots : AtomicEnv;
  sd_boots : AtomicEnv;
  sd_seq : AtomicEnv;
}.

(** The first component is [close_ok], on which the journal cursor depends. *)
Definition recorder_shutdown (io : ShutdownIo) (ck : Clock) (r : Recorder) : bool * Recorder :=
  let '(rf, r1) := recorder_flush_all (sd_flush io) ck r in
  let marks := map shutdown_mark (r_writers r1) in
  let '(closed_ok, ws, st) := close_writers (sd_close io) ck (r_writers r1) (r_store r1) in
  let r2 := run_retention (sd_fs io) (sd_retention_boots io) (set_store st (set_writers ws r1)) in
  let boots := fold_left note_clean_shutdown marks (r_boots r2) in
  let '(_, st1) := persist_boot_state (sd_fs io) (sd_boots io) boots (r_store r2) in
  let '(_, st2) := persist_next_segment_seq (sd_fs io) (sd_seq io) (r_next_segment_seq r2) st1 in
  (match rf with Ok _ => closed_ok | Err _ => false end, set_boots boots (set_store st2 r2)).
End recorder.
