(* ===== verification/Intake.v ===== *)
(** * The intake loop (src/src/recorder.c)

    The recorder together with its input: the position in the journal, the
    journal cursor and its two files, [recorder_step], and the body of the main
    loop up to the shutdown.  The build is the one with libsystemd. *)
From S2P Require Import Prelude Bytes Crypto Segment Models Chunk Index CText Entry Store Json Boots Config.
From S2P Require Import Modifiers Fallback Retention Writer Recorder.

(** ** The cursor file *)
Definition RECORDER_CURSOR_MAX_BYTES : Z := 512.

(** [None] is a file that does not exist or cannot be read. *)
Definition read_journal_cursor (file : option bytes) : option bytes :=
  match file with
  | None => None
  | Some data =>
      let buf := ztake RECORDER_CURSOR_MAX_BYTES data in
      if (zlen buf =? 0) || negb (existsb (Z.eqb 0) buf) then None
      else if zlen (cstr buf) =? 0 then None
      else Some (cstr buf)
  end.

(** How the system calls on the file go; [cu_written] is what write accepts, -1
    for an error. *)
Record CursorIo := mkCursorIo {
  cu_parent : bool;
  cu_open : bool;
  cu_seek : bool;                 (* fstat and lseek *)
  cu_written : Z;
  cu_regular : bool;
  cu_ftruncate : bool;
  cu_fsync : bool;
  cu_close : bool;
}.

Definition overwrite (data : bytes) (file : option bytes) : option bytes :=
  Some (data ++ zdrop (zlen data) (default [] file)).

Definition write_journal_cursor (io : CursorIo) (cursor : bytes) (file : option bytes) : Res unit * option bytes :=
  let len := zlen cursor + 1 in
  if (RECORDER_CURSOR_MAX_BYTES <? len) || negb (cu_parent io) || negb (cu_open io) then (Err EUNSET, file)
  else if negb (cu_seek io) then (Err EUNSET, Some (default [] file))
  else
    let written := ztake (cu_written io) (cursor ++ [0]) in
    let file1 := overwrite written file in
    if negb (cu_written io =? len) then (Err EUNSET, file1)
    else if cu_regular io && negb (cu_ftruncate io) then (Err EUNSET, file1)
    else
      let file2 := if cu_regular io then Some written else file1 in
      (if cu_fsync io && cu_close io then Ok tt else Err EUNSET, file2).

(** ** Resuming *)

(** The two functions of libsystemd that look for a cursor, on a journal that
    holds the given entries: the index of the entry that the next
    [sd_journal_next] gives, and whether an entry (none before the first and
    after the last) is the one of a cursor; [None] is a negative result. *)
Class SdJournal := {
  sd_journal_seek_cursor : list JournalEntry → bytes → option nat;
  sd_journal_test_cursor : option JournalEntry → bytes → option bool;
}.

(** Which of the plain calls succeed. *)
Record ResumeIo := mkResumeIo {
  ru_next1 : bool;
  ru_next2 : bool;
  ru_head : bool;
  ru_tail : bool;
  ru_previous : bool;
}.

(** [sd_journal_next]: whether there was an entry, and the new position;
    [None] is a negative result. *)
Definition sd_journal_next (ok : bool) (rest : list JournalEntry) (current : option JournalEntry)
    : option (bool * option JournalEntry * list JournalEntry) :=
  if negb ok then None
  else match rest with [] => Some (false, current, []) | j :: rest' => Some (true, Some j, rest') end.

Section intake.
Context `{RX : RegexLib} `{RM : !RegexMatch RX} `{W : WriterLib} `{J : Jansson}.

Record Intake := mkIntake {
  it_recorder : Recorder;
  it_ties : TieState;
  it_current_entry_pending : bool;
  it_cursor_enabled : bool;
  it_persistent_cursor_enabled : bool;
  it_runtime_cursor_is_volatile : bool;
  it_pending_cursor : option bytes;
  it_startup_catchup : bool;
  it_startup_replayed_entries : Z;
  it_current : option JournalEntry;      (* where the journal stands *)
  it_rest : list JournalEntry;           (* the entries after it *)
  it_cursor_file : option bytes;         (* cursor_path *)
  it_persistent_file : option bytes;     (* persistent_cursor_path *)
}.

Definition with_recorder (r : Recorder) (it : Intake) : Intake :=
  mkIntake r (it_ties it) (it_current_entry_pending it) (it_cursor_enabled it) (it_persistent_cursor_enabled it)
    (it_runtime_cursor_is_volatile it) (it_pending_cursor it) (it_startup_catchup it) (it_startup_replayed_entries it)
    (it_current it) (it_rest it) (it_cursor_file it) (it_persistent_file it).
Definition with_ties (t : TieState) (it : Intake) : Intake :=
  mkIntake (it_recorder it) t (it_current_entry_pending it) (it_cursor_enabled it) (it_persistent_cursor_enabled it)
    (it_runtime_cursor_is_volatile it) (it_pending_cursor it) (it_startup_catchup it) (it_startup_replayed_entries it)
    (it_current it) (it_rest it) (it_cursor_file it) (it_persistent_file it).
Definition with_position (pending : bool) (current : option JournalEntry) (rest : list JournalEntry) (it : Intake) : Intake :=
  mkIntake (it_recorder it) (it_ties it) pending (it_cursor_enabled it) (it_persistent_cursor_enabled it)
    (it_runtime_cursor_is_volatile it) (it_pending_cursor it) (it_startup_catchup it) (it_startup_replayed_entries it)
    current rest (it_cursor_file it) (it_persistent_file it).
Definition with_pending_cursor (cursor : option bytes) (it : Intake) : Intake :=
  mkIntake (it_recorder it) (it_ties it) (it_current_entry_pending it) (it_cursor_enabled it) (it_persistent_cursor_enabled it)
    (it_runtime_cursor_is_volatile it) cursor (it_startup_catchup it) (it_startup_replayed_entries it)
    (it_current it) (it_rest it) (it_cursor_file it) (it_persistent_file it).
Definition with_cursor_files (enabled : bool) (cursor_file persistent_file : option bytes) (it : Intake) : Intake :=
  mkIntake (it_recorder it) (it_ties it) (it_current_entry_pending it) enabled (it_persistent_cursor_enabled it)
    (it_runtime_cursor_is_volatile it) (it_pending_cursor it) (it_startup_catchup it) (it_startup_replayed_entries it)
    (it_current it) (it_rest it) cursor_file persistent_file.
Definition with_replay (catchup : bool) (replayed : Z) (it : Intake) : Intake :=
  mkIntake (it_recorder it) (it_ties it) (it_current_entry_pending it) (it_cursor_enabled it) (it_persistent_cursor_enabled it)
    (it_runtime_cursor_is_volatile it) (it_pending_cursor it) catchup replayed
    (it_current it) (it_rest it) (it_cursor_file it) (it_persistent_file it).

(** ** One entry *)
Record StepIo := mkStepIo {
  se_fs : FsEnv;
  se_boots : AtomicEnv;              (* persist_boot_state *)
  se_recovery : RecoveryIo;
}.

(** The entry at the position, or after [sd_journal_next]; [None] when there is
    none. *)
Definition next_entry (it : Intake) : option (JournalEntry * Intake) :=
  if it_current_entry_pending it
  then j ← it_current it; Some (j, with_position false (Some j) (it_rest it) it)
  else match it_rest it with
       | [] => None
       | j :: rest => Some (j, with_position false (Some j) rest it)
       end.

(** A boot that was not known before is persisted at once. *)
Definition persist_new_boots (io : StepIo) (count_before : Z) (boots : BootRegistry) (r : Recorder) : Recorder :=
  let r1 := set_boots boots r in
  if zlen boots =? count_before then r1
  else set_store (persist_boot_state (se_fs io) (se_boots io) boots (r_store r1)).2 r1.

(** Extraction, tie order and modifiers. *)
Definition prepare_entry (io : StepIo) (j : JournalEntry) (it : Intake)
    : ModResult * LogEntry * list ScriptJob * Intake :=
  let r := it_recorder it in
  let '(entry, boots) := extract_entry (r_config r) (r_boots r) j in
  let '(ties, entry) := recorder_assign_monotonic_tie_order (it_ties it) entry in
  let '(result, entry, jobs) := apply_entry_modifiers (r_config r) entry (Some j) (it_startup_catchup it) in
  (result, entry, jobs, with_ties ties (with_recorder (persist_new_boots io (zlen (r_boots r)) boots r) it)).

(** The end of an iteration: [None] is a [break]. *)
Definition note_cursor (j : JournalEntry) (it : Intake) : option Intake :=
  if it_cursor_enabled it || it_persistent_cursor_enabled it
  then cursor ← je_cursor j; Some (with_pending_cursor (Some cursor) it)
  else Some it.

Definition step_entry (io : StepIo) (ck : Clock) (j : JournalEntry) (it : Intake) : bool * Intake * list ScriptJob :=
  let '(result, entry, jobs, it1) := prepare_entry io j it in
  let finish it2 :=
    match note_cursor j it2 with Some it3 => (true, it3, jobs) | None => (false, it2, jobs) end in
  match result with
  | MOD_ERROR => (false, it1, jobs)
  | MOD_DROP => finish it1
  | MOD_KEEP =>
      let '(res, r) := recorder_submit_entry_with_recovery (se_recovery io) ck entry (it_recorder it1) in
      let it2 := with_recorder r it1 in
      match res with
      | Err _ => (false, with_position true (it_current it2) (it_rest it2) it2, jobs)
      | Ok _ => finish it2
      end
  end.

(** The loop of [recorder_step]; [n] is what is left of [CHUNK_SIZE]. *)
Fixpoint recorder_step_loop (n : nat) (ios : nat → StepIo) (ck : Clock) (processed : Z) (it : Intake)
    : Z * Intake * list ScriptJob :=
  match n with
  | O => (processed, it, [])
  | S n' =>
      match next_entry it with
      | None => (processed, it, [])
      | Some (j, it0) =>
          let '(go_on, it1, jobs) := step_entry (ios O) ck j it0 in
          if go_on
          then let '(p, it2, jobs2) := recorder_step_loop n' (ios ∘ S) ck (processed + 1) it1 in (p, it2, jobs ++ jobs2)
          else (processed, it1, jobs)
      end
  end.
Definition recorder_step (ios : nat → StepIo) (ck : Clock) (it : Intake) : Z * Intake * list ScriptJob :=
  recorder_step_loop (Z.to_nat CHUNK_SIZE) ios ck 0 it.

(** [recorder_step_fallback]: the number of processed records, and whether the
    input broke, which ends the program. *)
Definition recorder_step_fallback (io : StepIo) (ck : Clock) (next : NextResult) (it : Intake)
    : Z * bool * Intake * list ScriptJob :=
  match next with
  | NextError => (0, true, it, [])
  | NextNone => (0, false, it, [])
  | NextRecord record =>
      let r := it_recorder it in
      match extract_fallback_entry (r_config r) (r_boots r) record with
      | Err _ => (0, false, it, [])
      | Ok (entry, boots) =>
          let '(ties, entry) := recorder_assign_monotonic_tie_order (it_ties it) entry in
          let it1 := with_ties ties (with_recorder (persist_new_boots io (zlen (r_boots r)) boots r) it) in
          let '(result, entry, jobs) := apply_entry_modifiers (r_config r) entry None (it_startup_catchup it) in
          match result with
          | MOD_ERROR => (0, false, it1, jobs)
          | MOD_DROP => (1, false, it1, jobs)
          | MOD_KEEP =>
              let '(res, r2) := recorder_submit_entry_with_recovery (se_recovery io) ck entry (it_recorder it1) in
              (match res with Ok _ => 1 | Err _ => 0 end, false, with_recorder r2 it1, jobs)
          end
      end
  end.

(** ** Checkpoints *)

(** [persist_journal_cursor] on [cursor_path]. *)
Definition persist_journal_cursor (io : CursorIo) (it : Intake) : Res unit * Intake :=
  if negb (it_cursor_enabled it) then (Ok tt, it)
  else match it_pending_cursor it with
       | None => (Ok tt, it)
       | Some cursor =>
           let '(res, file) := write_journal_cursor io cursor (it_cursor_file it) in
           (res, with_cursor_files (it_cursor_enabled it) file (it_persistent_file it) it)
       end.
(** Its callers disable the cursor when it fails. *)
Definition checkpoint_cursor (io : CursorIo) (it : Intake) : Intake :=
  let '(res, it1) := persist_journal_cursor io it in
  match res with
  | Ok _ => it1
  | Err _ => with_cursor_files false (it_cursor_file it1) (it_persistent_file it1) it1
  end.

(** [recorder_flush_all(r, 1)]. *)
Definition flush_and_checkpoint (ios : list (FlushIo * Res unit)) (io : CursorIo) (ck : Clock) (it : Intake)
    : Res unit * Intake :=
  let '(res, r) := recorder_flush_all ios ck (it_recorder it) in
  let it1 := with_recorder r it in
  match res with
  | Err e => (Err e, it1)
  | Ok _ => (Ok tt, checkpoint_cursor io it1)
  end.

(** ** The main loop *)
Record MainIo := mkMainIo {
  mi_boot1 : Z; mi_realtime : Z; mi_boot2 : Z;      (* recorder_sample_clock *)
  mi_clock : Clock;
  mi_steps : nat → StepIo;
  mi_flush : list (FlushIo * Res unit);
  mi_cursor : CursorIo;
}.

(** One round of the loop of [main]; [false] is a failed flush, which leaves it. *)
Definition main_round (io : MainIo) (it : Intake) : bool * Intake * list ScriptJob :=
  let it0 := with_recorder (recorder_sample_clock (mi_boot1 io) (mi_realtime io) (mi_boot2 io) (it_recorder it)) it in
  let '(n, it1, jobs) := recorder_step (mi_steps io) (mi_clock io) it0 in
  let it2 := if it_startup_catchup it1 && (0 <? n)
             then with_replay true (u64 (it_startup_replayed_entries it1 + n)) it1 else it1 in
  let '(res, it3) := flush_and_checkpoint (mi_flush io) (mi_cursor io) (mi_clock io) it2 in
  match res with
  | Err _ => (false, it3, jobs)
  | Ok _ => (true, if 0 <? n then it3 else with_replay false (it_startup_replayed_entries it3) it3, jobs)
  end.

Record FinishIo := mkFinishIo {
  fn_shutdown : ShutdownIo;
  fn_cursor : CursorIo;
  fn_persistent : CursorIo;
  fn_unlink : bool;
}.

(** [recorder_shutdown] with the cursor files. *)
Definition finish (io : FinishIo) (ck : Clock) (it : Intake) : Intake :=
  let '(close_ok, r) := recorder_shutdown (fn_shutdown io) ck (it_recorder it) in
  let it1 := with_recorder r it in
  let it2 :=
    match it_pending_cursor it1 with
    | Some cursor =>
        if close_ok
        then
          let it2 := checkpoint_cursor (fn_cursor io) it1 in
          if it_persistent_cursor_enabled it2
          then
            let '(res, file) := write_journal_cursor (fn_persistent io) cursor (it_persistent_file it2) in
            let written := match res with Ok _ => true | Err _ => false end in
            let volatile := if written && it_runtime_cursor_is_volatile it2 && fn_unlink io
                            then None else it_cursor_file it2 in
            with_cursor_files (it_cursor_enabled it2) volatile file it2
          else it2
        else it1
    | None => it1
    end in
  with_pending_cursor None it2.

(** The cursor that [main] resumes from. *)
Definition saved_cursor (it : Intake) : option bytes :=
  match (if it_cursor_enabled it then read_journal_cursor (it_cursor_file it) else None) with
  | Some cursor => Some cursor
  | None => if it_persistent_cursor_enabled it then read_journal_cursor (it_persistent_file it) else None
  end.

(** The [if (cursor)] block of [main]; [None] leaves [resumed] at 0. *)
Definition resume_at `{SJ : SdJournal} (io : ResumeIo) (journal : list JournalEntry) (cursor : bytes) (it : Intake)
    : option Intake :=
  k ← sd_journal_seek_cursor journal cursor;
  '(n, current, rest) ← sd_journal_next (ru_next1 io) (drop k journal) None;
  matches ← sd_journal_test_cursor current cursor;
  '(n, current, rest) ← if matches : bool then sd_journal_next (ru_next2 io) rest current else Some (n, current, rest);
  Some (with_pending_cursor (Some cursor) (with_position n current rest it)).

(** Where [main] starts reading; [None] is an exit. *)
Definition start_position `{SJ : SdJournal} (io : ResumeIo) (start_last : bool) (journal : list JournalEntry) (it : Intake)
    : option Intake :=
  if start_last
  then
    if negb (ru_tail io) then None
    else match last journal with
         | Some j => Some (with_position (ru_previous io) (if ru_previous io then Some j else None) [] it)
         | None => Some (with_position false None [] it)
         end
  else
    match (cursor ← saved_cursor it; resume_at io journal cursor it) with
    | Some it' => Some it'
    | None => if ru_head io then Some (with_position false None journal it) else None
    end.

(** ** The loop of [main], with the entries that arrive before each round *)
Definition arrive (js : list JournalEntry) (it : Intake) : Intake :=
  with_position (it_current_entry_pending it) (it_current it) (it_rest it ++ js) it.

Fixpoint main_loop (rounds : list (MainIo * list JournalEntry)) (it : Intake) : bool * Intake * list ScriptJob :=
  match rounds with
  | [] => (true, it, [])
  | (io, js) :: rounds' =>
      let '(ok, it1, jobs) := main_round io (arrive js it) in
      if ok then let '(ok', it2, jobs') := main_loop rounds' it1 in (ok', it2, jobs ++ jobs') else (false, it1, jobs)
  end.
End intake.

