(* ===== verification/RecorderProofs.v ===== *)
(** * Writers and the logs of the priority groups

    Abstractly a group is the sequence of its closed segments, each with the
    entries it holds, and the entries of the open one.  Here the writers of the
    groups are related to these logs, and rotation is shown to move entries
    without losing any.  That the files of the closed segments are in the store is
    in RecorderLogs. *)
From S2P Require Import Prelude Bytes Crypto Segment SegmentImage SegmentScan SegmentWrite Models SegmentSpec.
From S2P Require Import Chunk ChunkModel Index CText Entry Store Json Boots Config Retention.
From S2P Require Import Writer WriterProofs Recorder.

Section recorder.
Context `{RX : RegexLib} `{W : WriterLib} `{J : Jansson}.
Context `{!WriterLib_ok W} `{!FlatCC_ok writer_flatcc} `{!OpenSSL_ok seg_openssl}.

(** ** Abstract logs *)
Record ClosedSegment := mkClosedSegment {
  cs_seq : Z;                  (* the number in the name of its file *)
  cs_header : SegmentHeader;
  cs_compact : bool;
  cs_reason : Z;
  cs_data : bytes;
  cs_entries : list LogEntry;
}.
Record GroupLog := mkGroupLog {
  gl_closed : list ClosedSegment;
  gl_open : option (list LogEntry);
}.
Definition log_entries (g : GroupLog) : list LogEntry :=
  concat (map cs_entries (gl_closed g)) ++ default [] (gl_open g).

(** The data of a closed segment is a header, frames with its entries and their
    footer.  So it scans to its entries for who holds [d], unless bytes inside it
    read as a footer or it is larger than 4 GiB. *)
Record closed_ok (d : option SegmentDecryptor) (c : ClosedSegment) : Prop := {
  ck_image : closed_image (cs_header c) (cs_compact c) (cs_reason c) (cs_data c) d (cs_entries c);
  ck_scans : zlen (cs_data c) <= UINT32_MAX → no_footer_inside (cs_data c) →
    segment_contains (cs_header c) (cs_compact c) (cs_reason c) (cs_data c) d (cs_entries c);
}.

Definition writer_idle (w : PriorityWriter) : Prop :=
  pw_open w = false ∧ pw_entries w = [] ∧ pw_compact_entries w = [].

Record open_for (d : option SegmentDecryptor) (w : PriorityWriter) (es : list LogEntry) : Prop := {
  of_holds : writer_holds w es;
  of_opens : opens (wf_encryptor (pw_file w)) d;
}.

(** The writer stands for the group's log. *)
Record group_repr (d : option SegmentDecryptor) (w : PriorityWriter) (g : GroupLog) : Prop := {
  gr_closed : Forall (closed_ok d) (gl_closed g);
  gr_open : match gl_open g with
    | None => writer_idle w
    | Some es => es ≠ [] ∧ open_for d w es
    end;
}.

(** What is asked of the configuration and of the reader's key: [compress_if_smaller]
    where compression is on, as nothing else keeps the size of a compressed frame
    within its 32-bit length field, and that the key opens the frames. *)
Record config_ok (cfg : RecorderConfig) (d : option SegmentDecryptor) : Prop := {
  co_smaller : cfg_compress_enabled cfg = true → cfg_compress_if_smaller cfg = true;
  co_key : ∀ enc, open_encryptor cfg = Ok enc → opens enc d;
}.
Definition clock_ok (ck : Clock) : Prop := is_cstr (ck_timezone ck) ∧ zlen (ck_timezone ck) <= 63.

(** ** Opening *)
Lemma write_header_opens fp h dict enc draw fp' enc' draw' d :
  segment_write_header fp h dict enc draw = (Ok tt, fp', enc', draw') → opens enc d → opens enc' d.
Proof.
  unfold segment_write_header. destruct (UINT32_MAX <? zlen dict); [done|].
  destruct (negb (Bool.eqb _ _)); [done|]. destruct enc as [e|].
  - destruct (header_key_material _ _) as [[[[dek np] wd]|] draw1]; [|done].
    destruct (write_each _ _) as [[[]|] fp1]; [|done]. intros [= _ <- _]. done.
  - destruct (write_each _ _) as [r fp1]. by intros [= _ _ <- _].
Qed.

Lemma new_header_flags ck r seq entry enc dict :
  let h := new_header ck r seq entry enc dict in
  is_u32 (sh_flags h) ∧
  has_flag (sh_flags h) SEGMENT_FLAG_COMPACT_ENTRIES = negb (config_uses_full_entries (r_config r)) ∧
  (zlen dict ≠ 0 → has_flag (sh_flags h) SEGMENT_FLAG_HAS_STATIC_DICT = true).
Proof.
  cbn. destruct (config_uses_full_entries _), (is_encrypted enc), (Z.eqb_spec (zlen dict) 0);
    (split_and!; [by vm_compute|by vm_compute|by (intros; vm_compute || done)]).
Qed.

Lemma create_segment_ok io ck e r w r' w' d :
  create_segment io ck e r w = (Ok tt, r', w') →
  config_ok (r_config r) d → entry_wf e → clock_ok ck → is_u64 (pw_segment_seq w) →
  pw_entries w = [] → pw_compact_entries w = [] →
  open_for d w' [] ∧ r_writers r' = r_writers r ∧ r_config r' = r_config r ∧
  r_clock_jump_seq r' = r_clock_jump_seq r ∧ r_next_segment_seq r' = r_next_segment_seq r ∧
  ∃ header dict fp enc iw, w' = opened_writer ck r w e header dict fp enc iw ∧
    header = new_header ck r (pw_segment_seq w) e enc dict.
Proof.
  intros H Hcfg He [Htz Htzl] Hseq Hpe Hpc. unfold create_segment in H. cbv zeta in H.
  destruct (op_fopen io) as [room|]; [|done].
  destruct (open_encryptor (r_config r)) as [enc0|] eqn:Henc; [|done]. cbn [rbind] in H.
  destruct (open_dict io (writer_group r w)) as [dict|] eqn:Hdict; [|done]. cbn [rbind] in H.
  destruct (segment_write_header _ _ _ _ _) as [[[rh fp] enc] draw] eqn:Hh.
  destruct rh as [[]|]; [|done]. destruct (index_writer_open _ _ _) as [iw|]; [|done].
  destruct (op_sync io); [|done]. cbn [rbind] in H. destruct (op_rename io); [|done].
  destruct (op_fsync_dir io); [|done]. injection H as <- <-.
  pose proof (new_header_flags ck r (pw_segment_seq w) e enc0 dict) as (Hf1 & Hf2 & Hf3).
  set (h := new_header ck r (pw_segment_seq w) e enc0 dict) in *.
  assert (Hset : segment_settings (pw_segment (opened_writer ck (set_draw draw r) w e h dict fp enc iw))).
  { split; cbn; try done.
    - destruct He. by split.
    - apply Hcfg. }
  split_and!; try done.
  - split; [split; try done|].
    + by cbn; destruct (negb _).
    + exists (new_file room), enc0, (r_draw r), fp, enc, draw, [], []. cbn [opened_writer pw_segment pw_file wf_fp wf_encryptor].
      split_and!; try done. unfold pending_entries. cbn.
      rewrite Hpe, Hpc. by destruct (negb _).
    + eapply write_header_opens; [exact Hh|]. by apply (co_key _ _ Hcfg).
  - exists h, dict, fp, enc, iw. split; [done|]. unfold h, new_header. f_equal.
    assert (is_encrypted enc0 = is_encrypted enc) as ->; [|done].
    revert Hh. unfold segment_write_header. destruct (UINT32_MAX <? _); [done|]. destruct (negb (Bool.eqb _ _)); [done|].
    destruct enc0 as [e0|].
    + destruct (header_key_material _ _) as [[[[dek np] wd]|] ?]; [|done].
      destruct (write_each _ _) as [[[]|] fp1]; [|done]. by intros [= _ <- _].
    + destruct (write_each _ _) as [? fp1]. by intros [= _ _ <- _].
Qed.

(** A successful open takes the next number and gives a writer for [e]. *)
Lemma open_segment_ok io ck e r w r' w' d :
  writer_open_segment io ck e r w = (Ok tt, r', w') →
  config_ok (r_config r) d → entry_wf e → clock_ok ck → is_u64 (r_next_segment_seq r) →
  writer_idle w →
  open_for d w' [] ∧ r_writers r' = r_writers r ∧ r_config r' = r_config r ∧
  r_clock_jump_seq r' = r_clock_jump_seq r ∧ r_next_segment_seq r' = u64 (r_next_segment_seq r + 1) ∧
  ∃ r0 header dict fp enc iw, r_config r0 = r_config r ∧ r_clock_jump_seq r0 = r_clock_jump_seq r ∧
    w' = opened_writer ck r0 (with_seq (r_next_segment_seq r) w) e header dict fp enc iw ∧
    header = new_header ck r (r_next_segment_seq r) e enc dict.
Proof.
  intros H Hcfg He Hck Hseq (Ho & Hpe & Hpc). unfold writer_open_segment in H.
  destruct (op_mkdir io); [|done]. destruct (persist_next_segment_seq _ _ _ _) as [[[]|] st]; [|done].
  eapply create_segment_ok in H as (Hop & Hws & Hc & Hj & Hn & header & dict & fp & enc & iw & -> & ->); try done.
  split_and!; try done. eexists _, _, dict, fp, enc, iw. split_and!; [| |reflexivity|reflexivity]; done.
Qed.

(** ** Closing *)
Lemma run_retention_writers fs boots r :
  r_writers (run_retention fs boots r) = r_writers r ∧ r_config (run_retention fs boots r) = r_config r ∧
  r_clock_jump_seq (run_retention fs boots r) = r_clock_jump_seq r ∧
  r_next_segment_seq (run_retention fs boots r) = r_next_segment_seq r.
Proof. unfold run_retention. by destruct (retention_enforce _ _ _ _ _ _) as [[b st] rem]. Qed.

Lemma pending_none w es : writer_holds w es → pending_entries w = [] → pw_entries w = [] ∧ pw_compact_entries w = [].
Proof.
  intros Hw Hp. pose proof (wh_unused _ _ Hw) as Hu. unfold pending_entries in Hp.
  destruct (ws_use_compact_entries _); apply map_eq_nil in Hp; done.
Qed.

(** What closing a writer that holds [es] leaves. *)
Definition closed_by (reason : Z) (w w' : PriorityWriter) (es : list LogEntry) : ClosedSegment :=
  mkClosedSegment (pw_segment_seq w) (writer_header w) (ws_use_compact_entries (pw_segment w)) reason
    (f_data (wf_fp (pw_file w'))) es.

Lemma close_segment_ok io now reason w w' es d :
  open_for d w es → es ≠ [] → is_u32 reason → writer_close_segment io now reason w = (Ok tt, w') →
  writer_idle w' ∧ closed_ok d (closed_by reason w w' es).
Proof.
  intros [Hw Hd] Hne Hr Hc. split.
  - unfold writer_close_segment in Hc. rewrite (wh_open _ _ Hw) in Hc. cbn [negb] in Hc.
    destruct (writer_flush_chunk _ _ _) as [[[]|] w1] eqn:Hf; [|done].
    apply flush_holds with (es := es) in Hf as (Hw1 & Hp & _); [|done].
    destruct (segment_write_footer _ _) as [[[]|] fp3]; cbn [rbind] in Hc; [|done].
    destruct (cl_sync io); [|done]. destruct (index_writer_close _ _) as [[[]|] ifp]; [|done].
    injection Hc as <-. split; [done|]. exact (pending_none _ _ Hw1 Hp).
  - pose proof (close_image _ _ _ _ _ _ _ Hw Hne Hr Hc Hd) as Hi. split; [exact Hi|]. by apply image_contains.
Qed.

(** Closing moves the open entries to the closed segments. *)
Record closing (io : CloseEnv) (ck : Clock) (i : nat) (w : PriorityWriter) (reason : Z) (r r' : Recorder)
    (d : option SegmentDecryptor) (g : GroupLog) (w' : PriorityWriter) (c : ClosedSegment) : Prop := {
  cg_close : writer_close_segment (ce_io io) (ck_mono_sec ck) reason w = (Ok tt, w');
  cg_writers : r_writers r' = <[i := w']> (r_writers r);
  cg_config : r_config r' = r_config r;
  cg_jump : r_clock_jump_seq r' = r_clock_jump_seq r;
  cg_next : r_next_segment_seq r' = r_next_segment_seq r;
  cg_open : gl_open g = Some (cs_entries c);
  cg_closed : c = closed_by reason w w' (cs_entries c);
  cg_repr : group_repr d w' (mkGroupLog (gl_closed g ++ [c]) None);
}.
Lemma close_writer_ok io ck i w reason r r' d g :
  recorder_close_writer io ck i w reason r = (Ok tt, r') →
  pw_open w = true → is_u32 reason → group_repr d w g →
  ∃ w' c, closing io ck i w reason r r' d g w' c.
Proof.
  intros H Ho Hr [Hcl Hop]. unfold recorder_close_writer in H.
  destruct (gl_open g) as [es|] eqn:Hg; [|by destruct Hop as [? _]; congruence].
  destruct Hop as [Hne Hop].
  destruct (writer_close_segment _ _ _ w) as [res w'] eqn:Hc. rewrite Ho in H.
  destruct res as [[]|]; [|done]. injection H as <-.
  destruct (close_segment_ok _ _ _ _ _ _ _ Hop Hne Hr Hc) as [Hidle Hok].
  exists w', (closed_by reason w w' es).
  match goal with |- context [run_retention ?f ?b ?x] =>
    destruct (run_retention_writers f b x) as (Ew & Ec & Ej & En) end.
  split; try done. split; cbn; [|done]. apply Forall_app. split; [done|]. by apply Forall_singleton.
Qed.

(** ** Rotation *)

(** The open segment is the right one for the entry: the clock has not jumped
    since it was opened, the entry is not older than it by more than the tolerated
    step, boot and UTC offset agree, and it is neither too old nor full (a fresh
    segment, which holds nothing yet, is taken whatever its header's size). *)
Record segment_fits (ck : Clock) (r : Recorder) (w : PriorityWriter) (e : LogEntry) : Prop := {
  ft_open : pw_open w = true;
  ft_clock : ws_clock_jump_seen_seq (pw_segment w) = r_clock_jump_seq r;
  ft_realtime : ws_first_realtime_ts (pw_segment w) - 1000 <= le_realtime_ts e;
  ft_boot : pw_boot_id w = [] ∨ le_boot_id e = [] ∨ pw_boot_id w = le_boot_id e;
  ft_timezone : pw_timezone w = ck_timezone ck;
  ft_age : cfg_segment_max_age_sec (r_config r) = 0 ∨
           ck_mono_sec ck - ws_opened_mono_sec (pw_segment w) < cfg_segment_max_age_sec (r_config r);
  ft_size : wf_bytes_written (pw_file w) < recorder_segment_limit r ∨ wt_entry_count (pw_stats w) = 0;
}.

Lemma should_rotate_fits ck r w e :
  pw_open w = true →
  rd_reason (writer_should_rotate ck r w e) = ROTATE_REASON_NONE → segment_fits ck r w e.
Proof.
  unfold writer_should_rotate. intros Ho. rewrite Ho. cbn [negb].
  destruct (Z.eqb_spec (ws_clock_jump_seen_seq (pw_segment w)) (r_clock_jump_seq r)) as [Hj|];
    cbn [negb]; [|by destruct (_ <? _)].
  destruct ((_ <? _) && _) eqn:Hrt; [done|]. destruct (_ && _ && _) eqn:Hb; [done|].
  destruct (beq (pw_timezone w) _) eqn:Htz; [|done]. cbn [negb].
  destruct (negb _ && (_ <=? _)) eqn:Hage; [done|].
  destruct (Z.leb_spec (recorder_segment_limit r) (wf_bytes_written (pw_file w))); [done|]. intros _.
  assert (Hnil : ∀ l : bytes, zlen l = 0 → l = []).
  { intros [|x l]; [done|]. rewrite zlen_cons. pose proof (zlen_nonneg l). lia. }
  split; try done.
  - unfold CLOCK_BACKWARD_JUMP_THRESHOLD_USEC in Hrt.
    apply andb_false_iff in Hrt as [Hrt|Hrt]; apply Z.ltb_ge in Hrt; lia.
  - apply andb_false_iff in Hb as [Hb|Hb]; [|apply negb_false_iff, beq_true in Hb; auto].
    apply andb_false_iff in Hb as [Hb|Hb]; apply negb_false_iff, Z.eqb_eq, Hnil in Hb; auto.
  - by apply beq_true.
  - apply andb_false_iff in Hage as [Ha|Ha]; [left; by apply negb_false_iff, Z.eqb_eq in Ha|right; by apply Z.leb_gt in Ha].
  - by left.
Qed.

Definition fresh_for (e : LogEntry) (w : PriorityWriter) (es : list LogEntry) : Prop :=
  es = [] → le_realtime_ts e = ws_first_realtime_ts (pw_segment w) ∧
            le_monotonic_ts e = ws_first_monotonic_ts (pw_segment w).

(** What one successful open guarantees. *)
Lemma ensure_open_ok io ck e i r r' w d :
  ensure_open io ck e i r = (Ok tt, r') → r_writers r !! i = Some w → writer_idle w →
  config_ok (r_config r) d → entry_wf e → clock_ok ck → is_u64 (r_next_segment_seq r) →
  0 <= cfg_segment_max_age_sec (r_config r) →
  ∃ w', r_writers r' = <[i := w']> (r_writers r) ∧ r_config r' = r_config r ∧
    open_for d w' [] ∧ fresh_for e w' [] ∧ segment_fits ck r' w' e.
Proof.
  intros H Hw Hidle Hcfg He Hck Hseq Hage. unfold ensure_open in H. rewrite Hw in H.
  destruct Hidle as (Ho & Hidle). rewrite Ho in H.
  destruct (writer_open_segment _ _ _ _ _) as [[res r1] w1] eqn:Hop. injection H as -> <-.
  eapply open_segment_ok in Hop as (Hof & Hws & Hc & Hj & _ & r0 & header & dict & fp & enc & iw & Hr0 & Hr0' & -> & ->);
    try done.
  eexists. split_and!; [by cbn; rewrite Hws|done|exact Hof|done|].
  split; cbn; try done; rewrite ?Hc, ?Hj, ?Hr0'; try lia; auto.
Qed.

(** What making room for [e] does first: nothing, or closing the segment [c]. *)
Definition rotated (io : SubmitIo) (ck : Clock) (i : nat) (d : option SegmentDecryptor) (g : GroupLog) (w : PriorityWriter)
    (r r1 : Recorder) (closed : list ClosedSegment) : Prop :=
  (r1 = r ∧ closed = gl_closed g) ∨
  (∃ reason w1 c, recorder_close_writer (si_rotate io) ck i w reason r = (Ok tt, r1) ∧
     closing (si_rotate io) ck i w reason r r1 d g w1 c ∧ closed = gl_closed g ++ [c]).

(** The state between making room for [e] and taking it. *)
Record ensured (io : SubmitIo) (ck : Clock) (r r' : Recorder) (i : nat) (d : option SegmentDecryptor) (g : GroupLog)
    (e : LogEntry) (w w' : PriorityWriter) (closed : list ClosedSegment) (es : list LogEntry) : Prop := {
  en_steps : ∃ r1, rotated io ck i d g w r r1 closed ∧ ensure_open io ck e i r1 = (Ok tt, r');
  en_writers : r_writers r' = <[i := w']> (r_writers r);
  en_config : r_config r' = r_config r;
  en_prefix : gl_closed g `prefix_of` closed;
  en_closed : Forall (closed_ok d) closed;
  en_open : open_for d w' es;
  en_fresh : fresh_for e w' es;
  en_entries : concat (map cs_entries closed) ++ es = log_entries g;
  en_fits : segment_fits ck r' w' e;
}.

Lemma ensure_open_repr io ck e i r r' w d g :
  ensure_open io ck e i r = (Ok tt, r') → r_writers r !! i = Some w → group_repr d w g → gl_open g = None →
  config_ok (r_config r) d → entry_wf e → clock_ok ck → is_u64 (r_next_segment_seq r) →
  0 <= cfg_segment_max_age_sec (r_config r) →
  ∃ w', ensured io ck r r' i d g e w w' (gl_closed g) [].
Proof.
  intros H Hw [Hcl Hop] Hnone Hcfg He Hck Hseq Hage. rewrite Hnone in Hop.
  destruct (ensure_open_ok _ _ _ _ _ _ _ _ H Hw Hop Hcfg He Hck Hseq Hage) as (w' & H1 & H2 & H3 & H4 & H5).
  exists w'. split; try done; [by exists r; split; [left|]|]. unfold log_entries. by rewrite Hnone.
Qed.

Lemma reason_code_u32 x : is_u32 (rotate_reason_code x).
Proof. destruct x; by vm_compute. Qed.

Lemma ensure_repr io ck e r r' i w d g :
  recorder_ensure_writer io ck e r = (Ok tt, r') →
  priority_group (r_config r) (le_priority e) = Some i → r_writers r !! i = Some w → group_repr d w g →
  config_ok (r_config r) d → entry_wf e → clock_ok ck → is_u64 (r_next_segment_seq r) →
  0 <= cfg_segment_max_age_sec (r_config r) →
  ∃ w' closed es, ensured io ck r r' i d g e w w' closed es.
Proof.
  intros H Hi Hw Hg Hcfg He Hck Hseq Hage. unfold recorder_ensure_writer in H. rewrite Hi, Hw in H.
  destruct (decide (rd_reason (writer_should_rotate ck r w e) = ROTATE_REASON_NONE)) as [Hnone|Hrot].
  - destruct (gl_open g) as [es|] eqn:Hopen.
    + pose proof (gr_open _ _ _ Hg) as Hop. rewrite Hopen in Hop. destruct Hop as [Hne Hof].
      pose proof (wh_open _ _ (of_holds _ _ _ Hof)) as Ho.
      pose proof H as Hen. unfold ensure_open in H. rewrite Hw, Ho in H. injection H as <-.
      exists w, (gl_closed g), es. split; try done.
      * exists r. split; [by left|done].
      * by rewrite list_insert_id.
      * apply Hg.
      * unfold log_entries. by rewrite Hopen.
      * by apply should_rotate_fits.
    + destruct (ensure_open_repr _ _ _ _ _ _ _ _ _ H Hw Hg Hopen) as [w' Hw']; try done. by eexists _, _, _.
  - assert (Ho : pw_open w = true).
    { unfold writer_should_rotate in Hrot. by destruct (pw_open w). }
    destruct (recorder_close_writer _ _ _ _ _ r) as [[[]|] r1] eqn:Hc; [|done].
    destruct (close_writer_ok _ _ _ _ _ _ _ _ _ Hc Ho (reason_code_u32 _) Hg)
      as (w1 & c & Hclo). pose proof Hclo as [_ Hws Hcfg1 Hj Hn Hopen _ Hg1].
    assert (Hw1 : r_writers r1 !! i = Some w1).
    { rewrite Hws. apply list_lookup_insert_eq. by eapply lookup_lt_Some. }
    destruct (ensure_open_repr _ _ _ _ _ _ _ _ _ H Hw1 Hg1 eq_refl) as [w' [_ E1 E2 E3 E4 E5 E6 E7 E8]];
      rewrite ?Hcfg1, ?Hn; try done.
    exists w', (gl_closed g ++ [c]), []. split; try done.
    + exists r1. split; [right; by eexists _, w1, c|done].
    + rewrite E1, Hws. by rewrite list_insert_insert_eq.
    + by rewrite E2.
    + by apply prefix_app_r.
    + unfold log_entries. rewrite Hopen, map_app, concat_app. cbn [map concat default]. by rewrite !app_nil_r.
Qed.

(** Flushing a full builder keeps what the writer stands for. *)
Lemma flush_open_for io now w w' d es :
  open_for d w es → writer_flush_chunk io now w = (Ok tt, w') → open_for d w' es.
Proof.
  intros [Hw Hd] Hf. pose proof (flush_opens _ _ _ _ d (wh_settings _ _ Hw) Hf) as Ho.
  split; [by eapply flush_holds|by apply Ho].
Qed.

Lemma append_open_for e w w' d es :
  open_for d w es → fresh_for e w es → entry_wf e → append_entry e w = Ok w' → open_for d w' (es ++ [e]).
Proof.
  intros [Hw Hd] Hfr He Ha. split; [by eapply append_holds|].
  apply append_pending in Ha as (_ & _ & -> & _). done.
Qed.

(** ** Taking an entry *)

(** The prerequisites of taking [e]. *)
Record submit_ok (ck : Clock) (r : Recorder) (d : option SegmentDecryptor) (e : LogEntry) : Prop := {
  so_config : config_ok (r_config r) d;
  so_entry : entry_wf e;
  so_clock : clock_ok ck;
  so_seq : is_u64 (r_next_segment_seq r);
  so_age : 0 <= cfg_segment_max_age_sec (r_config r);
}.

(** C29: rotation.  When [recorder_ensure_writer] succeeds for an entry, the group's
    segment is open and fits the entry: the clock has not jumped since it was
    opened, the entry is at most a millisecond older than it, its boot is the
    entry's (or one of them is unknown), the UTC offset is the present one, and it
    is below the age and size limits unless it was opened just now.  The entries of
    the closed segments and of the open one are still those of the log, in order. *)
Theorem ensured_segment_fits io ck e r r' i w d g :
  recorder_ensure_writer io ck e r = (Ok tt, r') →
  priority_group (r_config r) (le_priority e) = Some i → r_writers r !! i = Some w → group_repr d w g →
  submit_ok ck r d e →
  ∃ w' closed es, r_writers r' = <[i := w']> (r_writers r) ∧ segment_fits ck r' w' e ∧
    open_for d w' es ∧ Forall (closed_ok d) closed ∧ gl_closed g `prefix_of` closed ∧
    concat (map cs_entries closed) ++ es = log_entries g.
Proof.
  intros H Hi Hw Hg [Hcfg He Hck Hseq Hage].
  destruct (ensure_repr _ _ _ _ _ _ _ _ _ H Hi Hw Hg Hcfg He Hck Hseq Hage) as (w' & closed & es & []).
  by exists w', closed, es.
Qed.

(** ** Shutting down *)
Lemma sync_if_due_same sync now w w' res :
  writer_sync_if_due sync now w = (res, w') →
  pw_open w' = pw_open w ∧ pw_segment w' = pw_segment w ∧ pw_stats w' = pw_stats w ∧
  pw_entries w' = pw_entries w ∧ pw_compact_entries w' = pw_compact_entries w ∧
  wf_fp (pw_file w') = wf_fp (pw_file w) ∧ wf_encryptor (pw_file w') = wf_encryptor (pw_file w).
Proof.
  unfold writer_sync_if_due. destruct (negb (pw_open w) || _); [by intros [= <- <-]|].
  destruct (_ || _); [|by intros [= <- <-]]. by destruct sync; intros [= <- <-].
Qed.

Lemma flush_group_repr io now w w' d g :
  writer_flush_chunk io now w = (Ok tt, w') → group_repr d w g → group_repr d w' g.
Proof.
  intros Hf [Hcl Hop]. split; [done|]. destruct (gl_open g) as [es|].
  - destruct Hop as [Hne Hof]. split; [done|]. by eapply flush_open_for.
  - destruct Hop as (Ho & He & Hc). unfold writer_flush_chunk, pw_count in Hf. rewrite He, Hc in Hf.
    assert (Hz : (if ws_use_compact_entries (pw_segment w) then zlen (@nil CompactEntry) else zlen (@nil FullEntry)) = 0)
      by by destruct (ws_use_compact_entries _).
    rewrite Hz in Hf. by injection Hf as <-.
Qed.

Lemma sync_group_repr sync now w w' d g res :
  writer_sync_if_due sync now w = (res, w') → group_repr d w g → group_repr d w' g.
Proof.
  intros (Ho & Hseg & Hst & He & Hc & Hfp & Henc)%sync_if_due_same [Hcl Hop]. split; [done|].
  destruct (gl_open g) as [es|]; cycle 1.
  { unfold writer_idle. by rewrite Ho, He, Hc. }
  destruct Hop as [Hne [[H1 H2 H3 H4 H5 H6 H7] Hd]]. split; [done|]. split; [|by rewrite Henc].
  split; rewrite ?Hseg, ?Ho, ?Hst, ?He, ?Hc; try done.
  unfold file_holds, pending_entries. by rewrite Hseg, He, Hc, Hfp, Henc.
Qed.

(** Both loops act on every writer separately. *)
Lemma flush_writers_repr ios now ws ws' d gs :
  flush_writers ios now ws = (Ok tt, ws') → Forall2 (group_repr d) ws gs → Forall2 (group_repr d) ws' gs.
Proof.
  intros H Hgs. revert ios ws' H. induction Hgs as [|w g ws gs Hg Hgs IH]; intros ios ws' H.
  { destruct ios as [|[]]; injection H as <-; done. }
  destruct ios as [|[io sync] ios]; [injection H as <-; by constructor|]. cbn [flush_writers] in H.
  destruct (writer_flush_chunk io now w) as [[[]|] w1] eqn:Hf; [|done].
  destruct (writer_sync_if_due sync now w1) as [[[]|] w2] eqn:Hs; [|done].
  destruct (flush_writers ios now ws) as [r ws2] eqn:Hr. injection H as -> <-.
  constructor; [|by eapply IH]. eapply sync_group_repr; [exact Hs|]. by eapply flush_group_repr.
Qed.
End recorder.
