(* ===== verification/RecorderInv.v ===== *)
(** * Invariants of the running recorder

    Whatever the system calls answer: segment numbers are fresh, the entry
    buffers stay within bounds, and the store holds every open segment exactly as
    it was written. *)
From S2P Require Import Prelude Bytes Crypto Segment SegmentImage SegmentScan SegmentWrite Models SegmentSpec.
From S2P Require Import SegmentSafety Chunk ChunkModel Index IndexProofs CText Entry Store StoreProofs.
From S2P Require Import Json Boots Config Retention RetentionProofs.
From S2P Require Import Writer WriterProofs Recorder RecorderProofs.

(** ** Steps on the store *)
Abbreviation names := (list (bytes * bytes)).

Definition name_below (n : Z) (name : bytes) : Prop := ∀ s, segment_seq_from_name name = Some s → s < n.
Definition names_below (n : Z) (st : Store) : Prop :=
  Forall (λ d, is_segment_dir_name (ld_name d) = true → Forall (λ f, name_below n (df_name f)) (ld_files d)) (st_dirs st).

(** A change that touches only the files [T] (directory and name). *)
Record store_rel (T : names) (st st' : Store) : Prop := {
  sr_unique : store_names_unique st → store_names_unique st';
  sr_keep : ∀ dir g, (dir, df_name g) ∉ T → still_there st dir g → still_there st' dir g;
  sr_old : ∀ dir g, (dir, df_name g) ∉ T → still_there st' dir g → still_there st dir g;
  sr_below : ∀ n, Forall (λ p, name_below n p.2) T → names_below n st → names_below n st';
}.

Lemma store_rel_refl st : store_rel [] st st.
Proof. by split. Qed.

Lemma store_rel_trans T1 T2 st1 st2 st3 : store_rel T1 st1 st2 → store_rel T2 st2 st3 → store_rel (T1 ++ T2) st1 st3.
Proof.
  intros [A1 B1 D1 C1] [A2 B2 D2 C2]. split; [auto| | |].
  - intros dir g Hn H. apply not_elem_of_app in Hn as [? ?]. auto.
  - intros dir g Hn H. apply not_elem_of_app in Hn as [? ?]. auto.
  - intros n [? ?]%Forall_app. auto.
Qed.

Lemma store_rel_weaken T T' st st' : T ⊆ T' → store_rel T st st' → store_rel T' st st'.
Proof.
  intros Hs [A B D C]. split; [done| | |].
  - intros dir g Hn. apply B. intros H. by apply Hn, Hs.
  - intros dir g Hn. apply D. intros H. by apply Hn, Hs.
  - intros n HT. apply C. rewrite Forall_forall in HT |- *. intros x Hx. by apply HT, Hs.
Qed.

(** One change inside a directory. *)
Record files_rel (name : bytes) (fn : list DirFile → list DirFile) : Prop := {
  fr_unique : ∀ files, NoDup (map df_name files) → NoDup (map df_name (fn files));
  fr_keep : ∀ files g, df_name g ≠ name → g ∈ files → g ∈ fn files;
  fr_old : ∀ files g, df_name g ≠ name → g ∈ fn files → g ∈ files;
  fr_names : ∀ files P, P name → Forall (λ f, P (df_name f)) files → Forall (λ f, P (df_name f)) (fn files);
}.

Lemma put_file_names name data now files :
  map df_name (put_file name data now files) =
    if existsb (λ f, beq (df_name f) name) files then map df_name files else map df_name files ++ [name].
Proof.
  induction files as [|f files IH]; cbn [put_file existsb map]; [done|].
  destruct (beq (df_name f) name) eqn:Hb; cbn [orb map].
  - apply beq_true in Hb. by rewrite Hb.
  - rewrite IH. by destruct (existsb _ _).
Qed.

Lemma put_file_rel name data now : files_rel name (put_file name data now).
Proof.
  split.
  - intros files Hu. rewrite put_file_names. destruct (existsb _ files) eqn:He; [done|].
    apply NoDup_app. split_and!; [done| |apply NoDup_singleton].
    intros x Hx ->%list_elem_of_singleton. apply list_elem_of_fmap in Hx as (f & -> & Hf).
    assert (existsb (λ f0, beq (df_name f0) (df_name f)) files = true) as Ht; [|congruence].
    apply existsb_exists. exists f. split; [by apply list_elem_of_In|apply beq_refl].
  - intros files g Hn. induction files as [|f files IH]; [by intros ?%elem_of_nil|]. cbn [put_file].
    intros [->|Hg]%elem_of_cons.
    + apply beq_false in Hn. rewrite Hn. by left.
    + destruct (beq _ _); right; auto.
  - intros files g Hn. induction files as [|f files IH]; cbn [put_file].
    { intros ->%list_elem_of_singleton. done. }
    destruct (beq _ _); intros [->|Hg]%elem_of_cons; try done; [by right|by left|right; auto].
  - intros files P Hp. induction 1 as [|f files Hf H IH]; cbn [put_file]; [by constructor|].
    destruct (beq _ _); by constructor.
Qed.

Lemma remove_name_sublist name files : remove_name name files `sublist_of` files.
Proof.
  unfold remove_name. induction files as [|f files IH]; cbn [List.filter]; [done|].
  destruct (negb _); by constructor.
Qed.

Lemma remove_name_rel name : files_rel name (remove_name name).
Proof.
  split.
  - intros files Hu. eapply sublist_NoDup; [exact Hu|]. apply (fmap_sublist df_name), remove_name_sublist.
  - intros files g Hn Hg. by apply elem_of_remove_name.
  - intros files g _ Hg. eapply elem_of_sublist; [exact Hg|apply remove_name_sublist].
  - intros files P _ H. rewrite Forall_forall in H |- *. intros f Hf. apply H.
    apply list_elem_of_In, List.filter_In in Hf as [Hf _]. by apply list_elem_of_In.
Qed.

Lemma id_files_rel name : files_rel name (λ files, files).
Proof. by split. Qed.
Lemma unlink_rel env dir name : files_rel name (unlink env dir name).
Proof. unfold unlink. destruct (fs_unlink_ok env dir name); [apply remove_name_rel|apply id_files_rel]. Qed.

(** ** Steps of one directory *)
Lemma map_dir_names dir fn st :
  map ld_name (st_dirs (on_dir dir fn st)) = map ld_name (st_dirs st).
Proof.
  unfold on_dir. cbn. rewrite map_map. apply map_ext. intros d. by destruct (beq _ _).
Qed.

Lemma on_dir_rel dir name fn st : files_rel name fn → store_rel [(dir, name)] st (on_dir dir fn st).
Proof.
  intros [A B O D]. split.
  - intros [Hd Hf]. split; [by rewrite map_dir_names|]. unfold on_dir. cbn. apply Forall_map.
    eapply Forall_impl; [exact Hf|]. cbn. intros d Hnd. destruct (beq _ _); cbn; auto.
  - intros dir' g Hn (d & Hd & Hdn & Hg). exists (if beq (ld_name d) dir then mkLogDir (ld_name d) (fn (ld_files d)) else d).
    split; [by apply (list_elem_of_fmap_2 (λ d, if beq (ld_name d) dir then mkLogDir (ld_name d) (fn (ld_files d)) else d))|].
    destruct (beq (ld_name d) dir) eqn:Hb; [|done]. apply beq_true in Hb. split; [done|]. cbn. apply B; [|done].
    intros Heq. apply Hn. rewrite <-Hdn, Hb, Heq. by apply list_elem_of_singleton.
  - intros dir' g Hn (d' & Hd & Hdn & Hg). unfold on_dir in Hd. cbn in Hd. apply list_elem_of_fmap in Hd as (d & -> & Hd).
    exists d. split; [done|]. destruct (beq (ld_name d) dir) eqn:Hb; [|done]. cbn in Hdn, Hg. split; [done|]. apply O; [|done].
    apply beq_true in Hb. intros Heq. apply Hn. rewrite <-Hdn, Hb, Heq. by apply list_elem_of_singleton.
  - intros n HT H. rewrite Forall_singleton in HT. unfold names_below, on_dir in *. cbn. apply Forall_map.
    eapply Forall_impl; [exact H|]. cbn. intros d Hd. destruct (beq _ _); cbn; [|done].
    intros Hs. exact (D _ (name_below n) HT (Hd Hs)).
Qed.

Lemma mkdir_p_rel dir st : store_rel [] st (mkdir_p dir st).
Proof.
  unfold mkdir_p. destruct (existsb _ _) eqn:He; [apply store_rel_refl|]. split.
  - intros [Hd Hf]. split; cbn.
    + rewrite map_app. cbn. apply NoDup_app. split_and!; [done| |apply NoDup_singleton].
      intros x Hx ->%list_elem_of_singleton. apply list_elem_of_fmap in Hx as (d & -> & Hx).
      assert (existsb (λ d0, beq (ld_name d0) (ld_name d)) (st_dirs st) = true) as Ht; [|congruence].
      apply existsb_exists. exists d. split; [by apply list_elem_of_In|apply beq_refl].
    + apply Forall_app. split; [done|]. apply Forall_singleton. constructor.
  - intros dir' g _ (d & Hd & H). exists d. split; [|done]. cbn. apply elem_of_app. by left.
  - intros dir' g _ (d & Hd & Hn & Hg). cbn in Hd. apply elem_of_app in Hd as [Hd| ->%list_elem_of_singleton]; [by exists d|].
    by apply elem_of_nil in Hg.
  - intros n _ H. unfold names_below in *. cbn. apply Forall_app. split; [done|]. apply Forall_singleton. by intros _.
Qed.

(** Steps that only write state files. *)
Lemma same_dirs_rel st st' : st_dirs st' = st_dirs st → store_rel [] st st'.
Proof.
  intros H. split.
  - unfold store_names_unique. by rewrite H.
  - intros dir g _ (d & Hd & ?). exists d. by rewrite H.
  - intros dir g _ (d & Hd & ?). exists d. by rewrite <-H.
  - intros n _. unfold names_below. by rewrite H.
Qed.

Lemma persist_seq_rel env w v st : store_rel [] st (persist_next_segment_seq env w v st).2.
Proof. apply same_dirs_rel. apply after_write_dirs. Qed.

(** A file that was just put is there. *)
Definition has_dir (dir : bytes) (st : Store) : Prop := ∃ d, d ∈ st_dirs st ∧ ld_name d = dir.

Lemma put_there dir name data now st : has_dir dir st →
  still_there (on_dir dir (put_file name data now) st) dir (mkDirFile name data now).
Proof.
  intros (d & Hd & Hn). exists (mkLogDir (ld_name d) (put_file name data now (ld_files d))).
  split.
  - unfold on_dir. cbn. apply list_elem_of_fmap. exists d. split; [|done]. by rewrite Hn, beq_refl.
  - split; [done|]. cbn. pose proof (find_put_same name data now (ld_files d)) as Hf. by apply find_name in Hf as [_ ?].
Qed.

Lemma has_dir_on dir dir' fn st : has_dir dir st → has_dir dir (on_dir dir' fn st).
Proof.
  intros (d & Hd & Hn).
  assert (Hin : ld_name d ∈ map ld_name (st_dirs (on_dir dir' fn st))).
  { rewrite map_dir_names. by apply (list_elem_of_fmap_2 ld_name). }
  apply list_elem_of_fmap in Hin as (d' & Hd' & ?). exists d'. split; congruence || done.
Qed.
Lemma has_dir_mkdir dir st : has_dir dir (mkdir_p dir st).
Proof.
  unfold mkdir_p. destruct (existsb _ _) eqn:He.
  - apply existsb_exists in He as (d & Hd & Hb). exists d. split; [by apply list_elem_of_In|by apply beq_true].
  - exists (mkLogDir dir []). split; [|done]. cbn. apply elem_of_app. right. by apply list_elem_of_singleton.
Qed.
Lemma has_dir_same dir st st' : st_dirs st' = st_dirs st → has_dir dir st → has_dir dir st'.
Proof. intros H (d & ?). exists d. by rewrite H. Qed.

(** ** Retention only removes *)
Definition absent (dir name : bytes) (st : Store) : Prop := ∀ g, still_there st dir g → df_name g ≠ name.

Record shrinks (env : FsEnv) (st st' : Store) : Prop := {
  sk_unique : store_names_unique st → store_names_unique st';
  sk_below : ∀ n, names_below n st → names_below n st';
  sk_old : ∀ dir g, still_there st' dir g → still_there st dir g;
  sk_gone : ∀ dir g, still_there st dir g → still_there st' dir g ∨
    (fs_unlink_ok env dir (df_name g) = true ∧ absent dir (df_name g) st');
}.
Lemma shrinks_refl env st : shrinks env st st.
Proof. split; auto. Qed.
Lemma shrinks_trans env st1 st2 st3 : shrinks env st1 st2 → shrinks env st2 st3 → shrinks env st1 st3.
Proof.
  intros [U1 B1 O1 G1] [U2 B2 O2 G2]. split; [auto..|]. intros dir g Hg. destruct (G1 dir g Hg) as [H1|[Hok H1]]; [by apply G2|].
  right. split; [done|]. intros g' Hg'. by apply H1, O2.
Qed.

Lemma drop_files_sublist env dir name idx files : unlink env dir idx (remove_name name files) `sublist_of` files.
Proof.
  unfold unlink. destruct (fs_unlink_ok _ _ _); [|apply remove_name_sublist].
  etrans; apply remove_name_sublist.
Qed.
Lemma drop_files_subset env dir name idx files :
  (NoDup (map df_name files) → NoDup (map df_name (unlink env dir idx (remove_name name files)))) ∧
  ∀ P, Forall P files → Forall P (unlink env dir idx (remove_name name files)).
Proof.
  pose proof (drop_files_sublist env dir name idx files) as H. split.
  - intros Hu. eapply sublist_NoDup; [exact Hu|]. by apply (fmap_sublist df_name).
  - intros P. rewrite !Forall_forall. intros Hf x Hx. apply Hf. by eapply elem_of_sublist.
Qed.

(** A directory keeps a file unless it is one of the two that are removed. *)
Lemma not_in_removed name files g : g ∈ remove_name name files → df_name g ≠ name.
Proof.
  intros H Hn. apply list_elem_of_In, List.filter_In in H as [_ H]. by rewrite Hn, beq_refl in H.
Qed.
Lemma drop_files_gone env dir name idx files g : fs_unlink_ok env dir name = true → g ∈ files →
  g ∈ unlink env dir idx (remove_name name files) ∨
  (fs_unlink_ok env dir (df_name g) = true ∧ (df_name g = name ∨ df_name g = idx ∧ fs_unlink_ok env dir idx = true)).
Proof.
  intros Hok Hg. destruct (decide (df_name g = name)) as [Hn|Hn]; [right; split; [by rewrite Hn|by left]|].
  apply (elem_of_remove_name name) in Hg; [|done]. unfold unlink. destruct (fs_unlink_ok env dir idx) eqn:Hi; [|by left].
  destruct (decide (df_name g = idx)) as [->|Hx]; [right; auto|]. left. by apply elem_of_remove_name.
Qed.
Lemma drop_files_absent env dir name idx files g :
  g ∈ unlink env dir idx (remove_name name files) → df_name g ≠ name ∧ (fs_unlink_ok env dir idx = true → df_name g ≠ idx).
Proof.
  unfold unlink. destruct (fs_unlink_ok env dir idx).
  - intros Hg. pose proof (not_in_removed _ _ _ Hg). split; [|done].
    eapply not_in_removed, elem_of_sublist; [exact Hg|apply remove_name_sublist].
  - intros Hg. split; [by eapply not_in_removed|done].
Qed.

Lemma in_dropped env f st dir g :
  still_there (drop_segment env f st) dir g ↔
  ∃ d, d ∈ st_dirs st ∧ ld_name d = dir ∧ g ∈ ld_files (drop_in_dir env f d).
Proof.
  split.
  - intros (d' & Hd & Hn & Hg). cbn in Hd. apply list_elem_of_fmap in Hd as (d & -> & Hd).
    exists d. by rewrite drop_in_dir_name in Hn.
  - intros (d & Hd & Hn & Hg). exists (drop_in_dir env f d). rewrite drop_in_dir_name. split; [|done].
    by apply (list_elem_of_fmap_2 (drop_in_dir env f)).
Qed.

Lemma drop_segment_shrinks env f st :
  fs_unlink_ok env (rf_dir_name f) (rf_name f) = true → shrinks env st (drop_segment env f st).
Proof.
  intros Hok. split.
  - intros [Hd Hf]. unfold drop_segment. split; cbn.
    + replace (map ld_name (map (drop_in_dir env f) (st_dirs st))) with (map ld_name (st_dirs st)); [done|].
      rewrite map_map. apply map_ext. intros d. by rewrite drop_in_dir_name.
    + apply Forall_map. eapply Forall_impl; [exact Hf|]. cbn. intros d Hn. unfold drop_in_dir.
      destruct (beq _ _); [|done]. by apply drop_files_subset.
  - intros n H. unfold names_below, drop_segment in *. cbn. apply Forall_map. eapply Forall_impl; [exact H|].
    cbn. intros d Hn. unfold drop_in_dir. destruct (beq _ _); [|done]. cbn. intros Hs. by apply drop_files_subset, Hn.
  - intros dir g (d & Hd & Hn & Hg)%in_dropped. exists d. split; [done|]. split; [done|]. unfold drop_in_dir in Hg.
    destruct (beq _ _); [|done]. eapply elem_of_sublist; [exact Hg|apply drop_files_sublist].
  - intros dir g (d & Hd & Hn & Hg). unfold absent.
    destruct (beq (ld_name d) (rf_dir_name f)) eqn:Hb; cycle 1.
    { left. apply in_dropped. exists d. unfold drop_in_dir. by rewrite Hb. }
    pose proof (proj1 (beq_true _ _) Hb) as Hdir. rewrite <-Hdir, Hn in Hok.
    destruct (drop_files_gone env dir _ (index_name (rf_segment_seq f)) _ _ Hok Hg) as [Hin|[Hgr Hcase]].
    { left. apply in_dropped. exists d. unfold drop_in_dir. rewrite Hb. by rewrite Hn in *. }
    right. split; [done|]. intros g' (d' & Hd' & Hn' & Hg')%in_dropped. unfold drop_in_dir in Hg'.
    rewrite Hn', <-Hn, Hb in Hg'. cbn [ld_files] in Hg'.
    apply drop_files_absent in Hg' as [H1 H2]. destruct Hcase as [->|[-> Hi]]; [done|]. apply H2. by rewrite Hn.
Qed.

Lemma remove_file_shrinks env f s ok s1 :
  retention_remove_file env f s = (ok, s1) → shrinks env (rs_store s) (rs_store s1).
Proof.
  unfold retention_remove_file. destruct (fs_unlink_ok _ _ _) eqn:Hok; intros [= <- <-];
    [by apply drop_segment_shrinks|apply shrinks_refl].
Qed.

Section retention.
Context `{RX : RegexLib} `{F : FlatCC} `{J : Jansson}.

Lemma enforce_loop_shrinks env cfg fs : ∀ s s' removed,
  enforce_loop env cfg fs s = (s', removed) → shrinks env (rs_store s) (rs_store s').
Proof.
  induction fs as [|f fs IH]; intros s s' removed; cbn [enforce_loop]; [intros [= <- _]; apply shrinks_refl|].
  destruct (_ || _); [|apply IH]. destruct (retention_remove_file env f s) as [ok s1] eqn:Hr.
  destruct (enforce_loop env cfg fs s1) as [s2 rem] eqn:Hl. intros [= <- _].
  eapply shrinks_trans; [by eapply remove_file_shrinks|by eapply IH].
Qed.

Lemma reclaim_loop_shrinks env av pr req fs : ∀ s s' removed,
  reclaim_loop env av pr req fs s = (s', removed) → shrinks env (rs_store s) (rs_store s').
Proof.
  induction fs as [|f fs IH]; intros s s' removed; cbn [reclaim_loop]; [intros [= <- _]; apply shrinks_refl|].
  destruct (_ <=? _); [apply IH|]. destruct (retention_remove_file env f s) as [ok s1] eqn:Hr.
  apply remove_file_shrinks in Hr. destruct (room_for _ _ _); [by intros [= <- _]|].
  destruct (reclaim_loop env av pr req fs s1) as [s2 rem] eqn:Hl. intros [= <- _].
  eapply shrinks_trans; [done|by eapply IH].
Qed.

(** What both retention passes guarantee. *)
Record retained (env : FsEnv) (active : ActivePaths) (st st' : Store) : Prop := {
  rt_shrinks : shrinks env st st';
  rt_active : ∀ dir g seq, store_names_unique st → path_is_active_segment active dir (df_name g) = true →
    segment_seq_from_name (df_name g) = Some seq → still_there st dir g → still_there st' dir g;
}.

Lemma same_dirs_there st st' : st_dirs st' = st_dirs st → ∀ dir g, still_there st' dir g ↔ still_there st dir g.
Proof. intros H dir g. unfold still_there. by rewrite H. Qed.
Lemma same_dirs_retained env active st st' st'' :
  st_dirs st'' = st_dirs st' → retained env active st st' → retained env active st st''.
Proof.
  intros H [[A B O G] C]. pose proof (same_dirs_there _ _ H) as Ht. split; [split|].
  - unfold store_names_unique in *. by rewrite H.
  - unfold names_below in *. by rewrite H.
  - intros dir g Hg. by apply O, Ht.
  - intros dir g Hg. rewrite Ht. destruct (G dir g Hg) as [?|[? Ha]]; [by left|right]. split; [done|].
    intros g' Hg'. by apply Ha, Ht.
  - intros dir g seq Hu Ha Hs Hst. rewrite Ht. by eapply C.
Qed.

Lemma enforce_retained env w cfg active boots st :
  retained env active st (retention_enforce env w cfg active boots st).1.2.
Proof.
  unfold retention_enforce. destruct (enforce_loop _ _ _ _) as [s removed] eqn:Hl. cbn [fst snd].
  apply same_dirs_retained with (rs_store s); [apply after_removal_dirs|]. split.
  - by apply enforce_loop_shrinks in Hl.
  - intros dir g seq Hu Ha Hs Hst. destruct (active_not_collected cfg active st dir (df_name g) Hu Ha) as [Hn Hnot].
    by eapply enforce_loop_keeps in Hl.
Qed.

Lemma reclaim_retained env w cfg active av pr req boots st :
  retained env active st (retention_reclaim_lower_priority env w cfg active av pr req boots st).1.2.
Proof.
  unfold retention_reclaim_lower_priority. destruct (av st) as [a|]; [|split; [apply shrinks_refl|done]].
  destruct (req <=? a); [split; [apply shrinks_refl|done]|].
  destruct (reclaim_loop _ _ _ _ _ _) as [s removed] eqn:Hl. cbn [fst snd].
  apply same_dirs_retained with (rs_store s); [apply after_removal_dirs|]. split.
  - by apply reclaim_loop_shrinks in Hl.
  - intros dir g seq Hu Ha Hs Hst. destruct (active_not_collected cfg active st dir (df_name g) Hu Ha) as [Hn Hnot].
    by eapply reclaim_loop_keeps in Hl.
Qed.
End retention.

(** ** The invariant *)
Section invariant.
Context `{RX : RegexLib} `{W : WriterLib} `{J : Jansson}.

(** The file of the writer's segment has exactly what was written. *)
Definition published (w : PriorityWriter) (st : Store) : Prop :=
  ∃ t, still_there st (pw_group_name w) (mkDirFile (segment_name (pw_segment_seq w)) (f_data (wf_fp (pw_file w))) t).

(** [entries] and [compact_entries] have room for one more. *)
Definition buffers_ok (w : PriorityWriter) : Prop :=
  zlen (pw_entries w) < CHUNK_SIZE ∧ zlen (pw_compact_entries w) < CHUNK_SIZE.

Definition distinct_from (seq : Z) (i : nat) (ws : list PriorityWriter) : Prop :=
  ∀ j w, ws !! j = Some w → j ≠ i → pw_open w = true → pw_segment_seq w ≠ seq.

Record recorder_inv (r : Recorder) : Prop := {
  ri_next : 0 <= r_next_segment_seq r <= UINT64_MAX;
  ri_unique : store_names_unique (r_store r);
  ri_below : names_below (r_next_segment_seq r) (r_store r);
  ri_open : ∀ i w, r_writers r !! i = Some w → pw_open w = true →
    0 <= pw_segment_seq w < r_next_segment_seq r ∧ published w (r_store r) ∧
    distinct_from (pw_segment_seq w) i (r_writers r);
  ri_buffers : Forall buffers_ok (r_writers r);
}.

Definition own_names (w : PriorityWriter) : names :=
  map (pair (pw_group_name w)) [segment_name (pw_segment_seq w); index_name (pw_segment_seq w);
                                segment_tmp_name (pw_segment_seq w)].

Lemma other_segment_not_own dir s w :
  is_u64 s → is_u64 (pw_segment_seq w) → s ≠ pw_segment_seq w → (dir, segment_name s) ∉ own_names w.
Proof.
  intros Hs Hw Hne Hin. apply list_elem_of_fmap in Hin as (nm & [= -> E] & Hin).
  assert (Hcase : segment_name s = segment_name (pw_segment_seq w) ∨ segment_name s = index_name (pw_segment_seq w) ∨
    segment_name s = segment_tmp_name (pw_segment_seq w)).
  { rewrite E. apply list_elem_of_In in Hin. cbn [In] in Hin. destruct Hin as [<-|[<-|[<-|[]]]]; auto. }
  clear E Hin.
  pose proof (seq_from_segment_name s Hs) as Hseq. destruct Hcase as [E|[E|E]]; rewrite E in Hseq.
  - rewrite seq_from_segment_name in Hseq by done. by injection Hseq.
  - unfold index_name in Hseq. by rewrite seq_from_other_name in Hseq.
  - unfold segment_tmp_name in Hseq. by rewrite seq_from_other_name in Hseq.
Qed.

Lemma own_names_below n w : is_u64 (pw_segment_seq w) → pw_segment_seq w < n → Forall (λ p, name_below n p.2) (own_names w).
Proof.
  intros Hw Hlt. unfold own_names. apply Forall_map.
  apply Forall_cons; split; [|apply Forall_cons; split; [|apply Forall_cons; split; [|constructor]]]; unfold compose;
    cbn [snd]; intros s.
  - rewrite seq_from_segment_name by done. by intros [= <-].
  - unfold index_name. by rewrite seq_from_other_name.
  - unfold segment_tmp_name. by rewrite seq_from_other_name.
Qed.

Lemma names_below_mono n m st : n <= m → names_below n st → names_below m st.
Proof.
  intros Hle H. eapply Forall_impl; [exact H|]. cbn. intros d Hd Hs. eapply Forall_impl; [by apply Hd|].
  cbn. intros f Hf s E. specialize (Hf s E). lia.
Qed.

(** One operation on writer [i] that only touches its own files. *)
Lemma inv_step r r' i w' :
  recorder_inv r →
  r_writers r' = <[i := w']> (r_writers r) →
  r_next_segment_seq r <= r_next_segment_seq r' <= UINT64_MAX →
  0 <= pw_segment_seq w' < r_next_segment_seq r' →
  distinct_from (pw_segment_seq w') i (r_writers r) →
  store_rel (own_names w') (r_store r) (r_store r') →
  (pw_open w' = true → published w' (r_store r')) →
  buffers_ok w' → recorder_inv r'.
Proof.
  intros [H1 H2 H3 H4 H5] Hws Hn Hseq Hdist [R1 R2 _ R3] Hpub Hbuf.
  assert (Hu : is_u64 (pw_segment_seq w')) by (unfold is_u64, UINT64_MAX in *; lia).
  split; [lia|auto| | |].
  - apply R3; [apply own_names_below; [done|lia]|]. eapply names_below_mono; [|exact H3]. lia.
  - intros j wj Hj Ho. rewrite Hws in Hj |- *. destruct (decide (j = i)) as [->|Hne].
    + apply list_lookup_insert_Some in Hj as [(_ & <- & _)|[? _]]; [|done]. split_and!; [lia|lia|by apply Hpub|].
      intros k wk Hk Hne. rewrite list_lookup_insert_ne in Hk by done. by apply (Hdist k).
    + rewrite list_lookup_insert_ne in Hj by done. destruct (H4 j wj Hj Ho) as (Hs & (t & Hp) & Hd).
      split_and!; [lia|lia| |].
      * exists t. apply R2; [|done]. cbn. apply other_segment_not_own; [unfold is_u64, UINT64_MAX in *; lia|done|].
        by apply (Hdist j).
      * intros k wk Hk Hkj Hok. destruct (decide (k = i)) as [->|Hki].
        -- apply list_lookup_insert_Some in Hk as [(_ & <- & _)|[? _]]; [|done]. intros E. apply (Hdist j wj); auto.
        -- rewrite list_lookup_insert_ne in Hk by done. by apply (Hd k).
  - rewrite Hws. by apply Forall_insert.
Qed.

(** Retention between operations. *)
Lemma active_in_paths ws i w :
  ws !! i = Some w → pw_open w = true →
  path_is_active_segment (active_paths ws) (pw_group_name w) (segment_name (pw_segment_seq w)) = true.
Proof.
  intros Hi Ho. unfold path_is_active_segment, active_paths. apply existsb_exists.
  exists (pw_group_name w, segment_name (pw_segment_seq w)). cbn. rewrite !beq_refl. split; [|done].
  apply (in_map (λ w, (pw_group_name w, segment_name (pw_segment_seq w)))). apply List.filter_In. split; [|done].
  by apply list_elem_of_In, list_elem_of_lookup_2 with i.
Qed.

Lemma retained_inv env r b st :
  recorder_inv r → retained env (active_paths (r_writers r)) (r_store r) st → recorder_inv (set_boots b (set_store st r)).
Proof.
  intros [H1 H2 H3 H4 H5] [[S1 S2 _ _] Ha]. split; cbn; auto.
  intros i w Hi Ho. destruct (H4 i w Hi Ho) as (Hs & (t & Hp) & Hd). split_and!; try done; try lia.
  exists t. eapply Ha; [done|by eapply active_in_paths| |exact Hp]. cbn. apply seq_from_segment_name.
  unfold is_u64, UINT64_MAX in *. lia.
Qed.

Lemma run_retention_inv fs boots r : recorder_inv r → recorder_inv (run_retention fs boots r).
Proof.
  intros H. unfold run_retention.
  pose proof (enforce_retained fs boots (r_config r) (active_paths (r_writers r)) (r_boots r) (r_store r)) as Hr.
  destruct (retention_enforce _ _ _ _ _ _) as [[b st] rem]. by eapply retained_inv.
Qed.
Lemma reclaim_inv io pr req r : recorder_inv r → recorder_inv (reclaim io pr req r).2.
Proof.
  intros H. unfold reclaim.
  pose proof (reclaim_retained (ry_fs io) (ry_boots io) (r_config r) (active_paths (r_writers r)) (ry_available io) pr req
    (r_boots r) (r_store r)) as Hr.
  destruct (retention_reclaim_lower_priority _ _ _ _ _ _ _ _ _) as [[b st] rem]. by eapply retained_inv.
Qed.

(** ** Single operations *)
Lemma on_dir_comp dir f g st : on_dir dir (λ files, f (g files)) st = on_dir dir f (on_dir dir g st).
Proof.
  unfold on_dir. cbn. f_equal. rewrite map_map. apply map_ext. intros d.
  destruct (beq (ld_name d) dir) eqn:Hb; cbn; by rewrite Hb.
Qed.

(** Names of the writer's segment, in a form the lookups use. *)
Lemma own_name nm w : In nm [segment_name (pw_segment_seq w); index_name (pw_segment_seq w);
                             segment_tmp_name (pw_segment_seq w)] → [(pw_group_name w, nm)] ⊆ own_names w.
Proof.
  intros Hin x ->%list_elem_of_singleton. apply list_elem_of_fmap. exists nm. split; [done|]. by apply list_elem_of_In.
Qed.

Lemma own_step w nm fn st :
  In nm [segment_name (pw_segment_seq w); index_name (pw_segment_seq w); segment_tmp_name (pw_segment_seq w)] →
  files_rel nm fn → store_rel (own_names w) st (on_dir (pw_group_name w) fn st).
Proof. intros Hin Hf. eapply store_rel_weaken; [by apply own_name|by apply on_dir_rel]. Qed.

Lemma own_trans w st1 st2 st3 :
  store_rel (own_names w) st1 st2 → store_rel (own_names w) st2 st3 → store_rel (own_names w) st1 st3.
Proof.
  intros H1 H2. eapply store_rel_weaken; [|by eapply store_rel_trans]. intros x [?|?]%elem_of_app; done.
Qed.
Lemma own_nil w st1 st2 : store_rel [] st1 st2 → store_rel (own_names w) st1 st2.
Proof. apply store_rel_weaken. intros x ?%elem_of_nil. done. Qed.

Lemma publish_rel now w st : store_rel (own_names w) st (publish now w st).
Proof.
  unfold publish. rewrite on_dir_comp. eapply own_trans; (eapply own_step; [|apply put_file_rel]); cbn; auto.
Qed.

Lemma still_there_dir st dir g : still_there st dir g → has_dir dir st.
Proof. intros (d & ? & ? & _). by exists d. Qed.

Lemma publish_published now w st : is_u64 (pw_segment_seq w) → has_dir (pw_group_name w) st → published w (publish now w st).
Proof.
  intros Hs Hd. exists now. unfold publish. rewrite on_dir_comp.
  apply (sr_keep _ _ _ (on_dir_rel _ (index_name (pw_segment_seq w)) _ _ (put_file_rel _ _ _))); [|by apply put_there].
  cbn [df_name]. intros [= E]%list_elem_of_singleton.
  pose proof (seq_from_segment_name _ Hs) as H. rewrite E in H. unfold index_name in H. by rewrite seq_from_other_name in H.
Qed.

(** The writer keeps its identity. *)
Definition same_segment (w w' : PriorityWriter) : Prop :=
  pw_group_name w' = pw_group_name w ∧ pw_segment_seq w' = pw_segment_seq w.

Lemma flush_any io now w res w' :
  writer_flush_chunk io now w = (res, w') →
  same_segment w w' ∧ pw_open w' = pw_open w ∧
  (zlen (pw_entries w) < CHUNK_SIZE → zlen (pw_compact_entries w) < CHUNK_SIZE → buffers_ok w') ∧
  (pw_count w ≠ 0 → buffers_ok w').
Proof.
  unfold writer_flush_chunk. destruct (Z.eqb_spec (pw_count w) 0).
  - intros [= <- <-]. by split_and!.
  - destruct (write_chunk io now w) as [r f]. intros [= <- <-]. by split_and!.
Qed.

Lemma append_any e w w' :
  append_entry e w = Ok w' → buffers_ok w →
  same_segment w w' ∧ pw_open w' = pw_open w ∧
  (buffers_ok w' ∨ pw_count w' = CHUNK_SIZE).
Proof.
  unfold append_entry, buffers_ok, pw_count. intros H [H1 H2].
  destruct (ws_use_compact_entries (pw_segment w)) eqn:Hc;
    [destruct (serialize_compact_entry e)|destruct (serialize_entry e)]; try done; injection H as <-;
    (split_and!; [done|done|]); cbn; rewrite Hc, zlen_app; (match goal with |- context [zlen [?x]] => change (zlen [x]) with 1 end);
    unfold CHUNK_SIZE in *; lia.
Qed.

Lemma close_any io now reason w res w' :
  writer_close_segment io now reason w = (res, w') → buffers_ok w →
  same_segment w w' ∧ buffers_ok w' ∧ (pw_open w = false → w' = w).
Proof.
  unfold writer_close_segment. intros H [Hb1 Hb2]. destruct (pw_open w) eqn:Ho; cbn [negb] in H; [|by injection H as <- <-].
  destruct (writer_flush_chunk _ _ _) as [[[]|] w1] eqn:Hf; apply flush_any in Hf as (Hs & _ & Hb & _); specialize (Hb Hb1 Hb2).
  2:{ by injection H as <- <-. }
  destruct (segment_write_footer _ _) as [rf fp]. destruct (rbind rf _); [|by injection H as <- <-].
  destruct (index_writer_close _ _) as [[|] ifp]; by injection H as <- <-.
Qed.

(** Writing back an open writer whose file may have grown. *)
Lemma publish_inv now r i w w' :
  recorder_inv r → r_writers r !! i = Some w → pw_open w = true → same_segment w w' → buffers_ok w' →
  recorder_inv (set_store (publish now w' (r_store r)) (set_writer i w' r)).
Proof.
  intros Hinv Hi Ho [Hg Hs] Hb. destruct (ri_open _ Hinv i w Hi Ho) as (Hseq & (t & Hp) & Hd). pose proof (ri_next _ Hinv) as Hn.
  eapply inv_step with (i := i) (w' := w'); try exact Hinv; try done; cbn.
  - lia.
  - by rewrite Hs.
  - by rewrite Hs.
  - apply publish_rel.
  - intros _. apply publish_published; [rewrite Hs; unfold is_u64, UINT64_MAX in *; lia|].
    rewrite Hg. by eapply still_there_dir.
Qed.

Lemma close_writer_inv io ck i w reason r res r' :
  recorder_close_writer io ck i w reason r = (res, r') → r_writers r !! i = Some w → recorder_inv r →
  recorder_inv r' ∧ r_next_segment_seq r' = r_next_segment_seq r.
Proof.
  intros H Hi Hinv. unfold recorder_close_writer in H.
  destruct (writer_close_segment _ _ _ w) as [res0 w'] eqn:Hc.
  assert (Hb : buffers_ok w) by (by eapply Forall_lookup_1 in Hi; [|apply Hinv]).
  destruct (close_any _ _ _ _ _ _ Hc Hb) as ((Hg & Hs) & Hb' & Hsame).
  match type of H with context [run_retention _ _ ?x] => set (r2 := x) in * end.
  assert (Hinv2 : recorder_inv r2 ∧ r_next_segment_seq r2 = r_next_segment_seq r).
  { unfold r2. destruct (pw_open w) eqn:Ho.
    - split; [|done]. by apply (publish_inv (ck_time ck) r i w w').
    - rewrite (Hsame eq_refl). split; [|done]. destruct Hinv as [H1 H2 H3 H4 H5].
      split; cbn; rewrite ?list_insert_id; done. }
  destruct Hinv2 as [Hinv2 Hn]. destruct res0; injection H as <- <-.
  - split; [by apply run_retention_inv|]. destruct (run_retention_writers (ce_fs io) (ce_boots io) r2) as (_ & _ & _ & ->). done.
  - done.
Qed.

(** What an attempt to create a segment leaves behind. *)
Record created (r : Recorder) (w : PriorityWriter) (r' : Recorder) (w' : PriorityWriter) : Prop := {
  cr_writers : r_writers r' = r_writers r;
  cr_next : r_next_segment_seq r' = r_next_segment_seq r;
  cr_same : same_segment w w';
  cr_store : store_rel (own_names w) (r_store r) (r_store r');
  cr_open : pw_open w' = true → pw_open w = true ∨ published w' (r_store r');
  cr_buffers : pw_entries w' = pw_entries w ∧ pw_compact_entries w' = pw_compact_entries w;
}.

Lemma create_any io ck e r w res r' w' :
  create_segment io ck e r w = (res, r', w') → is_u64 (pw_segment_seq w) → has_dir (pw_group_name w) (r_store r) →
  created r w r' w' ∧ (res = Ok tt → pw_open w' = true).
Proof.
  intros H Hs Hd. unfold create_segment in H. cbv zeta in H.
  set (dir := pw_group_name w) in *. set (seq := pw_segment_seq w) in *.
  assert (Htmp : ∀ fn st, files_rel (segment_tmp_name seq) fn → store_rel (own_names w) st (on_dir dir fn st))
    by (intros; eapply own_step; [|done]; cbn; auto).
  assert (Hidx : ∀ fn st, files_rel (index_name seq) fn → store_rel (own_names w) st (on_dir dir fn st))
    by (intros; eapply own_step; [|done]; cbn; auto).
  assert (Hseg : ∀ fn st, files_rel (segment_name seq) fn → store_rel (own_names w) st (on_dir dir fn st))
    by (intros; eapply own_step; [|done]; cbn; auto).
  pose proof put_file_rel as Hput. pose proof unlink_rel as Hun. pose proof remove_name_rel as Hrm.
  assert (Hsame : ∀ r2, r_writers r2 = r_writers r → r_next_segment_seq r2 = r_next_segment_seq r →
    store_rel (own_names w) (r_store r) (r_store r2) → created r w r2 w) by (intros; split; auto; done).
  destruct (op_fopen io) as [room|]; [|injection H as <- <- <-; split; [|done]; apply Hsame; [done|done|apply own_nil, store_rel_refl]].
  set (st1 := on_dir dir (put_file (segment_tmp_name seq) [] (ck_time ck)) (r_store r)) in *.
  assert (R1 : store_rel (own_names w) (r_store r) st1) by (by apply Htmp).
  destruct (let? encryptor := open_encryptor (r_config r) in _) as [[enc0 dict]|]; cycle 1.
  { injection H as <- <- <-. split; [|done]. apply Hsame; [done|done|]. eapply own_trans; [exact R1|]. by apply Htmp. }
  destruct (segment_write_header _ _ _ _ _) as [[[rh fp] enc] draw].
  set (st2 := on_dir dir (put_file (segment_tmp_name seq) (f_data fp) (ck_time ck)) st1) in *.
  assert (R2 : store_rel (own_names w) (r_store r) st2) by (eapply own_trans; [exact R1|by apply Htmp]).
  destruct rh; [|injection H as <- <- <-; split; [|done]; by apply Hsame].
  destruct (index_writer_open _ _ _) as [iw|]; cycle 1.
  { injection H as <- <- <-. split; [|done]. apply Hsame; [done|done|]. eapply own_trans; [exact R2|by apply Htmp]. }
  set (st3 := on_dir dir (put_file (index_name seq) (f_data (iw_fp iw)) (ck_time ck)) st2) in *.
  assert (R3 : store_rel (own_names w) (r_store r) st3) by (eapply own_trans; [exact R2|by apply Hidx]).
  destruct (let? _ := op_sync io in _); cycle 1.
  { injection H as <- <- <-. split; [|done]. apply Hsame; [done|done|]. eapply own_trans; [exact R3|].
    eapply own_trans; [|by apply Htmp]. by apply Hidx. }
  rewrite (on_dir_comp dir (put_file (segment_name seq) (f_data fp) (ck_time ck)) (remove_name (segment_tmp_name seq))) in H.
  set (st4 := on_dir dir (remove_name (segment_tmp_name seq)) st3) in *.
  assert (R4 : store_rel (own_names w) (r_store r) st4) by (eapply own_trans; [exact R3|by apply Htmp]).
  set (st5 := on_dir dir (put_file (segment_name seq) (f_data fp) (ck_time ck)) st4) in *.
  assert (R5 : store_rel (own_names w) (r_store r) st5) by (eapply own_trans; [exact R4|by apply Hseg]).
  destruct (op_fsync_dir io); injection H as <- <- <-.
  - split; [|done]. split; try done. intros _. right. exists (ck_time ck). apply put_there.
    unfold st4, st3, st2, st1. by repeat apply has_dir_on.
  - split; [|done]. apply Hsame; [done|done|]. eapply own_trans; [exact R5|by apply Hidx].
Qed.

Lemma open_any io ck e r w res r' w' :
  writer_open_segment io ck e r w = (res, r', w') → recorder_inv r → r_next_segment_seq r < UINT64_MAX → pw_open w = false →
  r_writers r' = r_writers r ∧ pw_entries w' = pw_entries w ∧ pw_compact_entries w' = pw_compact_entries w ∧
  (res = Ok tt → pw_open w' = true) ∧
  ((r' = r ∧ w' = w) ∨
   (r_next_segment_seq r' = r_next_segment_seq r + 1 ∧ pw_segment_seq w' = r_next_segment_seq r ∧
    store_rel (own_names w') (r_store r) (r_store r') ∧ (pw_open w' = true → published w' (r_store r')) ∧
    pw_group_name w' = pw_group_name w)).
Proof.
  intros H Hinv Hlt Ho. unfold writer_open_segment in H. destruct (op_mkdir io).
  2:{ injection H as <- <- <-. split_and!; try done. by left. }
  pose proof (ri_next _ Hinv) as Hn.
  assert (Hu : u64 (r_next_segment_seq r + 1) = r_next_segment_seq r + 1).
  { apply u64_id. unfold is_u64, UINT64_MAX in *. lia. }
  rewrite Hu in H.
  pose proof (persist_seq_rel (op_fs io) (op_persist io) (r_next_segment_seq r + 1)
    (mkdir_p (pw_group_name w) (r_store r))) as Rp.
  pose proof (after_write_dirs (op_persist io) (fs_now (op_fs io)) (C "segment_seq")
    (print_u64 (r_next_segment_seq r + 1) ++ [10]) (mkdir_p (pw_group_name w) (r_store r))) as Hdirs.
  fold (persist_next_segment_seq (op_fs io) (op_persist io) (r_next_segment_seq r + 1)
    (mkdir_p (pw_group_name w) (r_store r))) in Hdirs.
  destruct (persist_next_segment_seq _ _ _ _) as [rp st]. cbn [snd] in Rp, Hdirs.
  set (w1 := with_seq (r_next_segment_seq r) w) in *.
  assert (R1 : store_rel (own_names w1) (r_store r) st).
  { eapply own_trans; [apply own_nil, mkdir_p_rel|]. by apply own_nil. }
  destruct rp as [u|e0]; cycle 1.
  { injection H as <- <- <-. split_and!; try done. right. split_and!; try done. cbn. by rewrite Ho. }
  apply create_any in H as [[C1 C2 [C3a C3b] C4 C5 C6] C7].
  - cbn in C1, C2, C3a, C3b, C6. split_and!; try done; try apply C6. right. split_and!; try done.
    + assert (own_names w' = own_names w1) as -> by (unfold own_names; by rewrite C3a, C3b).
      eapply own_trans; [exact R1|exact C4].
    + intros Hw'. destruct (C5 Hw') as [Hc|?]; [|done]. cbn in Hc. congruence.
  - cbn. unfold is_u64, UINT64_MAX in *. lia.
  - cbn [r_store set_store]. eapply has_dir_same; [exact Hdirs|]. apply has_dir_mkdir.
Qed.

Lemma buffers_at r i w : recorder_inv r → r_writers r !! i = Some w → buffers_ok w.
Proof. intros H Hi. by eapply Forall_lookup_1 in Hi; [|apply H]. Qed.

Lemma ensure_open_inv io ck e i r res r' :
  ensure_open io ck e i r = (res, r') → recorder_inv r → r_next_segment_seq r < UINT64_MAX →
  recorder_inv r' ∧ r_next_segment_seq r <= r_next_segment_seq r' <= r_next_segment_seq r + 1 ∧
  (res = Ok tt → ∃ w, r_writers r' !! i = Some w ∧ pw_open w = true).
Proof.
  intros H Hinv Hlt. unfold ensure_open in H. destruct (r_writers r !! i) as [w|] eqn:Hw.
  2:{ injection H as <- <-. split_and!; [done|lia|lia|done]. }
  destruct (pw_open w) eqn:Ho.
  { injection H as <- <-. split_and!; [done|lia|lia|]. intros _. by exists w. }
  destruct (writer_open_segment _ _ _ _ _) as [[res0 r1] w1] eqn:Hop. injection H as <- <-.
  apply open_any in Hop as (Hws & He & Hc & Hok & Hcase); try done.
  assert (Hat : r_writers (set_writer i w1 r1) !! i = Some w1).
  { cbn. apply list_lookup_insert_eq. rewrite Hws. by eapply lookup_lt_Some. }
  destruct Hcase as [[-> ->]|(Hn & Hs & Hrel & Hpub & _)].
  - split_and!; [|cbn; lia|cbn; lia|intros E; exists w; by split; [|apply Hok]].
    destruct Hinv. split; cbn; rewrite ?list_insert_id; done.
  - pose proof (ri_next _ Hinv). split_and!; [|cbn; lia|cbn; lia|intros E; exists w1; by split; [|apply Hok]].
    eapply inv_step with (i := i) (w' := w1); try exact Hinv; try done; cbn; try lia.
    + by rewrite Hws.
    + rewrite Hs. intros j wj Hj _ Hoj. destruct (ri_open _ Hinv j wj Hj Hoj) as [? _]. lia.
    + unfold buffers_ok. rewrite He, Hc. by eapply buffers_at.
Qed.

Lemma ensure_inv io ck e r res r' :
  recorder_ensure_writer io ck e r = (res, r') → recorder_inv r → r_next_segment_seq r < UINT64_MAX →
  recorder_inv r' ∧ r_next_segment_seq r <= r_next_segment_seq r' <= r_next_segment_seq r + 1 ∧
  (res = Ok tt → ∃ i w, priority_group (r_config r) (le_priority e) = Some i ∧
                         r_writers r' !! i = Some w ∧ pw_open w = true).
Proof.
  intros H Hinv Hlt. unfold recorder_ensure_writer in H.
  assert (Hnone : (Err EUNSET, r) = (res, r') → recorder_inv r' ∧
    r_next_segment_seq r <= r_next_segment_seq r' <= r_next_segment_seq r + 1 ∧
    (res = Ok tt → ∃ i w, priority_group (r_config r) (le_priority e) = Some i ∧
                           r_writers r' !! i = Some w ∧ pw_open w = true)).
  { intros [= <- <-]. split_and!; [done|lia|lia|done]. }
  destruct (priority_group (r_config r) (le_priority e)) as [i|]; [|by apply Hnone].
  destruct (r_writers r !! i) as [w|] eqn:Hw; [|by apply Hnone]. clear Hnone.
  destruct (decide _).
  - apply ensure_open_inv in H as (? & ? & Hok); try done. split_and!; [done|lia|lia|].
    intros E. destruct (Hok E) as (w' & ?). by exists i, w'.
  - destruct (recorder_close_writer _ _ _ _ _ r) as [res1 r1] eqn:Hc.
    destruct (close_writer_inv _ _ _ _ _ _ _ _ Hc Hw Hinv) as [Hinv1 Hn1].
    destruct res1; [|injection H as <- <-; split_and!; [done|lia|lia|done]].
    apply ensure_open_inv in H as (? & ? & Hok); [|done|lia]. split_and!; [done|lia|lia|].
    intros E. destruct (Hok E) as (w' & ?). by exists i, w'.
Qed.

Lemma submit_inv io ck e r res r' :
  recorder_submit_entry io ck e r = (res, r') → recorder_inv r → r_next_segment_seq r < UINT64_MAX →
  recorder_inv r' ∧ r_next_segment_seq r <= r_next_segment_seq r' <= r_next_segment_seq r + 1.
Proof.
  intros H Hinv Hlt. unfold recorder_submit_entry in H.
  destruct (priority_group (r_config r) (le_priority e)) as [i|] eqn:Hpg;
    [|injection H as <- <-; split_and!; [done|lia|lia]].
  destruct (recorder_ensure_writer io ck e r) as [res1 r1] eqn:Hen.
  destruct (ensure_inv _ _ _ _ _ _ Hen Hinv Hlt) as (Hinv1 & Hn1 & Hok1).
  destruct res1 as [[]|]; [|injection H as <- <-; split_and!; [done|lia|lia]].
  destruct (Hok1 eq_refl) as (i' & w & Hi' & Hw & Ho). rewrite Hpg in Hi'. injection Hi' as <-.
  rewrite Hw in H. destruct (append_entry e w) as [w1|] eqn:Ha; [|injection H as <- <-; split_and!; [done|lia|lia]].
  apply append_any in Ha as ((Hg1 & Hs1) & Ho1 & Hb1); [|by eapply buffers_at].
  destruct (if pw_count w1 =? CHUNK_SIZE then _ else _) as [rf w2] eqn:Hf.
  assert (Hw2 : same_segment w1 w2 ∧ pw_open w2 = pw_open w1 ∧ buffers_ok w2).
  { destruct (Z.eqb_spec (pw_count w1) CHUNK_SIZE) as [Hc|Hc].
    - apply flush_any in Hf as (? & ? & _ & Hb). split_and!; try done. apply Hb. rewrite Hc. done.
    - injection Hf as <- <-. split_and!; try done. by destruct Hb1. }
  destruct Hw2 as ((Hg2 & Hs2) & Ho2 & Hb2).
  set (r2 := set_store (publish (ck_time ck) w2 (r_store r1)) (set_writer i w2 r1)) in *.
  assert (Hinv2 : recorder_inv r2) by (apply (publish_inv _ r1 i w w2); try done; split; congruence).
  assert (Hat : r_writers r2 !! i = Some w2).
  { cbn. apply list_lookup_insert_eq. by eapply lookup_lt_Some. }
  destruct rf; [|injection H as <- <-; split_and!; [done|cbn; lia|cbn; lia]].
  destruct (recorder_segment_limit r2 <=? _); [|injection H as <- <-; split_and!; [done|cbn; lia|cbn; lia]].
  destruct (close_writer_inv _ _ _ _ _ _ _ _ H Hat Hinv2) as [? Hn]. split; [done|]. rewrite Hn. cbn. lia.
Qed.

Lemma reclaim_next io pr req r : r_next_segment_seq (reclaim io pr req r).2 = r_next_segment_seq r.
Proof. unfold reclaim. by destruct (retention_reclaim_lower_priority _ _ _ _ _ _ _ _ _) as [[b st] rem]. Qed.

Lemma submit_recovery_inv io ck e r res r' :
  recorder_submit_entry_with_recovery io ck e r = (res, r') → recorder_inv r → r_next_segment_seq r + 1 < UINT64_MAX →
  recorder_inv r' ∧ r_next_segment_seq r <= r_next_segment_seq r' <= r_next_segment_seq r + 2.
Proof.
  intros H Hinv Hlt. unfold recorder_submit_entry_with_recovery in H. cbv zeta in H.
  set (req := if _ <? _ then _ else _) in *.
  set (r0 := if _ =? 0 then r else _) in *.
  assert (H0 : recorder_inv r0 ∧ r_next_segment_seq r0 = r_next_segment_seq r).
  { unfold r0. destruct (_ =? 0); [done|]. split; [by apply reclaim_inv|apply reclaim_next]. }
  destruct H0 as [Hinv0 Hn0]. destruct (recorder_submit_entry (ry_first io) ck e r0) as [res1 r1] eqn:H1.
  apply submit_inv in H1 as [Hinv1 Hn1]; [|done|lia].
  destruct res1; [injection H as <- <-; split; [done|lia]|].
  destruct (decide _); [|injection H as <- <-; split; [done|lia]].
  pose proof (reclaim_inv io (le_priority e) req r1 Hinv1) as Hinv2.
  pose proof (reclaim_next io (le_priority e) req r1) as Hn2.
  destruct (reclaim io (le_priority e) req r1) as [n r2]. cbn [snd] in *.
  destruct (0 <? n); [|injection H as <- <-; split; [done|lia]].
  apply submit_inv in H as [? ?]; [|done|lia]. split; [done|lia].
Qed.

(** ** Flushing everything *)
Definition flushed (w w' : PriorityWriter) : Prop :=
  same_segment w w' ∧ pw_open w' = pw_open w ∧ (buffers_ok w → buffers_ok w').

Lemma flushed_refl w : flushed w w.
Proof. by split_and!. Qed.
Lemma flushed_trans w1 w2 w3 : flushed w1 w2 → flushed w2 w3 → flushed w1 w3.
Proof. intros ((E1 & E2) & E3 & E4) ((F1 & F2) & F3 & F4). split_and!; [split; congruence|congruence|auto]. Qed.

Lemma flush_flushed io now w res w' : writer_flush_chunk io now w = (res, w') → flushed w w'.
Proof. intros (Hs & Ho & Hb & _)%flush_any. split_and!; try done. intros [? ?]. auto. Qed.
Lemma sync_flushed sync now w res w' : writer_sync_if_due sync now w = (res, w') → flushed w w'.
Proof.
  unfold writer_sync_if_due. destruct (negb (pw_open w) || _); [intros [= <- <-]; apply flushed_refl|].
  destruct (_ || _); [|intros [= <- <-]; apply flushed_refl]. by destruct sync; intros [= <- <-].
Qed.

Lemma flush_writers_flushed ios now ws res ws' : flush_writers ios now ws = (res, ws') → Forall2 flushed ws ws'.
Proof.
  assert (Hrefl : ∀ l, Forall2 flushed l l) by (induction l; constructor; [apply flushed_refl|done]).
  revert ios res ws'. induction ws as [|w ws IH]; intros ios res ws' H.
  { destruct ios as [|[]]; injection H as <- <-; constructor. }
  destruct ios as [|[io sync] ios]; [injection H as <- <-; apply Hrefl|]. cbn [flush_writers] in H.
  destruct (writer_flush_chunk io now w) as [[u|e] w1] eqn:Hf; apply flush_flushed in Hf.
  2:{ injection H as <- <-. by constructor. }
  destruct (writer_sync_if_due sync now w1) as [[v|e] w2] eqn:Hs; apply sync_flushed in Hs.
  2:{ injection H as <- <-. constructor; [by eapply flushed_trans|done]. }
  destruct (flush_writers ios now ws) as [r ws2] eqn:Hr. injection H as <- <-.
  constructor; [by eapply flushed_trans|by eapply IH].
Qed.

Lemma publish_all_inv now r ws ws' : ∀ before st,
  Forall2 flushed ws ws' →
  recorder_inv (set_store st (set_writers (before ++ ws) r)) →
  recorder_inv (set_store (publish_open now ws' st) (set_writers (before ++ ws') r)).
Proof.
  intros before st H. revert before st. induction H as [|w w' ws ws' Hw H IH]; intros before st Hinv; [done|].
  unfold publish_open. cbn [fold_left]. fold (publish_open now ws' (if pw_open w' then publish now w' st else st)).
  rewrite (cons_middle w' before ws'), app_assoc. apply IH. rewrite <-app_assoc. cbn [app].
  destruct Hw as ((Hg & Hs) & Ho & Hb). set (r0 := set_store st (set_writers (before ++ w :: ws) r)) in *.
  assert (Hat : r_writers r0 !! length before = Some w) by (cbn; by apply list_lookup_middle).
  assert (Hws : before ++ w' :: ws = <[length before := w']> (before ++ w :: ws)).
  { rewrite <-(Nat.add_0_r (length before)). by rewrite insert_app_r. }
  pose proof (buffers_at _ _ _ Hinv Hat) as Hbuf. destruct (pw_open w) eqn:Hopen; rewrite Ho.
  - destruct (ri_open _ Hinv _ _ Hat Hopen) as (Hseq & (t & Hp) & Hd). pose proof (ri_next _ Hinv) as Hn.
    eapply inv_step with (i := length before) (w' := w'); try exact Hinv; auto.
    + change (r_next_segment_seq r0) with (r_next_segment_seq r) in *. cbn. lia.
    + rewrite Hs. exact Hseq.
    + by rewrite Hs.
    + apply publish_rel.
    + intros _. apply publish_published; [rewrite Hs; unfold is_u64, UINT64_MAX in *; lia|]. rewrite Hg. by eapply still_there_dir.
  - destruct Hinv as [H1 H2 H3 H4 H5]. split; cbn; rewrite ?Hws; try done.
    + intros j wj Hj Hoj. destruct (decide (j = length before)) as [->|Hne].
      { apply list_lookup_insert_Some in Hj as [(_ & <- & _)|[? _]]; [congruence|done]. }
      rewrite list_lookup_insert_ne in Hj by done. destruct (H4 j wj Hj Hoj) as (? & ? & Hd). split; [done|]. split; [done|].
      intros k wk Hk Hkj Hok. destruct (decide (k = length before)) as [->|Hk2].
      { apply list_lookup_insert_Some in Hk as [(_ & <- & _)|[? _]]; [congruence|done]. }
      rewrite list_lookup_insert_ne in Hk by done. by apply (Hd k).
    + apply Forall_insert; auto.
Qed.

Lemma flush_all_inv ios ck r res r' :
  recorder_flush_all ios ck r = (res, r') → recorder_inv r → recorder_inv r'.
Proof.
  unfold recorder_flush_all. destruct (flush_writers _ _ _) as [rf ws] eqn:Hf. intros [= <- <-] Hinv.
  apply flush_writers_flushed in Hf. apply (publish_all_inv _ r (r_writers r) ws []); [done|]. by destruct r.
Qed.

Lemma sample_clock_inv b1 rt b2 r : recorder_inv r → recorder_inv (recorder_sample_clock b1 rt b2 r).
Proof.
  intros H. unfold recorder_sample_clock. cbv zeta. destruct (_ || _); [done|].
  destruct (r_clock_offset r); [destruct (_ || _)|]; by destruct H.
Qed.

(** ** Start-up *)
Definition names_nodup (files : list DirFile) : Prop := NoDup (map df_name files).

Lemma unlink_nodup env dir name files : names_nodup files → names_nodup (unlink env dir name files).
Proof. apply (fr_unique _ _ (unlink_rel env dir name)). Qed.
Lemma put_nodup name data now files : names_nodup files → names_nodup (put_file name data now files).
Proof. apply (fr_unique _ _ (put_file_rel name data now)). Qed.

Lemma fold_nodup {A} (fn : list DirFile → A → list DirFile) l files :
  (∀ files a, names_nodup files → names_nodup (fn files a)) → names_nodup files → names_nodup (fold_left fn l files).
Proof. intros H. revert files. induction l as [|a l IH]; intros files Hf; cbn; auto. Qed.

Lemma recover_file_nodup env dir name files : names_nodup files → names_nodup (recover_file env dir name files).
Proof.
  intros H. unfold recover_file. cbv zeta. pose proof unlink_nodup as Hu. pose proof put_nodup as Hp.
  repeat case_match; auto.
Qed.

Lemma map_dirs_unique fn st :
  (∀ d, names_nodup (ld_files d) → names_nodup (fn d)) →
  store_names_unique st → store_names_unique (mkStore (map_segment_dirs fn (st_dirs st)) (st_state st)).
Proof.
  intros H [Hd Hf]. unfold map_segment_dirs. split; cbn.
  - rewrite map_map. replace (map _ (st_dirs st)) with (map ld_name (st_dirs st)); [done|].
    apply map_ext. intros d. by destruct (is_segment_dir_name _).
  - apply Forall_map. eapply Forall_impl; [exact Hf|]. cbn. intros d Hd'. destruct (is_segment_dir_name _); [|done].
    by apply H.
Qed.

Lemma recover_store_unique env st : store_names_unique st → store_names_unique (recover_store env st).
Proof.
  intros H. unfold recover_store.
  apply (map_dirs_unique (cleanup_segment_dir_cb env)) in H.
  - apply (map_dirs_unique (recover_segment_dir_cb env)) in H; [exact H|].
    intros d Hd. unfold recover_segment_dir_cb. apply fold_nodup; [|done]. intros. by apply recover_file_nodup.
  - intros d Hd. unfold cleanup_segment_dir_cb. apply fold_nodup; [|done].
    intros files f Hf. destruct (_ || _); [by apply unlink_nodup|done].
Qed.

Lemma scanned_names_below st : names_below (scan_existing_segment_seq_max st + 1) st.
Proof.
  apply Forall_forall. intros d Hd Hs. apply Forall_forall. intros f Hf s E.
  pose proof (scan_max_bound st d f s Hd Hs Hf E). lia.
Qed.

Definition opt_u64 (o : option Z) : Prop := match o with Some x => is_u64 x | None => True end.

Lemma max_dirs_range dirs : ∀ ctx,
  opt_u64 ctx → opt_u64 (for_each_segment_dir scan_existing_segment_seq_max_cb dirs ctx).
Proof.
  assert (Hcb : ∀ d ctx, opt_u64 ctx → opt_u64 (scan_existing_segment_seq_max_cb d ctx)).
  { intros d. unfold scan_existing_segment_seq_max_cb. generalize (ld_files d) as l. intros l.
    induction l as [|f l IH]; intros ctx Hc; cbn [fold_left]; [done|]. apply IH.
    destruct (segment_seq_from_name (df_name f)) as [s|] eqn:E; [|done]. apply segment_seq_range in E.
    destruct ctx; [by destruct (_ <? _)|done]. }
  induction dirs as [|d dirs IH]; intros ctx Hc; cbn [for_each_segment_dir]; [done|]. apply IH.
  destruct (is_segment_dir_name _); auto.
Qed.

Lemma scan_max_range st : is_u64 (scan_existing_segment_seq_max st).
Proof.
  unfold scan_existing_segment_seq_max. pose proof (max_dirs_range (st_dirs st) None I) as H.
  destruct (for_each_segment_dir _ _ _); [exact H|]. by vm_compute.
Qed.

Lemma persisted_range st v : read_persisted_next_segment_seq st = Some v → is_u64 v.
Proof.
  unfold read_persisted_next_segment_seq, parse_next_segment_seq. destruct (find_file _ _); [|done].
  destruct (strtoull10 _) as [[v' r] [|]] eqn:Hs; cbn [orb]; [done|]. destruct (negb _); [done|].
  intros [= <-]. pose proof (strtoull_range (cstr (df_data d))) as Hr. by rewrite Hs in Hr.
Qed.

(** The first number is above everything that was numbered. *)
Lemma first_seq_spec st :
  scan_existing_segment_seq_max st < UINT64_MAX →
  is_u64 (first_segment_seq st) ∧ scan_existing_segment_seq_max st < first_segment_seq st ∧
  (∀ v, read_persisted_next_segment_seq st = Some v → v <= first_segment_seq st).
Proof.
  intros Hlt. pose proof (scan_max_range st) as Hr. unfold first_segment_seq.
  rewrite u64_id by (unfold is_u64, UINT64_MAX in *; lia).
  destruct (read_persisted_next_segment_seq st) as [v|] eqn:Hp.
  - apply persisted_range in Hp. destruct (Z.ltb_spec (scan_existing_segment_seq_max st + 1) v);
      (split_and!; [unfold is_u64, UINT64_MAX in *; lia|lia|intros ? [= <-]; lia]).
  - split_and!; [unfold is_u64, UINT64_MAX in *; lia|lia|done].
Qed.

Lemma init_writers_closed i groups : Forall (λ w, pw_open w = false ∧ buffers_ok w) (init_writers i groups).
Proof. revert i. induction groups as [|g gs IH]; intros i; cbn [init_writers]; constructor; [by split_and!|apply IH]. Qed.

Lemma init_inv io cfg st r :
  recorder_init io cfg st = Ok r → store_names_unique st →
  scan_existing_segment_seq_max (recover_store (sr_fs io) st) < UINT64_MAX → recorder_inv r.
Proof.
  intros H Hu Hlt. unfold recorder_init in H. destruct (sr_prepare io); [|done].
  set (st1 := recover_store (sr_fs io) st) in *. apply (recover_store_unique (sr_fs io)) in Hu. fold st1 in Hu.
  destruct (first_seq_spec st1 Hlt) as (Hr & Hgt & _).
  pose proof (persist_seq_rel (sr_fs io) (sr_seq io) (first_segment_seq st1) st1) as R1.
  destruct (persist_next_segment_seq _ _ _ _) as [? st2]. cbn [snd] in R1.
  pose proof (same_dirs_rel st2 _ (persist_boot_dirs (sr_fs io) (sr_boots io) (boot_registry_rebuild_from_segments st2) st2)) as R2.
  destruct (persist_boot_state _ _ _ _) as [? st3]. cbn [snd] in R2.
  injection H as <-. apply run_retention_inv. pose proof (init_writers_closed 0 (cfg_groups cfg)) as Hw.
  split; cbn.
  - unfold is_u64, UINT64_MAX in *. lia.
  - by apply R2, R1.
  - apply R2; [constructor|]. apply R1; [constructor|]. eapply names_below_mono; [|apply scanned_names_below]. lia.
  - intros i w Hi Ho. eapply Forall_lookup_1 in Hw as [? _]; [|exact Hi]. congruence.
  - eapply Forall_impl; [exact Hw|]. by intros w [_ ?].
Qed.

(** ** Runs *)

(** Every state the recorder can reach: started on some store, then entries,
    flushes and clock samples in any order, with any answers of the system. *)
Inductive recorder_run (cfg : RecorderConfig) : Recorder → Prop :=
  | run_init io st r :
      recorder_init io cfg st = Ok r → store_names_unique st →
      scan_existing_segment_seq_max (recover_store (sr_fs io) st) < UINT64_MAX → recorder_run cfg r
  | run_submit io ck e r res r' :
      recorder_run cfg r → r_next_segment_seq r + 1 < UINT64_MAX →
      recorder_submit_entry_with_recovery io ck e r = (res, r') → recorder_run cfg r'
  | run_flush ios ck r res r' :
      recorder_run cfg r → recorder_flush_all ios ck r = (res, r') → recorder_run cfg r'
  | run_clock boot1 realtime boot2 r :
      recorder_run cfg r → recorder_run cfg (recorder_sample_clock boot1 realtime boot2 r).

(** C9: in every state the recorder reaches, whatever fails: no segment on disk has
    the number the next one will get, so no segment is ever overwritten; the file
    of every open segment is in the store with exactly the bytes written to it,
    and no two open segments share a number; and the entry buffers have room, so
    that storing an entry stays within the arrays. *)
Theorem recorder_run_inv cfg r :
  recorder_run cfg r →
  (∀ dir g, is_segment_dir_name dir = true → still_there (r_store r) dir g →
     df_name g ≠ segment_name (r_next_segment_seq r)) ∧
  (∀ i w, r_writers r !! i = Some w → pw_open w = true →
     published w (r_store r) ∧ distinct_from (pw_segment_seq w) i (r_writers r)) ∧
  Forall buffers_ok (r_writers r).
Proof.
  intros Hrun. assert (Hinv : recorder_inv r).
  { induction Hrun.
    - by eapply init_inv.
    - by eapply submit_recovery_inv.
    - by eapply flush_all_inv.
    - by apply sample_clock_inv. }
  pose proof Hinv as [Hn Hu Hb Ho Hbuf]. split_and!; [|intros i w Hi Hop; by destruct (Ho i w Hi Hop) as (_ & ? & ?)|done].
  intros dir g Hdir (d & Hd & Hdn & Hg) Heq. unfold names_below in Hb. rewrite Forall_forall in Hb.
  specialize (Hb d Hd). rewrite Hdn, Forall_forall in Hb. specialize (Hb Hdir g Hg (r_next_segment_seq r)).
  rewrite Heq, seq_from_segment_name in Hb by (unfold is_u64, UINT64_MAX in *; lia). specialize (Hb eq_refl). lia.
Qed.
End invariant.
