(* ===== verification/RecorderLogs.v ===== *)
(** * The logs of the groups, in the store

    The writers stand for the logs of RecorderProofs; here the closed segments of
    these logs are files of the store.  A step of the recorder leaves the file of
    every closed segment as it is, or the system has let it be unlinked; and the
    segment that a step closes has its file from then on. *)
From S2P Require Import Prelude Bytes Crypto Segment SegmentImage SegmentScan SegmentWrite Models SegmentSpec.
From S2P Require Import Chunk ChunkModel Index CText Entry Store StoreProofs Json Boots Config Retention RetentionProofs.
From S2P Require Import Writer WriterProofs Recorder RecorderProofs RecorderInv.

(** ** Files that stay unless their removal was granted *)
Section stored.
(** The directories and names whose removal the system may allow. *)
Context (granted : bytes → bytes → Prop).

Definition grants (env : FsEnv) : Prop := ∀ dir name, fs_unlink_ok env dir name = true → granted dir name.

(** The file is there with exactly [data], or it has been removed. *)
Definition stored (dir name data : bytes) (st : Store) : Prop :=
  (∃ t, still_there st dir (mkDirFile name data t)) ∨ (granted dir name ∧ absent dir name st).

Lemma rel_stored T st st' dir name data :
  store_rel T st st' → (dir, name) ∉ T → stored dir name data st → stored dir name data st'.
Proof.
  intros [_ K O _] Hn [[t Ht]|[Hg Ha]].
  - left. exists t. by apply K.
  - right. split; [done|]. intros g Hg' Heq. apply (Ha g); [|done]. apply O; [|done]. by rewrite Heq.
Qed.
Lemma shrinks_stored env st st' dir name data :
  grants env → shrinks env st st' → stored dir name data st → stored dir name data st'.
Proof.
  intros He [_ _ O G] [[t Ht]|[Hg Ha]].
  - destruct (G _ _ Ht) as [?|[Hok ?]]; [left; by exists t|]. right. split; [by apply He|done].
  - right. split; [done|]. intros g Hg'. by apply Ha, O.
Qed.
Lemma same_dirs_stored st st' dir name data :
  st_dirs st' = st_dirs st → stored dir name data st → stored dir name data st'.
Proof. intros H. apply (rel_stored []); [by apply same_dirs_rel|by apply not_elem_of_nil]. Qed.
End stored.

(** ** Steps of the recorder and closed segments *)
Section logs.
Context `{RX : RegexLib} `{W : WriterLib} `{J : Jansson}.
Context (granted : bytes → bytes → Prop).

(** No open segment has the number. *)
Definition not_open (seq : Z) (ws : list PriorityWriter) : Prop :=
  ∀ j w, ws !! j = Some w → pw_open w = true → pw_segment_seq w ≠ seq.

Record closed_stored (r : Recorder) (dir : bytes) (c : ClosedSegment) : Prop := {
  cl_range : 0 <= cs_seq c < r_next_segment_seq r;
  cl_not_open : not_open (cs_seq c) (r_writers r);
  cl_stored : stored granted dir (segment_name (cs_seq c)) (cs_data c) (r_store r);
}.

(** The logs are in the store: open segments as the invariant says, and the file
    of every closed one. *)
Record logs_stored (r : Recorder) (gs : list GroupLog) : Prop := {
  lo_inv : recorder_inv r;
  lo_closed : ∀ i w g, r_writers r !! i = Some w → gs !! i = Some g →
    Forall (closed_stored r (pw_group_name w)) (gl_closed g);
}.

(** A step that touches no closed segment. *)
Record carries (r r' : Recorder) : Prop := {
  ca_groups : map pw_group_name (r_writers r') = map pw_group_name (r_writers r);
  ca_segments : ∀ dir c, closed_stored r dir c → closed_stored r' dir c;
}.
Lemma carries_refl r : carries r r.
Proof. by split. Qed.
Lemma carries_trans r1 r2 r3 : carries r1 r2 → carries r2 r3 → carries r1 r3.
Proof. intros [G1 S1] [G2 S2]. split; [congruence|auto]. Qed.

Lemma logs_carry r r' gs : carries r r' → recorder_inv r' → logs_stored r gs → logs_stored r' gs.
Proof.
  intros [Hg Hs] Hinv [_ Hc]. split; [done|]. intros i w' g Hw' Hgi.
  assert (Hn : map pw_group_name (r_writers r) !! i = Some (pw_group_name w')) by (rewrite <-Hg; by rewrite list_lookup_fmap, Hw').
  rewrite list_lookup_fmap in Hn. destruct (r_writers r !! i) as [w|] eqn:Hw; [|done]. injection Hn as <-.
  eapply Forall_impl; [by apply (Hc i w g)|]. intros c. apply Hs.
Qed.
(** A group gets another closed segment. *)
Lemma logs_add r gs i w g g' c :
  logs_stored r gs → r_writers r !! i = Some w → gs !! i = Some g → gl_closed g' = gl_closed g ++ [c] →
  closed_stored r (pw_group_name w) c → logs_stored r (<[i := g']> gs).
Proof.
  intros [Hinv Hc] Hw Hg Hg' Hcs. split; [done|]. intros j wj h Hj Hh.
  apply list_lookup_insert_Some in Hh as [(<- & <- & _)|[_ Hh]]; [|by apply (Hc j)].
  simplify_eq. rewrite Hg'. apply Forall_app. split; [by apply (Hc i w g)|by apply Forall_singleton].
Qed.
(** Only the open part changes. *)
Lemma logs_same r gs i g g' :
  logs_stored r gs → gs !! i = Some g → gl_closed g' = gl_closed g → logs_stored r (<[i := g']> gs).
Proof.
  intros [Hinv Hc] Hg Hg'. split; [done|]. intros j wj h Hj Hh.
  apply list_lookup_insert_Some in Hh as [(<- & <- & _)|[_ Hh]]; [|by apply (Hc j)].
  rewrite Hg'. by apply (Hc i wj g).
Qed.

(** Steps that leave the writers alone. *)
Lemma store_carries r r' :
  r_writers r' = r_writers r → r_next_segment_seq r' = r_next_segment_seq r →
  (∀ dir name data, stored granted dir name data (r_store r) → stored granted dir name data (r_store r')) → carries r r'.
Proof.
  intros Hw Hn Hs. split; [by rewrite Hw|]. intros dir c [H1 H2 H3]. split; [by rewrite Hn|by rewrite Hw|auto].
Qed.
Lemma same_dirs_carries r r' :
  r_writers r' = r_writers r → r_next_segment_seq r' = r_next_segment_seq r → st_dirs (r_store r') = st_dirs (r_store r) →
  carries r r'.
Proof. intros Hw Hn Hd. apply store_carries; [done..|]. intros dir name data. by apply same_dirs_stored. Qed.
Lemma retention_carries fs boots r : grants granted fs → carries r (run_retention fs boots r).
Proof.
  intros He. destruct (run_retention_writers fs boots r) as (Hw & _ & _ & Hn). apply store_carries; [done..|].
  intros dir name data. unfold run_retention.
  pose proof (enforce_retained fs boots (r_config r) (active_paths (r_writers r)) (r_boots r) (r_store r)) as [Hs _].
  destruct (retention_enforce _ _ _ _ _ _) as [[b st] rem]. by apply (shrinks_stored granted fs).
Qed.
Lemma reclaim_carries io pr req r : grants granted (ry_fs io) → carries r (reclaim io pr req r).2.
Proof.
  intros He. unfold reclaim.
  pose proof (reclaim_retained (ry_fs io) (ry_boots io) (r_config r) (active_paths (r_writers r)) (ry_available io) pr req
    (r_boots r) (r_store r)) as [Hs _].
  destruct (retention_reclaim_lower_priority _ _ _ _ _ _ _ _ _) as [[b st] rem]. apply store_carries; [done..|].
  intros dir name data. by apply (shrinks_stored granted (ry_fs io)).
Qed.

(** Steps of one writer, which only touch files with its number. *)
Lemma writer_carries r r' i w w' :
  r_writers r !! i = Some w → r_writers r' = <[i := w']> (r_writers r) → pw_group_name w' = pw_group_name w →
  r_next_segment_seq r <= r_next_segment_seq r' <= UINT64_MAX → 0 <= pw_segment_seq w' < r_next_segment_seq r' →
  (∀ s, 0 <= s < r_next_segment_seq r → not_open s (r_writers r) → s ≠ pw_segment_seq w') →
  store_rel (own_names w') (r_store r) (r_store r') → carries r r'.
Proof.
  intros Hw Hws Hg Hn Hseq Hnew Hrel. split.
  - rewrite Hws. rewrite list_fmap_insert, Hg. apply list_insert_id. by rewrite list_lookup_fmap, Hw.
  - intros dir c [H1 H2 H3]. pose proof (Hnew _ H1 H2) as Hne. split; [lia| |].
    + intros j wj Hj Ho. rewrite Hws in Hj. apply list_lookup_insert_Some in Hj as [(_ & <- & _)|[_ Hj]]; [congruence|by apply (H2 j)].
    + eapply rel_stored; [exact Hrel| |exact H3]. apply other_segment_not_own; [| |done]; unfold is_u64, UINT64_MAX in *; lia.
Qed.
Lemma publish_carries now r i w w' :
  recorder_inv r → r_writers r !! i = Some w → pw_open w = true → same_segment w w' →
  carries r (set_store (publish now w' (r_store r)) (set_writer i w' r)).
Proof.
  intros Hinv Hi Ho [Hg Hs]. destruct (ri_open _ Hinv i w Hi Ho) as (Hseq & _). pose proof (ri_next _ Hinv) as Hn.
  apply (writer_carries r _ i w w'); try done; cbn; [lia|rewrite Hs; exact Hseq| |apply publish_rel].
  intros s _ Hno. rewrite Hs. intros ->. by apply (Hno i w).
Qed.

(** What a writer that is no longer open has written is stored. *)
Lemma published_closed r i w w' reason es :
  recorder_inv r → r_writers r !! i = Some w' → pw_open w' = false → same_segment w w' →
  0 <= pw_segment_seq w < r_next_segment_seq r → distinct_from (pw_segment_seq w) i (r_writers r) →
  published w' (r_store r) → closed_stored r (pw_group_name w) (closed_by reason w w' es).
Proof.
  intros Hinv Hi Ho [Hg Hs] Hseq Hd (t & Ht). split; cbn; [done| |left; exists t; by rewrite <-Hg, <-Hs].
  intros j wj Hj Hoj. destruct (decide (j = i)) as [->|Hne]; [congruence|by apply (Hd j)].
Qed.
End logs.

(** ** Taking an entry *)
Section submit.
Context `{RX : RegexLib} `{W : WriterLib} `{J : Jansson}.
Context `{!WriterLib_ok W} `{!FlatCC_ok writer_flatcc} `{!OpenSSL_ok seg_openssl}.

(** A segment that was closed and written back is stored. *)
Lemma closed_logs granted io now t i w w' reason es r g gs :
  writer_close_segment io now reason w = (Ok tt, w') → pw_open w' = false →
  r_writers r !! i = Some w → pw_open w = true → gs !! i = Some g → logs_stored granted r gs →
  logs_stored granted (set_store (publish t w' (r_store r)) (set_writer i w' r))
    (<[i := mkGroupLog (gl_closed g ++ [closed_by reason w w' es]) None]> gs).
Proof.
  intros Hclose Hidle Hw Ho Hg Hlogs. pose proof (lo_inv _ _ _ Hlogs) as Hinv.
  destruct (close_any _ _ _ _ _ _ Hclose (buffers_at _ _ _ Hinv Hw)) as (Hsame & Hb & _).
  destruct (ri_open _ Hinv i w Hw Ho) as (Hseq & (t0 & Hp) & Hd). pose proof (ri_next _ Hinv) as Hn.
  set (r2 := set_store _ _).
  assert (Hinv2 : recorder_inv r2) by by apply (publish_inv t r i w w').
  assert (Hlogs2 : logs_stored granted r2 gs).
  { eapply logs_carry; [|exact Hinv2|exact Hlogs]. by apply (publish_carries granted t r i w w'). }
  assert (Hi : r_writers r2 !! i = Some w') by (cbn; apply list_lookup_insert_eq; by eapply lookup_lt_Some).
  eapply (logs_add _ r2 gs i w' g); [exact Hlogs2|exact Hi|exact Hg|done|].
  rewrite (proj1 Hsame). eapply published_closed; [exact Hinv2|exact Hi|exact Hidle|exact Hsame|exact Hseq| |].
  - intros j wj Hj Hne Hoj. cbn in Hj. rewrite list_lookup_insert_ne in Hj by done. by apply (Hd j).
  - apply publish_published; [rewrite (proj2 Hsame); unfold is_u64, UINT64_MAX in *; lia|].
    rewrite (proj1 Hsame). by eapply still_there_dir.
Qed.
Lemma close_logs granted io ck i w reason r r' d g w' c gs :
  recorder_close_writer io ck i w reason r = (Ok tt, r') → closing io ck i w reason r r' d g w' c →
  r_writers r !! i = Some w → pw_open w = true → gs !! i = Some g → grants granted (ce_fs io) → logs_stored granted r gs →
  logs_stored granted r' (<[i := mkGroupLog (gl_closed g ++ [c]) None]> gs).
Proof.
  intros H [Hclose _ _ _ _ _ Hc [_ (Hidle & _)]] Hw Ho Hg Hgr Hlogs.
  unfold recorder_close_writer in H. rewrite Hclose, Ho in H. injection H as <-.
  pose proof (closed_logs granted _ _ (ck_time ck) i w w' reason (cs_entries c) r g gs Hclose Hidle Hw Ho Hg Hlogs) as Hlogs2.
  rewrite <-Hc in Hlogs2. eapply logs_carry; [by apply retention_carries| |exact Hlogs2].
  apply run_retention_inv, (lo_inv _ _ _ Hlogs2).
Qed.

Lemma open_logs granted io ck e i r r' gs :
  ensure_open io ck e i r = (Ok tt, r') → r_next_segment_seq r < UINT64_MAX → logs_stored granted r gs → logs_stored granted r' gs.
Proof.
  intros H Hlt Hlogs. pose proof (lo_inv _ _ _ Hlogs) as Hinv. pose proof (ri_next _ Hinv) as Hn.
  destruct (ensure_open_inv _ _ _ _ _ _ _ H Hinv Hlt) as (Hinv' & _).
  eapply logs_carry; [|exact Hinv'|exact Hlogs].
  unfold ensure_open in H. destruct (r_writers r !! i) as [w|] eqn:Hw; [|done].
  destruct (pw_open w) eqn:Ho; [injection H as <-; apply carries_refl|].
  destruct (writer_open_segment _ _ _ _ _) as [[res r1] w1] eqn:Hop. injection H as -> <-.
  apply open_any in Hop as (Hws & _ & _ & _ & [[-> ->]|(Hnext & Hs & Hrel & _ & Hg)]); try done.
  - apply same_dirs_carries; [|done|done]. cbn. by apply list_insert_id.
  - apply (writer_carries granted r _ i w w1); try done; cbn; [by rewrite Hws|lia|lia|]. intros s ? _. lia.
Qed.

Lemma group_open d w g es : group_repr d w g → gl_open g = Some es → pw_open w = true.
Proof. intros [_ Ho] Hg. rewrite Hg in Ho. destruct Ho as [_ [Hh _]]. apply (wh_open _ _ Hh). Qed.

Lemma ensured_logs granted io ck r r1 i d g e w w1 closed es gs :
  ensured io ck r r1 i d g e w w1 closed es → group_repr d w g → r_writers r !! i = Some w → gs !! i = Some g →
  r_next_segment_seq r < UINT64_MAX → grants granted (ce_fs (si_rotate io)) → logs_stored granted r gs →
  ∃ gs1 g1, logs_stored granted r1 gs1 ∧ gs1 !! i = Some g1 ∧ gl_closed g1 = closed ∧ ∀ g', <[i := g']> gs1 = <[i := g']> gs.
Proof.
  intros [(r0 & Hrot & Ho) _ _ _ _ _ _ _ _] Hg Hw Hgi Hlt Hgr Hlogs. pose proof (lookup_lt_Some _ _ _ Hgi) as Hlen.
  destruct Hrot as [[-> ->]|(reason & w0 & c & Hc & Hclo & ->)].
  - exists gs, g. split_and!; try done. by eapply open_logs.
  - pose proof (group_open _ _ _ _ Hg (cg_open _ _ _ _ _ _ _ _ _ _ _ Hclo)) as How.
    exists (<[i := mkGroupLog (gl_closed g ++ [c]) None]> gs), (mkGroupLog (gl_closed g ++ [c]) None).
    split_and!; [|by apply list_lookup_insert_eq|done|intros g'; apply list_insert_insert_eq].
    eapply open_logs; [exact Ho|by rewrite (cg_next _ _ _ _ _ _ _ _ _ _ _ Hclo)|]. by eapply close_logs.
Qed.

(** The entry is put into the builder, which is flushed when it is full. *)
Definition taken (io : SubmitIo) (ck : Clock) (e : LogEntry) (w1 w2 w3 : PriorityWriter) : Prop :=
  append_entry e w1 = Ok w2 ∧
  (if pw_count w2 =? CHUNK_SIZE then writer_flush_chunk (si_flush io) (ck_mono_sec ck) w2 else (Ok tt, w2)) = (Ok tt, w3).

Lemma taken_open_for io ck e w1 w2 w3 d es :
  taken io ck e w1 w2 w3 → open_for d w1 es → fresh_for e w1 es → entry_wf e → open_for d w3 (es ++ [e]).
Proof.
  intros [Ha Hf] Ho Hfr He. pose proof (append_open_for _ _ _ _ _ Ho Hfr He Ha) as Ho2.
  destruct (pw_count w2 =? CHUNK_SIZE); [by eapply flush_open_for|by injection Hf as <-].
Qed.
Lemma taken_logs granted io ck e r1 i w1 w2 w3 gs :
  taken io ck e w1 w2 w3 → pw_open w1 = true → r_writers r1 !! i = Some w1 → logs_stored granted r1 gs →
  logs_stored granted (set_store (publish (ck_time ck) w3 (r_store r1)) (set_writer i w3 r1)) gs.
Proof.
  intros [Ha Hf] Ho Hw Hlogs. pose proof (lo_inv _ _ _ Hlogs) as Hinv.
  destruct (append_any _ _ _ Ha (buffers_at _ _ _ Hinv Hw)) as ((Ha1 & Ha2) & _ & Hb2).
  assert (Hsame : same_segment w1 w3 ∧ buffers_ok w3).
  { destruct (Z.eqb_spec (pw_count w2) CHUNK_SIZE) as [Hc|Hc].
    - apply flush_any in Hf as ((? & ?) & _ & _ & Hb). split; [split; congruence|]. apply Hb. by rewrite Hc.
    - injection Hf as <-. split; [by split|]. by destruct Hb2. }
  destruct Hsame as [Hsame Hb3].
  eapply logs_carry; [by apply (publish_carries granted _ _ i w1 w3)|by apply (publish_inv _ r1 i w1 w3)|exact Hlogs].
Qed.

(** The course of a successful submission. *)
Lemma submit_course io ck e r r' i :
  recorder_submit_entry io ck e r = (Ok tt, r') → priority_group (r_config r) (le_priority e) = Some i →
  ∃ r1 w1 w2 w3, recorder_ensure_writer io ck e r = (Ok tt, r1) ∧ r_writers r1 !! i = Some w1 ∧ taken io ck e w1 w2 w3 ∧
    let r2 := set_store (publish (ck_time ck) w3 (r_store r1)) (set_writer i w3 r1) in
    r' = r2 ∨ recorder_close_writer (si_close io) ck i w3 (rotation_reason_code SEGMENT_ROTATION_REASON_SIZE) r2 = (Ok tt, r').
Proof.
  intros H Hi. unfold recorder_submit_entry in H. rewrite Hi in H.
  destruct (recorder_ensure_writer io ck e r) as [[[]|] r1] eqn:Hen; [|done].
  destruct (r_writers r1 !! i) as [w1|] eqn:Hw1; [|done]. destruct (append_entry e w1) as [w2|] eqn:Happ; [|done].
  destruct (if pw_count w2 =? CHUNK_SIZE then _ else _) as [[[]|] w3] eqn:Hfl; [|done].
  exists r1, w1, w2, w3. split_and!; try done. cbv zeta. destruct (recorder_segment_limit _ <=? _); [by right|].
  injection H as <-. by left.
Qed.

(** A successful submission appends to the group's log, in the store too. *)
Lemma submit_repr io ck e r r' i w d g :
  recorder_submit_entry io ck e r = (Ok tt, r') →
  priority_group (r_config r) (le_priority e) = Some i → r_writers r !! i = Some w → group_repr d w g →
  submit_ok ck r d e →
  ∃ w' g', r_writers r' = <[i := w']> (r_writers r) ∧ group_repr d w' g' ∧
    gl_closed g `prefix_of` gl_closed g' ∧ log_entries g' = log_entries g ++ [e] ∧
    ∀ granted gs, gs !! i = Some g → r_next_segment_seq r < UINT64_MAX →
      grants granted (ce_fs (si_rotate io)) → grants granted (ce_fs (si_close io)) →
      logs_stored granted r gs → logs_stored granted r' (<[i := g']> gs).
Proof.
  intros H Hi Hw Hg [Hcfg He Hck Hseq Hage].
  destruct (submit_course _ _ _ _ _ _ H Hi) as (r1 & w1 & w2 & w3 & Hen & Hw1 & Htk & Hend).
  destruct (ensure_repr _ _ _ _ _ _ _ _ _ Hen Hi Hw Hg Hcfg He Hck Hseq Hage) as (w1' & closed & es & Hens).
  pose proof Hens as [_ Hws _ Hpre Hcl Hop Hfr Hents _]. pose proof (lookup_lt_Some _ _ _ Hw) as Hlen.
  assert (w1' = w1) as -> by (rewrite Hws, list_lookup_insert_eq in Hw1 by done; by injection Hw1).
  pose proof (taken_open_for _ _ _ _ _ _ _ _ Htk Hop Hfr He) as Hw3.
  assert (Hg3 : group_repr d w3 (mkGroupLog closed (Some (es ++ [e])))) by (split; [done|]; split; [by destruct es|done]).
  assert (Hents3 : concat (map cs_entries closed) ++ es ++ [e] = log_entries g ++ [e]) by by rewrite app_assoc, Hents.
  pose proof (wh_open _ _ (of_holds _ _ _ Hop)) as Ho1. pose proof (wh_open _ _ (of_holds _ _ _ Hw3)) as Ho3.
  set (r2 := set_store _ _) in Hend. set (g3 := mkGroupLog closed (Some (es ++ [e]))) in *.
  assert (Hws2 : r_writers r2 = <[i := w3]> (r_writers r)) by (cbn; by rewrite Hws, list_insert_insert_eq).
  assert (Hw2i : r_writers r2 !! i = Some w3) by (rewrite Hws2; by apply list_lookup_insert_eq).
  assert (Hlogs2 : ∀ granted gs, gs !! i = Some g → r_next_segment_seq r < UINT64_MAX →
    grants granted (ce_fs (si_rotate io)) → logs_stored granted r gs → logs_stored granted r2 (<[i := g3]> gs)).
  { intros granted gs Hgi Hlt Hgr Hlogs.
    destruct (ensured_logs granted _ _ _ _ _ _ _ _ _ _ _ _ _ Hens Hg Hw Hgi Hlt Hgr Hlogs) as (gs1 & g1 & Hl1 & Hg1 & Hc1 & <-).
    apply (logs_same _ _ _ _ g1); [by eapply taken_logs|done|done]. }
  destruct Hend as [->|Hclose].
  { exists w3, g3. split_and!; try done. intros granted gs Hgi Hlt Hgr _ Hlogs. by apply Hlogs2. }
  destruct (close_writer_ok _ _ _ _ _ _ _ d g3 Hclose Ho3 ltac:(by vm_compute) Hg3) as (w4 & c & Hclo).
  pose proof Hclo as [_ Hws4 _ _ _ [= Hc] _ Hg4]. exists w4, (mkGroupLog (closed ++ [c]) None). split_and!; try done.
  - by rewrite Hws4, Hws2, list_insert_insert_eq.
  - by apply prefix_app_r.
  - unfold log_entries at 1. cbn [gl_closed gl_open default]. rewrite app_nil_r, map_app, concat_app.
    cbn [map concat]. by rewrite <-Hc, app_nil_r.
  - intros granted gs Hgi Hlt Hgr1 Hgr2 Hlogs. specialize (Hlogs2 _ _ Hgi Hlt Hgr1 Hlogs).
    rewrite <-(list_insert_insert_eq gs i _ g3).
    eapply (close_logs _ _ _ _ _ _ _ _ _ _ _ _ _ Hclose Hclo Hw2i Ho3); [|done|exact Hlogs2].
    apply list_lookup_insert_eq. by eapply lookup_lt_Some.
Qed.
(** C5: taking an entry refines appending it to the log of its group.  When
    [recorder_submit_entry] succeeds, the group's writer stands for the same
    closed segments, possibly more, and the entry has been added at the end,
    whatever was rotated, flushed or closed on the way; the writers of the other
    groups are untouched.  If the logs [gs] were in the store before, they still
    are: for every closed segment of every group, the one just closed included,
    the file with its number holds exactly a header, frames with its entries in
    order and a footer that summarises them, unless the system let retention
    unlink that file.  Where compression is on, [submit_ok] asks for
    [compress_if_smaller], too: without it nothing keeps the size of a compressed
    frame within its 32-bit length field. *)
Theorem submit_refines granted io ck e r r' i w d g gs :
  recorder_submit_entry io ck e r = (Ok tt, r') →
  priority_group (r_config r) (le_priority e) = Some i → r_writers r !! i = Some w → group_repr d w g →
  submit_ok ck r d e → gs !! i = Some g → r_next_segment_seq r < UINT64_MAX →
  grants granted (ce_fs (si_rotate io)) → grants granted (ce_fs (si_close io)) → logs_stored granted r gs →
  ∃ w' g', r_writers r' = <[i := w']> (r_writers r) ∧ group_repr d w' g' ∧
    gl_closed g `prefix_of` gl_closed g' ∧ log_entries g' = log_entries g ++ [e] ∧
    logs_stored granted r' (<[i := g']> gs).
Proof.
  intros H Hi Hw Hg Hok Hgs Hlt Hg1 Hg2 Hlogs.
  destruct (submit_repr _ _ _ _ _ _ _ _ _ H Hi Hw Hg Hok) as (w' & g' & H1 & H2 & H3 & H4 & H5).
  exists w', g'. split_and!; try done. by apply (H5 granted gs).
Qed.

(** The logs of a recorder that has just started. *)
Lemma empty_logs granted r gs : recorder_inv r → Forall (λ g, gl_closed g = []) gs → logs_stored granted r gs.
Proof.
  intros Hinv Hgs. split; [done|]. intros i w g _ Hg. eapply Forall_lookup_1 in Hgs as ->; [constructor|exact Hg].
Qed.

(** ** Flushing everything and shutting down *)
Lemma publish_open_stored granted now s ws dir data : ∀ st,
  is_u64 s → Forall (λ w, pw_open w = true → is_u64 (pw_segment_seq w) ∧ pw_segment_seq w ≠ s) ws →
  stored granted dir (segment_name s) data st → stored granted dir (segment_name s) data (publish_open now ws st).
Proof.
  intros st Hs Hws. revert st. induction Hws as [|w ws Hw Hws IH]; intros st Hst; [done|].
  unfold publish_open. cbn [fold_left]. fold (publish_open now ws (if pw_open w then publish now w st else st)). apply IH.
  destruct (pw_open w); [|done]. destruct (Hw eq_refl) as [Hu Hne].
  eapply rel_stored; [apply publish_rel| |exact Hst]. by apply other_segment_not_own.
Qed.
Lemma flushed_groups ws ws' : Forall2 flushed ws ws' → map pw_group_name ws' = map pw_group_name ws.
Proof. induction 1 as [|w w' ws ws' ((Hg & _) & _) _ IH]; [done|]. cbn. by rewrite Hg, IH. Qed.

Lemma flush_all_logs granted ios ck r res r' gs :
  recorder_flush_all ios ck r = (res, r') → logs_stored granted r gs → logs_stored granted r' gs.
Proof.
  intros H Hlogs. pose proof (lo_inv _ _ _ Hlogs) as Hinv.
  eapply logs_carry; [|by eapply flush_all_inv|exact Hlogs].
  unfold recorder_flush_all in H. destruct (flush_writers _ _ _) as [rf ws] eqn:Hf. injection H as _ <-.
  apply flush_writers_flushed in Hf. split; [by apply flushed_groups|]. intros dir c [H1 H2 H3].
  assert (Hback : ∀ j w', ws !! j = Some w' → pw_open w' = true →
    ∃ w, r_writers r !! j = Some w ∧ pw_open w = true ∧ pw_segment_seq w' = pw_segment_seq w).
  { intros j w' Hj Ho. destruct (Forall2_lookup_r _ _ _ _ _ Hf Hj) as (w & Hw & ((_ & Hs) & Ho' & _)). exists w. split_and!; congruence. }
  split; [done| |].
  - intros j w' Hj Ho. destruct (Hback j w' Hj Ho) as (w & Hw & How & ->). by apply (H2 j).
  - cbn. pose proof (ri_next _ Hinv) as Hn. apply publish_open_stored; [unfold is_u64, UINT64_MAX in *; lia| |exact H3].
    apply Forall_lookup. intros j w' Hj Ho. destruct (Hback j w' Hj Ho) as (w & Hw & How & ->). split; [|by apply (H2 j)].
    destruct (ri_open _ Hinv j w Hw How) as (? & _). unfold is_u64, UINT64_MAX in *. lia.
Qed.

Lemma insert_middle {A} (l : list A) x y l' : <[length l := y]> (l ++ x :: l') = l ++ y :: l'.
Proof. rewrite <-(Nat.add_0_r (length l)). by rewrite insert_app_r. Qed.

(** The open entries of a log have moved into one closed segment, which ends with
    the reason "shutdown" and has the number of the writer's segment. *)
Definition closed_log (w : PriorityWriter) (g g' : GroupLog) : Prop :=
  gl_open g' = None ∧
  match gl_open g with
  | None => gl_closed g' = gl_closed g
  | Some es => ∃ c, gl_closed g' = gl_closed g ++ [c] ∧ cs_entries c = es ∧ cs_reason c = 7 ∧ cs_seq c = pw_segment_seq w
  end.

Lemma close_writers_logs granted ck r d ws : ∀ ios before st ws' st' gsb gs,
  close_writers ios ck ws st = (true, ws', st') → length ios = length ws → Forall2 (group_repr d) ws gs →
  length before = length gsb → logs_stored granted (set_store st (set_writers (before ++ ws) r)) (gsb ++ gs) →
  ∃ gs', Forall2 (group_repr d) ws' gs' ∧ Forall3 closed_log ws gs gs' ∧
    logs_stored granted (set_store st' (set_writers (before ++ ws') r)) (gsb ++ gs').
Proof.
  induction ws as [|w ws IH]; intros ios before st ws' st' gsb gs H Hlen Hgs Hb Hlogs.
  { destruct ios; [|done]. injection H as <- <-. apply Forall2_nil_inv_l in Hgs as ->. exists []. split_and!; [constructor..|done]. }
  apply Forall2_cons_inv_l in Hgs as (g & gs1 & Hg & Hgs & ->).
  destruct ios as [|io ios]; [done|]. cbn [close_writers] in H. injection Hlen as Hlen.
  destruct (if pw_open w then _ else _) as [[ok w1] st1] eqn:Hone.
  destruct (close_writers ios ck ws st1) as [[oks ws1] st2] eqn:Hrest. injection H as Hok <- <-.
  apply andb_true_iff in Hok as [-> ->].
  assert (Hstep : ∃ g1, group_repr d w1 g1 ∧ closed_log w g g1 ∧
    logs_stored granted (set_store st1 (set_writers (before ++ w1 :: ws) r)) (gsb ++ g1 :: gs1)).
  { destruct (pw_open w) eqn:Ho.
    - destruct (writer_close_segment _ _ _ w) as [[[]|] w2] eqn:Hc; [|done]. injection Hone as <- <-.
      destruct (gl_open g) as [es|] eqn:Hopen; pose proof (gr_open _ _ _ Hg) as Hop; rewrite Hopen in Hop;
        [|by destruct Hop as [? _]; congruence]. destruct Hop as [Hne Hof].
      destruct (close_segment_ok _ _ _ _ _ _ _ Hof Hne (ltac:(by vm_compute) : is_u32 7) Hc) as [Hidle Hcl].
      exists (mkGroupLog (gl_closed g ++ [closed_by 7 w w2 es]) None). split_and!.
      + split; [|exact Hidle]. apply Forall_app. split; [apply Hg|]. by apply Forall_singleton.
      + split; [done|]. rewrite Hopen. by eexists.
      + set (r0 := set_store st (set_writers (before ++ w :: ws) r)) in *.
        assert (Hw0 : r_writers r0 !! length before = Some w) by by apply list_lookup_middle.
        assert (Hg0 : (gsb ++ g :: gs1) !! length before = Some g) by by apply list_lookup_middle.
        pose proof (closed_logs granted _ _ (ck_time ck) _ w w2 7 es r0 g _ Hc (proj1 Hidle) Hw0 Ho Hg0 Hlogs) as Hl.
        unfold r0, set_writer in Hl. cbn [r_writers set_store set_writers] in Hl. rewrite insert_middle, Hb, insert_middle in Hl. exact Hl.
    - injection Hone as <- <-. exists g. split; [done|]. split; [|done].
      destruct (gl_open g) as [es|] eqn:Hopen; [by rewrite (group_open _ _ _ _ Hg Hopen) in Ho|].
      split; [done|]. by rewrite Hopen. }
  destruct Hstep as (g1 & Hg1 & Hcl1 & Hl1). rewrite (cons_middle w1), app_assoc, (cons_middle g1), (app_assoc gsb) in Hl1.
  destruct (IH ios (before ++ [w1]) st1 ws1 st2 (gsb ++ [g1]) gs1 Hrest Hlen Hgs) as (gs' & H1 & H2 & H3);
    [rewrite !length_app; cbn; lia|done|].
  exists (g1 :: gs'). split_and!; [by constructor|by constructor|]. by rewrite <-!app_assoc in H3.
Qed.

Lemma closed_log_flushed ws ws1 gs gs' : Forall2 flushed ws ws1 → Forall3 closed_log ws1 gs gs' → Forall3 closed_log ws gs gs'.
Proof.
  intros Hf H. revert ws Hf. induction H as [|w1 g g' ws1 gs gs' [Ho Hone] _ IH]; intros ws Hf.
  - apply Forall2_nil_inv_r in Hf as ->. constructor.
  - apply Forall2_cons_inv_r in Hf as (w & ws0 & ((_ & Hs) & _) & Hf & ->). constructor; [|by apply IH].
    split; [done|]. rewrite <-Hs. exact Hone.
Qed.
Lemma same_dirs_inv r r' :
  recorder_inv r → r_writers r' = r_writers r → r_next_segment_seq r' = r_next_segment_seq r →
  st_dirs (r_store r') = st_dirs (r_store r) → recorder_inv r'.
Proof.
  intros [I1 I2 I3 I4 I5] Hw Hn Hdirs. pose proof (same_dirs_rel _ _ Hdirs) as [S1 S2 _ S4].
  split; rewrite ?Hw, ?Hn; auto. intros i w Hi Ho. destruct (I4 i w Hi Ho) as (? & (t & Ht) & ?). split_and!; try done; try lia.
  exists t. apply S2; [by apply not_elem_of_nil|done].
Qed.
Lemma same_dirs_logs granted r r' gs :
  logs_stored granted r gs → r_writers r' = r_writers r → r_next_segment_seq r' = r_next_segment_seq r →
  st_dirs (r_store r') = st_dirs (r_store r) → logs_stored granted r' gs.
Proof.
  intros Hl Hw Hn Hd. eapply logs_carry; [by apply (same_dirs_carries granted r)| |exact Hl].
  by apply (same_dirs_inv r); [apply (lo_inv _ _ _ Hl)|..].
Qed.

(** C30: shutdown.  When a shutdown reports success, every group whose segment was
    open has all its entries in one more closed segment, closed with reason
    "shutdown" under the number of the open one, nothing that was closed before
    has changed, and the logs are in the store: the file of every closed segment
    holds its header, its frames with its entries and its footer, unless the
    system let retention unlink that file. *)
Theorem shutdown_closes_all granted io ck r r' d gs :
  recorder_shutdown io ck r = (true, r') → length (sd_close io) = length (r_writers r) →
  Forall2 (group_repr d) (r_writers r) gs → grants granted (sd_fs io) → logs_stored granted r gs →
  ∃ gs', Forall2 (group_repr d) (r_writers r') gs' ∧ Forall3 closed_log (r_writers r) gs gs' ∧ logs_stored granted r' gs'.
Proof.
  intros H Hlen Hgs Hgr Hlogs. unfold recorder_shutdown in H.
  destruct (recorder_flush_all _ _ _) as [rf r1] eqn:Hfa. pose proof (flush_all_logs _ _ _ _ _ _ _ Hfa Hlogs) as Hl1.
  unfold recorder_flush_all in Hfa. destruct (flush_writers _ _ _) as [rf1 ws] eqn:Hf. injection Hfa as -> Hr1.
  destruct (close_writers _ _ _ _) as [[cok ws'] st'] eqn:Hc. cbv zeta in H.
  set (r2 := run_retention _ _ _) in H.
  destruct (persist_boot_state _ _ _ _) as [? st1] eqn:Hp1. destruct (persist_next_segment_seq _ _ _ _) as [? st2] eqn:Hp2.
  destruct rf as [[]|]; [|done]. injection H as -> <-.
  pose proof (flush_writers_flushed _ _ _ _ _ Hf) as Hfl. eapply flush_writers_repr in Hf; [|done].
  assert (Hws1 : r_writers r1 = ws) by by rewrite <-Hr1. rewrite Hws1 in Hc.
  assert (Heq : set_store (r_store r1) (set_writers ([] ++ ws) r1) = r1) by (rewrite <-Hws1; by destruct r1).
  destruct (close_writers_logs granted ck r1 d ws _ [] _ _ _ [] gs Hc) as (gs' & Hrep & Hcl & Hl2);
    [by rewrite Hlen, <-(Forall2_length _ _ _ Hfl)|done|done|by rewrite Heq|].
  exists gs'. cbn [r_writers set_boots set_store]. unfold r2. rewrite (proj1 (run_retention_writers _ _ _)).
  split; [exact Hrep|]. split.
  - by eapply closed_log_flushed.
  - assert (Hr2 : logs_stored granted r2 gs').
    { eapply logs_carry; [by apply retention_carries|apply run_retention_inv; apply (lo_inv _ _ _ Hl2)|exact Hl2]. }
    pose proof (persist_boot_dirs (sd_fs io) (sd_boots io)
      (fold_left note_clean_shutdown (map shutdown_mark (r_writers r1)) (r_boots r2)) (r_store r2)) as D1.
    rewrite Hp1 in D1. cbn [snd] in D1.
    pose proof (after_write_dirs (sd_seq io) (fs_now (sd_fs io)) (C "segment_seq") (print_u64 (r_next_segment_seq r2) ++ [10]) st1) as D2.
    unfold persist_next_segment_seq in Hp2. rewrite Hp2 in D2. cbn [snd] in D2.
    apply (same_dirs_logs _ r2); [exact Hr2|done|done|]. cbn. congruence.
Qed.
End submit.
