(* ===== verification/IntakeProofs.v ===== *)
(** * Passes over the journal

    The cursor file, and [recorder_step]: composition of the input, the modifiers
    and the recorder.  Every journal entry is stored, dropped by a modifier or
    still to come, and the groups' logs grow by exactly what was kept. *)
From S2P Require Import Prelude Bytes Crypto Segment SegmentImage SegmentScan SegmentWrite Models SegmentSpec.
From S2P Require Import Chunk Index CText Entry Store StoreProofs Json Boots BootsProofs Config ConfigProofs.
From S2P Require Import Modifiers ModifiersProofs Fallback FallbackProofs Retention RetentionProofs.
From S2P Require Import Writer WriterProofs Recorder RecorderProofs RecorderInv RecorderLogs Intake.

(** ** The cursor file *)
Lemma cstr_app_nul s rest : is_cstr s → cstr (s ++ 0 :: rest) = s.
Proof. induction 1 as [|b s Hb _ IH]; cbn [app cstr]; [done|]. destruct (Z.eqb_spec b 0); [done|]. by rewrite IH. Qed.

Lemma read_cursor_back cursor rest :
  is_cstr cursor → cursor ≠ [] → zlen cursor < RECORDER_CURSOR_MAX_BYTES →
  read_journal_cursor (Some (cursor ++ 0 :: rest)) = Some cursor.
Proof.
  intros Hc Hne Hl. unfold read_journal_cursor.
  assert (Hz : 0 < zlen cursor) by (destruct cursor as [|c cursor']; [done|]; rewrite zlen_cons; pose proof (zlen_nonneg cursor'); lia).
  assert (Ht : ∃ r, ztake RECORDER_CURSOR_MAX_BYTES (cursor ++ 0 :: rest) = cursor ++ 0 :: r).
  { rewrite ztake_app_ge by lia. unfold ztake. destruct (Z.to_nat (RECORDER_CURSOR_MAX_BYTES - zlen cursor)) as [|k] eqn:Hk; [lia|].
    by exists (take k rest). }
  destruct Ht as [r ->]. rewrite cstr_app_nul by done.
  destruct (Z.eqb_spec (zlen (cursor ++ 0 :: r)) 0) as [H|_].
  { rewrite zlen_app, zlen_cons in H. pose proof (zlen_nonneg r). lia. }
  assert (He : existsb (Z.eqb 0) (cursor ++ 0 :: r) = true) by (rewrite existsb_app; cbn; by rewrite orb_true_r).
  rewrite He. cbn [negb orb]. by destruct (Z.eqb_spec (zlen cursor) 0); [lia|].
Qed.

(** What a successful write leaves. *)
Lemma write_cursor_file io cursor file res file' :
  write_journal_cursor io cursor file = (res, file') → zlen cursor < RECORDER_CURSOR_MAX_BYTES →
  cu_parent io = true → cu_open io = true → cu_seek io = true → cu_written io = zlen cursor + 1 →
  ∃ rest, file' = Some (cursor ++ 0 :: rest).
Proof.
  intros H Hl Hp Ho Hs Hw. unfold write_journal_cursor in H.
  destruct (Z.ltb_spec RECORDER_CURSOR_MAX_BYTES (zlen cursor + 1)); [lia|]. rewrite Hp, Ho, Hs, Hw in H. cbn [orb negb] in H.
  rewrite Z.eqb_refl in H. cbn [negb] in H.
  rewrite (ztake_ge (zlen cursor + 1)) in H by (rewrite zlen_app, zlen_cons, zlen_nil; lia).
  unfold overwrite in H. rewrite <-app_assoc in H. cbn [app] in H.
  destruct (cu_regular io && negb (cu_ftruncate io)); [injection H as _ <-; by eexists|].
  injection H as _ <-. destruct (cu_regular io); [by exists []|by eexists].
Qed.

Lemma write_cursor_ok io cursor file file' :
  write_journal_cursor io cursor file = (Ok tt, file') →
  zlen cursor < RECORDER_CURSOR_MAX_BYTES ∧ cu_parent io = true ∧ cu_open io = true ∧ cu_seek io = true ∧
  cu_written io = zlen cursor + 1.
Proof.
  unfold write_journal_cursor. destruct (Z.ltb_spec RECORDER_CURSOR_MAX_BYTES (zlen cursor + 1)); [done|].
  destruct (cu_parent io), (cu_open io), (cu_seek io); cbn [orb negb]; try done.
  destruct (Z.eqb_spec (cu_written io) (zlen cursor + 1)); [|done]. intros _. split; [lia|done].
Qed.

(** The cursor file.  Once all bytes of a cursor and its terminator have been
    written over the old file, reading gives that cursor, whether or not the
    truncation, the sync and the close behind it succeed and whatever was in the
    file before; a write that stored nothing leaves what was read before. *)
Theorem cursor_round_trip io cursor file res file' :
  is_cstr cursor → cursor ≠ [] → write_journal_cursor io cursor file = (res, file') →
  (res = Ok tt ∨ zlen cursor < RECORDER_CURSOR_MAX_BYTES ∧ cu_parent io = true ∧ cu_open io = true ∧
     cu_seek io = true ∧ cu_written io = zlen cursor + 1 → read_journal_cursor file' = Some cursor) ∧
  (cu_written io <= 0 → read_journal_cursor file' = read_journal_cursor file).
Proof.
  intros Hc Hne H. split.
  - intros Hcase. assert (Hall : zlen cursor < RECORDER_CURSOR_MAX_BYTES ∧ cu_parent io = true ∧ cu_open io = true ∧
      cu_seek io = true ∧ cu_written io = zlen cursor + 1)
      by (destruct Hcase as [->|?]; [by eapply write_cursor_ok|done]).
    destruct Hall as (Hl & ? & ? & ? & ?). destruct (write_cursor_file _ _ _ _ _ H) as [rest ->]; [done..|].
    by apply read_cursor_back.
  - intros Hw. unfold write_journal_cursor in H.
    destruct (_ || negb (cu_open io)); [by injection H as _ <-|].
    assert (Hd : read_journal_cursor (Some (default [] file)) = read_journal_cursor file) by by destruct file.
    destruct (cu_seek io); cbn [negb] in H; [|by injection H as _ <-].
    destruct (Z.eqb_spec (cu_written io) (zlen cursor + 1)); [pose proof (zlen_nonneg cursor); lia|]. cbn [negb] in H.
    injection H as _ <-. unfold overwrite, ztake. replace (Z.to_nat (cu_written io)) with O by lia. exact Hd.
Qed.

(** ** What a submission leaves alone *)
Section keeps.
Context `{RX : RegexLib} `{W : WriterLib} `{J : Jansson}.

Record keeps (r r' : Recorder) : Prop := {
  kp_config : r_config r' = r_config r;
  kp_next : is_u64 (r_next_segment_seq r) → is_u64 (r_next_segment_seq r');
}.
Lemma keeps_refl r : keeps r r.
Proof. by split. Qed.
Lemma keeps_trans r1 r2 r3 : keeps r1 r2 → keeps r2 r3 → keeps r1 r3.
Proof. intros [E1 N1] [E2 N2]. split; [congruence|auto]. Qed.

Lemma close_writer_keeps io ck i w reason r res r' :
  recorder_close_writer io ck i w reason r = (res, r') → keeps r r'.
Proof.
  unfold recorder_close_writer. destruct (writer_close_segment _ _ _ w) as [res1 w'].
  destruct res1; intros [= <- <-].
  - match goal with |- keeps _ (run_retention ?f ?b ?x) => destruct (run_retention_writers f b x) as (_ & Hc & _ & Hn) end.
    split; [rewrite Hc; by destruct (pw_open w)|rewrite Hn; by destruct (pw_open w)].
  - split; by destruct (pw_open w).
Qed.

Lemma create_keeps io ck e r w res r' w' : create_segment io ck e r w = (res, r', w') → keeps r r'.
Proof.
  unfold create_segment. destruct (op_fopen io); [|by intros [= _ <- _]].
  destruct (rbind _ _) as [[enc0 dict]|]; [|by intros [= _ <- _]].
  destruct (segment_write_header _ _ _ _ _) as [[[rh fp] enc] draw]. destruct rh; [|by intros [= _ <- _]].
  destruct (index_writer_open _ _ _); [|by intros [= _ <- _]].
  destruct (rbind _ _); [|by intros [= _ <- _]]. by destruct (op_fsync_dir io); intros [= _ <- _].
Qed.

Lemma open_keeps io ck e r w res r' w' : writer_open_segment io ck e r w = (res, r', w') → keeps r r'.
Proof.
  unfold writer_open_segment. destruct (op_mkdir io); [|intros [= _ <- _]; apply keeps_refl].
  destruct (persist_next_segment_seq _ _ _ _) as [rp st].
  assert (H1 : keeps r (set_store st (set_seq (u64 (r_next_segment_seq r + 1)) r))) by (split; [done|intros; apply u64_range]).
  destruct rp; [|by intros [= _ <- _]]. intros H%create_keeps. by eapply keeps_trans.
Qed.

Lemma ensure_keeps io ck e r res r' : recorder_ensure_writer io ck e r = (res, r') → keeps r r'.
Proof.
  assert (Hopen : ∀ i r res r', ensure_open io ck e i r = (res, r') → keeps r r').
  { intros i r1 res1 r1'. unfold ensure_open. destruct (r_writers r1 !! i) as [w|]; [|intros [= _ <-]; apply keeps_refl].
    destruct (pw_open w); [intros [= _ <-]; apply keeps_refl|].
    destruct (writer_open_segment _ _ _ _ _) as [[res2 r2] w2] eqn:Ho. intros [= _ <-]. apply open_keeps in Ho.
    eapply keeps_trans; [exact Ho|]. by split. }
  unfold recorder_ensure_writer. destruct (priority_group _ _) as [i|]; [|intros [= _ <-]; apply keeps_refl].
  destruct (r_writers r !! i) as [w|]; [|intros [= _ <-]; apply keeps_refl].
  destruct (decide _); [apply Hopen|].
  destruct (recorder_close_writer _ _ _ _ _ _) as [[[]|] r1] eqn:Hc; [|intros [= _ <-]; by eapply close_writer_keeps].
  intros H. eapply keeps_trans; [by eapply close_writer_keeps|by eapply Hopen].
Qed.

Lemma submit_keeps io ck e r res r' : recorder_submit_entry io ck e r = (res, r') → keeps r r'.
Proof.
  unfold recorder_submit_entry. destruct (priority_group _ _) as [i|]; [|intros [= _ <-]; apply keeps_refl].
  destruct (recorder_ensure_writer io ck e r) as [[[]|] r1] eqn:He; [|intros [= _ <-]; by eapply ensure_keeps].
  apply ensure_keeps in He. destruct (r_writers r1 !! i) as [w|]; [|by intros [= _ <-]].
  destruct (append_entry e w) as [w1|]; [|by intros [= _ <-]].
  destruct (if pw_count w1 =? CHUNK_SIZE then _ else _) as [rf w2].
  assert (H2 : keeps r (set_store (publish (ck_time ck) w2 (r_store r1)) (set_writer i w2 r1)))
    by (eapply keeps_trans; [exact He|]; by split).
  destruct rf; [|by intros [= _ <-]]. destruct (_ <=? _); [|by intros [= _ <-]].
  intros H%close_writer_keeps. by eapply keeps_trans.
Qed.

Lemma reclaim_keeps io pr req r : keeps r (reclaim io pr req r).2 ∧ r_writers (reclaim io pr req r).2 = r_writers r.
Proof. unfold reclaim. destruct (retention_reclaim_lower_priority _ _ _ _ _ _ _ _ _) as [[b st] rem]. split; [by split|done]. Qed.

(** The state that the first attempt at an entry starts from. *)
Definition room_made (io : RecoveryIo) (entry : LogEntry) (r : Recorder) : Recorder :=
  let min_free := cfg_min_free_bytes (r_config r) in
  let required := if recorder_segment_limit r <? min_free then min_free else recorder_segment_limit r in
  if min_free =? 0 then r else (reclaim io (le_priority entry) required r).2.

Lemma recovery_first io ck e r r' :
  recorder_submit_entry (ry_first io) ck e (room_made io e r) = (Ok tt, r') →
  recorder_submit_entry_with_recovery io ck e r = (Ok tt, r').
Proof. unfold recorder_submit_entry_with_recovery, room_made. cbv zeta. by intros ->. Qed.

Lemma room_made_same io e r : keeps r (room_made io e r) ∧ r_writers (room_made io e r) = r_writers r.
Proof. unfold room_made. cbv zeta. destruct (_ =? 0); [split; [apply keeps_refl|done]|apply reclaim_keeps]. Qed.

Lemma persist_boots_same `{RM : !RegexMatch RX} io n b r :
  keeps r (persist_new_boots io n b r) ∧ r_writers (persist_new_boots io n b r) = r_writers r.
Proof. unfold persist_new_boots. cbv zeta. destruct (_ =? n); (split; [by split|done]). Qed.
End keeps.

(** ** Passing over the journal *)
Section pass.
Context `{RX : RegexLib} `{RM : !RegexMatch RX} `{W : WriterLib} `{J : Jansson}.

(** What becomes of a journal entry: [Stored entry first] was accepted by the
    recorder, at the first attempt or after room was made; [Refused] was not;
    [Failed] is an entry whose modifiers failed. *)
Inductive Outcome :=
  | Stored (entry : LogEntry) (first : bool)
  | Refused (entry : LogEntry)
  | Dropped
  | Failed.

Definition outcome (io : StepIo) (ck : Clock) (j : JournalEntry) (it : Intake) : Outcome :=
  let '(result, entry, _, it1) := prepare_entry io j it in
  match result with
  | MOD_ERROR => Failed
  | MOD_DROP => Dropped
  | MOD_KEEP =>
      match (recorder_submit_entry_with_recovery (se_recovery io) ck entry (it_recorder it1)).1 with
      | Ok _ => Stored entry
          match (recorder_submit_entry (ry_first (se_recovery io)) ck entry
                   (room_made (se_recovery io) entry (it_recorder it1))).1 with Ok _ => true | Err _ => false end
      | Err _ => Refused entry
      end
  end.

(** The entries of a pass with their outcomes, in order; the last one may be the
    one that ended it. *)
Fixpoint loop_trace (n : nat) (ios : nat → StepIo) (ck : Clock) (it : Intake) : list (JournalEntry * Outcome) :=
  match n with
  | O => []
  | S n' =>
      match next_entry it with
      | None => []
      | Some (j, it0) =>
          (j, outcome (ios O) ck j it0) ::
          let '(go_on, it1, _) := step_entry (ios O) ck j it0 in
          if go_on then loop_trace n' (ios ∘ S) ck it1 else []
      end
  end.
Definition pass_trace (ios : nat → StepIo) (ck : Clock) (it : Intake) : list (JournalEntry * Outcome) :=
  loop_trace (Z.to_nat CHUNK_SIZE) ios ck it.

Definition completed (h : JournalEntry * Outcome) : Prop :=
  match h.2 with Stored _ _ | Dropped => True | Refused _ | Failed => False end.
(** The entries that will not be given again: all but a refused one. *)
Definition passed (tr : list (JournalEntry * Outcome)) : list JournalEntry :=
  omap (λ h, match h.2 with Refused _ => None | _ => Some h.1 end) tr.

(** What the journal has still to give. *)
Definition upcoming (it : Intake) : list JournalEntry :=
  (if it_current_entry_pending it then match it_current it with Some j => [j] | None => [] end else []) ++ it_rest it.

Definition cursor_on (it : Intake) : bool := it_cursor_enabled it || it_persistent_cursor_enabled it.

Lemma next_entry_some it j it0 :
  next_entry it = Some (j, it0) →
  it0 = with_position false (Some j) (it_rest it0) it ∧ upcoming it = j :: it_rest it0.
Proof.
  unfold next_entry, upcoming. destruct (it_current_entry_pending it).
  - destruct (it_current it) as [j'|]; [|done]. by intros [= -> <-].
  - destruct (it_rest it) as [|j' rest]; [done|]. by intros [= -> <-].
Qed.

(** The parts of the state that an entry does not touch. *)
Lemma prepare_same io j it result entry jobs it1 :
  prepare_entry io j it = (result, entry, jobs, it1) →
  it_current it1 = it_current it ∧ it_rest it1 = it_rest it ∧
  it_current_entry_pending it1 = it_current_entry_pending it ∧
  cursor_on it1 = cursor_on it ∧ it_pending_cursor it1 = it_pending_cursor it.
Proof.
  unfold prepare_entry. destruct (extract_entry _ _ j) as [e b].
  destruct (recorder_assign_monotonic_tie_order _ e) as [t e1].
  destruct (apply_entry_modifiers _ _ _ _) as [[r e2] js]. by intros [= _ _ _ <-].
Qed.

Definition cursor_after (it : Intake) (j : JournalEntry) : option bytes :=
  if cursor_on it then je_cursor j else it_pending_cursor it.

(** One iteration, from the position at [j]. *)
Lemma step_entry_position io ck j it go it' jobs :
  step_entry io ck j it = (go, it', jobs) → it_current it = Some j → it_current_entry_pending it = false →
  cursor_on it' = cursor_on it ∧ j :: it_rest it = passed [(j, outcome io ck j it)] ++ upcoming it' ∧
  if go then completed (j, outcome io ck j it) ∧ it_pending_cursor it' = cursor_after it j
  else it_pending_cursor it' = it_pending_cursor it ∧
    (completed (j, outcome io ck j it) → cursor_on it = true ∧ je_cursor j = None).
Proof.
  intros H Hc Hp. unfold step_entry in H. unfold outcome.
  destruct (prepare_entry io j it) as [[[result entry] js] it1] eqn:Hprep.
  apply prepare_same in Hprep as (Hcu & Hre & Hpe & Hon & Hcur). rewrite Hc in Hcu. rewrite Hp in Hpe.
  set (here := λ it', it_current_entry_pending it' = false ∧ it_rest it' = it_rest it ∧ cursor_on it' = cursor_on it ∧
                 it_pending_cursor it' = it_pending_cursor it).
  assert (Hfin : ∀ it2 o, here it2 → completed (j, o) → (∀ e, o ≠ Refused e) →
    match note_cursor j it2 with Some it3 => (true, it3, js) | None => (false, it2, js) end = (go, it', jobs) →
    cursor_on it' = cursor_on it ∧ j :: it_rest it = passed [(j, o)] ++ upcoming it' ∧
    if go then completed (j, o) ∧ it_pending_cursor it' = cursor_after it j
    else it_pending_cursor it' = it_pending_cursor it ∧ (completed (j, o) → cursor_on it = true ∧ je_cursor j = None)).
  { intros it2 o (Hp2 & Hr2 & Hon2 & Hc2) Hco Ho. assert (Hpass : passed [(j, o)] = [j]) by (destruct o; try done; by destruct (Ho entry0)).
    rewrite Hpass. unfold note_cursor. fold (cursor_on it2). unfold cursor_after. rewrite Hon2.
    destruct (cursor_on it) eqn:Ho'.
    - destruct (je_cursor j) as [c|] eqn:Hj; cbn; intros [= <- <- _]; unfold upcoming; cbn; rewrite Hp2, Hr2; (split; [done|split; [done|done]]).
    - intros [= <- <- _]. unfold upcoming. rewrite Hp2, Hr2. split; [done|split; done]. }
  assert (Hh1 : here it1) by by split_and!.
  destruct result.
  - injection H as <- <- _. destruct Hh1 as (Hp2 & Hr2 & Hon2 & Hc2). unfold upcoming. rewrite Hp2, Hr2. split; [done|]. split; [done|]. by split.
  - destruct (recorder_submit_entry_with_recovery _ _ _ _) as [res r]. cbn [fst]. destruct res.
    + by apply (Hfin (with_recorder r it1)).
    + injection H as <- <- _. destruct Hh1 as (Hp2 & Hr2 & Hon2 & Hc2). unfold upcoming. cbn.
      rewrite Hcu, Hr2. split; [done|]. split; [done|]. by split.
  - by apply (Hfin it1).
Qed.

Definition last_cursor (it : Intake) (hs : list (JournalEntry * Outcome)) : option bytes :=
  match last hs with
  | Some h => if cursor_on it then je_cursor h.1 else it_pending_cursor it
  | None => it_pending_cursor it
  end.
Lemma last_cursor_cons it it1 j o hs :
  cursor_on it1 = cursor_on it → it_pending_cursor it1 = cursor_after it j → last_cursor it1 hs = last_cursor it ((j, o) :: hs).
Proof.
  intros Hon Hc. unfold last_cursor. destruct hs as [|h hs]; [cbn [last]; by rewrite Hc|].
  rewrite last_cons_cons, Hon. destruct (last (h :: hs)) eqn:Hl; [|by apply last_None in Hl].
  destruct (cursor_on it) eqn:Hcon; [done|]. rewrite Hc. unfold cursor_after. by rewrite Hcon.
Qed.

Lemma passed_cons h tr : passed (h :: tr) = passed [h] ++ passed tr.
Proof. unfold passed. cbn [omap list_omap]. by destruct h.2. Qed.
Lemma passed_app tr1 tr2 : passed (tr1 ++ tr2) = passed tr1 ++ passed tr2.
Proof. apply omap_app. Qed.

(** How a trace splits at its end: what was completed, and at most one entry more;
    [pending] is the pending cursor after it. *)
Definition pass_split (it : Intake) (tr : list (JournalEntry * Outcome)) (n : Z) (pending : option bytes) : Prop :=
  ∃ hs stopped, tr = hs ++ stopped ∧ n = zlen hs ∧ (length stopped <= 1)%nat ∧ Forall completed hs ∧
    Forall (λ h, completed h → cursor_on it = true ∧ je_cursor h.1 = None) stopped ∧ pending = last_cursor it hs.

(** How a pass moves through the journal. *)
Record pass_moves (it : Intake) (tr : list (JournalEntry * Outcome)) (n : Z) (it' : Intake) : Prop := {
  pm_upcoming : upcoming it = passed tr ++ upcoming it';
  pm_on : cursor_on it' = cursor_on it;
  pm_split : pass_split it tr n (it_pending_cursor it');
}.

Lemma loop_moves ck n : ∀ ios p it p' it' jobs,
  recorder_step_loop n ios ck p it = (p', it', jobs) →
  pass_moves it (loop_trace n ios ck it) (p' - p) it' ∧ p' - p <= Z.of_nat n.
Proof.
  assert (Hnil : ∀ it p, pass_moves it [] (p - p) it).
  { intros it p. split; [done..|]. exists [], []. rewrite zlen_nil. split_and!; try done; [lia|cbn; lia]. }
  induction n as [|n IH]; intros ios p it p' it' jobs H; cbn [recorder_step_loop loop_trace] in *.
  { injection H as <- <- _. split; [apply Hnil|lia]. }
  destruct (next_entry it) as [[j it0]|] eqn:Hn.
  2:{ injection H as <- <- _. split; [apply Hnil|lia]. }
  apply next_entry_some in Hn as [E Hu].
  destruct (step_entry (ios O) ck j it0) as [[go it1] js] eqn:Hs.
  apply step_entry_position in Hs as (Hon & Hpass & Hgo); [|by rewrite E..].
  assert (Hon0 : cursor_on it0 = cursor_on it) by by rewrite E.
  assert (Hpc0 : it_pending_cursor it0 = it_pending_cursor it) by by rewrite E.
  set (o := outcome (ios O) ck j it0) in *. rewrite <-Hu in Hpass. destruct go.
  - destruct (recorder_step_loop n _ ck _ it1) as [[p2 it2] js2] eqn:Hl. injection H as <- <- _.
    apply IH in Hl as [[Hu1 Hon1 (hs & stopped & Htr & Hlen & Hst & Hco & Hex & Hpc)] Hb]. destruct Hgo as [Hc1 Hcur].
    assert (Hca : cursor_after it0 j = cursor_after it j) by (unfold cursor_after; by rewrite Hon0, Hpc0).
    split; [|lia]. split; [|congruence|].
    + by rewrite passed_cons, <-app_assoc, <-Hu1.
    + exists ((j, o) :: hs), stopped. rewrite Htr, zlen_cons. split; [done|]. split; [lia|]. split; [done|].
      split; [by constructor|]. split.
      * eapply Forall_impl; [exact Hex|]. intros h Hh. cbn in Hh |- *. by rewrite Hon, Hon0 in Hh.
      * rewrite Hpc. apply last_cursor_cons; congruence.
  - injection H as <- <- _. destruct Hgo as [Hpc Hex]. split; [|lia]. split; [done|congruence|].
    exists [], [(j, o)]. rewrite zlen_nil. split; [done|]. split; [lia|]. split; [cbn; lia|]. split; [constructor|].
    split; [|unfold last_cursor; cbn [last]; congruence]. constructor; [|constructor]. intros Hh. rewrite <-Hon0. by apply Hex.
Qed.

(** C10: nothing is skipped.  A pass of [recorder_step] goes through the journal in
    order.  Up to 512 entries are completed: each was accepted by the recorder or
    dropped by a modifier.  At most one more is touched; it ended the pass, as it
    was refused, its modifiers failed or the journal gave no cursor for it.
    Exactly the rest of the journal is still to come, and a refused entry is given
    again; the pending cursor is that of the last completed entry, never of a
    later one. *)
Theorem step_accounts ios ck it n it' jobs :
  recorder_step ios ck it = (n, it', jobs) →
  n <= CHUNK_SIZE ∧ upcoming it = passed (pass_trace ios ck it) ++ upcoming it' ∧
  pass_split it (pass_trace ios ck it) n (it_pending_cursor it').
Proof.
  intros [[Hu _ Hs] Hb]%loop_moves. rewrite Z.sub_0_r in Hs, Hb. split; [unfold CHUNK_SIZE in *; lia|done].
Qed.
End pass.

(** ** The pass refines appending to the group logs *)
Section refine.
Context `{RX : RegexLib} `{RM : !RegexMatch RX} `{W : WriterLib} `{J : Jansson}.
Context `{!WriterLib_ok W} `{!FlatCC_ok writer_flatcc} `{!OpenSSL_ok seg_openssl}.

(** A configuration the program starts with, and what the properties of the
    writer and of the modifiers ask of it. *)
Record intake_config (d : option SegmentDecryptor) (cfg : RecorderConfig) : Prop := {
  ic_ok : config_ok cfg d;
  ic_startup : ∃ readable raw dir entries, startup_config readable raw dir entries = Ok cfg;
  ic_templates : Forall template_ok (cfg_modifiers cfg);
  ic_group_templates : Forall (λ g, Forall template_ok (pg_modifiers g)) (cfg_groups cfg);
}.

(** Readable entries with a severity in range. *)
Definition journal_fine (j : JournalEntry) : Prop :=
  journal_entry_ok j ∧ u8 (journal_get_u32 (Some j) (C "PRIORITY")) <= 7.

Record intake_ok (d : option SegmentDecryptor) (it : Intake) (gs : list GroupLog) : Prop := {
  io_config : intake_config d (r_config (it_recorder it));
  io_next : is_u64 (r_next_segment_seq (it_recorder it));
  io_count : length (r_writers (it_recorder it)) = length (cfg_groups (r_config (it_recorder it)));
  io_repr : Forall2 (group_repr d) (r_writers (it_recorder it)) gs;
}.

Lemma journal_texts j : journal_entry_ok j → journal_ok (Some j).
Proof.
  intros Hj f v Hv. apply (jo_text j Hj) in Hv. eapply Forall_impl; [exact Hv|]. unfold is_u8. cbn. lia.
Qed.

Lemma tie_order_wf t e t' e' :
  0 <= ti_order t <= UINT16_MAX → entry_wf e → recorder_assign_monotonic_tie_order t e = (t', e') →
  entry_wf e' ∧ le_priority e' = le_priority e ∧ 0 <= ti_order t' <= UINT16_MAX.
Proof.
  intros Ht He H. assert (Hset : ∀ o, 0 <= o <= UINT16_MAX → entry_wf (set_tie_order o e)).
  { intros o Ho. destruct He. split; cbn; try done. unfold is_u16, UINT16_MAX in *. lia. }
  unfold recorder_assign_monotonic_tie_order in H. unfold UINT16_MAX in *.
  destruct (_ =? 0); [injection H as <- <-; split_and!; [apply Hset; lia|done|lia..]|].
  destruct (bool_decide _); [destruct (Z.ltb_spec (ti_order t) 65535)|];
    injection H as <- <-; cbn [ti_order]; (split; [apply Hset; lia|split; [done|lia]]).
Qed.

Lemma modifier_group_writer cfg p g :
  modifier_group cfg p = Some g → ∃ i, priority_group cfg p = Some i ∧ cfg_groups cfg !! i = Some g.
Proof.
  unfold modifier_group, priority_group. destruct (cfg_priority_to_group cfg !! _) as [gi|]; [|done]. cbn.
  destruct (_ && _); [|done]. intros H. by exists (Z.to_nat gi).
Qed.

(** The entries of a trace that go to the log of a group. *)
Definition stored_in (cfg : RecorderConfig) (i : nat) (tr : list (JournalEntry * Outcome)) : list LogEntry :=
  omap (λ h, match h.2 with
             | Stored e _ => if decide (priority_group cfg (le_priority e) = Some i) then Some e else None
             | _ => None
             end) tr.
(** The recorder took every entry at the first attempt. *)
Definition first_attempt (o : Outcome) : Prop :=
  match o with Stored _ first => first = true | Refused _ => False | Dropped | Failed => True end.
#[export] Instance first_attempt_dec o : Decision (first_attempt o).
Proof. destruct o; apply _. Defined.
Definition first_attempts (tr : list (JournalEntry * Outcome)) : Prop := Forall (λ h, first_attempt h.2) tr.
Definition log_grows (cfg : RecorderConfig) (hs : list (JournalEntry * Outcome)) (gs gs' : list GroupLog) : Prop :=
  length gs' = length gs ∧
  ∀ i g g', gs !! i = Some g → gs' !! i = Some g' →
    gl_closed g `prefix_of` gl_closed g' ∧ log_entries g' = log_entries g ++ stored_in cfg i hs.

Lemma log_grows_nil cfg gs : log_grows cfg [] gs gs.
Proof. split; [done|]. intros i g g' Hg Hg'. simplify_eq. by rewrite app_nil_r. Qed.
Lemma log_grows_other cfg j o hs gs gs' :
  match o with Stored _ _ => False | _ => True end → log_grows cfg hs gs gs' → log_grows cfg ((j, o) :: hs) gs gs'.
Proof. by destruct o. Qed.
Lemma log_grows_stored cfg j e b i g g1 hs gs gs' :
  priority_group cfg (le_priority e) = Some i → gs !! i = Some g →
  gl_closed g `prefix_of` gl_closed g1 → log_entries g1 = log_entries g ++ [e] →
  log_grows cfg hs (<[i := g1]> gs) gs' → log_grows cfg ((j, Stored e b) :: hs) gs gs'.
Proof.
  intros Hp Hg Hcl Hlog [Hlen Hgr]. rewrite length_insert in Hlen. split; [done|]. intros k h h' Hh Hh'.
  unfold stored_in. cbn [omap list_omap snd]. fold (stored_in cfg k hs). rewrite Hp. destruct (decide (k = i)) as [->|Hk].
  - simplify_eq. rewrite decide_True by done.
    destruct (Hgr i g1 h') as [Hp1 Hl1]; [apply list_lookup_insert_eq; by eapply lookup_lt_Some|done|].
    split; [by etrans|]. by rewrite Hl1, Hlog, <-app_assoc.
  - rewrite decide_False by congruence. apply Hgr; [|done]. by rewrite list_lookup_insert_ne.
Qed.

(** What comes out of the preparation of one entry. *)
Lemma prepare_ok d it gs io j result entry jobs it1 :
  intake_ok d it gs → 0 <= ti_order (it_ties it) <= UINT16_MAX → journal_fine j →
  prepare_entry io j it = (result, entry, jobs, it1) →
  intake_ok d it1 gs ∧ 0 <= ti_order (it_ties it1) <= UINT16_MAX ∧
  r_config (it_recorder it1) = r_config (it_recorder it) ∧ entry_wf entry ∧
  (result = MOD_KEEP → ∃ i w g, priority_group (r_config (it_recorder it)) (le_priority entry) = Some i ∧
     r_writers (it_recorder it1) !! i = Some w ∧ gs !! i = Some g ∧ group_repr d w g).
Proof.
  intros [[Hcok (rd & raw & dir & en & Hst) Htm Htg] Hnx Hcnt Hrep] Ht [Hj Hpri] H. unfold prepare_entry in H.
  destruct (extract_entry _ _ j) as [e0 b] eqn:He0.
  assert (Hp0 : le_priority e0 <= 7).
  { unfold extract_entry in He0. destruct (enter_boot _ _ _) as [s b1]. by injection He0 as <- _. }
  apply extract_entry_wf in He0 as [Hwf0 _]; [|done].
  destruct (recorder_assign_monotonic_tie_order _ e0) as [t e1] eqn:He1.
  apply tie_order_wf in He1 as (Hwf1 & Hp1 & Ht1); [|done..].
  destruct (apply_entry_modifiers _ e1 _ _) as [[res e2] js] eqn:Hm. injection H as <- <- _ <-.
  destruct (persist_boots_same io (zlen (r_boots (it_recorder it))) b (it_recorder it)) as [[Hc Hn] Hw].
  set (r1 := persist_new_boots io _ b (it_recorder it)) in *. cbn [it_recorder with_ties with_recorder it_ties] in *.
  assert (Hfacts : entry_wf e2 ∧ (res = MOD_KEEP → ∃ g, modifier_group (r_config (it_recorder it)) (le_priority e2) = Some g)).
  { pose proof (startup_routes_total _ _ _ _ _ Hst) as Htot. apply startup_ok in Hst as [[_ Hv] _].
    assert (Hok : Forall modifier_ok (cfg_modifiers (r_config (it_recorder it)))) by apply Hv.
    assert (Hpr : 0 <= le_priority e1 <= 7) by (pose proof (ewf_priority e1 Hwf1) as [? _]; lia).
    destruct (modified_entry _ _ _ _ _ _ _ Htot Hok Hpr Hm) as [Hinv Hfin]. split.
    - apply (Hinv entry_wf); [|done]. intros items x r x' js' Hi Hl Hx. eapply modifier_list_wf; [|by apply journal_texts|done..].
      destruct Hi as [->|(g & Hmg & ->)]; [done|]. apply modifier_group_writer in Hmg as (i & _ & Hg).
      by eapply Forall_lookup_1 in Htg.
    - intros Hk. destruct (Hfin Hk) as (g & _ & _ & Hg & _). by exists g. }
  destruct Hfacts as [Hwf2 Hgrp]. split; [|split; [done|split; [done|split; [done|]]]].
  - split; cbn [it_recorder with_ties with_recorder]; rewrite ?Hc, ?Hw; [split; eauto 10|auto|done|done].
  - intros Hk. destruct (Hgrp Hk) as (g & Hg). apply modifier_group_writer in Hg as (i & Hi & Hgi).
    pose proof (lookup_lt_Some _ _ _ Hgi) as Hlt. rewrite <-Hcnt in Hlt.
    destruct (lookup_lt_is_Some_2 _ _ Hlt) as [w Hwi]. destruct (Forall2_lookup_l _ _ _ _ _ Hrep Hwi) as (lg & Hlg & Hr).
    exists i, w, lg. by rewrite Hw.
Qed.

(** *** The logs in the store *)

(** What the system lets an entry remove. *)
Definition step_granted (granted : bytes → bytes → Prop) (io : StepIo) : Prop :=
  let rec := se_recovery io in
  grants granted (ry_fs rec) ∧ grants granted (ce_fs (si_rotate (ry_first rec))) ∧ grants granted (ce_fs (si_close (ry_first rec))).

(** Logs that are in the store stay there, while at most [n] segments are opened. *)
Definition keeps_logs (granted : bytes → bytes → Prop) (n : Z) (r : Recorder) (gs : list GroupLog) (r' : Recorder)
    (gs' : list GroupLog) : Prop :=
  r_next_segment_seq r + n <= UINT64_MAX → logs_stored granted r gs →
  logs_stored granted r' gs' ∧ r_next_segment_seq r' <= r_next_segment_seq r + n.

Lemma keeps_logs_refl granted n r gs : 0 <= n → keeps_logs granted n r gs r gs.
Proof. intros Hn _ H. split; [done|lia]. Qed.
Lemma keeps_logs_trans granted n m r1 gs1 r2 gs2 r3 gs3 :
  0 <= m → keeps_logs granted n r1 gs1 r2 gs2 → keeps_logs granted m r2 gs2 r3 gs3 →
  keeps_logs granted (n + m) r1 gs1 r3 gs3.
Proof.
  intros Hm H1 H2 Hb H. destruct H1 as [Hl1 Hn1]; [lia|done|]. destruct H2 as [Hl2 Hn2]; [lia|done|]. split; [done|lia].
Qed.

Lemma prepare_logs granted io j it result entry jobs it1 gs :
  prepare_entry io j it = (result, entry, jobs, it1) →
  (logs_stored granted (it_recorder it) gs → logs_stored granted (it_recorder it1) gs) ∧
  r_next_segment_seq (it_recorder it1) = r_next_segment_seq (it_recorder it).
Proof.
  unfold prepare_entry. destruct (extract_entry _ _ j) as [e b].
  destruct (recorder_assign_monotonic_tie_order _ e) as [t e1].
  destruct (apply_entry_modifiers _ _ _ _) as [[r e2] js]. intros [= _ _ _ <-]. cbn [it_recorder with_ties with_recorder].
  unfold persist_new_boots. destruct (_ =? _); (split; [intros Hl; apply (same_dirs_logs granted (it_recorder it)); try done|done]).
  cbn. apply persist_boot_dirs.
Qed.
Lemma room_made_logs granted io e r gs :
  grants granted (ry_fs io) → logs_stored granted r gs →
  logs_stored granted (room_made io e r) gs ∧ r_next_segment_seq (room_made io e r) = r_next_segment_seq r.
Proof.
  intros Hg Hl. unfold room_made. cbv zeta. destruct (_ =? 0); [done|]. split; [|apply reclaim_next].
  eapply logs_carry; [by apply reclaim_carries|by apply reclaim_inv, (lo_inv _ _ _ Hl)|exact Hl].
Qed.

Lemma step_entry_refines d io ck j it go it' jobs gs :
  intake_ok d it gs → 0 <= ti_order (it_ties it) <= UINT16_MAX → journal_fine j → clock_ok ck →
  step_entry io ck j it = (go, it', jobs) → first_attempt (outcome io ck j it) →
  ∃ gs', intake_ok d it' gs' ∧ 0 <= ti_order (it_ties it') <= UINT16_MAX ∧
    r_config (it_recorder it') = r_config (it_recorder it) ∧
    (∀ hs gs2, log_grows (r_config (it_recorder it)) hs gs' gs2 →
      log_grows (r_config (it_recorder it)) ((j, outcome io ck j it) :: hs) gs gs2) ∧
    ∀ granted, step_granted granted io → keeps_logs granted 1 (it_recorder it) gs (it_recorder it') gs'.
Proof.
  intros Hok Ht Hj Hck Hs Hfirst. unfold step_entry in Hs. unfold outcome in *.
  destruct (prepare_entry io j it) as [[[result entry] js] it1] eqn:Hprep.
  destruct (prepare_ok _ _ _ _ _ _ _ _ _ Hok Ht Hj Hprep) as (Hok1 & Ht1 & Hc1 & Hwf & Hgrp).
  assert (Hfin : ∀ it2 gs2, intake_ok d it2 gs2 → match note_cursor j it2 with Some it3 => (true, it3, js) | None => (false, it2, js) end = (go, it', jobs) →
    intake_ok d it' gs2 ∧ it_ties it' = it_ties it2 ∧ it_recorder it' = it_recorder it2).
  { intros it2 gs2 Hok2. unfold note_cursor. destruct (_ || _); [|by intros [= _ <- _]].
    destruct (je_cursor j); cbn; [|by intros [= _ <- _]]. intros [= _ <- _]. split; [|done]. by destruct Hok2. }
  assert (Hpl : ∀ granted, keeps_logs granted 0 (it_recorder it) gs (it_recorder it1) gs).
  { intros granted _ Hl. destruct (prepare_logs granted _ _ _ _ _ _ _ gs Hprep) as [Hp ->]. split; [by apply Hp|lia]. }
  assert (Hpl1 : ∀ granted, keeps_logs granted 1 (it_recorder it) gs (it_recorder it1) gs)
    by (intros granted; apply (keeps_logs_trans granted 0 1 _ _ (it_recorder it1) gs); [lia|apply Hpl|by apply keeps_logs_refl]).
  destruct result.
  { injection Hs as _ <- _. exists gs. split_and!; first [done|lia|intros hs gs2; by apply log_grows_other|intros granted _; apply Hpl1]. }
  2:{ destruct (Hfin it1 gs Hok1 Hs) as (Hok' & Et & Er).
      exists gs. rewrite Et, Er. split_and!; first [done|lia|intros hs gs2; by apply log_grows_other|intros granted _; apply Hpl1]. }
  set (r0 := room_made (se_recovery io) entry (it_recorder it1)) in *.
  destruct (recorder_submit_entry_with_recovery _ _ _ _) as [res2 r2'] eqn:Hrec. cbn [fst] in Hfirst |- *.
  destruct res2 as [[]|]; [|done].
  destruct (recorder_submit_entry (ry_first (se_recovery io)) ck entry r0) as [[[]|] r2] eqn:Hsub; [|done]. cbn [fst].
  unfold r0 in Hsub. rewrite (recovery_first _ _ _ _ _ Hsub) in Hrec. fold r0 in Hsub. injection Hrec as <-.
  destruct (Hgrp eq_refl) as (i & w & g & Hi & Hw & Hg & Hr).
  destruct (room_made_same (se_recovery io) entry (it_recorder it1)) as [[Hcr Hnr] Hwr]. fold r0 in Hcr, Hnr, Hwr.
  destruct (submit_keeps _ _ _ _ _ _ Hsub) as [Hc2 Hn2]. pose proof Hok1 as [Hcfg1 Hnx1 Hcnt1 Hrep1].
  assert (Hage : 0 <= cfg_segment_max_age_sec (r_config r0)).
  { rewrite Hcr. destruct Hcfg1 as [_ (rd & raw & dir & en & Hst) _ _]. apply startup_ok in Hst as [[_ Hv] _].
    destruct Hv as (_ & _ & _ & _ & _ & _ & [? _] & _). done. }
  destruct (submit_repr _ _ _ _ _ i w d g Hsub) as (w' & g' & Hws & Hr' & Hpre & Hlog & Hstay).
  { rewrite Hcr, Hc1. exact Hi. }
  { rewrite Hwr. exact Hw. }
  { exact Hr. }
  { split; [rewrite Hcr; apply Hcfg1|done|done|by apply Hnr|done]. }
  destruct (Hfin (with_recorder r2 it1) (<[i := g']> gs)) as (Hok' & Et & Er); [|exact Hs|].
  { split; cbn [it_recorder with_recorder]; rewrite ?Hc2, ?Hcr; [done|by apply Hn2, Hnr|by rewrite Hws, length_insert, Hwr|].
    rewrite Hws, Hwr. by apply Forall2_insert. }
  exists (<[i := g']> gs). rewrite Et, Er. cbn [it_ties it_recorder with_recorder]. split; [done|]. split; [done|].
  split; [by rewrite Hc2, Hcr|]. split; [intros hs gs2; by eapply log_grows_stored|].
  intros granted (Hg1 & Hg2 & Hg3). apply (keeps_logs_trans granted 0 1 _ _ (it_recorder it1) gs); [lia|apply Hpl|].
  intros Hb Hl. destruct (room_made_logs granted (se_recovery io) entry _ gs Hg1 Hl) as [Hl0 Hn0]. fold r0 in Hl0, Hn0.
  split; [by apply (Hstay granted gs); try done; lia|].
  destruct (submit_inv _ _ _ _ _ _ Hsub (lo_inv _ _ _ Hl0)); lia.
Qed.

Lemma loop_refines d ck n : ∀ ios p it p' it' jobs gs,
  recorder_step_loop n ios ck p it = (p', it', jobs) →
  intake_ok d it gs → 0 <= ti_order (it_ties it) <= UINT16_MAX → Forall journal_fine (upcoming it) → clock_ok ck →
  first_attempts (loop_trace n ios ck it) →
  ∃ gs', intake_ok d it' gs' ∧ 0 <= ti_order (it_ties it') <= UINT16_MAX ∧
    r_config (it_recorder it') = r_config (it_recorder it) ∧
    log_grows (r_config (it_recorder it)) (loop_trace n ios ck it) gs gs' ∧
    ∀ granted, (∀ k, step_granted granted (ios k)) →
      keeps_logs granted (Z.of_nat n) (it_recorder it) gs (it_recorder it') gs'.
Proof.
  induction n as [|n IH]; intros ios p it p' it' jobs gs H Hok Ht Hj Hck Hf; cbn [recorder_step_loop loop_trace] in *.
  { injection H as _ <- _. exists gs. split_and!; first [done|lia|apply log_grows_nil|intros granted _; apply keeps_logs_refl; lia]. }
  destruct (next_entry it) as [[j it0]|] eqn:Hn.
  2:{ injection H as _ <- _. exists gs. split_and!; first [done|lia|apply log_grows_nil|intros granted _; apply keeps_logs_refl; lia]. }
  apply next_entry_some in Hn as [E Hu]. rewrite Hu in Hj. apply Forall_cons in Hj as [Hj0 Hj].
  assert (Hr0 : it_recorder it0 = it_recorder it) by by rewrite E.
  assert (Ht0 : it_ties it0 = it_ties it) by by rewrite E.
  assert (Hok0 : intake_ok d it0 gs) by (destruct Hok; split; by rewrite Hr0).
  destruct (step_entry (ios O) ck j it0) as [[go it1] js] eqn:Hs.
  unfold first_attempts in Hf. apply Forall_cons in Hf as [Hf0 Hf]. cbn [snd] in Hf0.
  destruct (step_entry_refines d (ios O) ck j it0 go it1 js gs Hok0) as (gs1 & Hok1 & Ht1 & Hc1 & Hgrow & Hkeep); [by rewrite Ht0|done..|].
  rewrite Hr0 in Hc1, Hgrow, Hkeep. apply step_entry_position in Hs as (_ & Hpass & _); [|by rewrite E..]. destruct go.
  - destruct (recorder_step_loop n _ ck _ it1) as [[p2 it2] js2] eqn:Hl. injection H as _ <- _.
    destruct (IH _ _ _ _ _ _ gs1 Hl Hok1 Ht1) as (gs' & Hok' & Ht' & Hc' & Hg' & Hkeep'); [|done|exact Hf|].
    { assert (Hall : Forall journal_fine (j :: it_rest it0)) by by constructor.
      rewrite Hpass in Hall. by apply Forall_app in Hall as [_ ?]. }
    exists gs'. split; [done|]. split; [done|]. split; [congruence|]. split; [apply Hgrow; by rewrite <-Hc1|].
    intros granted Hgr. replace (Z.of_nat (S n)) with (1 + Z.of_nat n) by lia.
    eapply keeps_logs_trans; [lia|by apply Hkeep|]. apply Hkeep'. intros k. apply (Hgr (S k)).
  - injection H as _ <- _. exists gs1. split; [done|]. split; [done|]. split; [done|]. split; [apply Hgrow, log_grows_nil|].
    intros granted Hgr. replace (Z.of_nat (S n)) with (1 + Z.of_nat n) by lia.
    eapply keeps_logs_trans; [lia|by apply Hkeep|]. apply keeps_logs_refl. lia.
Qed.
End refine.
