(* ===== verification/IntakeRounds.v ===== *)
(** * Rounds of the main loop, crashes and restarts

    A round passes over the journal, flushes and checkpoints the cursor.  Then
    everything the cursor covers is in the segment files, and a process that is
    started again goes on exactly behind it. *)
From S2P Require Import Prelude Bytes Crypto Segment SegmentImage SegmentScan SegmentWrite Models SegmentSpec.
From S2P Require Import Chunk Index CText Entry Store StoreProofs Json Boots BootsProofs Config ConfigProofs.
From S2P Require Import Modifiers ModifiersProofs Fallback FallbackProofs Retention RetentionProofs.
From S2P Require Import Writer WriterProofs Recorder RecorderProofs RecorderInv RecorderLogs Intake IntakeProofs.

(** ** One round *)
Section rounds.
Context `{RX : RegexLib} `{RM : !RegexMatch RX} `{W : WriterLib} `{J : Jansson}.
Context `{!WriterLib_ok W} `{!FlatCC_ok writer_flatcc} `{!OpenSSL_ok seg_openssl}.

(** After a successful flush no builder holds an entry. *)
Lemma flush_empties io now w w' : writer_flush_chunk io now w = (Ok tt, w') → pending_entries w' = [].
Proof.
  unfold writer_flush_chunk, pw_count, pending_entries. destruct (_ =? 0) eqn:Hz.
  - intros [= <-]. apply Z.eqb_eq in Hz. unfold zlen in Hz. destruct (ws_use_compact_entries (pw_segment w)).
    + destruct (pw_compact_entries w); [done|cbn in Hz; lia].
    + destruct (pw_entries w); [done|cbn in Hz; lia].
  - destruct (write_chunk io now w) as [r f]. intros [= _ <-]. cbn. by destruct (ws_use_compact_entries _).
Qed.
Lemma flush_writers_empty ios now ws ws' :
  flush_writers ios now ws = (Ok tt, ws') → length ios = length ws → Forall (λ w, pending_entries w = []) ws'.
Proof.
  revert ios ws'. induction ws as [|w ws IH]; intros [|[io sync] ios] ws' H Hl; try done; cbn [flush_writers] in H.
  { by injection H as <-. }
  destruct (writer_flush_chunk io now w) as [[[]|] w1] eqn:Hf; [|done].
  destruct (writer_sync_if_due sync now w1) as [[[]|] w2] eqn:Hs; [|done].
  destruct (flush_writers ios now ws) as [r ws2] eqn:Hr. injection H as -> <-. injection Hl as Hl.
  constructor; [|by eapply IH]. apply flush_empties in Hf.
  apply sync_if_due_same in Hs as (_ & Hseg & _ & He & Hc & _). unfold pending_entries in *. by rewrite Hseg, He, Hc.
Qed.

(** The checkpoint only touches the cursor. *)
Lemma checkpoint_same io it :
  it_recorder (checkpoint_cursor io it) = it_recorder it ∧ it_ties (checkpoint_cursor io it) = it_ties it ∧
  upcoming (checkpoint_cursor io it) = upcoming it ∧ it_pending_cursor (checkpoint_cursor io it) = it_pending_cursor it ∧
  (it_cursor_enabled (checkpoint_cursor io it) = true → ∀ c, it_pending_cursor it = Some c → is_cstr c → c ≠ [] →
     read_journal_cursor (it_cursor_file (checkpoint_cursor io it)) = Some c).
Proof.
  unfold checkpoint_cursor, persist_journal_cursor. destruct (it_cursor_enabled it) eqn:Hen; cbn [negb].
  2:{ split_and!; try done. by rewrite Hen. }
  destruct (it_pending_cursor it) as [cursor|] eqn:Hc; [|by split_and!].
  destruct (write_journal_cursor io cursor (it_cursor_file it)) as [[[]|e] file] eqn:Hw; cbn; rewrite Hc; split_and!; try done.
  intros _ c [= <-] Hcs Hne. destruct (write_cursor_ok _ _ _ _ Hw) as (Hl & ? & ? & ? & ?).
  destruct (write_cursor_file _ _ _ _ _ Hw) as [rest ->]; [done..|]. by apply read_cursor_back.
Qed.

(** What is in the file of every open segment of the logs [gs]. *)
Definition on_disk (d : option SegmentDecryptor) (r : Recorder) (gs : list GroupLog) : Prop :=
  ∀ i w g es, r_writers r !! i = Some w → gs !! i = Some g → gl_open g = Some es →
    let data := f_data (wf_fp (pw_file w)) in
    zlen data <= UINT32_MAX → no_footer_in data →
    ∃ stored, mapM (stored_of (ws_use_compact_entries (pw_segment w))) es = Some stored ∧
      segment_scan_buffer data (zlen data) d (Some collect_entries) [] =
        ScanDone (with_dict_len (ws_index_header (pw_segment w)) (zlen (ws_dict_bytes (pw_segment w))))
          zero_footer (zlen data) stored.

(** After a successful flush every open writer has its log's entries in the file. *)
Definition all_flushed (d : option SegmentDecryptor) (r : Recorder) (gs : list GroupLog) : Prop :=
  ∀ i w g es, r_writers r !! i = Some w → gs !! i = Some g → gl_open g = Some es →
    writer_holds w es ∧ pending_entries w = [] ∧ opens (wf_encryptor (pw_file w)) d.
Lemma flushed_on_disk d r gs : all_flushed d r gs → on_disk d r gs.
Proof.
  intros H i w g es Hw Hg Hop data Hmax Hno. destruct (H i w g es Hw Hg Hop) as (Hh & Hp & Hd).
  by apply scans_collected, flushed_scans.
Qed.

Lemma flush_all_flushed d ios ck it it' io gs :
  flush_and_checkpoint ios io ck it = (Ok tt, it') → intake_ok d it gs →
  length ios = length (r_writers (it_recorder it)) →
  intake_ok d it' gs ∧ all_flushed d (it_recorder it') gs.
Proof.
  intros H [Hcfg Hnx Hcnt Hrep] Hl. unfold flush_and_checkpoint, recorder_flush_all in H.
  destruct (flush_writers ios (ck_mono_sec ck) _) as [res ws] eqn:Hf. destruct res as [[]|]; [|done].
  set (r := set_store _ (set_writers ws (it_recorder it))) in H. injection H as <-.
  pose proof (flush_writers_empty _ _ _ _ Hf Hl) as Hemp. apply (flush_writers_repr _ _ _ _ d gs) in Hf; [|done].
  destruct (checkpoint_same io (with_recorder r it)) as (Er & _). unfold all_flushed. rewrite Er. cbn [it_recorder with_recorder].
  split.
  - split; rewrite Er; cbn [it_recorder with_recorder]; try done. cbn.
    rewrite <-Hcnt. apply Forall2_length in Hf, Hrep. lia.
  - intros i w g es Hw Hg Hop. cbn in Hw. rewrite Forall_lookup in Hemp. specialize (Hemp i w Hw).
    destruct (Forall2_lookup_lr _ _ _ _ _ _ Hf Hw Hg) as [_ Hop']. rewrite Hop in Hop'. by destruct Hop' as [_ [Hh Hd]].
Qed.
Lemma flush_on_disk d ios ck it it' io gs :
  flush_and_checkpoint ios io ck it = (Ok tt, it') → intake_ok d it gs →
  length ios = length (r_writers (it_recorder it)) →
  intake_ok d it' gs ∧ on_disk d (it_recorder it') gs.
Proof. intros H Hok Hl. destruct (flush_all_flushed _ _ _ _ _ _ _ H Hok Hl) as [? ?]. split; [done|by apply flushed_on_disk]. Qed.

(** What a good round leaves behind; the ties are carried along for the next. *)
Record round_result (d : option SegmentDecryptor) (it : Intake) (tr : list (JournalEntry * Outcome)) (gs : list GroupLog)
    (it' : Intake) (gs' : list GroupLog) : Prop := {
  rr_ok : intake_ok d it' gs';
  rr_ties : 0 <= ti_order (it_ties it') <= UINT16_MAX;
  rr_config : r_config (it_recorder it') = r_config (it_recorder it);
  rr_logs : log_grows (r_config (it_recorder it)) tr gs gs';
  rr_upcoming : upcoming it = passed tr ++ upcoming it';
  rr_split : ∃ n, n <= CHUNK_SIZE ∧ pass_split it tr n (it_pending_cursor it');
  rr_on : it_cursor_enabled it' = true → cursor_on it' = cursor_on it;
  rr_disk : on_disk d (it_recorder it') gs';
  rr_cursor : it_cursor_enabled it' = true → ∀ c, it_pending_cursor it' = Some c → is_cstr c → c ≠ [] →
    read_journal_cursor (it_cursor_file it') = Some c;
}.

Definition round_start (io : MainIo) (it : Intake) : Intake :=
  with_recorder (recorder_sample_clock (mi_boot1 io) (mi_realtime io) (mi_boot2 io) (it_recorder it)) it.
Definition round_trace (io : MainIo) (it : Intake) : list (JournalEntry * Outcome) :=
  pass_trace (mi_steps io) (mi_clock io) (round_start io it).

Lemma sample_same b1 rt b2 r :
  r_config (recorder_sample_clock b1 rt b2 r) = r_config r ∧ r_writers (recorder_sample_clock b1 rt b2 r) = r_writers r ∧
  r_next_segment_seq (recorder_sample_clock b1 rt b2 r) = r_next_segment_seq r.
Proof. unfold recorder_sample_clock. destruct (_ || _); [done|]. destruct (r_clock_offset _); [|done]. by destruct (_ || _). Qed.

(** The flush and the checkpoint of a round. *)
Lemma flush_checkpoint_result d ios io ck it it' gs :
  flush_and_checkpoint ios io ck it = (Ok tt, it') → intake_ok d it gs →
  length ios = length (r_writers (it_recorder it)) →
  intake_ok d it' gs ∧ on_disk d (it_recorder it') gs ∧
  r_config (it_recorder it') = r_config (it_recorder it) ∧ it_ties it' = it_ties it ∧
  upcoming it' = upcoming it ∧ it_pending_cursor it' = it_pending_cursor it ∧
  (it_cursor_enabled it' = true → cursor_on it' = cursor_on it ∧ ∀ c, it_pending_cursor it' = Some c → is_cstr c → c ≠ [] →
     read_journal_cursor (it_cursor_file it') = Some c).
Proof.
  intros H Hok Hl. destruct (flush_on_disk _ _ _ _ _ _ _ H Hok Hl) as [Hok' Hd]. split; [done|]. split; [done|].
  unfold flush_and_checkpoint, recorder_flush_all in H. destruct (flush_writers ios _ _) as [[[]|] ws]; [|done].
  injection H as <-. set (it1 := with_recorder _ it). destruct (checkpoint_same io it1) as (Er & Et & Eu & Ep & Hc).
  rewrite Er, Et, Eu, Ep. split_and!; try done. intros He. split.
  - unfold checkpoint_cursor, persist_journal_cursor in *. destruct (it_cursor_enabled it1) eqn:Hen; cbn [negb] in *; [|done].
    destruct (it_pending_cursor it1); [|done]. destruct (write_journal_cursor _ _ _) as [[[]|] file]; [|by cbn in He].
    unfold cursor_on. cbn. cbn in Hen. by rewrite Hen.
  - intros c Hpc. by apply Hc.
Qed.

(** What a round may remove, and the number of segments it may open. *)
Definition round_granted (granted : bytes → bytes → Prop) (io : MainIo) : Prop := ∀ k, step_granted granted (mi_steps io k).
Definition ROUND_SEGMENTS : Z := 512.

Lemma flush_checkpoint_logs granted ios io ck it it' gs :
  flush_and_checkpoint ios io ck it = (Ok tt, it') →
  keeps_logs granted 0 (it_recorder it) gs (it_recorder it') gs.
Proof.
  unfold flush_and_checkpoint. destruct (recorder_flush_all ios ck _) as [[[]|] r] eqn:Hf; [|done]. intros [= <-] _ Hl.
  destruct (checkpoint_same io (with_recorder r it)) as (-> & _). cbn [it_recorder with_recorder].
  split; [by eapply flush_all_logs|]. unfold recorder_flush_all in Hf. destruct (flush_writers _ _ _) as [rf ws].
  injection Hf as _ <-. cbn. lia.
Qed.
Lemma round_start_logs granted io it gs : keeps_logs granted 0 (it_recorder it) gs (it_recorder (round_start io it)) gs.
Proof.
  intros _ Hl. unfold round_start. cbn [it_recorder with_recorder].
  destruct (sample_same (mi_boot1 io) (mi_realtime io) (mi_boot2 io) (it_recorder it)) as (_ & Ew & En).
  assert (Es : r_store (recorder_sample_clock (mi_boot1 io) (mi_realtime io) (mi_boot2 io) (it_recorder it)) = r_store (it_recorder it)).
  { unfold recorder_sample_clock. destruct (_ || _); [done|]. destruct (r_clock_offset _); [|done]. by destruct (_ || _). }
  split; [apply (same_dirs_logs granted (it_recorder it)); [done..|by rewrite Es]|lia].
Qed.

Lemma round_effect d io it it' jobs gs :
  main_round io it = (true, it', jobs) →
  intake_ok d it gs → 0 <= ti_order (it_ties it) <= UINT16_MAX → Forall journal_fine (upcoming it) →
  clock_ok (mi_clock io) → length (mi_flush io) = length (r_writers (it_recorder it)) →
  first_attempts (round_trace io it) →
  ∃ gs', round_result d it (round_trace io it) gs it' gs' ∧
    ∀ granted, round_granted granted io → keeps_logs granted ROUND_SEGMENTS (it_recorder it) gs (it_recorder it') gs'.
Proof.
  intros H Hok Ht Hj Hck Hl Hf. unfold main_round in H. fold (round_start io it) in H.
  destruct (sample_same (mi_boot1 io) (mi_realtime io) (mi_boot2 io) (it_recorder it)) as (Ec & Ew & En).
  assert (Hok0 : intake_ok d (round_start io it) gs) by (destruct Hok; split; unfold round_start; cbn; by rewrite ?Ec, ?Ew, ?En).
  destruct (recorder_step (mi_steps io) (mi_clock io) (round_start io it)) as [[n it1] js] eqn:Hstep.
  destruct (loop_refines _ _ _ _ _ _ _ _ _ _ Hstep Hok0 Ht Hj Hck Hf) as (gs' & Hok1 & Ht1 & Hc1 & Hgrow & Hkeep).
  destruct (loop_moves _ _ _ _ _ _ _ _ Hstep) as [[Hu Hon Hsp] Hb]. rewrite Z.sub_0_r in Hsp, Hb.
  fold (round_trace io it) in Hu, Hsp, Hgrow. cbn in Hc1, Hgrow. rewrite Ec in Hc1, Hgrow.
  set (it2 := if it_startup_catchup it1 && (0 <? n) then _ else it1) in H.
  assert (H2 : it_recorder it2 = it_recorder it1 ∧ it_ties it2 = it_ties it1 ∧ upcoming it2 = upcoming it1 ∧
    it_pending_cursor it2 = it_pending_cursor it1 ∧ cursor_on it2 = cursor_on it1)
    by (unfold it2; by destruct (_ && _)).
  destruct H2 as (Er2 & Et2 & Eu2 & Ep2 & Eo2).
  destruct (flush_and_checkpoint _ _ _ it2) as [[[]|] it3] eqn:Hfl; [|done]. injection H as <- _.
  assert (Hok2 : intake_ok d it2 gs') by (destruct Hok1; split; by rewrite Er2).
  assert (Hlw : length (mi_flush io) = length (r_writers (it_recorder it2))).
  { rewrite Er2, (io_count _ _ _ Hok1), Hc1, <-(io_count _ _ _ Hok). exact Hl. }
  destruct (flush_checkpoint_result _ _ _ _ _ _ _ Hfl Hok2 Hlw) as (Hok3 & Hd3 & Ec3 & Et3 & Eu3 & Ep3 & Hcur).
  set (it4 := if 0 <? n then it3 else with_replay false (it_startup_replayed_entries it3) it3).
  assert (E4 : it_recorder it4 = it_recorder it3 ∧ it_ties it4 = it_ties it3 ∧ upcoming it4 = upcoming it3 ∧
    it_pending_cursor it4 = it_pending_cursor it3 ∧ cursor_on it4 = cursor_on it3 ∧
    it_cursor_enabled it4 = it_cursor_enabled it3 ∧ it_cursor_file it4 = it_cursor_file it3)
    by (unfold it4; by destruct (0 <? n)).
  destruct E4 as (Er4 & Et4 & Eu4 & Ep4 & Eo4 & Ee4 & Ef4).
  exists gs'. split; cycle 1.
  { intros granted Hgr. rewrite Er4. change ROUND_SEGMENTS with (0 + (512 + 0)).
    eapply keeps_logs_trans; [lia|apply round_start_logs|]. eapply keeps_logs_trans; [lia|apply Hkeep; exact Hgr|].
    rewrite <-Er2. by eapply flush_checkpoint_logs. }
  split; rewrite ?Er4, ?Et4, ?Eu4, ?Ep4, ?Eo4, ?Ee4, ?Ef4.
  - destruct Hok3. split; by rewrite Er4.
  - by rewrite Et3, Et2.
  - by rewrite Ec3, Er2.
  - exact Hgrow.
  - rewrite Eu3, Eu2. exact Hu.
  - exists n. split; [unfold CHUNK_SIZE in *; lia|]. rewrite Ep3, Ep2. exact Hsp.
  - intros He. destruct (Hcur He) as [-> _]. rewrite Eo2, Hon. done.
  - exact Hd3.
  - intros He. by destruct (Hcur He).
Qed.

(** C4: checkpoints are safe.  When a round of the main loop ends well and every
    entry was taken at the first attempt, the logs have grown by the entries of
    the pass, and all of them are on disk: the logs are in the store, so the file
    of every closed segment, those closed in this round included, holds exactly a
    header, frames with its entries and a footer unless the system let it be
    unlinked, and the file of every open segment holds what its writer wrote,
    which scans to all entries of its log, none being left in memory.  While
    checkpointing is on, the cursor that a restart will read is the one of the
    last completed entry.  A crash from here on loses nothing that the cursor
    covers. *)
Theorem round_durable granted d io it it' jobs gs :
  main_round io it = (true, it', jobs) →
  intake_ok d it gs → 0 <= ti_order (it_ties it) <= UINT16_MAX → Forall journal_fine (upcoming it) →
  clock_ok (mi_clock io) → length (mi_flush io) = length (r_writers (it_recorder it)) →
  first_attempts (round_trace io it) →
  round_granted granted io → r_next_segment_seq (it_recorder it) + ROUND_SEGMENTS <= UINT64_MAX →
  logs_stored granted (it_recorder it) gs →
  ∃ gs', round_result d it (round_trace io it) gs it' gs' ∧ logs_stored granted (it_recorder it') gs'.
Proof.
  intros H Hok Ht Hj Hck Hl Hf Hgr Hb Hlogs.
  destruct (round_effect d io it it' jobs gs H Hok Ht Hj Hck Hl Hf) as (gs' & Hres & Hkeep).
  exists gs'. split; [exact Hres|]. by apply (Hkeep granted).
Qed.

(** ** Many rounds, a crash and a restart *)

(** Every entry was dropped or stored at the first attempt. *)
Definition smooth_outcome (o : Outcome) : Prop :=
  match o with Stored _ first => first = true | Dropped => True | Refused _ | Failed => False end.
#[export] Instance smooth_outcome_dec o : Decision (smooth_outcome o).
Proof. destruct o; apply _. Defined.
Definition smooth (tr : list (JournalEntry * Outcome)) : Prop := Forall (λ h, smooth_outcome h.2) tr.

Lemma smooth_facts tr : smooth tr → first_attempts tr ∧ Forall completed tr ∧ passed tr = map fst tr.
Proof.
  induction 1 as [|[j o] tr Ho _ (IH1 & IH2 & IH3)]; [split; [constructor|by split]|]. split_and!.
  - constructor; [by destruct o|done].
  - constructor; [by destruct o|done].
  - rewrite passed_cons, IH3. by destruct o.
Qed.

(** A cursor that can be written and read back. *)
Definition has_cursor (j : JournalEntry) : Prop := ∃ c, je_cursor j = Some c ∧ is_cstr c ∧ c ≠ [].

(** When every entry has a cursor, a smooth pass completes all its entries. *)
Lemma smooth_split it tr n pending :
  smooth tr → Forall has_cursor (map fst tr) → pass_split it tr n pending → pending = last_cursor it tr.
Proof.
  intros Hsm Hcur (hs & stopped & -> & _ & _ & _ & Hex & ->). destruct stopped as [|h stopped]; [by rewrite app_nil_r|].
  destruct (smooth_facts _ Hsm) as (_ & Hco & _). apply Forall_app in Hco as [_ Hco]. apply Forall_cons in Hco as [Hh _].
  apply Forall_cons in Hex as [Hex _]. destruct (Hex Hh) as [_ Hn]. rewrite map_app in Hcur.
  apply Forall_app in Hcur as [_ Hcur]. apply Forall_cons in Hcur as [(c & Hc & _) _]. cbn in Hc. congruence.
Qed.

Fixpoint rounds_trace (rounds : list (MainIo * list JournalEntry)) (it : Intake) : list (JournalEntry * Outcome) :=
  match rounds with
  | [] => []
  | (io, js) :: rounds' => round_trace io (arrive js it) ++ rounds_trace rounds' (main_round io (arrive js it)).1.2
  end.

(** Only a checkpoint changes whether the cursor is written, and only to false. *)
Lemma step_entry_enabled io ck j it go it' jobs :
  step_entry io ck j it = (go, it', jobs) → it_cursor_enabled it' = it_cursor_enabled it.
Proof.
  unfold step_entry, prepare_entry. destruct (extract_entry _ _ j) as [e b].
  destruct (recorder_assign_monotonic_tie_order _ e) as [t e1]. destruct (apply_entry_modifiers _ _ _ _) as [[r e2] js].
  assert (Hfin : ∀ it2, it_cursor_enabled it2 = it_cursor_enabled it →
    match note_cursor j it2 with Some it3 => (true, it3, js) | None => (false, it2, js) end = (go, it', jobs) →
    it_cursor_enabled it' = it_cursor_enabled it).
  { intros it2 H2. unfold note_cursor. destruct (_ || _); [|by intros [= _ <- _]].
    destruct (je_cursor j); cbn; by intros [= _ <- _]. }
  destruct r; [by intros [= _ <- _]| |by apply Hfin].
  destruct (recorder_submit_entry_with_recovery _ _ _ _) as [[]]; [by apply Hfin|by intros [= _ <- _]].
Qed.
Lemma loop_enabled ck n : ∀ ios p it p' it' jobs,
  recorder_step_loop n ios ck p it = (p', it', jobs) → it_cursor_enabled it' = it_cursor_enabled it.
Proof.
  induction n as [|n IH]; intros ios p it p' it' jobs H; cbn [recorder_step_loop] in H; [by injection H as _ <- _|].
  destruct (next_entry it) as [[j it0]|] eqn:Hn; [|by injection H as _ <- _].
  apply next_entry_some in Hn as [E _]. assert (E0 : it_cursor_enabled it0 = it_cursor_enabled it) by by rewrite E.
  destruct (step_entry (ios O) ck j it0) as [[go it1] js] eqn:Hs. apply step_entry_enabled in Hs. destruct go.
  - destruct (recorder_step_loop n _ ck _ it1) as [[p2 it2] js2] eqn:Hl. injection H as _ <- _. apply IH in Hl. congruence.
  - injection H as _ <- _. congruence.
Qed.
Lemma round_enabled io it ok it' jobs :
  main_round io it = (ok, it', jobs) → it_cursor_enabled it' = true → it_cursor_enabled it = true.
Proof.
  intros H He. unfold main_round in H. destruct (recorder_step _ _ _) as [[n it1] js] eqn:Hs. apply loop_enabled in Hs.
  change (it_cursor_enabled it1 = it_cursor_enabled it) in Hs. rewrite <-Hs.
  set (it2 := if it_startup_catchup it1 && (0 <? n) then _ else it1) in H.
  assert (H2 : it_cursor_enabled it2 = it_cursor_enabled it1) by (unfold it2; by destruct (_ && _)).
  rewrite <-H2. unfold flush_and_checkpoint in H. destruct (recorder_flush_all _ _ _) as [[[]|] r3].
  2:{ injection H as _ <- _. exact He. }
  assert (Hck : it_cursor_enabled (checkpoint_cursor (mi_cursor io) (with_recorder r3 it2)) = true).
  { injection H as _ <- _. by destruct (0 <? n). }
  unfold checkpoint_cursor, persist_journal_cursor in Hck. cbn [it_cursor_enabled with_recorder] in Hck. destruct (it_cursor_enabled it2) eqn:E; [done|]. cbn in Hck. by rewrite E in Hck.
Qed.
Lemma loop_rounds_enabled rounds : ∀ it ok it' jobs,
  main_loop rounds it = (ok, it', jobs) → it_cursor_enabled it' = true → it_cursor_enabled it = true.
Proof.
  induction rounds as [|[io js] rounds IH]; intros it ok it' jobs H He; cbn [main_loop] in H; [by injection H as _ <- _|].
  destruct (main_round io (arrive js it)) as [[ok1 it1] jobs1] eqn:Hr. apply round_enabled in Hr; [done|]. destruct ok1.
  - destruct (main_loop rounds it1) as [[ok2 it2] jobs2] eqn:Hl. injection H as _ <- _. by apply IH in Hl.
  - by injection H as _ <- _.
Qed.

(** What a run of the main loop is given. *)
Record rounds_given (d : option SegmentDecryptor) (rounds : list (MainIo * list JournalEntry)) (it : Intake)
    (gs : list GroupLog) : Prop := {
  rg_ok : intake_ok d it gs;
  rg_ties : 0 <= ti_order (it_ties it) <= UINT16_MAX;
  rg_fine : Forall (λ j, journal_fine j ∧ has_cursor j) (upcoming it ++ concat (map snd rounds));
  rg_io : Forall (λ r, clock_ok (mi_clock r.1) ∧ length (mi_flush r.1) = length (cfg_groups (r_config (it_recorder it)))) rounds;
}.
Record rounds_result (d : option SegmentDecryptor) (it : Intake) (arrived : list JournalEntry)
    (tr : list (JournalEntry * Outcome)) (gs : list GroupLog) (it' : Intake) (gs' : list GroupLog) : Prop := {
  rs_logs : log_grows (r_config (it_recorder it)) tr gs gs';
  rs_upcoming : upcoming it ++ arrived = map fst tr ++ upcoming it';
  rs_repr : Forall2 (group_repr d) (r_writers (it_recorder it')) gs';
  rs_disk : on_disk d (it_recorder it') gs';
  rs_pending : it_pending_cursor it' = last_cursor it tr;
  rs_cursor : ∀ c, it_pending_cursor it' = Some c → is_cstr c → c ≠ [] → read_journal_cursor (it_cursor_file it') = Some c;
}.

Lemma upcoming_arrive js it : upcoming (arrive js it) = upcoming it ++ js.
Proof. unfold upcoming, arrive. cbn. by rewrite app_assoc. Qed.
Lemma last_cursor_app it it1 tr1 tr2 :
  cursor_on it = true → cursor_on it1 = true → it_pending_cursor it1 = last_cursor it tr1 →
  last_cursor it1 tr2 = last_cursor it (tr1 ++ tr2).
Proof.
  intros Ho Ho1 Hp. unfold last_cursor. rewrite last_app, Ho1. destruct (last tr2); [by rewrite Ho|exact Hp].
Qed.
Lemma log_grows_app cfg hs1 hs2 gs gs1 gs2 :
  log_grows cfg hs1 gs gs1 → log_grows cfg hs2 gs1 gs2 → log_grows cfg (hs1 ++ hs2) gs gs2.
Proof.
  intros [L1 G1] [L2 G2]. split; [congruence|]. intros i g g2 Hg Hg2.
  destruct (lookup_lt_is_Some_2 gs1 i) as [g1 Hg1]; [apply lookup_lt_Some in Hg; lia|].
  destruct (G1 i g g1 Hg Hg1) as [P1 E1], (G2 i g1 g2 Hg1 Hg2) as [P2 E2]. split; [by etrans|].
  unfold stored_in. rewrite omap_app. fold (stored_in cfg i hs1) (stored_in cfg i hs2). by rewrite E2, E1, <-app_assoc.
Qed.

(** One round of a run. *)
Lemma round_given d io js rounds it gs it1 jobs1 :
  rounds_given d ((io, js) :: rounds) it gs → main_round io (arrive js it) = (true, it1, jobs1) →
  smooth (round_trace io (arrive js it)) → it_cursor_enabled it1 = true →
  ∃ gs1, rounds_given d rounds it1 gs1 ∧ rounds_result d it js (round_trace io (arrive js it)) gs it1 gs1 ∧
    r_config (it_recorder it1) = r_config (it_recorder it) ∧ cursor_on it = true ∧
    ∀ granted, round_granted granted io → keeps_logs granted ROUND_SEGMENTS (it_recorder it) gs (it_recorder it1) gs1.
Proof.
  intros [Hok Ht Hj Hio] Hr Hsm Hen. apply Forall_cons in Hio as [[Hck Hl] Hio].
  cbn [map concat snd] in Hj. rewrite app_assoc, <-upcoming_arrive in Hj. apply Forall_app in Hj as [Hj Hjr].
  assert (Hfine : Forall journal_fine (upcoming (arrive js it))) by (eapply Forall_impl; [exact Hj|]; by intros ? []).
  destruct (smooth_facts _ Hsm) as (Hfirst & _ & Hpass).
  assert (Hok0 : intake_ok d (arrive js it) gs) by by destruct Hok.
  assert (Hl0 : length (mi_flush io) = length (r_writers (it_recorder (arrive js it)))) by (rewrite (io_count _ _ _ Hok0); exact Hl).
  destruct (round_effect d io _ _ _ gs Hr Hok0 Ht Hfine Hck Hl0 Hfirst) as (gs1 & [Hok1 Ht1 Hc1 Hlog Hu (n & _ & Hsp) Hon Hd Hcur] & Hkeep).
  specialize (Hon Hen). assert (Hen0 := round_enabled _ _ _ _ _ Hr Hen).
  assert (Hcon : cursor_on it = true) by (unfold cursor_on; cbn in Hen0; by rewrite Hen0).
  change (cursor_on (arrive js it)) with (cursor_on it) in Hon. rewrite Hpass in Hu.
  assert (Hin : Forall has_cursor (map fst (round_trace io (arrive js it)))).
  { rewrite Hu in Hj. apply Forall_app in Hj as [Hj _]. eapply Forall_impl; [exact Hj|]. by intros ? []. }
  exists gs1. split; [|split; [|split; [exact Hc1|split; [exact Hcon|exact Hkeep]]]].
  - split; [exact Hok1|exact Ht1| |]. 2:{ eapply Forall_impl; [exact Hio|]. intros r. by rewrite Hc1. }
    apply Forall_app. split; [|exact Hjr]. rewrite Hu in Hj. by apply Forall_app in Hj as [_ ?].
  - split; [exact Hlog|by rewrite <-upcoming_arrive|apply Hok1|exact Hd| |by apply Hcur].
    by apply (smooth_split (arrive js it)) in Hsp.
Qed.

Lemma rounds_effect d rounds : ∀ it it' jobs gs,
  main_loop rounds it = (true, it', jobs) → rounds ≠ [] → rounds_given d rounds it gs →
  smooth (rounds_trace rounds it) → it_cursor_enabled it' = true →
  ∃ gs', rounds_result d it (concat (map snd rounds)) (rounds_trace rounds it) gs it' gs' ∧
    ∀ granted, Forall (λ r, round_granted granted r.1) rounds →
      keeps_logs granted (ROUND_SEGMENTS * zlen rounds) (it_recorder it) gs (it_recorder it') gs'.
Proof.
  induction rounds as [|[io js] rounds IH]; intros it it' jobs gs H Hne Hg Hsm Hen; [done|]. cbn [main_loop rounds_trace] in *.
  destruct (main_round io (arrive js it)) as [[[] it1] jobs1] eqn:Hr; [|done]. cbn [fst snd] in Hsm |- *.
  destruct (main_loop rounds it1) as [[ok it2] jobs2] eqn:Hl. injection H as -> -> _.
  apply Forall_app in Hsm as [Hs1 Hs2]. pose proof (loop_rounds_enabled _ _ _ _ _ Hl Hen) as Hen1.
  destruct (round_given _ _ _ _ _ _ _ _ Hg Hr Hs1 Hen1) as (gs1 & Hg1 & [Hlog1 Hu1 Hr1 Hd1 Hp1 Hc1] & Hcfg & Hon & Hkeep).
  assert (Hon1 : cursor_on it1 = true) by (unfold cursor_on; by rewrite Hen1).
  destruct rounds as [|r rounds'] eqn:Hrounds.
  - cbn in Hl. injection Hl as <- _. cbn [rounds_trace map concat]. rewrite !app_nil_r. exists gs1. split; [by split|].
    intros granted Hgr. apply Forall_cons in Hgr as [Hgr _]. by apply Hkeep.
  - rewrite <-Hrounds in *. destruct (IH it1 it' jobs2 gs1 Hl) as (gs2 & [Hlog2 Hu2 Hr2 Hd2 Hp2 Hc2] & Hkeep2); [by rewrite Hrounds|done..|].
    exists gs2. split; cycle 1.
    { intros granted Hgr. apply Forall_cons in Hgr as [Hgr Hgr2]. rewrite zlen_cons, Z.mul_add_distr_l, Z.mul_1_r.
      eapply keeps_logs_trans; [pose proof (zlen_nonneg rounds); unfold ROUND_SEGMENTS; lia|by apply Hkeep|by apply Hkeep2]. }
    split; [| |exact Hr2|exact Hd2| |exact Hc2].
    + apply log_grows_app with gs1; [exact Hlog1|]. by rewrite <-Hcfg.
    + cbn [map concat snd]. by rewrite app_assoc, Hu1, <-app_assoc, Hu2, map_app, <-app_assoc.
    + rewrite Hp2. by apply last_cursor_app.
Qed.

(** *** Restarting *)
Context `{SJ : SdJournal}.

(** A cursor that only one entry of the journal has is found, and recognised. *)
Class SdJournal_ok : Prop := {
  seek_found : ∀ journal k j cursor,
    journal !! k = Some j → je_cursor j = Some cursor →
    (∀ k' j', journal !! k' = Some j' → je_cursor j' = Some cursor → k' = k) →
    sd_journal_seek_cursor journal cursor = Some k;
  test_found : ∀ j cursor, je_cursor j = Some cursor → sd_journal_test_cursor (Some j) cursor = Some true;
}.
Context `{SJok : !SdJournal_ok}.

Definition distinct_cursors (journal : list JournalEntry) : Prop :=
  ∀ k k' j j' c, journal !! k = Some j → journal !! k' = Some j' → je_cursor j = Some c → je_cursor j' = Some c → k' = k.

Lemma start_position_found io journal k j cursor it :
  ru_next1 io = true → ru_next2 io = true → distinct_cursors journal →
  saved_cursor it = Some cursor → journal !! k = Some j → je_cursor j = Some cursor →
  ∃ it', start_position io false journal it = Some it' ∧ upcoming it' = drop (S k) journal ∧
    it_pending_cursor it' = Some cursor ∧ it_recorder it' = it_recorder it.
Proof.
  intros H1 H2 Hd Hs Hk Hc. unfold start_position. rewrite Hs. cbn [mbind option_bind]. unfold resume_at.
  rewrite (seek_found journal k j cursor Hk Hc) by (intros k' j' Hk' Hc'; exact (Hd _ _ _ _ _ Hk Hk' Hc Hc')).
  cbn [mbind option_bind]. unfold sd_journal_next. rewrite H1, H2, (drop_S _ _ _ Hk). cbn [negb mbind option_bind].
  rewrite (test_found _ _ Hc). cbn [mbind option_bind].
  destruct (drop (S k) journal) as [|j' rest]; cbn; eexists; split; [reflexivity|..|reflexivity|]; by split_and!.
Qed.

(** Good rounds leave a pending cursor, in the file too, from which every new
    process goes on exactly behind them. *)
Lemma rounds_resume d rounds it it' jobs gs past news :
  main_loop rounds it = (true, it', jobs) → rounds_given d rounds it gs → smooth (rounds_trace rounds it) →
  rounds_trace rounds it ≠ [] → it_cursor_enabled it' = true →
  let journal := past ++ upcoming it ++ concat (map snd rounds) ++ news in
  distinct_cursors journal →
  ∃ gs' c, log_grows (r_config (it_recorder it)) (rounds_trace rounds it) gs gs' ∧ on_disk d (it_recorder it') gs' ∧
    Forall2 (group_repr d) (r_writers (it_recorder it')) gs' ∧
    it_pending_cursor it' = Some c ∧ is_cstr c ∧ c ≠ [] ∧ read_journal_cursor (it_cursor_file it') = Some c ∧
    (∀ granted, Forall (λ r, round_granted granted r.1) rounds →
      keeps_logs granted (ROUND_SEGMENTS * zlen rounds) (it_recorder it) gs (it_recorder it') gs') ∧
    ∀ rio fresh, ru_next1 rio = true → ru_next2 rio = true → saved_cursor fresh = Some c →
      ∃ it2, start_position rio false journal fresh = Some it2 ∧ journal = past ++ map fst (rounds_trace rounds it) ++ upcoming it2.
Proof.
  intros H Hg Hsm Htr Hen journal Hd. assert (Hne : rounds ≠ []) by by intros ->.
  destruct (rounds_effect d rounds it it' jobs gs H Hne Hg Hsm Hen) as (gs' & [Hlog Hu Hrep Hdisk Hpend Hcur] & Hkeep).
  set (tr := rounds_trace rounds it) in *. assert (Hj : journal = (past ++ map fst tr) ++ upcoming it' ++ news).
  { unfold journal. rewrite (app_assoc (upcoming it)), Hu, <-!app_assoc. done. }
  destruct (last tr) as [h|] eqn:Hlast; [|by apply last_None in Hlast].
  assert (Hcon : cursor_on it = true) by (unfold cursor_on; by rewrite (loop_rounds_enabled _ _ _ _ _ H Hen)).
  assert (Hh : has_cursor h.1).
  { pose proof (rg_fine _ _ _ _ Hg) as Hf. rewrite Hu in Hf. apply Forall_app in Hf as [Hf _]. rewrite Forall_map, Forall_forall in Hf.
    destruct (Hf h) as [_ ?]; [|done]. rewrite last_lookup in Hlast. by eapply list_elem_of_lookup_2. }
  destruct Hh as (c & Hc & Hcs & Hcne). assert (Hpc : it_pending_cursor it' = Some c).
  { rewrite Hpend. unfold last_cursor. by rewrite Hlast, Hcon. }
  set (seen := past ++ map fst tr) in *. assert (Hls : last seen = Some h.1).
  { unfold seen. rewrite last_app, fmap_last, Hlast. done. }
  assert (Hlen : length seen ≠ O) by (destruct seen; done). rewrite last_lookup in Hls.
  assert (Hk : journal !! pred (length seen) = Some h.1) by (rewrite Hj; by apply lookup_app_l_Some).
  exists gs', c. split_and!; try done; [by apply Hcur|]. intros rio fresh Hn1 Hn2 Hsc.
  destruct (start_position_found rio journal _ h.1 c fresh Hn1 Hn2 Hd Hsc Hk Hc) as (it2 & Hst & Hup & _).
  exists it2. split; [done|]. rewrite Hup.
  replace (S (pred (length seen))) with (length seen) by lia. rewrite Hj at 2. rewrite drop_app_length, app_assoc. exact Hj.
Qed.

(** C2: nothing is lost or doubled by a crash.  After any number of rounds of the
    main loop in which every entry was dropped or stored at the first attempt,
    let the program be killed, more entries arrive, and a new process start with
    the cursor file that is on disk.  Then the logs have grown by exactly what the
    modifiers kept of the entries passed, and they are in the store: the file of
    every closed segment holds a header, frames with its entries and a footer,
    unless the system let it be unlinked, and the files of the open segments scan
    to the open parts of the logs.  What the new process is given is exactly the
    rest of the journal: each entry is in a log (or was dropped) or still to come,
    and none is both. *)
Theorem crash_restart granted d rounds it it' jobs gs past news rio fresh :
  main_loop rounds it = (true, it', jobs) → rounds_given d rounds it gs → smooth (rounds_trace rounds it) →
  rounds_trace rounds it ≠ [] → it_cursor_enabled it' = true →
  let journal := past ++ upcoming it ++ concat (map snd rounds) ++ news in
  distinct_cursors journal → ru_next1 rio = true → ru_next2 rio = true →
  it_cursor_enabled fresh = true → it_cursor_file fresh = it_cursor_file it' →
  Forall (λ r, round_granted granted r.1) rounds →
  r_next_segment_seq (it_recorder it) + ROUND_SEGMENTS * zlen rounds <= UINT64_MAX →
  logs_stored granted (it_recorder it) gs →
  ∃ gs' it2, log_grows (r_config (it_recorder it)) (rounds_trace rounds it) gs gs' ∧
    logs_stored granted (it_recorder it') gs' ∧ on_disk d (it_recorder it') gs' ∧
    Forall2 (group_repr d) (r_writers (it_recorder it')) gs' ∧
    start_position rio false journal fresh = Some it2 ∧
    journal = past ++ map fst (rounds_trace rounds it) ++ upcoming it2.
Proof.
  intros H Hg Hsm Htr Hen journal Hd Hn1 Hn2 Hfe Hff Hgr Hb Hlogs.
  destruct (rounds_resume d rounds it it' jobs gs past news H Hg Hsm Htr Hen Hd)
    as (gs' & c & Hlog & Hdisk & Hrep & _ & _ & _ & Hread & Hkeep & Hgo).
  destruct (Hgo rio fresh Hn1 Hn2) as (it2 & Hst & Hj); [by unfold saved_cursor; rewrite Hfe, Hff, Hread|].
  exists gs', it2. destruct (Hkeep granted Hgr Hb Hlogs) as [Hl _]. by split_and!.
Qed.

(** What a shutdown without a failure leaves in the cursor files. *)
Lemma finish_cursors fin ck it c :
  (recorder_shutdown (fn_shutdown fin) ck (it_recorder it)).1 = true → it_persistent_cursor_enabled it = true →
  it_pending_cursor it = Some c → is_cstr c → c ≠ [] →
  (write_journal_cursor (fn_persistent fin) c (it_persistent_file it)).1 = Ok tt →
  read_journal_cursor (it_persistent_file (finish fin ck it)) = Some c ∧
  (it_runtime_cursor_is_volatile it = true → fn_unlink fin = true → it_cursor_file (finish fin ck it) = None).
Proof.
  intros Hs Hpe Hc Hcs Hne Hw. unfold finish. destruct (recorder_shutdown _ _ _) as [ok r]. cbn in Hs. subst ok.
  change (it_pending_cursor (with_recorder r it)) with (it_pending_cursor it). rewrite Hc.
  set (it2 := checkpoint_cursor (fn_cursor fin) (with_recorder r it)).
  assert (Hsame : it_persistent_cursor_enabled it2 = true ∧ it_persistent_file it2 = it_persistent_file it ∧
    it_runtime_cursor_is_volatile it2 = it_runtime_cursor_is_volatile it).
  { unfold it2, checkpoint_cursor, persist_journal_cursor. repeat case_match; by simplify_eq. }
  destruct Hsame as (-> & -> & ->). destruct (write_journal_cursor _ _ _) as [res file] eqn:Hwr. cbn in Hw. subst res.
  destruct (write_cursor_ok _ _ _ _ Hwr) as (Hl & ? & ? & ? & ?).
  destruct (write_cursor_file _ _ _ _ _ Hwr) as [rest ->]; [done..|]. cbn. split; [by apply read_cursor_back|].
  by intros -> ->.
Qed.

(** C3: nothing is lost or doubled over a shutdown and a reboot.  After any number
    of rounds in which every entry was dropped or stored at the first attempt, let
    the recorder shut down without a failure: the cursor in the log directory is
    that of the last entry, and the volatile cursor file is removed.  A process
    that starts later without that file, with more entries in the journal, is
    given exactly the entries that no earlier round passed. *)
Theorem reboot_resumes d rounds it it' jobs gs past news fin ck rio fresh :
  main_loop rounds it = (true, it', jobs) → rounds_given d rounds it gs → smooth (rounds_trace rounds it) →
  rounds_trace rounds it ≠ [] → it_cursor_enabled it' = true → it_persistent_cursor_enabled it' = true →
  (recorder_shutdown (fn_shutdown fin) ck (it_recorder it')).1 = true →
  (∀ c, it_pending_cursor it' = Some c → (write_journal_cursor (fn_persistent fin) c (it_persistent_file it')).1 = Ok tt) →
  let journal := past ++ upcoming it ++ concat (map snd rounds) ++ news in
  distinct_cursors journal → ru_next1 rio = true → ru_next2 rio = true →
  it_cursor_enabled fresh = false ∨ it_cursor_file fresh = None → it_persistent_cursor_enabled fresh = true →
  it_persistent_file fresh = it_persistent_file (finish fin ck it') →
  (it_runtime_cursor_is_volatile it' = true → fn_unlink fin = true → it_cursor_file (finish fin ck it') = None) ∧
  ∃ gs' it2, log_grows (r_config (it_recorder it)) (rounds_trace rounds it) gs gs' ∧
    start_position rio false journal fresh = Some it2 ∧ journal = past ++ map fst (rounds_trace rounds it) ++ upcoming it2.
Proof.
  intros H Hg Hsm Htr Hen Hpe Hs Hw journal Hd Hn1 Hn2 Hvol Hfpe Hff.
  destruct (rounds_resume d rounds it it' jobs gs past news H Hg Hsm Htr Hen Hd) as (gs' & c & Hlog & _ & _ & Hc & Hcs & Hne & _ & _ & Hgo).
  destruct (finish_cursors fin ck it' c Hs Hpe Hc Hcs Hne (Hw c Hc)) as [Hread Hun]. split; [done|].
  destruct (Hgo rio fresh Hn1 Hn2) as (it2 & Hst & Hj); [|by exists gs', it2].
  unfold saved_cursor. rewrite Hfpe, Hff, Hread. destruct Hvol as [-> | ->]; [done|]. by destruct (it_cursor_enabled fresh).
Qed.
End rounds.
