(* ===== verification/RecorderDemo.v ===== *)
(** * A recorder at work

    A concrete run on an empty store: entries of two boots, a failing flush, a
    shutdown.  It shows that the hypotheses of the recorder's properties hold
    together, and what happens to entries when a flush fails. *)
From S2P Require Import Prelude Bytes Crypto Segment SegmentImage SegmentScan SegmentWrite Models SegmentSpec.
From S2P Require Import SegmentSafety Chunk ChunkModel Index IndexProofs CText Entry Store StoreProofs.
From S2P Require Import Json Boots Config ConfigProofs Retention RetentionProofs.
From S2P Require Import Writer WriterProofs Recorder RecorderProofs RecorderInv RecorderLogs.

#[local] Existing Instance toy_openssl.
#[local] Existing Instance toy_openssl_ok.
#[local] Existing Instance toy_lib.
#[local] Existing Instance toy_flatcc.
#[local] Existing Instance toy_flatcc_ok.
#[local] Existing Instance toy_regex.
#[local] Existing Instance toy_jansson.

(** A compressor that never makes anything smaller. *)
#[local] Instance toy_writer : WriterLib := {
  writer_flatcc := toy_flatcc;
  ZSTD_compress raw := Some raw;
  ZSTD_compress_usingDict raw _ := Some raw;
}.
#[local] Instance toy_writer_ok : WriterLib_ok toy_writer.
Proof. split; intros; cbn in *; congruence. Qed.

(** ** System answers *)
Definition good_fs : FsEnv := mkFsEnv (λ _ name, negb (has_suffix 0 (C ".seg") name)) (λ _ _, true) 100000 77.
(** No segment may be removed. *)
Definition spared (dir name : bytes) : Prop := fs_unlink_ok good_fs dir name = true.
Lemma good_grants : grants spared good_fs.
Proof. by intros dir name. Qed.
Lemma spared_there dir s data st :
  stored spared dir (segment_name s) data st → ∃ t, still_there st dir (mkDirFile (segment_name s) data t).
Proof.
  intros [Ht|[Hgr _]]; [exact Ht|]. exfalso. unfold spared, good_fs, has_suffix, segment_name in Hgr. cbn [fs_unlink_ok] in Hgr.
  rewrite zlen_app, zdrop_app_eq, beq_refl, andb_true_r in Hgr by lia.
  apply negb_true_iff, Z.leb_gt in Hgr. pose proof (zlen_nonneg (print_u64 s)). pose proof (zlen_nonneg (C ".seg")). lia.
Qed.
Definition good_flush : FlushIo := mkFlushIo (Ok tt) (Ok tt).
Definition good_close : CloseEnv := mkCloseEnv (mkCloseIo good_flush (Ok tt)) good_fs good_write.
Definition open_with (room : Z) : OpenIo :=
  mkOpenIo good_fs (Ok tt) good_write (Ok (room, ENOSPC)) (λ _, Err ENOENT) (Some (100000, ENOSPC)) (Ok tt) (Ok tt) (Ok tt).
Definition good_submit : SubmitIo := mkSubmitIo good_close (open_with 100000) good_flush good_close.
Definition good_start : StartIo := mkStartIo (Ok tt) good_fs good_write good_write good_write.
Definition demo_clock : Clock := mkClock 50 (C "+0100") 1234.

(** ** Entries *)
Definition demo_entry (rt : Z) (boot : string) (msg : string) : LogEntry :=
  mkLogEntry rt (rt - 900) 0 17 0 0 1 3 0 (C boot) (Some (C msg)) None None (Some (C "ssh.service")) None None [].
Definition demo_e1 : LogEntry := demo_entry 5000 "0123456789abcdef0123456789abcdef" "first".
Definition demo_e2 : LogEntry := demo_entry 4700 "0123456789abcdef0123456789abcdef" "second".
Definition demo_e3 : LogEntry := demo_entry 6000 "fedcba9876543210fedcba9876543210" "next boot".

Lemma demo_entry_wf rt boot msg :
  is_u64 rt → is_u64 (rt - 900) → is_cstr (C boot) → zlen (C boot) <= 32 → Forall (λ x, 0 < x < 256) (C msg) →
  entry_wf (demo_entry rt boot msg).
Proof.
  intros. split; cbn; try done; unfold is_u32, is_u16, is_u8; try lia.
  apply (bool_decide_unpack _). vm_compute. exact I.
Qed.
Ltac demo_wf :=
  apply demo_entry_wf; try (apply (bool_decide_unpack _); vm_compute; exact I); unfold is_u64; vm_compute; split; congruence.

Lemma demo_e1_wf : entry_wf demo_e1.
Proof. demo_wf. Qed.
Lemma demo_e2_wf : entry_wf demo_e2.
Proof. demo_wf. Qed.
Lemma demo_e3_wf : entry_wf demo_e3.
Proof. demo_wf. Qed.

Definition demo_start : Recorder :=
  match recorder_init good_start recorder_config_init (mkStore [] []) with
  | Ok r => r
  | Err _ => mkRecorder recorder_config_init [] 0 [] 0 0 None (mkStore [] []) O
  end.
Definition demo_submit (e : LogEntry) (r : Recorder) : Recorder := (recorder_submit_entry good_submit demo_clock e r).2.
Definition demo_r2 : Recorder := demo_submit demo_e2 (demo_submit demo_e1 demo_start).
Definition demo_r3 : Recorder := demo_submit demo_e3 demo_r2.

Lemma demo_run_ok :
  (recorder_submit_entry good_submit demo_clock demo_e1 demo_start).1 = Ok tt ∧
  (recorder_submit_entry good_submit demo_clock demo_e2 (demo_submit demo_e1 demo_start)).1 = Ok tt ∧
  (recorder_submit_entry good_submit demo_clock demo_e3 demo_r2).1 = Ok tt.
Proof. vm_compute. done. Qed.

(** ** The properties on this run *)
Lemma demo_config_ok : config_ok recorder_config_init None.
Proof. split; [done|]. by intros enc [= <-]. Qed.

Lemma demo_submit_ok r e :
  r_config r = recorder_config_init → bool_decide (0 <= r_next_segment_seq r < 1000) = true → entry_wf e →
  submit_ok demo_clock r None e.
Proof.
  intros Hc Hn%bool_decide_eq_true He. split; rewrite ?Hc; try done.
  - apply demo_config_ok.
  - split; [|by vm_compute]. apply (bool_decide_unpack _). vm_compute. exact I.
  - unfold is_u64. lia.
Qed.

Definition writer3 (r : Recorder) : PriorityWriter := default (writer_init [] 0) (r_writers r !! 3%nat).
Definition empty_log : GroupLog := mkGroupLog [] None.

Lemma demo_idle : group_repr None (writer3 demo_start) empty_log.
Proof. split; [constructor|]. vm_compute. done. Qed.

(** One step of the run, in the form the properties take. *)
Lemma demo_step e r :
  (recorder_submit_entry good_submit demo_clock e r).1 = Ok tt →
  recorder_submit_entry good_submit demo_clock e r = (Ok tt, demo_submit e r).
Proof. intros <-. unfold demo_submit. by destruct (recorder_submit_entry _ _ _ _). Qed.

Definition demo_logs : list GroupLog := replicate 8 empty_log.
Lemma demo_logs_at g : <[3%nat := g]> demo_logs !! 3%nat = Some g.
Proof. apply list_lookup_insert_eq. vm_compute. lia. Qed.
Lemma demo_logs_stored : logs_stored spared demo_start demo_logs.
Proof.
  apply empty_logs; [|by repeat constructor].
  apply (init_inv good_start recorder_config_init (mkStore [] []) demo_start); [reflexivity|split; constructor|vm_compute; reflexivity].
Qed.

Lemma demo_log1 : ∃ w g, r_writers (demo_submit demo_e1 demo_start) = <[3%nat := w]> (r_writers demo_start) ∧
  group_repr None w g ∧ log_entries g = [demo_e1] ∧ logs_stored spared (demo_submit demo_e1 demo_start) (<[3%nat := g]> demo_logs).
Proof.
  destruct demo_run_ok as (H1 & _ & _).
  destruct (submit_repr good_submit demo_clock demo_e1 demo_start _ 3 (writer3 demo_start) None empty_log
    (demo_step _ _ H1) eq_refl eq_refl demo_idle (demo_submit_ok demo_start demo_e1 eq_refl eq_refl demo_e1_wf))
    as (w1 & g1 & Hw1 & Hg1 & _ & E1 & Hl1). exists w1, g1. split_and!; try done.
  apply Hl1; [reflexivity|vm_compute; reflexivity|apply good_grants|apply good_grants|apply demo_logs_stored].
Qed.

Lemma demo_log2 : ∃ w g, r_writers demo_r2 = <[3%nat := w]> (r_writers demo_start) ∧
  group_repr None w g ∧ log_entries g = [demo_e1; demo_e2] ∧ logs_stored spared demo_r2 (<[3%nat := g]> demo_logs).
Proof.
  destruct demo_run_ok as (_ & H2 & _). destruct demo_log1 as (w1 & g1 & Hw1 & Hg1 & E1 & Hl1).
  assert (L1 : r_writers (demo_submit demo_e1 demo_start) !! 3%nat = Some w1) by (rewrite Hw1; reflexivity).
  destruct (submit_repr good_submit demo_clock demo_e2 (demo_submit demo_e1 demo_start) _ 3 w1 None g1
    (demo_step _ _ H2) eq_refl L1 Hg1 (demo_submit_ok (demo_submit demo_e1 demo_start) demo_e2 eq_refl eq_refl demo_e2_wf))
    as (w2 & g2 & Hw2 & Hg2 & _ & E2 & Hl2). exists w2, g2. split_and!; [|done|by rewrite E2, E1|].
  - unfold demo_r2. by rewrite Hw2, Hw1, list_insert_insert_eq.
  - rewrite <-(list_insert_insert_eq demo_logs 3 g2 g1).
    apply Hl2; [reflexivity|vm_compute; reflexivity|apply good_grants|apply good_grants|exact Hl1].
Qed.

(** A writer's counter gives the number of its entries. *)
Lemma open_count w es : writer_holds w es → es ≠ [] → zlen es < 1000 → wt_entry_count (pw_stats w) = zlen es.
Proof.
  intros Hw Hne Hl. pose proof (fs_count _ _ _ (closing_summarises _ _ 7 Hw Hne)) as Hc. cbn in Hc. rewrite Hc.
  apply u64_id. unfold is_u64. pose proof (zlen_nonneg es). lia.
Qed.

Lemma all_open w g es :
  group_repr None w g → log_entries g = es → pw_open w = true → wt_entry_count (pw_stats w) = zlen es → zlen es < 1000 →
  gl_open g = Some es ∧ writer_holds w es.
Proof.
  intros [_ Hop] <- Ho Hc Hl. unfold log_entries in *. destruct (gl_open g) as [es'|]; [|destruct Hop as [? _]; congruence].
  destruct Hop as [Hne [Hh _]]. change (default [] (Some es')) with es' in *. set (before := concat _) in *. rewrite zlen_app in Hc, Hl.
  pose proof (zlen_nonneg before). rewrite (open_count _ _ Hh Hne) in Hc by lia.
  assert (Hnil : before = []) by (destruct before as [|x l]; [done|]; rewrite zlen_cons in Hc; pose proof (zlen_nonneg l); lia).
  rewrite Hnil. by split.
Qed.
Lemma demo_open w g : r_writers demo_r2 !! 3%nat = Some w → group_repr None w g → log_entries g = [demo_e1; demo_e2] →
  gl_open g = Some [demo_e1; demo_e2] ∧ writer_holds w [demo_e1; demo_e2].
Proof.
  intros Hw Hg E. assert (Hw' : writer3 demo_r2 = w) by (unfold writer3; by rewrite Hw).
  apply all_open; [exact Hg|exact E|rewrite <-Hw'; vm_compute; reflexivity|rewrite <-Hw'; vm_compute; reflexivity|reflexivity].
Qed.

(** Two entries of one boot, then one of another: the log has all three, and the
    segment of the first boot is in the store. *)
Lemma submit_refines_witness :
  ∃ w g, r_writers demo_r3 = <[3%nat := w]> (r_writers demo_r2) ∧ group_repr None w g ∧
    log_entries g = [demo_e1; demo_e2; demo_e3] ∧ gl_closed g ≠ [] ∧
    Forall (λ c, ∃ t, still_there (r_store demo_r3) (pw_group_name w) (mkDirFile (segment_name (cs_seq c)) (cs_data c) t)) (gl_closed g).
Proof.
  destruct demo_run_ok as (_ & _ & H3). destruct demo_log2 as (w2 & g2 & Hw2 & Hg2 & E2 & Hl2).
  assert (L2 : r_writers demo_r2 !! 3%nat = Some w2) by (rewrite Hw2; reflexivity).
  destruct (submit_refines spared good_submit demo_clock demo_e3 demo_r2 _ 3 w2 None g2 (<[3%nat := g2]> demo_logs)
    (demo_step _ _ H3) eq_refl L2 Hg2 (demo_submit_ok demo_r2 demo_e3 eq_refl eq_refl demo_e3_wf)
    (demo_logs_at g2) ltac:(vm_compute; reflexivity) good_grants good_grants Hl2)
    as (w3 & g3 & Hw3 & Hg3 & _ & E3 & Hl3). rewrite E2 in E3.
  exists w3, g3. split; [exact Hw3|]. split; [exact Hg3|]. split; [exact E3|].
  assert (Hw3' : writer3 demo_r3 = w3).
  { unfold writer3, demo_r3. rewrite Hw3, list_lookup_insert_eq; [reflexivity|]. by eapply lookup_lt_Some. }
  split.
  - intros Hnil. unfold log_entries in E3. rewrite Hnil in E3. cbn in E3. pose proof (gr_open _ _ _ Hg3) as Hop.
    destruct (gl_open g3) as [es|]; [|discriminate E3]. cbn in E3. subst es. destruct Hop as [Hne [Hh _]].
    pose proof (open_count _ _ Hh Hne ltac:(reflexivity)) as Hc. rewrite <-Hw3' in Hc.
    assert (H1 : wt_entry_count (pw_stats (writer3 demo_r3)) = 1) by (vm_compute; reflexivity). rewrite H1 in Hc. discriminate Hc.
  - assert (L3 : r_writers (demo_submit demo_e3 demo_r2) !! 3%nat = Some w3) by (rewrite Hw3; apply list_lookup_insert_eq; by eapply lookup_lt_Some).
    unfold demo_r3.
    assert (Hg3' : <[3%nat := g3]> (<[3%nat := g2]> demo_logs) !! 3%nat = Some g3) by (rewrite list_insert_insert_eq; apply demo_logs_at).
    pose proof (lo_closed _ _ _ Hl3 3%nat w3 g3 L3 Hg3') as Hcl. eapply Forall_impl; [exact Hcl|].
    intros c [_ _ Hc]. by apply spared_there.
Defined.

(** The entry of the new boot is given a segment of its boot. *)
Lemma ensured_segment_fits_witness :
  ∃ w closed es, segment_fits demo_clock (recorder_ensure_writer good_submit demo_clock demo_e3 demo_r2).2 w demo_e3 ∧
    concat (map cs_entries closed) ++ es = [demo_e1; demo_e2].
Proof.
  destruct demo_log2 as (w2 & g2 & Hw2 & Hg2 & E2 & Hl2).
  assert (L2 : r_writers demo_r2 !! 3%nat = Some w2) by (rewrite Hw2; reflexivity).
  assert (Hok : recorder_ensure_writer good_submit demo_clock demo_e3 demo_r2 =
    (Ok tt, (recorder_ensure_writer good_submit demo_clock demo_e3 demo_r2).2)).
  { apply ok_pair. vm_compute. reflexivity. }
  destruct (ensured_segment_fits good_submit demo_clock demo_e3 demo_r2 _ 3 w2 None g2 Hok eq_refl L2 Hg2
    (demo_submit_ok demo_r2 demo_e3 eq_refl eq_refl demo_e3_wf)) as (w & closed & es & _ & Hfit & _ & _ & _ & E).
  exists w, closed, es. split; [exact Hfit|]. by rewrite E, E2.
Defined.

(** ** Shutting down *)
Definition demo_down : ShutdownIo :=
  mkShutdownIo (replicate 8 (good_flush, Ok tt)) (replicate 8 (mkCloseIo good_flush (Ok tt))) good_fs good_write good_write good_write.

Lemma demo_all_idle : Forall2 (group_repr None) (r_writers demo_start) (replicate 8 empty_log).
Proof. by repeat constructor. Qed.

Lemma shutdown_closes_all_witness :
  ∃ w c t, r_writers (recorder_shutdown demo_down demo_clock demo_r2).2 !! 3%nat = Some w ∧
    cs_entries c = [demo_e1; demo_e2] ∧ cs_reason c = 7 ∧ closed_ok None c ∧ cs_seq c = 1 ∧
    still_there (r_store (recorder_shutdown demo_down demo_clock demo_r2).2) (pw_group_name w)
      (mkDirFile (segment_name 1) (cs_data c) t).
Proof.
  destruct demo_log2 as (w2 & g2 & Hw2 & Hg2 & E2 & Hl2).
  assert (Hgs : Forall2 (group_repr None) (r_writers demo_r2) (<[3%nat := g2]> (replicate 8 empty_log))).
  { rewrite Hw2. apply Forall2_insert; [apply demo_all_idle|exact Hg2]. }
  assert (Hok : recorder_shutdown demo_down demo_clock demo_r2 =
    (true, (recorder_shutdown demo_down demo_clock demo_r2).2)).
  { destruct (recorder_shutdown demo_down demo_clock demo_r2) as [b r] eqn:E. f_equal.
    transitivity (recorder_shutdown demo_down demo_clock demo_r2).1; [by rewrite E|vm_compute; reflexivity]. }
  destruct (shutdown_closes_all spared demo_down demo_clock demo_r2 _ None _ Hok eq_refl Hgs good_grants Hl2) as (gs' & Hr & Hcl & Hst).
  assert (L2 : r_writers demo_r2 !! 3%nat = Some w2) by (rewrite Hw2; reflexivity).
  destruct (Forall3_lookup_l _ _ _ _ 3%nat w2 Hcl L2) as (g2' & g & Hg2' & Hg & Hopen & Hlast).
  rewrite demo_logs_at in Hg2'. injection Hg2' as <-.
  destruct (Forall2_lookup_r _ _ _ 3%nat g Hr Hg) as (w & Hw & Hrep).
  pose proof (lo_closed _ _ _ Hst 3%nat w g Hw Hg) as Hall. pose proof (gr_closed _ _ _ Hrep) as Hcok.
  assert (Hw2' : writer3 demo_r2 = w2) by (unfold writer3; by rewrite L2).
  destruct (demo_open w2 g2 L2 Hg2 E2) as [Hes _].
  rewrite Hes in Hlast. destruct Hlast as (c & Hgc & Hce & Hcr & Hcs). rewrite Hgc in Hall, Hcok.
  apply Forall_app in Hall as [_ Hall], Hcok as [_ Hcok]. apply Forall_cons in Hall as [[_ _ Hstored] _], Hcok as [Hcok _].
  assert (Hseq : cs_seq c = 1) by (rewrite Hcs, <-Hw2'; vm_compute; reflexivity). rewrite Hseq in Hstored.
  destruct (spared_there _ _ _ _ Hstored) as [t Ht]. exists w, c, t. split_and!; assumption.
Defined.

(** The store after the shutdown: one closed segment with its index. *)
Example demo_down_store :
  map (λ d, (ld_name d, map df_name (ld_files d))) (st_dirs (r_store (recorder_shutdown demo_down demo_clock demo_r2).2)) =
    [(C "p3", [C "1.idx"; C "1.seg"])].
Proof. vm_compute. reflexivity. Qed.

(** A reader of that segment gets both entries. *)
Abbreviation demo_closed := (writer_close_segment (mkCloseIo good_flush (Ok tt)) 50 7 (writer3 demo_r2)).

Definition no_footer_inside_b (data : bytes) : bool :=
  forallb (λ o, match footer_at (zdrop (Z.of_nat o) data) (zlen data - Z.of_nat o) with None => true | Some _ => false end)
    (seq 0 (Z.to_nat (zlen data - 48))).
Lemma no_footer_inside_check data : no_footer_inside_b data = true → no_footer_inside data.
Proof.
  unfold no_footer_inside_b, no_footer_inside. rewrite forallb_forall. intros H o Ho Hlt.
  specialize (H (Z.to_nat o)). rewrite Z2Nat.id in H by done. destruct (footer_at _ _); [|done].
  discriminate H. apply in_seq. lia.
Qed.

Lemma demo_holds : writer_holds (writer3 demo_r2) [demo_e1; demo_e2].
Proof.
  destruct demo_log2 as (w2 & g2 & Hw2 & Hg2 & E2 & Hl2).
  assert (L2 : r_writers demo_r2 !! 3%nat = Some w2) by (rewrite Hw2; reflexivity).
  assert (Hw : writer3 demo_r2 = w2) by (unfold writer3; by rewrite L2). rewrite Hw. by destruct (demo_open w2 g2 L2 Hg2 E2).
Qed.

Lemma closed_segment_complete_witness :
  ∃ stored ft h, segment_scan_buffer (f_data (wf_fp (pw_file demo_closed.2)))
      (zlen (f_data (wf_fp (pw_file demo_closed.2)))) None (Some collect_entries) [] =
    ScanDone h ft (zlen (f_data (wf_fp (pw_file demo_closed.2)))) stored ∧
    mapM (stored_of true) [demo_e1; demo_e2] = Some stored ∧
    sf_entry_count ft = 2 ∧ sf_last_realtime_ts ft = 5000 ∧
    has_flag (sf_footer_flags ft) SEGMENT_FOOTER_FLAG_REALTIME_NONMONOTONIC = true.
Proof.
  assert (Hr : demo_closed.1 = Ok tt) by (vm_compute; reflexivity).
  assert (Hmax : zlen (f_data (wf_fp (pw_file demo_closed.2))) <= UINT32_MAX) by (vm_compute; congruence).
  assert (Hno : no_footer_inside (f_data (wf_fp (pw_file demo_closed.2))))
    by (apply no_footer_inside_check; vm_compute; reflexivity).
  assert (Hd : opens (wf_encryptor (pw_file (writer3 demo_r2))) None) by (vm_compute; exact I).
  assert (Hmode : ws_use_compact_entries (pw_segment (writer3 demo_r2)) = true) by (vm_compute; reflexivity).
  destruct demo_closed as [r w'] eqn:E. cbn [fst snd] in *. subst r.
  assert (Hne : [demo_e1; demo_e2] ≠ []) by discriminate. assert (Hrs : is_u32 7) by (unfold is_u32; lia).
  pose proof demo_holds as Hw. generalize dependent (writer3 demo_r2). intros w E Hd Hmode Hw.
  destruct (closed_segment_complete _ _ _ _ _ _ _ Hw Hne Hrs E Hd Hmax Hno)
    as (stored & ft & Hm & Hsum & Hscan). rewrite Hmode in Hm.
  eexists stored, ft, _. split; [exact Hscan|]. split; [exact Hm|]. destruct Hsum as [_ Hcnt Hup (e & He & Hme) _ Hord].
  split; [rewrite Hcnt; reflexivity|]. split.
  - apply Forall_cons in Hup as [Hup _]. cbn in Hup. apply list_elem_of_In in He as [<-|[<-|[]]]; cbn in Hme; lia.
  - destruct (has_flag _ _) eqn:Hf; [done|]. exfalso. pose proof (proj1 Hord eq_refl) as Hf2. clear Hf. rename Hf2 into Hf. apply Sorted_inv in Hf as [_ Hf]. apply HdRel_inv in Hf. cbn in Hf. lia.
Defined.

(** ** Failures *)
Definition failing_flush : FlushIo := mkFlushIo (Err ENOSPC) (Ok tt).

(** The builder is empty although the write failed; both entries stay counted. *)
Lemma failed_flush_at_work :
  ∃ w', writer_flush_chunk failing_flush 50 (writer3 demo_r2) = (Err ENOSPC, w') ∧
    pw_compact_entries w' = [] ∧ wt_entry_count (pw_stats w') = 2.
Proof.
  destruct (writer_flush_chunk failing_flush 50 (writer3 demo_r2)) as [r w'] eqn:H.
  assert (Hr : r = Err ENOSPC).
  { transitivity (writer_flush_chunk failing_flush 50 (writer3 demo_r2)).1; [by rewrite H|vm_compute; reflexivity]. }
  subst r. destruct (failed_flush_empties _ _ _ _ _ H) as (_ & _ & Hc & _ & Hs).
  exists w'. split; [reflexivity|]. split; [exact Hc|]. rewrite Hs. vm_compute. reflexivity.
Defined.

Lemma writer_only_appends_witness :
  0 <= f_budget (wf_fp (pw_file (writer3 demo_r2))) ∧
  f_data (wf_fp (pw_file (writer3 demo_r2))) `prefix_of`
    f_data (wf_fp (pw_file (writer_flush_chunk failing_flush 50 (writer3 demo_r2)).2)).
Proof.
  assert (Hb : 0 <= f_budget (wf_fp (pw_file (writer3 demo_r2)))) by (vm_compute; congruence).
  split; [exact Hb|]. destruct (writer_only_appends (writer3 demo_r2) 50 Hb) as (_ & H & _).
  eapply (H failing_flush _ _). apply surjective_pairing.
Defined.

(** A run whose flushes fail: the invariant holds all the same. *)
Definition bad_recovery : RecoveryIo :=
  mkRecoveryIo (λ _, Some 0) good_fs good_write (mkSubmitIo good_close (open_with 160) failing_flush good_close) EUNSET good_submit.
Definition isSome {A} (o : option A) : bool := match o with Some _ => true | None => false end.
Definition demo_run_state : Recorder :=
  (recorder_flush_all (replicate 8 (failing_flush, Ok tt)) demo_clock
     (recorder_submit_entry_with_recovery bad_recovery demo_clock demo_e1 demo_start).2).2.

Lemma recorder_run_inv_witness :
  published (writer3 demo_run_state) (r_store demo_run_state) ∧ buffers_ok (writer3 demo_run_state) ∧
  pw_open (writer3 demo_run_state) = true.
Proof.
  assert (Hrun : recorder_run recorder_config_init demo_run_state).
  { eapply run_flush; [|apply surjective_pairing]. eapply run_submit; [| |apply surjective_pairing].
    - apply (run_init _ good_start (mkStore [] []) demo_start); [reflexivity| |vm_compute; reflexivity].
      split; constructor.
    - vm_compute. reflexivity. }
  destruct (recorder_run_inv _ _ Hrun) as (_ & Hopen & Hbuf).
  assert (Ho : pw_open (writer3 demo_run_state) = true) by (vm_compute; reflexivity).
  assert (Hl : r_writers demo_run_state !! 3%nat = Some (writer3 demo_run_state)).
  { assert (Hsome : isSome (r_writers demo_run_state !! 3%nat) = true) by (vm_compute; reflexivity).
    unfold writer3. by destruct (r_writers demo_run_state !! 3%nat). }
  destruct (Hopen _ _ Hl Ho) as [Hp _]. split; [exact Hp|]. split; [|exact Ho].
  eapply Forall_lookup_1 in Hbuf; [exact Hbuf|exact Hl].
Defined.
