(* ===== verification/IntakeDemo.v ===== *)
(** * The intake at work

    A recorder with two groups and modifiers, journal entries that are rewritten,
    moved to another group and dropped, checkpoints, a crash and a restart: the
    hypotheses of the properties of the intake hold together.  And a shutdown
    after a failed flush, which advances the cursor past the failed entry. *)
From S2P Require Import Prelude Bytes Crypto Segment SegmentImage SegmentScan SegmentWrite Models SegmentSpec.
From S2P Require Import Chunk ChunkModel Index CText Entry Store StoreProofs Json Boots BootsProofs Config ConfigProofs.
From S2P Require Import Modifiers ModifiersProofs Fallback FallbackProofs Retention RetentionProofs.
From S2P Require Import Writer WriterProofs Recorder RecorderProofs RecorderInv RecorderLogs Intake IntakeProofs IntakeRounds RecorderDemo.

#[local] Existing Instance toy_openssl.
#[local] Existing Instance toy_openssl_ok.
#[local] Existing Instance toy_lib.
#[local] Existing Instance toy_flatcc.
#[local] Existing Instance toy_flatcc_ok.
#[local] Existing Instance toy_regex.
#[local] Existing Instance toy_jansson.
#[local] Existing Instance toy_writer.
#[local] Existing Instance toy_writer_ok.

(** A pattern is the text to look for. *)
Fixpoint find_sub (k : Z) (pattern subject : bytes) : option Z :=
  if bool_decide (pattern `prefix_of` subject) then Some k
  else match subject with [] => None | _ :: subject' => find_sub (k + 1) pattern subject' end.
Definition toy_pcre2_match (code subject : bytes) : MatchResult :=
  match find_sub 0 code subject with
  | Some k => PCRE2_MATCH [Some (k, k + zlen code)]
  | None => PCRE2_NOMATCH
  end.
#[local] Instance toy_match : RegexMatch toy_regex := { pcre2_match := toy_pcre2_match }.

(** ** The configuration *)
Definition intake_json : json :=
  JObj [(C "durable_priority_max", JInt 2);
        (C "modifiers", JArr [
           JObj [(C "match", JObj [(C "regex", JStr (C "secret"))]);
                 (C "rewrite", JObj [(C "field", JStr (C "MESSAGE")); (C "replacement", JStr (C "no $0"))])]]);
        (C "priority_groups", JArr [
           JObj [(C "name", JStr (C "urgent")); (C "priorities", JArr [JInt 0; JInt 1; JInt 2])];
           JObj [(C "name", JStr (C "rest")); (C "priorities", JArr [JInt 3; JInt 4; JInt 5; JInt 6; JInt 7]);
                 (C "modifiers", JArr [
                    JObj [(C "match", JObj [(C "exact", JStr (C "panic"))]); (C "set_priority", JInt 1)];
                    JObj [(C "match", JObj [(C "exact", JStr (C "noise"))]); (C "drop", JBool true)]])]])].
Definition intake_text : bytes := default [] (json_dumps intake_json).
Definition intake_loaded : Res RecorderConfig :=
  Eval vm_compute in startup_config (λ _, true) (Ok intake_text) (C "/etc/recorder.d") (Err ENOENT).
Definition intake_cfg : RecorderConfig :=
  Eval vm_compute in match intake_loaded with Ok cfg => cfg | Err _ => recorder_config_init end.

Lemma intake_cfg_loaded :
  startup_config (λ _, true) (Ok intake_text) (C "/etc/recorder.d") (Err ENOENT) = Ok intake_cfg.
Proof. vm_compute. reflexivity. Qed.

Ltac computed := apply (bool_decide_unpack _); vm_compute; exact I.

Lemma intake_cfg_ok : intake_config None intake_cfg.
Proof.
  split.
  - split; [done|]. by intros enc [= <-].
  - eexists _, _, _, _. exact intake_cfg_loaded.
  - constructor; [|constructor]. cbn. computed.
  - repeat constructor.
Qed.

(** ** Journal entries *)
Definition demo_journal (rt : Z) (cursor : string) (fields : list (bytes * bytes)) : JournalEntry :=
  mkJournalEntry (λ name, v ← snd <$> List.find (λ f, beq f.1 name) fields; Some (name ++ 61 :: v))
    (map (λ f, f.1 ++ 61 :: f.2) fields) rt (Some (rt - 900)) (Some (C cursor)).
Definition demo_line (rt : Z) (cursor : string) (priority : Z) (message : string) : JournalEntry :=
  demo_journal rt cursor
    [(C "MESSAGE", C message); (C "PRIORITY", print_u64 priority); (C "_PID", C "17"); (C "_SYSTEMD_UNIT", C "ssh.service");
     (C "_BOOT_ID", C "0123456789abcdef0123456789abcdef")].

Lemma demo_journal_ok rt cursor fields :
  is_u64 rt → is_u64 (rt - 900) → Forall (λ f, 61 ∉ f.1 ∧ str_wf (Some f.2)) fields →
  journal_entry_ok (demo_journal rt cursor fields).
Proof.
  intros Hr Hm Hf. split; [|done..]. intros field v. unfold journal_get_field. cbn.
  destruct (List.find _ fields) as [[n w]|] eqn:Hfind; [|done]. cbn.
  apply find_some in Hfind as [Hin Hb]. apply beq_true in Hb as <-. rewrite Forall_forall in Hf.
  destruct (Hf (n, w)) as [Hn Hw]; [by apply list_elem_of_In|]. cbn [fst] in *.
  rewrite (proj2 (split_at_app 61 (n ++ 61 :: w) n w) (conj eq_refl Hn)). by intros [= <-].
Qed.

Definition demo_j1 : JournalEntry := demo_line 5000 "s=1" 6 "my secret".
Definition demo_j2 : JournalEntry := demo_line 5001 "s=2" 5 "noise".
Definition demo_j3 : JournalEntry := demo_line 5001 "s=3" 4 "panic".
Definition demo_j4 : JournalEntry := demo_line 5009 "s=4" 0 "last words".

Ltac journal_case :=
  split; [split|vm_compute; congruence];
  [|apply demo_journal_ok; [unfold is_u64; lia|unfold is_u64; lia|computed]].
Lemma demo_lines_fine : Forall (λ j, journal_fine j ∧ has_cursor j) [demo_j1; demo_j2; demo_j3; demo_j4].
Proof.
  assert (H : ∀ rt c p m, bool_decide (1000 <= rt < 10000) = true → str_wf (Some (C m)) → str_wf (Some (print_u64 p)) →
    C c ≠ [] → is_cstr (C c) →
    u8 (journal_get_u32 (Some (demo_line rt c p m)) (C "PRIORITY")) <= 7 →
    journal_fine (demo_line rt c p m) ∧ has_cursor (demo_line rt c p m)).
  { intros rt c p m Hrt%bool_decide_eq_true Hm Hp Hne Hc Hpr. split; [split; [|exact Hpr]|by exists (C c)].
    apply demo_journal_ok; [unfold is_u64; lia..|].
    repeat (apply Forall_cons; split; [split; [computed|first [exact Hm|exact Hp|computed]]|]). constructor. }
  repeat (apply Forall_cons; split; [apply H; [vm_compute; reflexivity|computed|computed|discriminate|computed|vm_compute; congruence]|]).
  constructor.
Qed.

(** ** The first state *)
Definition intake_init : Recorder :=
  match recorder_init good_start intake_cfg (mkStore [] []) with
  | Ok r => r
  | Err _ => mkRecorder intake_cfg [] 0 [] 0 0 None (mkStore [] []) O
  end.
Definition intake_start (rest : list JournalEntry) : Intake :=
  mkIntake intake_init tie_init false true true true None true 0 None rest None None.

Definition idle_logs : list GroupLog := replicate 2 (mkGroupLog [] None).
Lemma idle_writers d groups : ∀ i,
  Forall2 (group_repr d) (init_writers i groups) (replicate (length groups) (mkGroupLog [] None)).
Proof.
  induction groups as [|g groups IH]; intros i; cbn [init_writers length replicate]; constructor; [|apply IH].
  split; [constructor|]. by cbn.
Qed.
Lemma intake_init_facts :
  r_config intake_init = intake_cfg ∧ r_writers intake_init = init_writers 0 (cfg_groups intake_cfg).
Proof.
  unfold intake_init, recorder_init. cbn [sr_prepare good_start]. cbv zeta.
  destruct (persist_next_segment_seq _ _ _ _) as [rs st2]. destruct (persist_boot_state _ _ _ st2) as [rb st3].
  match goal with |- context [run_retention ?f ?b ?x] => destruct (run_retention_writers f b x) as (-> & -> & _) end. done.
Qed.
Lemma intake_init_seq : bool_decide (is_u64 (r_next_segment_seq intake_init)) = true.
Proof. vm_compute. reflexivity. Qed.
Lemma intake_start_ok rest : intake_ok None (intake_start rest) idle_logs.
Proof.
  unfold intake_start. split; cbn [it_recorder]; destruct intake_init_facts as [Hc Hw]; rewrite ?Hc, ?Hw.
  - apply intake_cfg_ok.
  - exact (bool_decide_eq_true_1 _ intake_init_seq).
  - reflexivity.
  - apply idle_writers.
Qed.

Lemma intake_logs : logs_stored spared intake_init idle_logs.
Proof.
  apply empty_logs; [|by repeat constructor].
  apply (init_inv good_start intake_cfg (mkStore [] []) intake_init); [reflexivity|split; constructor|vm_compute; reflexivity].
Qed.
Lemma intake_init_room n : bool_decide (0 <= n <= 3) = true → r_next_segment_seq intake_init + ROUND_SEGMENTS * n <= UINT64_MAX.
Proof.
  intros Hn%bool_decide_eq_true. assert (Hs : r_next_segment_seq intake_init = 1) by (vm_compute; reflexivity).
  rewrite Hs. unfold ROUND_SEGMENTS, UINT64_MAX. lia.
Qed.

(** ** System answers *)
Definition good_recovery : RecoveryIo := mkRecoveryIo (λ _, Some 1000000) good_fs good_write good_submit EUNSET good_submit.
Definition good_step : StepIo := mkStepIo good_fs good_write good_recovery.
Definition good_steps : nat → StepIo := λ _, good_step.
Definition good_cursor (cursor : string) : CursorIo := mkCursorIo true true true (zlen (C cursor) + 1) true true true true.
Definition good_round (cursor : string) : MainIo :=
  mkMainIo 1000 2000 3000 demo_clock good_steps (replicate 2 (good_flush, Ok tt)) (good_cursor cursor).

Lemma good_steps_granted k : step_granted spared (good_steps k).
Proof. split; [|split]; apply good_grants. Qed.
Lemma demo_clock_ok : clock_ok demo_clock.
Proof. split; [|by vm_compute]. computed. Qed.

(** ** Passes *)
Definition three : list JournalEntry := [demo_j1; demo_j2; demo_j3].
Lemma three_fine : Forall journal_fine (upcoming (intake_start three)).
Proof.
  pose proof (Forall_take _ 3 _ demo_lines_fine) as H. change (Forall journal_fine (take 3 [demo_j1; demo_j2; demo_j3; demo_j4])).
  eapply Forall_impl; [exact H|]. by intros ? [].
Qed.

Example demo_trace :
  map snd (pass_trace good_steps demo_clock (intake_start three)) =
    [Stored (mkLogEntry 5000 4100 0 17 0 0 0 6 0 (C "0123456789abcdef0123456789abcdef") (Some (C "no secret")) None None
               (Some (C "ssh.service")) None None []) true;
     Dropped;
     Stored (mkLogEntry 5001 4101 1 17 0 0 0 1 0 (C "0123456789abcdef0123456789abcdef") (Some (C "panic")) None None
               (Some (C "ssh.service")) None None []) true].
Proof. vm_compute. reflexivity. Qed.

Lemma step_accounts_witness :
  ∃ it' jobs, recorder_step good_steps demo_clock (intake_start three) = (3, it', jobs) ∧
    upcoming it' = [] ∧ pass_split (intake_start three) (pass_trace good_steps demo_clock (intake_start three)) 3 (it_pending_cursor it').
Proof.
  destruct (recorder_step good_steps demo_clock (intake_start three)) as [[n it'] jobs] eqn:Hs.
  assert (Hn : n = 3).
  { transitivity (recorder_step good_steps demo_clock (intake_start three)).1.1; [by rewrite Hs|vm_compute; reflexivity]. }
  subst n. exists it', jobs. split; [reflexivity|].
  destruct (step_accounts good_steps demo_clock (intake_start three) 3 it' jobs Hs) as (_ & Hu & Hsp).
  split; [|exact Hsp]. apply (f_equal length) in Hu. rewrite length_app in Hu.
  assert (Hl : length (passed (pass_trace good_steps demo_clock (intake_start three))) = 3%nat) by (vm_compute; reflexivity).
  rewrite Hl in Hu. cbn in Hu. destruct (upcoming it'); [reflexivity|discriminate Hu].
Defined.

(** ** Rounds, a crash and a restart *)
Lemma round_durable_witness :
  ∃ it' jobs gs', main_round (good_round "s=3") (intake_start three) = (true, it', jobs) ∧
    round_result None (intake_start three) (round_trace (good_round "s=3") (intake_start three)) idle_logs it' gs' ∧
    logs_stored spared (it_recorder it') gs' ∧
    read_journal_cursor (it_cursor_file it') = Some (C "s=3").
Proof.
  destruct (main_round (good_round "s=3") (intake_start three)) as [[ok it'] jobs] eqn:Hr.
  assert (Hok : ok = true).
  { transitivity (main_round (good_round "s=3") (intake_start three)).1.1; [by rewrite Hr|vm_compute; reflexivity]. }
  subst ok. destruct (round_durable spared None (good_round "s=3") (intake_start three) it' jobs idle_logs Hr (intake_start_ok three)) as (gs' & Hres & Hst).
  - cbn. unfold UINT16_MAX. lia.
  - apply three_fine.
  - apply demo_clock_ok.
  - destruct intake_init_facts as [_ Hw]. cbn [it_recorder intake_start]. rewrite Hw. reflexivity.
  - unfold first_attempts. computed.
  - intros k. apply good_steps_granted.
  - exact (intake_init_room 1 eq_refl).
  - exact intake_logs.
  - exists it', jobs, gs'. split; [reflexivity|]. split; [exact Hres|]. split; [exact Hst|].
    transitivity (read_journal_cursor (it_cursor_file (main_round (good_round "s=3") (intake_start three)).1.2));
      [by rewrite Hr|vm_compute; reflexivity].
Defined.

(** A journal that is searched from its start. *)
Fixpoint find_cursor (k : nat) (journal : list JournalEntry) (cursor : bytes) : option nat :=
  match journal with
  | [] => None
  | j :: journal' => if decide (je_cursor j = Some cursor) then Some k else find_cursor (S k) journal' cursor
  end.
#[local] Instance toy_journal : SdJournal := {
  sd_journal_seek_cursor journal cursor := find_cursor 0 journal cursor;
  sd_journal_test_cursor current cursor := Some (bool_decide (current ≫= je_cursor = Some cursor));
}.
#[local] Instance toy_journal_ok : SdJournal_ok.
Proof.
  split.
  - intros journal k j cursor. change (sd_journal_seek_cursor journal cursor) with (find_cursor 0 journal cursor).
    assert (H : ∀ i l k j, l !! k = Some j → je_cursor j = Some cursor →
      (∀ k' j', l !! k' = Some j' → je_cursor j' = Some cursor → k' = k) → find_cursor i l cursor = Some (i + k)%nat).
    { intros i l. revert i. induction l as [|x l IH]; intros i k0 j0 Hk Hc Hu; [done|]. cbn [find_cursor].
      destruct (decide _) as [Hx|Hx].
      - rewrite <-(Hu 0%nat x eq_refl Hx). f_equal. lia.
      - destruct k0 as [|k0]; [by injection Hk as ->|]. rewrite (IH (S i) k0 j0 Hk Hc); [f_equal; lia|].
        intros k' j' Hk' Hc'. specialize (Hu (S k') j' Hk' Hc'). by injection Hu. }
    intros Hk Hc Hu. exact (H 0%nat journal k j Hk Hc Hu).
  - intros j cursor Hc. cbn. by rewrite Hc, bool_decide_eq_true_2.
Qed.

Definition distinct_b (l : list JournalEntry) : bool := bool_decide (NoDup (map je_cursor l)).
Lemma distinct_check l : distinct_b l = true → distinct_cursors l.
Proof.
  intros H%bool_decide_eq_true k k' j j' c Hk Hk' Hc Hc'. symmetry. eapply (NoDup_lookup _ k k' (Some c)); [exact H|..].
  - by rewrite list_lookup_fmap, Hk, <-Hc.
  - by rewrite list_lookup_fmap, Hk', <-Hc'.
Qed.

(** Two rounds; the second gets one more entry.  A third arrives after the crash. *)
Definition demo_rounds : list (MainIo * list JournalEntry) := [(good_round "s=2", []); (good_round "s=3", [demo_j3])].
Definition good_resume : ResumeIo := mkResumeIo true true true true true.
Definition fresh_start (file : option bytes) : Intake :=
  mkIntake intake_init tie_init false true true true None true 0 None [] file None.

Lemma demo_rounds_given : rounds_given None demo_rounds (intake_start [demo_j1; demo_j2]) idle_logs.
Proof.
  split.
  - apply intake_start_ok.
  - cbn. unfold UINT16_MAX. lia.
  - exact (Forall_take _ 3 _ demo_lines_fine).
  - destruct intake_init_facts as [Hc _]. cbn [it_recorder intake_start]. rewrite Hc.
    repeat (apply Forall_cons; split; [split; [apply demo_clock_ok|reflexivity]|]). constructor.
Qed.

(** The restarted process is given the fourth entry and no other. *)
Lemma crash_restart_witness :
  ∃ it' jobs it2, main_loop demo_rounds (intake_start [demo_j1; demo_j2]) = (true, it', jobs) ∧
    start_position good_resume false [demo_j1; demo_j2; demo_j3; demo_j4] (fresh_start (it_cursor_file it')) = Some it2 ∧
    upcoming it2 = [demo_j4] ∧ ∃ gs', on_disk None (it_recorder it') gs' ∧ logs_stored spared (it_recorder it') gs' ∧
      Forall2 (group_repr None) (r_writers (it_recorder it')) gs'.
Proof.
  destruct (main_loop demo_rounds (intake_start [demo_j1; demo_j2])) as [[ok it'] jobs] eqn:Hr.
  assert (Hok : (ok, it_cursor_enabled it') = (true, true)).
  { transitivity (let '(ok, it', _) := main_loop demo_rounds (intake_start [demo_j1; demo_j2]) in (ok, it_cursor_enabled it'));
      [by rewrite Hr|vm_compute; reflexivity]. }
  injection Hok as -> Hen.
  assert (Hlen : length (rounds_trace demo_rounds (intake_start [demo_j1; demo_j2])) = 3%nat) by (vm_compute; reflexivity).
  destruct (crash_restart spared None demo_rounds _ it' jobs idle_logs [] [demo_j4] good_resume (fresh_start (it_cursor_file it')) Hr
    demo_rounds_given) as (gs' & it2 & _ & Hl & Hd & Hr2 & Hst & Hj); [..|reflexivity|reflexivity|reflexivity|reflexivity| | | |].
  - unfold smooth. computed.
  - intros Hnil. by rewrite Hnil in Hlen.
  - exact Hen.
  - apply distinct_check. vm_compute. reflexivity.
  - repeat (apply Forall_cons; split; [intros k; apply good_steps_granted|]). constructor.
  - exact (intake_init_room 2 eq_refl).
  - exact intake_logs.
  - exists it', jobs, it2. split; [reflexivity|]. split; [exact Hst|]. split; [|exists gs'; split; [exact Hd|split; [exact Hl|exact Hr2]]].
    set (seen := map fst (rounds_trace _ _)) in Hj. assert (Hseen : length seen = 3%nat) by (unfold seen; by rewrite length_map).
    clearbody seen. cbn [app] in Hj. apply (f_equal (drop 3)) in Hj.
    destruct seen as [|x1 [|x2 [|x3 [|]]]]; try discriminate Hseen. symmetry. exact Hj.
Defined.

(** ** A failed flush before a shutdown

    The chunk with the entry is dropped when the flush fails, which ends the main
    loop; the shutdown then has nothing left to flush, finds nothing wrong and
    writes the cursor of the entry whose write was reported as failed. *)
Definition lost_round : MainIo :=
  mkMainIo 1000 2000 3000 demo_clock good_steps (replicate 2 (failing_flush, Ok tt)) (good_cursor "s=1").
Definition lost_finish : FinishIo :=
  mkFinishIo (mkShutdownIo (replicate 2 (good_flush, Ok tt)) (replicate 2 (mkCloseIo good_flush (Ok tt))) good_fs good_write good_write good_write)
    (good_cursor "s=1") (good_cursor "s=1") true.

Lemma failed_flush_advances_cursor :
  let '(ok, it1, _) := main_round lost_round (intake_start [demo_j1]) in
  ok = false ∧ map (length ∘ pending_entries) (r_writers (it_recorder it1)) = [0%nat; 0%nat] ∧
  read_journal_cursor (it_cursor_file it1) = None ∧
  read_journal_cursor (it_persistent_file (finish lost_finish demo_clock it1)) = Some (C "s=1").
Proof. vm_compute. split_and!; reflexivity. Qed.

(** ** Modifiers *)
Definition panic_entry : LogEntry :=
  mkLogEntry 5001 4101 0 17 0 0 0 4 0 (C "0123456789abcdef0123456789abcdef") (Some (C "panic")) None None None None None [].

(** An entry that its group's list moves to another group. *)
Lemma modifiers_route_witness :
  ∃ e' jobs, apply_entry_modifiers intake_cfg panic_entry None false = (MOD_KEEP, e', jobs) ∧
    routed intake_cfg None false [4] panic_entry MOD_KEEP e' jobs ∧ le_priority e' = 1.
Proof.
  assert (Hl : apply_modifier_list (cfg_modifiers intake_cfg) panic_entry None false = (MOD_KEEP, panic_entry, []))
    by (vm_compute; reflexivity).
  destruct (modifiers_route _ _ _ _ _ panic_entry None false _ _ _ intake_cfg_loaded ltac:(cbn; lia) Hl) as [_ H].
  specialize (H eq_refl). destruct (apply_entry_modifiers intake_cfg panic_entry None false) as [[r e'] jobs] eqn:Ha.
  assert (Hr : (r, le_priority e') = (MOD_KEEP, 1)).
  { transitivity (let '(r, e', _) := apply_entry_modifiers intake_cfg panic_entry None false in (r, le_priority e'));
      [by rewrite Ha|vm_compute; reflexivity]. }
  injection Hr as -> Hp. destruct (proj1 (H _ _ _) eq_refl) as (jobs1 & Hj & Hrt). cbn [app] in Hj. subst jobs1.
  exists e', jobs. split; [reflexivity|]. split; [exact Hrt|exact Hp].
Defined.

Lemma panic_wf : entry_wf panic_entry.
Proof. split; cbn; try done; unfold is_u64, is_u32, is_u16, is_u8; try lia; computed. Qed.

Lemma modifiers_keep_entry_witness :
  ∃ e' jobs, apply_entry_modifiers intake_cfg panic_entry None false = (MOD_KEEP, e', jobs) ∧
    same_origin panic_entry e' ∧ entry_wf e' ∧
    ∃ g, modifier_group intake_cfg (le_priority e') = Some g ∧ pg_name g = C "urgent".
Proof.
  destruct (apply_entry_modifiers intake_cfg panic_entry None false) as [[r e'] jobs] eqn:Ha.
  assert (Hr : (r, le_priority e') = (MOD_KEEP, 1)).
  { transitivity (let '(r, e', _) := apply_entry_modifiers intake_cfg panic_entry None false in (r, le_priority e'));
      [by rewrite Ha|vm_compute; reflexivity]. }
  injection Hr as -> Hp. pose proof intake_cfg_ok as [_ _ Ht Htg].
  destruct (modifiers_keep_entry _ _ _ _ _ panic_entry None false _ _ _ intake_cfg_loaded panic_wf ltac:(cbn; lia) Ht Htg
    ltac:(intros f v Hf; discriminate Hf) Ha) as (Ho & Hw & _ & _ & Hk).
  destruct (Hk eq_refl) as (g & _ & _ & Hg & _).
  exists e', jobs. split; [reflexivity|]. split; [exact Ho|]. split; [exact Hw|]. exists g. split; [exact Hg|].
  rewrite Hp in Hg. assert (Hn : pg_name <$> modifier_group intake_cfg 1 = Some (C "urgent")) by (vm_compute; reflexivity).
  rewrite Hg in Hn. by injection Hn.
Defined.

(** The third entry of one stamp. *)
Lemma tie_order_counts_witness :
  ∃ t out, assign_all tie_init [demo_e1; demo_e2; demo_e2; demo_e2] = (t, out) ∧
    out !! 3%nat = Some (set_tie_order 2 demo_e2).
Proof.
  destruct (assign_all tie_init [demo_e1; demo_e2; demo_e2; demo_e2]) as [t out] eqn:Ha.
  exists t, out. split; [reflexivity|]. rewrite (tie_order_counts _ t out 3 demo_e2 Ha eq_refl).
  assert (Ho : expected_order (stamps (take 3 [demo_e1; demo_e2; demo_e2; demo_e2])) demo_e2 = 2) by (vm_compute; reflexivity).
  by rewrite Ho.
Defined.

(** ** The cursor file *)
Lemma cursor_round_trip_witness :
  read_journal_cursor (write_journal_cursor (good_cursor "s=12") (C "s=12") (Some (C "s=1234567"))).2 = Some (C "s=12").
Proof.
  destruct (write_journal_cursor (good_cursor "s=12") (C "s=12") (Some (C "s=1234567"))) as [res file'] eqn:Hw.
  assert (Hr : res = Ok tt).
  { transitivity (write_journal_cursor (good_cursor "s=12") (C "s=12") (Some (C "s=1234567"))).1; [by rewrite Hw|vm_compute; reflexivity]. }
  destruct (cursor_round_trip (good_cursor "s=12") (C "s=12") (Some (C "s=1234567")) res file' ltac:(computed) ltac:(discriminate) Hw) as [H _]. apply H. by left.
Defined.

(** ** Input without journald *)
Definition demo_datagram : FallbackIo :=
  mkFallbackIo (Some true) false true false (RecvData (C "<38>sshd[815]: session opened") (Some (815, 0, 0))) RecvAgain
    5000 4100 (λ _, None) (λ _, Some (C "/usr/sbin/sshd")).

Lemma fallback_entries_wf_witness :
  ∃ src r e boots', fallback_source_open true true (Some (C "host")) (Some (C "01234567-89ab-cdef-0123-456789abcdef")) = Ok src ∧
    fallback_source_next src demo_datagram = NextRecord r ∧
    extract_fallback_entry intake_cfg [] r = Ok (e, boots') ∧ entry_wf e ∧ boots_wf boots'.
Proof.
  destruct (fallback_source_open true true (Some (C "host")) (Some (C "01234567-89ab-cdef-0123-456789abcdef"))) as [src|] eqn:Ho;
    [|discriminate Ho].
  destruct (fallback_source_next src demo_datagram) as [| |r] eqn:Hn;
    [injection Ho as <-; vm_compute in Hn; discriminate Hn..|].
  destruct (fallback_entries_wf true true (Some (C "host")) (Some (C "01234567-89ab-cdef-0123-456789abcdef")) src demo_datagram r intake_cfg [])
    as (e & boots' & He & Hw & _ & Hb).
  - cbn. computed.
  - cbn. computed.
  - exact Ho.
  - split; cbn; try done; try (unfold is_u64; lia); [split; [computed|unfold is_u32; lia]|intros _; computed].
  - exact Hn.
  - apply boots_wf_nil.
  - exists src, r, e, boots'. split; [reflexivity|]. split; [exact Hn|]. split; [exact He|]. split; [exact Hw|exact Hb].
Defined.
