(* ===== verification/ScriptWorker.v ===== *)
(** * The script worker (src/src/script_worker.c)

    A bounded queue of jobs between the recorder and the threads that run the
    scripts.  The queue is the linked list of the source: cells with a [next]
    pointer, a head and a tail.  What the threads do is a step per critical
    section; the wait for a child and the feeding of its standard input are
    functions of what the system answers.  Memory allocation succeeds. *)
From S2P Require Import Prelude Modifiers.

Definition SCRIPT_MAX_ARGC : Z := 128.
Definition SCRIPT_MAX_ARG_LEN : Z := 64 * 1024.
Definition SCRIPT_MAX_JSON : Z := 1024 * 1024.
Definition SCRIPT_MAX_ENV : Z := 128.
Definition SCRIPT_MAX_ENV_LEN : Z := 64 * 1024.
Definition SCRIPT_DEFAULT_TIMEOUT : Z := 30.

(** [argv] with [argc] elements; the two environment arrays hold at least
    [env_count] elements when they are not NULL, and no name is NULL. *)
Record ScriptJobSpec := mkScriptJobSpec {
  ss_argv : option (list (option bytes));
  ss_json_payload : option bytes;
  ss_env_names : option (list bytes);
  ss_env_values : option (list (option bytes));
  ss_env_count : nat;
  ss_timeout_sec : Z;
}.

Definition copy_string (s : option bytes) (max : Z) : Res bytes :=
  match s with
  | None => Err EINVAL
  | Some s => if max <? zlen s then Err EINVAL else Ok s
  end.

(** A loop of copies that leaves at the first failure. *)
Fixpoint copy_all {A B} (copy : A → Res B) (l : list A) : Res (list B) :=
  match l with
  | [] => Ok []
  | x :: l' => let? y := copy x in let? ys := copy_all copy l' in Ok (y :: ys)
  end.

Definition copy_env (name : bytes) (value : option bytes) : Res (bytes * bytes) :=
  require beq (ztake 4 name) (C "REC_") else EINVAL;
  let? name := copy_string (Some name) SCRIPT_MAX_ENV_LEN in
  let? value := copy_string value SCRIPT_MAX_ENV_LEN in
  Ok (name, value).

Definition job_copy (spec : option ScriptJobSpec) : Res ScriptJob :=
  match spec with
  | None => Err EINVAL
  | Some spec =>
      match ss_argv spec, ss_json_payload spec with
      | Some argv, Some _ =>
          require negb (zlen argv =? 0) && (zlen argv <=? SCRIPT_MAX_ARGC)
                  && (Z.of_nat (ss_env_count spec) <=? SCRIPT_MAX_ENV) else EINVAL;
          let? argv := copy_all (λ s, copy_string s SCRIPT_MAX_ARG_LEN) argv in
          let? json := copy_string (ss_json_payload spec) SCRIPT_MAX_JSON in
          let? env :=
            match ss_env_count spec with
            | O => Ok []
            | _ =>
                match ss_env_names spec, ss_env_values spec with
                | Some names, Some values =>
                    copy_all (λ nv, copy_env nv.1 nv.2) (take (ss_env_count spec) (zip names values))
                | _, _ => Err EINVAL
                end
            end in
          Ok (mkScriptJob argv json env
                (if ss_timeout_sec spec =? 0 then SCRIPT_DEFAULT_TIMEOUT else ss_timeout_sec spec))
      | _, _ => Err EINVAL
      end
  end.

(** The specification [recorder_script_modifier_enqueue] fills in. *)
Definition spec_of_job (job : ScriptJob) : ScriptJobSpec :=
  mkScriptJobSpec (Some (map Some (sj_argv job))) (Some (sj_json_payload job))
    (Some (map fst (sj_env job))) (Some (map (Some ∘ snd) (sj_env job)))
    (length (sj_env job)) (sj_timeout_sec job).

(** ** The queue

    [sw_heap] holds the allocated jobs by address with their [next] pointer. *)
Record Cell := mkCell {
  c_job : ScriptJob;
  c_next : option positive;
}.

(** A thread between its critical sections: waiting for work, running the job
    it took, or ended. *)
Inductive Thread :=
  | Waiting
  | Running (at_ : positive)
  | Exited.
#[export] Instance Thread_eq_dec : EqDecision Thread.
Proof. solve_decision. Defined.

Record ScriptWorker := mkScriptWorker {
  sw_heap : gmap positive Cell;
  sw_head : option positive;
  sw_tail : option positive;
  sw_queued : Z;
  sw_capacity : Z;
  sw_stopping : bool;
  sw_threads : list Thread;
}.

(** [created i] is the result of the [i]-th [pthread_create]; the worker of a
    failed creation is destroyed again. *)
Fixpoint create_threads (created : nat → option Errno) (i n : nat) : Res nat :=
  match n with
  | O => Ok i
  | S n' => match created i with None => create_threads created (S i) n' | Some e => Err e end
  end.
Definition script_worker_create (created : nat → option Errno) (queue_capacity : Z) (worker_count : nat)
  : Res ScriptWorker :=
  if (queue_capacity =? 0) || bool_decide (worker_count = O) then Err EINVAL
  else
    let? n := create_threads created 0 worker_count in
    Ok (mkScriptWorker ∅ None None 0 queue_capacity false (replicate n Waiting)).

(** [if (w->tail) w->tail->next = j; else w->head = j; w->tail = j;] *)
Definition enqueue (at_ : positive) (job : ScriptJob) (w : ScriptWorker) : ScriptWorker :=
  let heap := <[at_ := mkCell job None]> (sw_heap w) in
  let '(heap, head) :=
    match sw_tail w with
    | Some t => (alter (λ c, mkCell (c_job c) (Some at_)) t heap, sw_head w)
    | None => (heap, Some at_)
    end in
  mkScriptWorker heap head (Some at_) (sw_queued w + 1) (sw_capacity w) (sw_stopping w) (sw_threads w).

(** [at_] is the address that the copy got from calloc. *)
Definition script_worker_submit (at_ : positive) (spec : option ScriptJobSpec) (w : ScriptWorker)
  : Res unit * ScriptWorker :=
  match job_copy spec with
  | Err e => (Err e, w)
  | Ok job =>
      if sw_stopping w || (sw_capacity w <=? sw_queued w) then (Err ENOSPC, w)
      else (Ok tt, enqueue at_ job w)
  end.

(** [j = w->head; w->head = j->next; if (!w->head) w->tail = NULL; w->queued--;] *)
Definition dequeue (w : ScriptWorker) : option (positive * ScriptWorker) :=
  match sw_head w with
  | None => None
  | Some j =>
      match sw_heap w !! j with
      | None => None
      | Some c =>
          Some (j, mkScriptWorker (sw_heap w) (c_next c)
                     (match c_next c with None => None | Some _ => sw_tail w end)
                     (sw_queued w - 1) (sw_capacity w) (sw_stopping w) (sw_threads w))
      end
  end.

Definition set_thread (i : nat) (t : Thread) (w : ScriptWorker) : ScriptWorker :=
  mkScriptWorker (sw_heap w) (sw_head w) (sw_tail w) (sw_queued w) (sw_capacity w) (sw_stopping w)
    (<[i := t]> (sw_threads w)).

(** One turn of [worker_main] by thread [i]: after the wait it takes the first
    job or ends; with a job taken, it has run it and frees it. *)
Definition worker_turn (i : nat) (w : ScriptWorker) : option ScriptWorker :=
  match sw_threads w !! i with
  | Some Waiting =>
      match sw_head w with
      | None => if sw_stopping w then Some (set_thread i Exited w) else None
      | Some _ => '(j, w') ← dequeue w; Some (set_thread i (Running j) w')
      end
  | Some (Running j) =>
      Some (set_thread i Waiting
              (mkScriptWorker (delete j (sw_heap w)) (sw_head w) (sw_tail w) (sw_queued w)
                 (sw_capacity w) (sw_stopping w) (sw_threads w)))
  | Some Exited | None => None
  end.

(** The first part of [script_worker_destroy]. *)
Definition stop (w : ScriptWorker) : ScriptWorker :=
  mkScriptWorker (sw_heap w) (sw_head w) (sw_tail w) (sw_queued w) (sw_capacity w) true (sw_threads w).

(** The joins return once every thread has ended; then what is left in the
    queue is freed without being run. *)
Fixpoint free_jobs (fuel : nat) (at_ : option positive) (heap : gmap positive Cell) : gmap positive Cell :=
  match fuel, at_ with
  | S fuel', Some j => free_jobs fuel' (heap !! j ≫= c_next) (delete j heap)
  | _, _ => heap
  end.
Definition finish_destroy (w : ScriptWorker) : option (gmap positive Cell) :=
  if forallb (λ t, bool_decide (t = Exited)) (sw_threads w)
  then Some (free_jobs (size (sw_heap w)) (sw_head w) (sw_heap w)) else None.

(** ** Runs: the calls and turns in the order of their critical sections *)
Inductive Action :=
  | Submit (at_ : positive) (spec : ScriptJobSpec)
  | Turn (i : nat)
  | Stop.

(** The state with its history: jobs accepted, started and finished, in order. *)
Record Trace := mkTrace {
  tr_worker : ScriptWorker;
  tr_accepted : list ScriptJob;
  tr_started : list ScriptJob;
  tr_finished : list ScriptJob;
}.

Definition running (t : Thread) : option positive :=
  match t with Running j => Some j | _ => None end.
Definition jobs_of (heap : gmap positive Cell) (l : list positive) : list ScriptJob :=
  omap (λ p, c_job <$> heap !! p) l.
(** The job that thread [i] has, if any. *)
Definition job_of (i : nat) (w : ScriptWorker) : list ScriptJob :=
  jobs_of (sw_heap w) (option_list (sw_threads w !! i ≫= running)).

(** An allocation gives an address that is not in use. *)
Definition act (a : Action) (t : Trace) : option Trace :=
  let w := tr_worker t in
  match a with
  | Submit at_ spec =>
      match sw_heap w !! at_ with
      | Some _ => None
      | None =>
          let '(r, w') := script_worker_submit at_ (Some spec) w in
          Some (mkTrace w'
                  (match r, job_copy (Some spec) with
                   | Ok _, Ok job => tr_accepted t ++ [job]
                   | _, _ => tr_accepted t
                   end)
                  (tr_started t) (tr_finished t))
      end
  | Turn i =>
      w' ← worker_turn i w;
      Some (mkTrace w' (tr_accepted t) (tr_started t ++ job_of i w') (tr_finished t ++ job_of i w))
  | Stop => Some (mkTrace (stop w) (tr_accepted t) (tr_started t) (tr_finished t))
  end.

Fixpoint acts (l : list Action) (t : Trace) : option Trace :=
  match l with
  | [] => Some t
  | a :: l' => t' ← act a t; acts l' t'
  end.

Definition fresh_trace (w : ScriptWorker) : Trace := mkTrace w [] [] [].

(** ** Running one job ([run_job])

    The feeding of the child: every [write] with its answer, and the time in
    milliseconds since the start that is read after a failed one.  [EAGAIN]
    stands for EAGAIN and EINTR; [sigpipe] says that the error was EPIPE. *)
Inductive WriteAnswer :=
  | Wrote (n : Z)
  | WriteFailed (e : Errno) (sigpipe : bool) (now_ms : Z).

(** Why the loop was left; [FeedMore] when the answers are used up. *)
Inductive Feed :=
  | FeedAll
  | FeedBroken (sigpipe : bool)      (* SIGPIPE is pending for this thread *)
  | FeedTimeout
  | FeedMore (off : Z).
#[export] Instance Feed_eq_dec : EqDecision Feed.
Proof. solve_decision. Defined.

Definition timeout_ms (job : ScriptJob) : Z := u32 (sj_timeout_sec job * 1000).

Fixpoint feed_loop (answers : list WriteAnswer) (off total limit_ms : Z) : Feed :=
  if negb (off <? total + 1) then FeedAll
  else
    match answers with
    | [] => FeedMore off
    | Wrote n :: answers' =>
        if 0 <? n then feed_loop answers' (off + n) total limit_ms else FeedBroken false
    | WriteFailed e sigpipe now_ms :: answers' =>
        if bool_decide (e = EAGAIN)
        then if limit_ms <=? u32 now_ms then FeedTimeout
             else feed_loop answers' off total limit_ms
        else FeedBroken sigpipe
    end.

(** After the feeding the signal mask is restored: a pending SIGPIPE then has
    the action the process has for it, which the recorder never sets: it is the
    one inherited at its start, by default the end of the process. *)
Inductive ProcessState := Alive | KilledBySigpipe.
#[export] Instance ProcessState_eq_dec : EqDecision ProcessState.
Proof. solve_decision. Defined.
Definition restore_mask (sigpipe_ignored : bool) (f : Feed) : ProcessState :=
  match f with
  | FeedBroken true => if sigpipe_ignored then Alive else KilledBySigpipe
  | _ => Alive
  end.

(** [waitpid(pid, &status, WNOHANG)] every 10 ms. *)
Inductive WaitAnswer :=
  | ChildDone        (* the pid, or ECHILD *)
  | ChildRunning.    (* 0, or another error *)
Inductive RunEnd :=
  | Reaped (elapsed : Z)
  | Killed           (* SIGKILL and a blocking wait *)
  | StillWaiting.    (* the answers are used up *)
#[export] Instance RunEnd_eq_dec : EqDecision RunEnd.
Proof. solve_decision. Defined.

Fixpoint wait_loop (answers : list WaitAnswer) (elapsed limit_ms : Z) : RunEnd :=
  if negb (elapsed <? limit_ms) then Killed
  else
    match answers with
    | [] => StillWaiting
    | ChildDone :: _ => Reaped elapsed
    | ChildRunning :: answers' => wait_loop answers' (u32 (elapsed + 10)) limit_ms
    end.

(** The parent's side of [run_job] once the child is forked. *)
Definition run_job (sigpipe_ignored : bool) (writes : list WriteAnswer) (waits : list WaitAnswer) (job : ScriptJob) : ProcessState * RunEnd :=
  let feed := feed_loop writes 0 (zlen (sj_json_payload job)) (timeout_ms job) in
  (restore_mask sigpipe_ignored feed, wait_loop waits 0 (timeout_ms job)).
