(* ===== verification/ScriptWorkerProofs.v ===== *)
(** * The script worker: what its queue, its threads and its waits guarantee

    The linked list represents a list of addresses ([chain]); the invariant
    [tr_inv] relates the state of a run to its history, and the properties
    follow from its preservation by every action. *)
From S2P Require Import Prelude CText Json Entry Config ConfigProofs Modifiers ScriptWorker.

(** ** Linked lists *)
Fixpoint chain (heap : gmap positive Cell) (at_ : option positive) (l : list positive) : Prop :=
  match l with
  | [] => at_ = None
  | p :: l' => at_ = Some p ∧ ∃ c, heap !! p = Some c ∧ chain heap (c_next c) l'
  end.

Lemma chain_frame heap heap' at_ l :
  (∀ p, p ∈ l → heap' !! p = heap !! p) → chain heap at_ l → chain heap' at_ l.
Proof.
  revert at_. induction l as [|p l IH]; intros at_ Heq; cbn; [done|].
  intros (-> & c & Hc & Hl). split; [done|]. exists c. rewrite Heq by set_solver.
  split; [done|]. apply IH; [|done]. intros q Hq. apply Heq. set_solver.
Qed.

Lemma chain_lookup heap at_ l p : chain heap at_ l → p ∈ l → is_Some (heap !! p).
Proof.
  revert at_. induction l as [|q l IH]; intros at_; cbn; [set_solver|].
  intros (_ & c & Hc & Hl) [->|Hp]%elem_of_cons; [eauto|]. by eapply IH.
Qed.

(** The last cell of a chain gets a successor. *)
Lemma chain_snoc heap at_ l p job :
  chain heap (Some at_) (l ++ [p]) → NoDup (l ++ [p]) → ∀ q, q ∉ l ++ [p] →
  chain (alter (λ c, mkCell (c_job c) (Some q)) p (<[q := mkCell job None]> heap)) (Some at_) (l ++ [p; q]).
Proof.
  revert at_. induction l as [|r l IH]; intros at_ Hc Hnd q Hq; cbn in *.
  - destruct Hc as ([= ->] & c & Hc & Hl). split; [done|]. eexists. rewrite lookup_alter, lookup_insert_ne by set_solver.
    rewrite Hc. rewrite decide_True by done. split; [done|]. split; [done|]. eexists. rewrite lookup_alter_ne by set_solver.
    rewrite lookup_insert. by rewrite decide_True by done.
  - destruct Hc as ([= ->] & c & Hc & Hl). apply NoDup_cons in Hnd as [Hr Hnd]. split; [done|]. exists c.
    rewrite lookup_alter_ne, lookup_insert_ne by set_solver. split; [done|].
    destruct (c_next c) as [n|] eqn:Hn; [|destruct l; destruct Hl; done]. apply IH; [done|done|set_solver].
Qed.

Lemma chain_jobs heap heap' l :
  (∀ p, p ∈ l → c_job <$> heap' !! p = c_job <$> heap !! p) → jobs_of heap' l = jobs_of heap l.
Proof.
  intros Heq. unfold jobs_of. induction l as [|p l IH]; [done|]. cbn. rewrite Heq by set_solver.
  rewrite IH; [done|]. intros q Hq. apply Heq. set_solver.
Qed.

Lemma jobs_of_app heap l k : jobs_of heap (l ++ k) = jobs_of heap l ++ jobs_of heap k.
Proof. apply omap_app. Qed.
Lemma jobs_of_cons heap p c l : heap !! p = Some c → jobs_of heap (p :: l) = c_job c :: jobs_of heap l.
Proof. intros Hp. unfold jobs_of. cbn. by rewrite Hp. Qed.

(** ** The jobs that threads have *)
Definition taken (w : ScriptWorker) : list positive := omap running (sw_threads w).

Lemma taken_insert (ts : list Thread) i t t' :
  ts !! i = Some t →
  omap running (<[i := t']> ts) ++ option_list (running t) ≡ₚ omap running ts ++ option_list (running t').
Proof.
  revert i. induction ts as [|u ts IH]; intros [|i] Hi; cbn in *; [done|done| |].
  - injection Hi as ->. destruct (running t), (running t'); cbn; rewrite ?app_nil_r, <- ?Permutation_cons_append; try done.
    constructor.
  - specialize (IH i Hi). destruct (running u); cbn; by rewrite IH.
Qed.

(** ** The invariant of a run, with the addresses [q] of the queue *)
Record tr_inv (cap : Z) (n : nat) (t : Trace) (q : list positive) : Prop := {
  ti_chain : chain (sw_heap (tr_worker t)) (sw_head (tr_worker t)) q;
  ti_tail : sw_tail (tr_worker t) = last q;
  ti_nodup : NoDup (q ++ taken (tr_worker t));
  ti_dom : ∀ p, is_Some (sw_heap (tr_worker t) !! p) ↔ p ∈ q ++ taken (tr_worker t);
  ti_queued : sw_queued (tr_worker t) = zlen q;
  ti_capacity : sw_capacity (tr_worker t) = cap;
  ti_bound : zlen q <= cap;
  ti_fifo : tr_started t ++ jobs_of (sw_heap (tr_worker t)) q = tr_accepted t;
  ti_once : tr_started t ≡ₚ tr_finished t ++ jobs_of (sw_heap (tr_worker t)) (taken (tr_worker t));
  ti_exit : Exited ∈ sw_threads (tr_worker t) → sw_stopping (tr_worker t) = true ∧ q = [];
  ti_threads : length (sw_threads (tr_worker t)) = n;
}.

Lemma created_inv created cap n w :
  0 <= cap → script_worker_create created cap n = Ok w → tr_inv cap n (fresh_trace w) [].
Proof.
  intros Hcap Hc. unfold script_worker_create in Hc. destruct (_ || _); [done|].
  apply rbind_ok in Hc as (m & Hm & [= <-]).
  assert (m = n) as ->.
  { assert (Hgen : ∀ k i, create_threads created i k = Ok m → m = (i + k)%nat).
    { induction k as [|k IH]; intros i; cbn [create_threads]; [intros [= ->]; lia|].
      destruct (created i); [done|]. intros Hk. apply IH in Hk. lia. }
    apply Hgen in Hm. lia. }
  assert (Ht : omap running (replicate n Waiting) = []) by (clear; by induction n).
  split; cbn; unfold taken; cbn [sw_threads]; rewrite ?Ht; try done.
  - constructor.
  - intros p. rewrite lookup_empty. split; [by intros []|set_solver].
  - intros Hin. apply elem_of_replicate in Hin as [? _]. done.
  - apply length_replicate.
Qed.

Lemma script_submit_inv cap n t q at_ spec t' :
  tr_inv cap n t q → act (Submit at_ spec) t = Some t' → ∃ q', tr_inv cap n t' q'.
Proof.
  intros Hi Ha. cbn [act] in Ha. destruct (sw_heap _ !! at_) as [c|] eqn:Hfree; [done|].
  unfold script_worker_submit in Ha. destruct (job_copy (Some spec)) as [job|e] eqn:Hj.
  2: { injection Ha as <-. exists q. destruct Hi. by split. }
  destruct (sw_stopping (tr_worker t)) eqn:Hst; cbn [orb] in Ha.
  { injection Ha as <-. exists q. destruct Hi. by split. }
  destruct (Z.leb_spec (sw_capacity (tr_worker t)) (sw_queued (tr_worker t))).
  { injection Ha as <-. exists q. destruct Hi. by split. }
  injection Ha as <-. destruct Hi as [Hc Ht Hnd Hd Hq Hcap Hb Hf Ho He Hn]. exists (q ++ [at_]).
  destruct t as [w acc sta fin]. destruct w as [heap head tail queued capacity stopping threads].
  cbn [tr_worker tr_accepted tr_started tr_finished sw_heap sw_head sw_tail sw_queued sw_capacity sw_stopping sw_threads] in *.
  unfold taken in *; cbn [sw_threads] in *.
  assert (Hnew : at_ ∉ q ++ omap running threads) by (rewrite <- Hd, Hfree; by intros []).
  set (heap' := sw_heap (enqueue at_ job (mkScriptWorker heap head tail queued capacity stopping threads))).
  assert (Hshape : chain heap' (sw_head (enqueue at_ job (mkScriptWorker heap head tail queued capacity stopping threads))) (q ++ [at_])
    ∧ (∀ p, c_job <$> heap' !! p = c_job <$> <[at_ := mkCell job None]> heap !! p)).
  { unfold heap', enqueue; cbn [sw_tail sw_heap sw_head]. destruct q as [|p0 q] using rev_ind.
    - cbn in Ht. subst tail. cbn in *. subst head. split; [|done]. split; [done|]. eexists. rewrite lookup_insert.
      by rewrite decide_True by done.
    - rewrite last_snoc in Ht. subst tail. cbn [sw_heap sw_head].
      destruct head as [h|]; [|exfalso; clear -Hc; destruct q as [|? ?]; cbn in Hc; by destruct Hc]. rewrite <- app_assoc. cbn [app]. split.
      + apply chain_snoc; [done| |set_solver]. by apply NoDup_app in Hnd as [? _].
      + intros p. destruct (decide (p = p0)) as [->|]; [|by rewrite lookup_alter_ne].
        rewrite lookup_alter. rewrite decide_True by done. by destruct (_ !! p0). }
  destruct Hshape as [Hchain Hjobs].
  assert (Hsome : ∀ p, is_Some (heap' !! p) ↔ p = at_ ∨ is_Some (heap !! p)).
  { intros p. rewrite <- (fmap_is_Some c_job), Hjobs, fmap_is_Some. rewrite lookup_insert_is_Some'. naive_solver. }
  assert (Hold : ∀ l, at_ ∉ l → jobs_of heap' l = jobs_of heap l).
  { intros l Hl. apply chain_jobs. intros p Hp. rewrite Hjobs, lookup_insert_ne; [done|set_solver]. }
  assert (Henq : enqueue at_ job (mkScriptWorker heap head tail queued capacity stopping threads)
                 = mkScriptWorker heap' (sw_head (enqueue at_ job (mkScriptWorker heap head tail queued capacity stopping threads)))
                     (Some at_) (queued + 1) capacity stopping threads).
  { unfold heap', enqueue. cbn. by destruct tail. }
  rewrite Henq. split; cbn [tr_worker tr_accepted tr_started tr_finished sw_heap sw_head sw_tail sw_queued sw_capacity sw_stopping sw_threads];
    unfold taken; cbn [sw_threads].
  - done.
  - by rewrite last_snoc.
  - rewrite <- app_assoc. cbn [app]. rewrite <- Permutation_middle. by constructor.
  - intros p. rewrite Hsome, Hd. set_solver.
  - rewrite zlen_app, zlen_cons, zlen_nil. lia.
  - done.
  - rewrite zlen_app, zlen_cons, zlen_nil. lia.
  - rewrite jobs_of_app, Hold, app_assoc, Hf by set_solver. f_equal.
    assert (Hat : c_job <$> heap' !! at_ = Some job).
    { rewrite Hjobs, lookup_insert. by rewrite decide_True by done. }
    unfold jobs_of. cbn. by rewrite Hat.
  - rewrite Hold by set_solver. done.
  - intros Hin. apply He in Hin as [? _]. congruence.
  - done.
Qed.

#[export] Instance jobs_of_perm heap : Proper ((≡ₚ) ==> (≡ₚ)) (jobs_of heap).
Proof. intros l k Hlk. unfold jobs_of. by rewrite Hlk. Qed.

Lemma taken_set i u t w :
  sw_threads w !! i = Some t →
  taken (set_thread i u w) ++ option_list (running t) ≡ₚ taken w ++ option_list (running u).
Proof. apply taken_insert. Qed.

Lemma job_of_set i u w : (i < length (sw_threads w))%nat →
  job_of i (set_thread i u w) = jobs_of (sw_heap w) (option_list (running u)).
Proof. intros Hi. unfold job_of, set_thread. cbn. rewrite list_lookup_insert_eq by done. done. Qed.

Lemma jobs_of_delete heap j l : j ∉ l → jobs_of (delete j heap) l = jobs_of heap l.
Proof. intros Hj. apply chain_jobs. intros p Hp. by rewrite lookup_delete_ne by set_solver. Qed.

Lemma elem_of_insert_inv {A} (l : list A) i x y : x ∈ <[i := y]> l → x = y ∨ x ∈ l.
Proof.
  intros [j Hj]%list_elem_of_lookup. destruct (decide (i = j)) as [->|].
  - apply list_lookup_insert_Some in Hj as [(_ & <- & _)|(? & _)]; [by left|done].
  - rewrite list_lookup_insert_ne in Hj by done. right. by eapply list_elem_of_lookup_2.
Qed.

Lemma exit_inv cap n t i :
  tr_inv cap n t [] → sw_threads (tr_worker t) !! i = Some Waiting → sw_stopping (tr_worker t) = true →
  tr_inv cap n (mkTrace (set_thread i Exited (tr_worker t)) (tr_accepted t) (tr_started t ++ []) (tr_finished t ++ [])) [].
Proof.
  intros [Hc Ht Hnd Hd Hq Hcap Hb Hf Ho He Hn] Hw Hs. pose proof (taken_set i Exited Waiting _ Hw) as Hp.
  cbn in Hp. rewrite !app_nil_r in Hp. rewrite !app_nil_r. cbn in Hnd, Hd, Hf. rewrite app_nil_r in Hf.
  split; cbn [tr_worker tr_accepted tr_started tr_finished app]; try done.
  - by rewrite Hp.
  - intros p. rewrite Hp. apply Hd.
  - by rewrite app_nil_r.
  - by rewrite Hp.
  - unfold set_thread; cbn. by rewrite length_insert.
Qed.

Lemma take_inv cap n t i p q c :
  tr_inv cap n t (p :: q) → sw_threads (tr_worker t) !! i = Some Waiting → sw_heap (tr_worker t) !! p = Some c →
  ∀ w', dequeue (tr_worker t) = Some (p, w') →
  tr_inv cap n (mkTrace (set_thread i (Running p) w') (tr_accepted t) (tr_started t ++ [c_job c]) (tr_finished t)) q.
Proof.
  intros [Hc Ht Hnd Hd Hq Hcap Hb Hf Ho He Hn] Hw Hp w' Hdq. destruct Hc as (Hhead & c' & Hc' & Hc).
  rewrite Hp in Hc'. injection Hc' as <-. unfold dequeue in Hdq. rewrite Hhead, Hp in Hdq. injection Hdq as <-.
  rewrite (jobs_of_cons _ p c) in Hf by done.
  match goal with |- context [set_thread i _ ?w] =>
    pose proof (taken_set i (Running p) Waiting w Hw) as Htk; change (taken w) with (taken (tr_worker t)) in Htk end.
  cbn [running option_list option_rect] in Htk. unfold option_list, option_rect in Htk. rewrite app_nil_r in Htk. rewrite (Permutation_app_comm _ [_]) in Htk. cbn [app] in Htk.
  split; cbn [tr_worker tr_accepted tr_started tr_finished]; unfold set_thread in *;
    cbn [sw_heap sw_head sw_tail sw_queued sw_capacity sw_stopping sw_threads] in *.
  - done.
  - destruct q as [|p' q]; cbn in Hc; [by rewrite Hc|]. destruct Hc as [-> _]. by rewrite Ht.
  - by rewrite Htk, <- Permutation_middle.
  - intros r. rewrite Htk, Hd. set_solver.
  - rewrite Hq, zlen_cons. lia.
  - done.
  - rewrite zlen_cons in Hb. lia.
  - by rewrite <- app_assoc.
  - rewrite Htk, (jobs_of_cons _ p c) by done. rewrite <- !Permutation_middle, app_nil_r. by rewrite Ho.
  - intros Hin%elem_of_insert_inv. destruct Hin as [|Hin]; [done|]. by apply He in Hin as [? ?].
  - by rewrite length_insert.
Qed.

Lemma free_inv cap n t i j q c :
  tr_inv cap n t q → sw_threads (tr_worker t) !! i = Some (Running j) → sw_heap (tr_worker t) !! j = Some c →
  ∀ w, w = tr_worker t →
  tr_inv cap n (mkTrace (set_thread i Waiting (mkScriptWorker (delete j (sw_heap w)) (sw_head w) (sw_tail w)
      (sw_queued w) (sw_capacity w) (sw_stopping w) (sw_threads w))) (tr_accepted t) (tr_started t) (tr_finished t ++ [c_job c])) q.
Proof.
  intros [Hc Ht Hnd Hd Hq Hcap Hb Hf Ho He Hn] Hw Hj w ->.
  match goal with |- context [set_thread i _ ?w] =>
    pose proof (taken_set i Waiting (Running j) w Hw) as Htk; change (taken w) with (taken (tr_worker t)) in Htk end.
  cbn [running option_list option_rect] in Htk. unfold option_list, option_rect in Htk. rewrite app_nil_r in Htk. rewrite (Permutation_app_comm _ [_]) in Htk. cbn [app] in Htk.
  pose proof Hnd as Hnd2. rewrite <- Htk, <- Permutation_middle in Hnd2. apply NoDup_cons in Hnd2 as [Hjn Hnd2].
  split; cbn [tr_worker tr_accepted tr_started tr_finished]; unfold set_thread in *;
    cbn [sw_heap sw_head sw_tail sw_queued sw_capacity sw_stopping sw_threads] in *; try done.
  - eapply chain_frame; [|done]. intros p Hp. rewrite lookup_delete_ne; [done|]. set_solver.
  - intros p. rewrite lookup_delete_is_Some, Hd, <- Htk. rewrite elem_of_app, elem_of_cons, elem_of_app in *. set_solver.
  - rewrite jobs_of_delete by set_solver. done.
  - rewrite jobs_of_delete by set_solver. rewrite Ho, <- Htk, (jobs_of_cons _ j c) by done.
    by rewrite <- app_assoc.
  - intros Hin%elem_of_insert_inv. destruct Hin as [|Hin]; [done|]. by apply He.
  - by rewrite length_insert.
Qed.

(** What a turn is, by cases, in a state that satisfies the invariant. *)
Inductive TurnOf (i : nat) (t : Trace) (q : list positive) (t' : Trace) : Prop :=
  | TurnExit : q = [] → sw_threads (tr_worker t) !! i = Some Waiting → sw_stopping (tr_worker t) = true →
      t' = mkTrace (set_thread i Exited (tr_worker t)) (tr_accepted t) (tr_started t ++ []) (tr_finished t ++ []) →
      TurnOf i t q t'
  | TurnTake p q' c w' : q = p :: q' → sw_threads (tr_worker t) !! i = Some Waiting →
      sw_heap (tr_worker t) !! p = Some c → dequeue (tr_worker t) = Some (p, w') →
      t' = mkTrace (set_thread i (Running p) w') (tr_accepted t) (tr_started t ++ [c_job c]) (tr_finished t) →
      TurnOf i t q t'
  | TurnFree j c : sw_threads (tr_worker t) !! i = Some (Running j) → sw_heap (tr_worker t) !! j = Some c →
      t' = mkTrace (set_thread i Waiting (mkScriptWorker (delete j (sw_heap (tr_worker t))) (sw_head (tr_worker t))
        (sw_tail (tr_worker t)) (sw_queued (tr_worker t)) (sw_capacity (tr_worker t)) (sw_stopping (tr_worker t))
        (sw_threads (tr_worker t)))) (tr_accepted t) (tr_started t) (tr_finished t ++ [c_job c]) →
      TurnOf i t q t'.

Lemma jobs_of_one heap j c : heap !! j = Some c → jobs_of heap [j] = [c_job c].
Proof. intros Hj. by rewrite (jobs_of_cons _ j c). Qed.

Lemma job_of_thread i w u : sw_threads w !! i = Some u → job_of i w = jobs_of (sw_heap w) (option_list (running u)).
Proof. intros Hu. unfold job_of. by rewrite Hu. Qed.

Lemma turn_cases cap n t q i t' : tr_inv cap n t q → act (Turn i) t = Some t' → TurnOf i t q t'.
Proof.
  intros Hi Ha. cbn [act] in Ha. apply bind_Some in Ha as (w' & Hw' & [= <-]). unfold worker_turn in Hw'.
  destruct (sw_threads (tr_worker t) !! i) as [u|] eqn:Hth; [|done]. pose proof (lookup_lt_Some _ _ _ Hth) as Hlt.
  rewrite (job_of_thread _ (tr_worker t) _ Hth). destruct u as [|j|]; [| |done].
  - pose proof (ti_chain _ _ _ _ Hi) as Hc. destruct (sw_head (tr_worker t)) as [h|] eqn:Hh.
    + apply bind_Some in Hw' as ([p w1] & Hd & [= <-]). destruct q as [|p' q]; [done|].
      destruct Hc as ([= <-] & c & Hp & Hc). pose proof Hd as Hd2. unfold dequeue in Hd2. rewrite Hh, Hp in Hd2.
      injection Hd2 as Hph Hw1. subst p. eapply TurnTake; try done. rewrite job_of_set by (by rewrite <- Hw1).
      rewrite <- Hw1 at 2. cbn [sw_heap running option_list option_rect]. rewrite (jobs_of_one _ _ c) by done.
      by rewrite app_nil_r.
    + destruct (sw_stopping (tr_worker t)) eqn:Hs; [|done]. injection Hw' as <-. destruct q; [|by destruct Hc].
      apply TurnExit; try done. rewrite job_of_set by done. done.
  - injection Hw' as <-. assert (Hj : is_Some (sw_heap (tr_worker t) !! j)).
    { apply (ti_dom _ _ _ _ Hi), elem_of_app. right. unfold taken. apply list_elem_of_omap. exists (Running j).
      split; [by eapply list_elem_of_lookup_2|done]. }
    destruct Hj as [c Hj]. eapply TurnFree; try done. rewrite job_of_set by done. cbn [running option_list option_rect].
    rewrite (jobs_of_one _ _ c) by done. by rewrite app_nil_r.
Qed.

Lemma turn_inv cap n t q i t' : tr_inv cap n t q → act (Turn i) t = Some t' → ∃ q', tr_inv cap n t' q'.
Proof.
  intros Hi Ha. destruct (turn_cases _ _ _ _ _ _ Hi Ha) as [-> ? ? ->|p q' c w' -> ? ? ? ->|j c ? ? ->].
  - eexists. by apply exit_inv.
  - exists q'. by eapply take_inv.
  - exists q. by eapply free_inv.
Qed.

Lemma stop_inv cap n t q : tr_inv cap n t q → tr_inv cap n (mkTrace (stop (tr_worker t)) (tr_accepted t) (tr_started t) (tr_finished t)) q.
Proof. intros [Hc Ht Hnd Hd Hq Hcap Hb Hf Ho He Hn]. split; try done. cbn. intros Hin. by apply He in Hin as [? ?]. Qed.

Lemma acts_inv cap n l : ∀ t q t', tr_inv cap n t q → acts l t = Some t' → ∃ q', tr_inv cap n t' q'.
Proof.
  induction l as [|a l IH]; intros t q t' Hi Ha; cbn in Ha; [injection Ha as <-; eauto|].
  apply bind_Some in Ha as (t1 & Ha1 & Ha). assert (∃ q1, tr_inv cap n t1 q1) as [q1 Hi1].
  { destruct a as [at_ spec|i|]; [by eapply script_submit_inv|by eapply turn_inv|].
    injection Ha1 as <-. eexists. by apply stop_inv. }
  by eapply IH.
Qed.

(** ** The properties *)

Lemma taken_length w : (length (taken w) <= length (sw_threads w))%nat.
Proof. unfold taken. induction (sw_threads w) as [|u l IH]; cbn; [lia|]. destruct (running u); cbn; lia. Qed.

Lemma jobs_of_length heap l : (∀ p, p ∈ l → is_Some (heap !! p)) → length (jobs_of heap l) = length l.
Proof.
  induction l as [|p l IH]; intros Hl; [done|]. destruct (Hl p) as [c Hc]; [set_solver|].
  rewrite (jobs_of_cons _ _ c) by done. cbn. f_equal. apply IH. set_solver.
Qed.

Lemma jobs_of_subset_length heap l : (length (jobs_of heap l) <= length l)%nat.
Proof. unfold jobs_of. induction l as [|p l IH]; cbn; [lia|]. destruct (c_job <$> heap !! p); cbn; lia. Qed.

(** C28: C: in every run jobs are started in the order in which they were accepted,
    the queue holds the accepted jobs that were not started and is never longer
    than its capacity, no more jobs run than there are threads, and an offered
    job is refused exactly when it cannot be copied, the worker is stopping or
    the queue is full. *)
Theorem script_queue_fifo created capacity workers w l t :
  0 <= capacity → script_worker_create created capacity workers = Ok w → acts l (fresh_trace w) = Some t →
  ∃ queue at_work,
    tr_accepted t = tr_started t ++ queue ∧
    sw_queued (tr_worker t) = zlen queue ∧ zlen queue <= capacity ∧
    tr_started t ≡ₚ tr_finished t ++ at_work ∧ (length at_work <= workers)%nat ∧
    (∀ at_ spec, (∃ w', script_worker_submit at_ (Some spec) (tr_worker t) = (Ok tt, w'))
      ↔ (∃ job, job_copy (Some spec) = Ok job) ∧ sw_stopping (tr_worker t) = false ∧ zlen queue < capacity).
Proof.
  intros Hcap Hc Ha. destruct (acts_inv _ _ _ _ _ _ (created_inv _ _ _ _ Hcap Hc) Ha) as [q Hi].
  exists (jobs_of (sw_heap (tr_worker t)) q), (jobs_of (sw_heap (tr_worker t)) (taken (tr_worker t))).
  assert (Hlen : zlen (jobs_of (sw_heap (tr_worker t)) q) = zlen q).
  { unfold zlen. rewrite jobs_of_length; [done|]. intros p Hp. apply (ti_dom _ _ _ _ Hi). set_solver. }
  rewrite Hlen. split_and!; [by rewrite (ti_fifo _ _ _ _ Hi)|by apply Hi|by apply Hi|by apply Hi| |].
  - etrans; [apply jobs_of_subset_length|]. rewrite <- (ti_threads _ _ _ _ Hi). apply taken_length.
  - intros at_ spec. unfold script_worker_submit. rewrite (ti_queued _ _ _ _ Hi), (ti_capacity _ _ _ _ Hi).
    destruct (job_copy (Some spec)) as [job|e]; [|split; [by intros [? ?]|by intros [[? ?] _]]].
    destruct (sw_stopping (tr_worker t)); cbn [orb]; [split; [by intros [? ?]|by intros (_ & ? & _)]|].
    destruct (Z.leb_spec capacity (zlen q)); split; naive_solver lia.
Qed.

(** What is left to do once no more jobs are accepted. *)
Definition thread_work (u : Thread) : nat := match u with Waiting => 1 | Running _ => 2 | Exited => 0 end.
Definition work_left (t : Trace) : nat :=
  2 * Z.to_nat (sw_queued (tr_worker t)) + list_sum (map thread_work (sw_threads (tr_worker t))).

Lemma thread_work_set (ts : list Thread) i u u' : ts !! i = Some u →
  (list_sum (map thread_work (<[i := u']> ts)) + thread_work u = list_sum (map thread_work ts) + thread_work u')%nat.
Proof.
  unfold list_sum. revert i. induction ts as [|v ts IH]; intros [|i] Hi; cbn in Hi; [done|done| |].
  - injection Hi as ->. cbn. lia.
  - specialize (IH i Hi). change (<[S i := u']> (v :: ts)) with (v :: <[i := u']> ts). cbn [map fold_right] in *. lia.
Qed.

Lemma turn_works cap n t q i t' : tr_inv cap n t q → act (Turn i) t = Some t' →
  (work_left t' < work_left t)%nat ∧ sw_stopping (tr_worker t') = sw_stopping (tr_worker t).
Proof.
  intros Hi Ha. pose proof (ti_queued _ _ _ _ Hi) as Hq.
  destruct (turn_cases _ _ _ _ _ _ Hi Ha) as [-> Hw Hs ->|p q' c w' -> Hw Hp Hd ->|j c Hw Hj ->]; unfold work_left;
    cbn [tr_worker set_thread sw_threads sw_queued sw_stopping].
  - pose proof (thread_work_set _ _ _ Exited Hw). cbn in *. split; [lia|done].
  - unfold dequeue in Hd. destruct (sw_head (tr_worker t)) as [h|]; [|done].
    destruct (sw_heap (tr_worker t) !! h) as [d|]; [|done]. simplify_eq. cbn [sw_threads sw_queued sw_stopping].
    pose proof (thread_work_set _ _ _ (Running p) Hw). cbn in *. rewrite zlen_cons in Hq. pose proof (zlen_nonneg q').
    split; [lia|done].
  - pose proof (thread_work_set _ _ _ Waiting Hw). cbn in *. split; [lia|done].
Qed.

(** A stopping worker that cannot go on has finished. *)
Lemma stuck_is_finished cap n t q : tr_inv cap n t q → (0 < n)%nat → sw_stopping (tr_worker t) = true →
  (∀ i, act (Turn i) t = None) →
  finish_destroy (tr_worker t) = Some ∅ ∧ tr_started t = tr_accepted t ∧ tr_finished t ≡ₚ tr_accepted t.
Proof.
  intros Hi Hn Hs Hstuck.
  assert (Hall : ∀ i u, sw_threads (tr_worker t) !! i = Some u → u = Exited).
  { intros i u Hu. specialize (Hstuck i). cbn [act] in Hstuck. unfold worker_turn in Hstuck. rewrite Hu in Hstuck.
    destruct u as [|j|]; [exfalso|by cbn in Hstuck|done]. unfold dequeue in Hstuck.
    destruct (sw_head (tr_worker t)) as [h|] eqn:Hh; [|by rewrite Hs in Hstuck].
    pose proof (ti_chain _ _ _ _ Hi) as Hc. destruct q as [|p q]; cbn in Hc; [by rewrite Hh in Hc|].
    destruct Hc as (Heq & c & Hp & _). rewrite Hh in Heq. injection Heq as ->. by rewrite Hp in Hstuck. }
  assert (Hq : q = []).
  { apply (ti_exit _ _ _ _ Hi). destruct (sw_threads (tr_worker t)) as [|u ts] eqn:Hts.
    { pose proof (ti_threads _ _ _ _ Hi) as Hlen. rewrite Hts in Hlen. cbn in Hlen. lia. }
    rewrite (Hall 0%nat u) by done. set_solver. }
  subst q. assert (Ht : taken (tr_worker t) = []).
  { unfold taken. assert (HF : Forall (λ u, u = Exited) (sw_threads (tr_worker t))) by (apply Forall_lookup; apply Hall).
    clear -HF. induction HF as [|u ts -> _ IH]; cbn; [done|]. apply IH. }
  assert (He : sw_heap (tr_worker t) = ∅).
  { apply map_empty. intros p. destruct (sw_heap (tr_worker t) !! p) eqn:Hp; [|done].
    assert (Hin : p ∈ [] ++ taken (tr_worker t)) by (apply (ti_dom _ _ _ _ Hi); eauto). rewrite Ht in Hin. set_solver. }
  pose proof (ti_fifo _ _ _ _ Hi) as Hf. cbn in Hf. rewrite app_nil_r in Hf.
  pose proof (ti_once _ _ _ _ Hi) as Ho. rewrite Ht in Ho. cbn in Ho. rewrite app_nil_r in Ho.
  split_and!; [|done|by rewrite <- Ho, Hf].
  unfold finish_destroy. rewrite He. replace (forallb _ _) with true; [done|]. symmetry. apply forallb_forall.
  intros u Hu%list_elem_of_In. apply list_elem_of_lookup in Hu as [i Hu]. apply bool_decide_eq_true. by apply (Hall i).
Qed.

Lemma turns_work cap n l : ∀ t q t', tr_inv cap n t q → acts (map Turn l) t = Some t' →
  (length l + work_left t' <= work_left t)%nat ∧ sw_stopping (tr_worker t') = sw_stopping (tr_worker t).
Proof.
  induction l as [|i l IH]; intros t q t' Hi Ha; cbn in Ha; [injection Ha as <-; cbn; split; [lia|done]|].
  apply bind_Some in Ha as (t1 & Ha1 & Ha). pose proof (turn_works _ _ _ _ _ _ Hi Ha1) as [Hlt Hs].
  destruct (turn_inv _ _ _ _ _ _ Hi Ha1) as [q1 Hi1]. destruct (IH _ _ _ Hi1 Ha) as [Hle Hs1]. cbn [length]. split; [lia|congruence].
Qed.

Lemma turns_accepted l : ∀ t t2, acts (map Turn l) t = Some t2 → tr_accepted t2 = tr_accepted t.
Proof.
  induction l as [|i l IH]; intros t t2 Ha; cbn [map acts] in Ha; [by injection Ha as <-|].
  apply bind_Some in Ha as (t1 & Ha1 & Ha). rewrite (IH _ _ Ha). by apply bind_Some in Ha1 as (w1 & _ & [= <-]).
Qed.

(** C26: C: [script_worker_destroy] waits for every accepted job: once stopping, the
    threads can take only a bounded number of turns, and when none is left every
    thread has ended, every accepted job was started in order and finished
    exactly once, and no job is left allocated. *)
Theorem script_worker_drains created capacity workers w l t turns t' :
  0 <= capacity → script_worker_create created capacity workers = Ok w → acts l (fresh_trace w) = Some t →
  act Stop t = Some t' →
  ∀ t2, acts (map Turn turns) t' = Some t2 →
    (length turns <= work_left t')%nat ∧
    ((∀ i, act (Turn i) t2 = None) →
     finish_destroy (tr_worker t2) = Some ∅ ∧ tr_started t2 = tr_accepted t ∧ tr_finished t2 ≡ₚ tr_accepted t).
Proof.
  intros Hcap Hc Ha Hstop t2 Ht2. destruct (acts_inv _ _ _ _ _ _ (created_inv _ _ _ _ Hcap Hc) Ha) as [q Hi].
  assert (Hw : (0 < workers)%nat).
  { unfold script_worker_create in Hc. destruct (decide (workers = 0%nat)) as [->|]; [|lia].
    rewrite bool_decide_true, orb_true_r in Hc by done. done. }
  injection Hstop as <-. pose proof (stop_inv _ _ _ _ Hi) as Hi1. pose proof (turns_work _ _ _ _ _ _ Hi1 Ht2) as [Hle Hs].
  split; [lia|]. intros Hstuck. destruct (acts_inv _ _ _ _ _ _ Hi1 Ht2) as [q2 Hi2].
  assert (Hacc : tr_accepted t2 = tr_accepted t) by apply (turns_accepted turns _ _ Ht2).
  rewrite <- Hacc. by eapply stuck_is_finished.
Qed.

(** ** Jobs of the recorder *)
Lemma copy_all_ok {A B} (copy : A → Res B) (l : list A) (k : list B) :
  Forall2 (λ x y, copy x = Ok y) l k → copy_all copy l = Ok k.
Proof. induction 1 as [|x y l k Hxy _ IH]; cbn; [done|]. by rewrite Hxy, IH. Qed.

Lemma copy_string_ok s max : zlen s <= max → copy_string (Some s) max = Ok s.
Proof. intros Hs. cbn. by destruct (Z.ltb_spec max (zlen s)); [lia|]. Qed.

Definition env_ok (nv : bytes * bytes) : Prop :=
  ztake 4 nv.1 = C "REC_" ∧ zlen nv.1 <= 16 ∧ zlen nv.2 <= SCRIPT_MAX_ENV_LEN.

Lemma copy_env_ok nv : env_ok nv → copy_env nv.1 (Some nv.2) = Ok nv.
Proof.
  intros (Hp & Hn & Hv). unfold copy_env. rewrite Hp, beq_refl. cbn [guard_res rbind].
  rewrite !copy_string_ok by (unfold SCRIPT_MAX_ENV_LEN in *; lia). by destruct nv.
Qed.

Lemma zip_fst_snd {A B} (l : list (A * B)) : zip (map fst l) (map (Some ∘ snd) l) = map (λ p, (p.1, Some p.2)) l.
Proof. induction l as [|[a b] l IH]; cbn; [done|]. by rewrite IH. Qed.

Lemma job_copy_spec_of job :
  0 < zlen (sj_argv job) <= SCRIPT_MAX_ARGC → Forall (λ a, zlen a <= SCRIPT_MAX_ARG_LEN) (sj_argv job) →
  zlen (sj_env job) <= SCRIPT_MAX_ENV → Forall env_ok (sj_env job) → sj_timeout_sec job ≠ 0 →
  job_copy (Some (spec_of_job job)) = if zlen (sj_json_payload job) <=? SCRIPT_MAX_JSON then Ok job else Err EINVAL.
Proof.
  intros Hargc Hargs Henvc Henv Ht. destruct job as [argv json env timeout]; cbn in *.
  unfold zlen at 1 2. rewrite length_map. fold (zlen argv).
  destruct (Z.eqb_spec (zlen argv) 0); [lia|]. destruct (Z.leb_spec (zlen argv) SCRIPT_MAX_ARGC); [|lia].
  fold (zlen env). destruct (Z.leb_spec (zlen env) SCRIPT_MAX_ENV); [|lia]. cbn [negb andb guard_res rbind].
  rewrite (copy_all_ok _ (map Some argv) argv); [cbn [rbind]|].
  2: { apply Forall2_fmap_l. apply Forall_Forall2_diag. eapply Forall_impl; [exact Hargs|]. intros a Ha. by apply copy_string_ok. }
  destruct (Z.ltb_spec SCRIPT_MAX_JSON (zlen json)), (Z.leb_spec (zlen json) SCRIPT_MAX_JSON); try lia; cbn [rbind]; [done|].
  assert (He : match length env with
               | O => Ok []
               | _ => copy_all (λ nv, copy_env nv.1 nv.2) (take (length env) (zip (map fst env) (map (Some ∘ snd) env)))
               end = Ok env).
  { rewrite zip_fst_snd, take_ge by (by rewrite length_map). destruct (length env) eqn:Hl; [by destruct env|].
    apply copy_all_ok, Forall2_fmap_l, Forall_Forall2_diag. eapply Forall_impl; [exact Henv|]. intros nv. apply copy_env_ok. }
  rewrite He. cbn [rbind]. by destruct (Z.eqb_spec timeout 0).
Qed.

Section enqueue.
Context `{RX : RegexLib} `{J : Jansson}.

Lemma script_add_field_ok name field acc :
  ztake 4 name = C "REC_" → zlen name <= 16 →
  Forall env_ok acc.2 ∧ zlen acc.2 <= SCRIPT_ENV_MAX →
  Forall env_ok (script_add_field name field acc).2 ∧ zlen (script_add_field name field acc).2 <= SCRIPT_ENV_MAX.
Proof.
  intros Hn Hl [Hok Hlen]. destruct acc as [members env]. unfold script_add_field. destruct field as [v|]; [|done].
  destruct ((zlen v =? 0) || (SCRIPT_FIELD_MAX <? zlen v) || existsb (Z.eqb 0) v || (SCRIPT_ENV_MAX <=? zlen env)) eqn:Hb; [done|].
  destruct (json_string v); [|done]. cbn [snd] in *.
  apply orb_false_iff in Hb as [[[_ Hv]%orb_false_iff _]%orb_false_iff He]. apply Z.leb_gt in He. apply Z.ltb_ge in Hv.
  split; [|rewrite zlen_app, zlen_cons, zlen_nil; lia].
  apply Forall_app. split; [done|]. apply Forall_singleton. split_and!; [done|done|exact Hv].
Qed.

Lemma script_fields_ok entry : Forall (λ f, ztake 4 f.1 = C "REC_" ∧ zlen f.1 <= 16) (script_fields entry).
Proof. unfold script_fields. repeat (constructor; [split; [reflexivity|vm_compute; discriminate]|]). constructor. Qed.

Lemma script_env_ok fs : Forall (λ f, ztake 4 f.1 = C "REC_" ∧ zlen f.1 <= 16) fs → ∀ acc,
  Forall env_ok acc.2 ∧ zlen acc.2 <= SCRIPT_ENV_MAX →
  Forall env_ok (fold_left (λ a f, script_add_field f.1 f.2 a) fs acc).2 ∧
  zlen (fold_left (λ a f, script_add_field f.1 f.2 a) fs acc).2 <= SCRIPT_ENV_MAX.
Proof.
  induction 1 as [|f fs [Hp Hl] _ IH]; intros acc Hacc; cbn [fold_left]; [done|]. apply IH. by apply script_add_field_ok.
Qed.

(** C: the worker takes a job of the recorder exactly as it was made: with at
    most 128 arguments of at most 64 KiB, as the configuration should give them,
    the copy fails only when the document is longer than 1 MiB.  *)
Theorem enqueued_job_copied modifier argv entry is_replay job :
  job ∈ recorder_script_modifier_enqueue modifier argv entry is_replay →
  1 <= em_script_timeout_sec modifier → 0 < zlen argv <= SCRIPT_MAX_ARGC →
  Forall (λ a, zlen a <= SCRIPT_MAX_ARG_LEN) argv →
  job_copy (Some (spec_of_job job)) = if zlen (sj_json_payload job) <=? SCRIPT_MAX_JSON then Ok job else Err EINVAL.
Proof.
  intros Hin Ht Hc Ha. unfold recorder_script_modifier_enqueue in Hin. destruct (is_replay && _); [set_solver|].
  destruct (script_env_ok _ (script_fields_ok entry) ([], [])) as [He Hl].
  { cbn. split; [constructor|]. unfold SCRIPT_ENV_MAX. by rewrite zlen_nil. }
  destruct (fold_left _ _ _) as [members env]. destruct (json_dumps _) as [payload|]; [|set_solver].
  apply list_elem_of_singleton in Hin as ->. apply job_copy_spec_of; cbn in *; try done; try lia.
  unfold SCRIPT_ENV_MAX, SCRIPT_MAX_ENV in *. lia.
Qed.
End enqueue.

(** ** Running a job takes bounded time *)
Lemma wait_loop_spec answers : ∀ elapsed limit,
  0 <= elapsed <= limit → limit < 4294967280 → (limit - elapsed) mod 10 = 0 →
  match wait_loop answers elapsed limit with
  | Killed => limit - elapsed <= 10 * zlen answers ∧
      Forall (λ a, a = ChildRunning) (ztake ((limit - elapsed) / 10) answers)
  | StillWaiting => 10 * zlen answers < limit - elapsed ∧ Forall (λ a, a = ChildRunning) answers
  | Reaped e => elapsed <= e < limit ∧ answers !! Z.to_nat ((e - elapsed) / 10) = Some ChildDone
  end.
Proof.
  induction answers as [|a answers IH]; intros elapsed limit He Hl Hm; cbn [wait_loop].
  - destruct (Z.ltb_spec elapsed limit); cbn [negb].
    + change (zlen (@nil WaitAnswer)) with 0. split; [lia|constructor].
    + change (zlen (@nil WaitAnswer)) with 0. split; [lia|]. unfold ztake. rewrite take_nil. constructor.
  - destruct (Z.ltb_spec elapsed limit) as [Hlt|]; cbn [negb].
    2: { replace limit with elapsed by lia. rewrite Z.sub_diag. split; [pose proof (zlen_nonneg (a :: answers)); lia|constructor]. }
    destruct a; [split; [lia|]; by rewrite Z.sub_diag|].
    assert (Hten : limit - elapsed = 10 * ((limit - elapsed) / 10)) by (apply Z.div_exact; lia).
    rewrite u32_id by (unfold is_u32; lia). specialize (IH (elapsed + 10) limit ltac:(lia) ltac:(lia)).
    replace (limit - (elapsed + 10)) with ((limit - elapsed) + (-1) * 10) in IH by lia.
    rewrite Z.mod_add, Z.div_add in IH by lia. specialize (IH Hm). rewrite zlen_cons.
    destruct (wait_loop answers (elapsed + 10) limit).
    + destruct IH as [Hr Hd]. split; [lia|].
      assert (0 <= (elapsed0 - (elapsed + 10)) / 10) by (apply Z.div_pos; lia).
      replace ((elapsed0 - elapsed) / 10) with ((elapsed0 - (elapsed + 10)) / 10 + 1).
      { rewrite Z2Nat.inj_add by lia. rewrite Nat.add_comm. done. }
      rewrite <- Z.div_add by lia. f_equal. lia.
    + destruct IH as [Hr Hf]. split; [lia|]. replace ((limit - elapsed) / 10) with (1 + ((limit - elapsed) / 10 + -1)) by lia.
      unfold ztake in *. rewrite Z2Nat.inj_add by lia. cbn. by constructor.
    + destruct IH as [Hr Hf]. split; [lia|]. by constructor.
Qed.

Definition write_count (answers : list WriteAnswer) : Z :=
  zlen (List.filter (λ a, match a with Wrote _ => true | _ => false end) answers).

Lemma feed_more answers : ∀ off total limit off',
  feed_loop answers off total limit = FeedMore off' →
  off + write_count answers <= off' <= total ∧
  Forall (λ a, match a with WriteFailed _ _ now => u32 now < limit | Wrote _ => True end) answers.
Proof.
  induction answers as [|a answers IH]; intros off total limit off'; cbn [feed_loop];
    (destruct (Z.ltb_spec off (total + 1)); cbn [negb]; [|done]).
  - intros [= <-]. change (write_count []) with 0. split; [lia|constructor].
  - unfold write_count in *. destruct a as [n|e sp now]; cbn [List.filter].
    + destruct (Z.ltb_spec 0 n); [|done]. intros Hf. apply IH in Hf as [Hr Hf]. rewrite zlen_cons. split; [lia|by constructor].
    + destruct (bool_decide (e = EAGAIN)); [|done]. destruct (Z.leb_spec limit (u32 now)); [done|].
      intros Hf. apply IH in Hf as [Hr Hf]. split; [lia|by constructor].
Qed.

(** C27: C: running a job ends.  With a timeout of 1 to 86400 seconds, which every
    configured modifier has, the limit in milliseconds does not wrap; feeding the
    child goes on only while fewer than all bytes were written and the limit is
    not reached; and the wait for the child takes at most a hundred polls per
    second of the timeout: then the child is killed, which happens exactly when
    all these polls found it running. *)
Theorem script_run_bounded sigpipe_ignored writes waits job :
  1 <= sj_timeout_sec job <= 86400 →
  timeout_ms job = 1000 * sj_timeout_sec job ∧
  (∀ off, feed_loop writes 0 (zlen (sj_json_payload job)) (timeout_ms job) = FeedMore off →
     write_count writes <= zlen (sj_json_payload job) ∧
     Forall (λ a, match a with WriteFailed _ _ now => u32 now < 1000 * sj_timeout_sec job | Wrote _ => True end) writes) ∧
  (100 * sj_timeout_sec job <= zlen waits → (run_job sigpipe_ignored writes waits job).2 ≠ StillWaiting) ∧
  ((run_job sigpipe_ignored writes waits job).2 = Killed ↔
   100 * sj_timeout_sec job <= zlen waits ∧ Forall (λ a, a = ChildRunning) (ztake (100 * sj_timeout_sec job) waits)).
Proof.
  intros Ht. assert (Hms : timeout_ms job = 1000 * sj_timeout_sec job).
  { unfold timeout_ms. rewrite u32_id by (unfold is_u32; lia). lia. }
  split; [done|]. rewrite Hms. split.
  { intros off Hf. apply feed_more in Hf as [Hr Hf]. split; [lia|done]. }
  cbn [run_job snd]. unfold run_job. cbn [snd]. rewrite Hms.
  set (n := 100 * sj_timeout_sec job). replace (1000 * sj_timeout_sec job) with (n * 10) by lia.
  pose proof (wait_loop_spec waits 0 (n * 10) ltac:(lia) ltac:(lia)) as Hw.
  rewrite Z.sub_0_r, Z_mod_mult in Hw. specialize (Hw eq_refl). rewrite Z.div_mul in Hw by lia.
  destruct (wait_loop waits 0 _) as [e| |].
  - split; [done|]. split; [done|]. intros [Hlen Hf]; exfalso. destruct Hw as [Hr Hd]. rewrite Z.sub_0_r in Hd.
    assert (Hlt : 0 <= e / 10 < n).
    { split; [apply Z.div_pos; lia|]. apply Z.div_lt_upper_bound; lia. }
    unfold ztake in Hf. rewrite Forall_lookup in Hf. specialize (Hf (Z.to_nat (e / 10)) ChildDone).
    rewrite lookup_take_lt in Hf by lia. by specialize (Hf Hd).
  - split; [done|]. destruct Hw. split; [|done]. intros _. split; [lia|done].
  - destruct Hw. split; [lia|]. split; [done|]. intros [? _]. lia.
Qed.

(** ** Concrete runs *)
Definition demo_job (name : string) : ScriptJob := mkScriptJob [C "/bin/true"] (C name) [(C "REC_PID", C "7")] 30.
Definition demo_spec (name : string) : ScriptJobSpec := spec_of_job (demo_job name).
Definition demo_worker : ScriptWorker := mkScriptWorker ∅ None None 0 2 false [Waiting; Waiting].
(** Five jobs for two threads and a queue of two: the fourth is refused. *)
Definition demo_actions : list Action :=
  [Submit 1 (demo_spec "a"); Submit 2 (demo_spec "b"); Turn 0; Submit 3 (demo_spec "c"); Submit 4 (demo_spec "d");
   Turn 1; Turn 0; Submit 1 (demo_spec "e")].
Definition demo_trace : Trace :=
  Eval vm_compute in default (fresh_trace demo_worker) (acts demo_actions (fresh_trace demo_worker)).

Lemma demo_trace_runs : acts demo_actions (fresh_trace demo_worker) = Some demo_trace.
Proof. vm_compute. reflexivity. Qed.

Lemma script_queue_fifo_witness :
  map sj_json_payload (tr_accepted demo_trace) = [C "a"; C "b"; C "c"; C "e"] ∧
  map sj_json_payload (tr_started demo_trace) = [C "a"; C "b"] ∧
  ∃ queue, tr_accepted demo_trace = tr_started demo_trace ++ queue ∧ zlen queue <= 2.
Proof.
  split; [reflexivity|]. split; [reflexivity|].
  destruct (script_queue_fifo (λ _, None) 2 2 demo_worker demo_actions demo_trace) as (q & aw & H1 & _ & H2 & _);
    [lia|reflexivity|apply demo_trace_runs|]. exists q. split; [exact H1|exact H2].
Defined.

Definition demo_stopped : Trace :=
  mkTrace (stop (tr_worker demo_trace)) (tr_accepted demo_trace) (tr_started demo_trace) (tr_finished demo_trace).
Definition demo_turns : list nat := [0; 0; 1; 1; 0; 1; 1]%nat.
Definition demo_drained : Trace :=
  Eval vm_compute in default demo_stopped (acts (map Turn demo_turns) demo_stopped).

Lemma script_worker_drains_witness :
  work_left demo_stopped = 7%nat ∧
  map sj_json_payload (tr_finished demo_drained) = [C "a"; C "c"; C "b"; C "e"] ∧
  tr_finished demo_drained ≡ₚ tr_accepted demo_trace.
Proof.
  split; [reflexivity|]. split; [reflexivity|].
  apply (script_worker_drains (λ _, None) 2 2 demo_worker demo_actions demo_trace demo_turns demo_stopped);
    [lia|reflexivity|apply demo_trace_runs|reflexivity|vm_compute; reflexivity|].
  intros [|[|i]]; reflexivity.
Defined.

#[local] Existing Instance toy_jansson.
#[local] Existing Instance toy_regex.

Definition demo_modifier : EntryModifier :=
  mkEntryModifier (C "MESSAGE") (MODIFIER_MATCH_PRESENT true) false None false (-1) (Some [C "/bin/notify"; C "-q"]) false 10.
Definition demo_log_entry : LogEntry :=
  mkLogEntry 5001 4101 0 17 0 0 1 4 0 (C "0123456789abcdef0123456789abcdef") (Some (C "panic")) None None None None None [].

Lemma enqueued_job_copied_witness :
  match recorder_script_modifier_enqueue demo_modifier [C "/bin/notify"; C "-q"] demo_log_entry false with
  | [job] => job_copy (Some (spec_of_job job)) = Ok job ∧ zlen (sj_env job) = 9
  | _ => False
  end.
Proof.
  assert (Hone : ∃ job, recorder_script_modifier_enqueue demo_modifier [C "/bin/notify"; C "-q"] demo_log_entry false = [job]
                   ∧ (zlen (sj_json_payload job) <=? SCRIPT_MAX_JSON) = true ∧ zlen (sj_env job) = 9).
  { eexists. split; [reflexivity|]. split; vm_compute; reflexivity. }
  destruct Hone as (job & Heq & Hlen & He). rewrite Heq. split; [|exact He].
  rewrite (enqueued_job_copied demo_modifier [C "/bin/notify"; C "-q"] demo_log_entry false job).
  - by rewrite Hlen.
  - rewrite Heq. set_solver.
  - cbn. lia.
  - vm_compute. split; [reflexivity|discriminate].
  - repeat constructor; vm_compute; discriminate.
Defined.

(** A child that is found running at every poll of its second, and one that
    ends. *)
Definition slow_job : ScriptJob := mkScriptJob [C "/bin/slow"] (C "{}") [] 1.
Lemma script_run_bounded_witness :
  (run_job false [Wrote 2; Wrote 1] (replicate 100 ChildRunning) slow_job) = (Alive, Killed) ∧
  (run_job false [Wrote 2; Wrote 1] (replicate 100 ChildRunning) slow_job).2 ≠ StillWaiting.
Proof.
  split; [vm_compute; reflexivity|].
  destruct (script_run_bounded false [Wrote 2; Wrote 1] (replicate 100 ChildRunning) slow_job) as (_ & _ & H & _).
  - cbn. lia.
  - apply H. vm_compute. discriminate.
Defined.

(** A script that ends before it has read its input stops the whole process,
    unless SIGPIPE was already ignored when the recorder was started: the signal
    is only blocked around the writes and is still pending when the mask is
    restored. *)
Lemma early_exit_ends_process waits :
  (run_job false [WriteFailed EIO true 0] waits slow_job).1 = KilledBySigpipe ∧
  (run_job true [WriteFailed EIO true 0] waits slow_job).1 = Alive.
Proof. split; reflexivity. Qed.
