(* ===== verification/Player.v ===== *)
(** * The reader library: data, names and scans (src/src/librecorder.c)

    Entries as the reader hands them out, the names and paths of segments, the
    two orders, and the scans of one segment and of all segments.  What the file
    system holds is a record of functions on paths ([ReadFs]); it does not change
    within a call.  Memory allocation succeeds. *)
From S2P Require Import Prelude Bytes Crypto Segment Chunk Index CText.

(** ** State, errno and failure

    A call works on a state [S] and the world; [None] is the return value [-1],
    after which the state and the world are as the call left them. *)
Inductive Kind := KDir | KReg | KOther.
#[export] Instance Kind_eq_dec : EqDecision Kind.
Proof. solve_decision. Defined.

Record ReadFs := mkReadFs {
  rd_dir : bytes → Res (list bytes);    (* opendir and readdir, in its order *)
  rd_stat : bytes → Res Kind;
  rd_blocks : bytes → Z;                (* st_blocks *)
  rd_file : bytes → Res bytes;          (* open, fstat and the content *)
  rd_tmp : bytes → option File;         (* the temporary file of a new index *)
}.
Record World := mkWorld {
  w_fs : ReadFs;
  w_errno : Errno;
}.

Definition SM (S A : Type) : Type := S → World → option A * S * World.
#[export] Instance SM_ret {S} : MRet (SM S) := λ A a s w, (Some a, s, w).
#[export] Instance SM_bind {S} : MBind (SM S) := λ A B f m s w,
  match m s w with
  | (Some a, s', w') => f a s' w'
  | (None, s', w') => (None, s', w')
  end.

Definition set_errno (e : Errno) (w : World) : World :=
  match e with EUNSET => w | _ => mkWorld (w_fs w) e end.
Definition fail {S A} (e : Errno) : SM S A := λ s w, (None, s, set_errno e w).
Definition get {S} : SM S S := λ s w, (Some s, s, w).
Definition modify {S} (f : S → S) : SM S unit := λ s w, (Some tt, f s, w).
Definition get_fs {S} : SM S ReadFs := λ s w, (Some (w_fs w), s, w).
Definition get_errno {S} : SM S Errno := λ s w, (Some (w_errno w), s, w).
Definition lift {S A} (r : Res A) : SM S A := match r with Ok a => mret a | Err e => fail e end.
(** The result of a call whose failure the caller looks at. *)
Definition attempt {S A} (m : SM S A) : SM S (option A) :=
  λ s w, let '(r, s', w') := m s w in (Some r, s', w').
Definition when {S} (b : bool) (m : SM S unit) : SM S unit := if b then m else mret tt.

(** ** Data (librecorder.h) *)
Record RecorderField := mkRecorderField {
  rf_name : option bytes;
  rf_value : bytes;                     (* [value_size] bytes *)
}.
#[export] Instance RecorderField_eq_dec : EqDecision RecorderField.
Proof. solve_decision. Defined.

(** The group is never NULL: every scan sets it.  A [StoredEntry] is the same
    with copies of the strings. *)
Record RecorderEntry := mkRecorderEntry {
  re_boot_seq : Z;
  re_boot_id : bytes;
  re_segment_seq : Z;
  re_frame_offset : Z;
  re_frame_entry_index : Z;
  re_realtime_ts : Z;
  re_monotonic_ts : Z;
  re_monotonic_tie_order : Z;
  re_pid : Z;
  re_uid : Z;
  re_gid : Z;
  re_priority : Z;
  re_errno_value : Z;
  re_hostname : option bytes;
  re_comm : option bytes;
  re_unit : option bytes;
  re_exe : option bytes;
  re_message : option bytes;
  re_message_id : option bytes;
  re_fields : list RecorderField;
  re_group : bytes;
}.
#[export] Instance RecorderEntry_eq_dec : EqDecision RecorderEntry.
Proof. solve_decision. Defined.
Abbreviation StoredEntry := RecorderEntry.

Inductive RecorderPlayerOrder := RECORDER_ORDER_RECORDED | RECORDER_ORDER_WALLCLOCK.
#[export] Instance RecorderPlayerOrder_eq_dec : EqDecision RecorderPlayerOrder.
Proof. solve_decision. Defined.

Record SegmentPath := mkSegmentPath {
  sp_path : bytes;
  sp_segment_seq : Z;
}.
#[export] Instance SegmentPath_eq_dec : EqDecision SegmentPath.
Proof. solve_decision. Defined.

(** ** Names and paths *)
Definition PATH_SIZE : Z := 512.        (* char path[512] *)
Definition GROUP_SIZE : Z := 64.        (* char group[64] *)

Definition valid_group_name (name : bytes) : bool :=
  negb (zlen name =? 0) && negb (beq name (C "state"))
  && forallb (λ ch, isalnum ch || (ch =? 95) || (ch =? 45)) name.

Definition group_allowed (group_filter : list bytes) (group : bytes) : bool :=
  match group_filter with [] => true | _ => existsb (λ g, beq g group) group_filter end.

(** [snprintf(path, sizeof(path), "%s/%s", a, b)], [None] when it does not fit. *)
Definition child_path (a b : bytes) : option bytes :=
  let p := a ++ [47] ++ b in if PATH_SIZE <=? zlen p then None else Some p.
Definition fits_path (p : bytes) : bool := zlen p <? PATH_SIZE.

(** The parts of a string before and after its last [c] ([strrchr]) and its
    first ([strchr]). *)
Fixpoint rsplit (c : Z) (s : bytes) : option (bytes * bytes) :=
  match s with
  | [] => None
  | x :: s' =>
      match rsplit c s' with
      | Some (a, b) => Some (x :: a, b)
      | None => if x =? c then Some ([], s') else None
      end
  end.
Fixpoint lsplit (c : Z) (s : bytes) : option (bytes * bytes) :=
  match s with
  | [] => None
  | x :: s' =>
      if x =? c then Some ([], s')
      else match lsplit c s' with Some (a, b) => Some (x :: a, b) | None => None end
  end.
Fixpoint skip_char (c : Z) (s : bytes) : bytes :=
  match s with
  | x :: s' => if x =? c then skip_char c s' else s
  | [] => []
  end.

Definition checked_group (g : bytes) : option bytes :=
  if (zlen g =? 0) || (GROUP_SIZE <=? zlen g) then None
  else if valid_group_name g then Some g else None.

(** The group of a segment's path: below the root of a store the first
    component, for a single file the name of its directory. *)
Definition group_from_path (path : bytes) (root_path : option bytes) : option bytes :=
  match root_path with
  | Some root =>
      let root_len := zlen root in
      if negb (root_len =? 0) && beq (ztake root_len path) root
         && ((byte_at root (root_len - 1) =? 47) || (byte_at path root_len =? 47))
      then '(g, _) ← lsplit 47 (skip_char 47 (zdrop root_len path)); checked_group g
      else None
  | None =>
      '(dir, _) ← rsplit 47 path;
      match rev dir with
      | [] => None
      | c :: r =>
          let d := rev r in
          checked_group (match rsplit 47 d with Some (_, after) => after | None => d end ++ [c])
      end
  end.

Definition segment_seq_from_name (name : bytes) : option Z :=
  let '(value, end_, _) := strtoull10 name in
  if beq end_ (C ".seg") then Some value else None.

(** [path] with ".seg" replaced by ".idx", for a destination of [size] bytes. *)
Definition segment_index_path (segment_path : bytes) (size : Z) : option bytes :=
  let len := zlen segment_path in
  if (len <? 5) || negb (beq (zdrop (len - 4) segment_path) (C ".seg")) || (size <? len + 1) then None
  else Some (ztake (len - 4) segment_path ++ C ".idx").

Definition add_segment_path (path : bytes) (segment_seq : Z) (paths : list SegmentPath) : option (list SegmentPath) :=
  if fits_path path then Some (paths ++ [mkSegmentPath path segment_seq]) else None.

(** ** Orders *)
Definition lex (a b : comparison) : comparison := match a with Eq => b | _ => a end.

Fixpoint strcmp (a b : bytes) : comparison :=
  match a, b with
  | [], [] => Eq
  | [], _ :: _ => Lt
  | _ :: _, [] => Gt
  | x :: a', y :: b' => lex (x ?= y) (strcmp a' b')
  end.

Definition compare_location (a b : StoredEntry) : comparison :=
  lex (strcmp (re_group a) (re_group b))
  (lex (re_segment_seq a ?= re_segment_seq b)
  (lex (re_frame_offset a ?= re_frame_offset b)
       (re_frame_entry_index a ?= re_frame_entry_index b))).

Definition compare_stored_entries (a b : StoredEntry) : comparison :=
  lex (re_realtime_ts a ?= re_realtime_ts b)
  (lex (re_boot_seq a ?= re_boot_seq b) (compare_location a b)).

Definition compare_iterator_entries (order : RecorderPlayerOrder) (a b : StoredEntry) : comparison :=
  match order with
  | RECORDER_ORDER_WALLCLOCK => compare_stored_entries a b
  | RECORDER_ORDER_RECORDED =>
      lex (re_boot_seq a ?= re_boot_seq b)
      (lex (re_monotonic_ts a ?= re_monotonic_ts b)
      (lex (re_monotonic_tie_order a ?= re_monotonic_tie_order b) (compare_location a b)))
  end.

Definition compare_segment_path (a b : SegmentPath) : comparison := sp_segment_seq a ?= sp_segment_seq b.
Definition compare_group_names (a b : bytes) : comparison := strcmp a b.

(** [qsort] of the C library: a sorted permutation; the order of elements that
    compare equal is its own. *)
Class CLib := {
  qsort : ∀ {A : Type}, (A → A → comparison) → list A → list A;
}.
Definition le_by {A} (cmp : A → A → comparison) (a b : A) : Prop := cmp a b ≠ Gt.
Class CLib_ok (L : CLib) := {
  qsort_perm : ∀ {A} (cmp : A → A → comparison) l, qsort cmp l ≡ₚ l;
  qsort_sorted : ∀ {A} (cmp : A → A → comparison) l,
    (∀ a b, cmp b a = CompOpp (cmp a b)) → Transitive (le_by cmp) →
    StronglySorted (le_by cmp) (qsort cmp l);
}.

(** ** What a reader is opened with and set to *)
Section player.
Context `{F : FlatCC} `{QS : CLib}.

Record Settings := mkSettings {
  rs_path : bytes;
  rs_path_is_directory : bool;
  rs_store_id : option Z;               (* [have_store_id] and [store_id] *)
  rs_decryptor : option SegmentDecryptor;
  rs_repair_indexes : bool;
  rs_force_repair_indexes : bool;
  rs_unit_filter : option bytes;
  rs_group_filter : list bytes;
  rs_order : RecorderPlayerOrder;
}.
Definition without_groups (r : Settings) : Settings :=
  mkSettings (rs_path r) (rs_path_is_directory r) (rs_store_id r) (rs_decryptor r) (rs_repair_indexes r)
    (rs_force_repair_indexes r) (rs_unit_filter r) [] (rs_order r).
Definition without_filters (r : Settings) : Settings :=
  mkSettings (rs_path r) (rs_path_is_directory r) (rs_store_id r) (rs_decryptor r) (rs_repair_indexes r)
    (rs_force_repair_indexes r) None [] (rs_order r).
(** The root that [group_from_path] is called with. *)
Definition root_path (r : Settings) : option bytes :=
  if rs_path_is_directory r then Some (rs_path r) else None.
Definition path_group (r : Settings) (path : bytes) : option bytes := group_from_path path (root_path r).

(** ** Collecting the segments

    The loops over [readdir]; a name that does not fit is skipped at the root and
    an error inside a group. *)
Fixpoint collect_names (dir_path : bytes) (names : list bytes) (paths : list SegmentPath) : option (list SegmentPath) :=
  match names with
  | [] => Some paths
  | name :: names' =>
      match segment_seq_from_name name with
      | None => collect_names dir_path names' paths
      | Some seq =>
          path ← child_path dir_path name;
          paths' ← add_segment_path path seq paths;
          collect_names dir_path names' paths'
      end
  end.
Definition collect_segment_paths_in_dir {S} (dir_path : bytes) (paths : list SegmentPath) : SM S (list SegmentPath) :=
  fs ← get_fs;
  names ← lift (rd_dir fs dir_path);
  match collect_names dir_path names paths with Some paths' => mret paths' | None => fail EUNSET end.

Fixpoint latest_name (dir_path : bytes) (names : list bytes) (latest : option (bytes * Z)) : option (option (bytes * Z)) :=
  match names with
  | [] => Some latest
  | name :: names' =>
      match segment_seq_from_name name with
      | None => latest_name dir_path names' latest
      | Some seq =>
          if match latest with None => true | Some (_, latest_seq) => latest_seq <? seq end
          then path ← child_path dir_path name; latest_name dir_path names' (Some (path, seq))
          else latest_name dir_path names' latest
      end
  end.
Definition collect_latest_segment_in_dir {S} (dir_path : bytes) (paths : list SegmentPath) : SM S (list SegmentPath) :=
  fs ← get_fs;
  names ← lift (rd_dir fs dir_path);
  match latest_name dir_path names None with
  | None => fail EUNSET
  | Some None => mret paths
  | Some (Some (path, seq)) =>
      match add_segment_path path seq paths with Some paths' => mret paths' | None => fail EUNSET end
  end.

(** The loop over the root directory.  [stat_first]: the loop that collects all
    segments asks for the status of every name, the one for the latest only of
    the names it may visit; a failed status leaves its errno. *)
Fixpoint visit_groups {S} (r : Settings) (stat_first : bool)
    (visit : bytes → list SegmentPath → SM S (list SegmentPath)) (names : list bytes) (paths : list SegmentPath)
    : SM S (list SegmentPath) :=
  match names with
  | [] => mret paths
  | name :: names' =>
      let wanted := valid_group_name name && group_allowed (rs_group_filter r) name in
      let skip := visit_groups r stat_first visit names' paths in
      match child_path (rs_path r) name with
      | None => skip
      | Some path =>
          if stat_first || wanted
          then
            fs ← get_fs;
            kind ← attempt (lift (rd_stat fs path));
            if bool_decide (kind = Some KDir) && wanted
            then paths' ← visit path paths; visit_groups r stat_first visit names' paths'
            else skip
          else skip
      end
  end.
Definition collect_segment_paths {S} (r : Settings) : SM S (list SegmentPath) :=
  fs ← get_fs;
  names ← lift (rd_dir fs (rs_path r));
  visit_groups r true collect_segment_paths_in_dir names [].
Definition collect_latest_segment_paths {S} (r : Settings) : SM S (list SegmentPath) :=
  fs ← get_fs;
  names ← lift (rd_dir fs (rs_path r));
  visit_groups r false collect_latest_segment_in_dir names [].
Definition add_reader_file_path {S} (r : Settings) : SM S (list SegmentPath) :=
  match group_from_path (rs_path r) None with
  | None => fail EUNSET
  | Some group =>
      if group_allowed (rs_group_filter r) group
      then match add_segment_path (rs_path r) 0 [] with Some p => mret p | None => fail EUNSET end
      else mret []
  end.
(** The [if (reader->path_is_directory)] that the scans and the iterator share,
    followed by the sort. *)
Definition all_segment_paths {S} (r : Settings) : SM S (list SegmentPath) :=
  paths ← (if rs_path_is_directory r then collect_segment_paths r else add_reader_file_path r);
  mret (qsort compare_segment_path paths).
Definition latest_segment_paths {S} (r : Settings) : SM S (list SegmentPath) :=
  paths ← (if rs_path_is_directory r then collect_latest_segment_paths r else add_reader_file_path r);
  mret (qsort compare_segment_path paths).

(** ** Scanning one segment *)

(** The [RecorderEntry] that [scan_frame] fills in, from the header, the frame
    and one table of the chunk. *)
Definition located (header : SegmentHeader) (frame : SegmentFrameInfo) (group : bytes) (i : nat)
    (rt mono tie pid uid gid priority errno_value : Z) (hostname comm unit exe message message_id : option bytes)
    (fields : list RecorderField) : RecorderEntry :=
  mkRecorderEntry (sh_boot_seq header) (sh_boot_id header) (sh_segment_seq header) (fi_file_offset frame)
    (u32 (Z.of_nat i)) rt mono tie pid uid gid priority errno_value hostname comm unit exe message message_id
    fields group.
Definition compact_entry (header : SegmentHeader) (frame : SegmentFrameInfo) (group : bytes) (i : nat)
    (item : CompactEntry) : RecorderEntry :=
  located header frame group i (ce_realtime_ts item) (ce_monotonic_ts item) (ce_monotonic_tie_order item)
    (ce_pid item) 0 0 (ce_priority item) 0 None None (ce_unit item) None (ce_message item) None [].
Definition full_entry (header : SegmentHeader) (frame : SegmentFrameInfo) (group : bytes) (i : nat)
    (item : FullEntry) : RecorderEntry :=
  located header frame group i (fe_realtime_ts item) (fe_monotonic_ts item) (fe_monotonic_tie_order item)
    (fe_pid item) (fe_uid item) (fe_gid item) (fe_priority item) (fe_errno item) (fe_hostname item) (fe_comm item)
    (fe_unit item) (fe_exe item) (fe_message item) (fe_message_id item)
    (map (λ f, mkRecorderField (fd_name f) (default [] (fd_value f))) (fe_fields item)).

Definition frame_entries (header : SegmentHeader) (frame : SegmentFrameInfo) (group chunk : bytes) : list RecorderEntry :=
  if has_flag (sh_flags header) SEGMENT_FLAG_COMPACT_ENTRIES
  then imap (compact_entry header frame group) (journal_DefaultChunk_entries chunk)
  else imap (full_entry header frame group) (journal_Chunk_entries chunk).

Section scan.
Context {T : Type}.
(** [rec_player_entry_cb], with its user data. *)
Definition entry_cb : Type := RecorderEntry → T → Z * T.

Fixpoint each_entry (callback : entry_cb) (entries : list RecorderEntry) (ctx : T) : Z * T :=
  match entries with
  | [] => (0, ctx)
  | e :: entries' =>
      let '(rv, ctx') := callback e ctx in
      if rv =? 0 then each_entry callback entries' ctx' else (-1, ctx')
  end.

(** The callback of the segment scans, with the fields of [ScanContext]. *)
Definition scan_frame (callback : entry_cb) (min_frame_offset : Z) (group : bytes) : segment_frame_cb T :=
  λ header frame chunk ctx,
    if fi_file_offset frame <? min_frame_offset then (0, ctx)
    else each_entry callback (frame_entries header frame group chunk) ctx.

(** The committed end, or the failure with its errno. *)
Definition rec_player_scan_file (r : Settings) (fs : ReadFs) (path : bytes) (callback : entry_cb) (ctx : T)
    (min_frame_offset : Z) : Res Z * T :=
  match path_group r path with
  | None => (Err EUNSET, ctx)
  | Some group =>
      if negb (group_allowed (rs_group_filter r) group) then (Ok 0, ctx)
      else
        match segment_scan_path_from_offset (rd_file fs path) (rs_decryptor r)
                (Some (scan_frame callback min_frame_offset group)) ctx min_frame_offset with
        | ScanDone _ _ committed_end ctx' => (Ok committed_end, ctx')
        | ScanFail _ e ctx' => (Err e, ctx')
        | ScanFuel => (Err EUNSET, ctx)
        end
  end.

(** The scan as a step on the caller's data. *)
Definition scan_file (r : Settings) (path : bytes) (callback : entry_cb) (min_frame_offset : Z) : SM T Z :=
  λ ctx w,
    let '(res, ctx') := rec_player_scan_file r (w_fs w) path callback ctx min_frame_offset in lift res ctx' w.

Fixpoint scan_paths (r : Settings) (callback : entry_cb) (paths : list SegmentPath) : SM T unit :=
  match paths with
  | [] => mret tt
  | p :: paths' => _ ← scan_file r (sp_path p) callback 0; scan_paths r callback paths'
  end.
Definition rec_player_scan_all (r : Settings) (callback : entry_cb) : SM T unit :=
  paths ← all_segment_paths r; scan_paths r callback paths.
End scan.

(** ** Groups of the store *)
Fixpoint list_groups_loop (r : Settings) (fs : ReadFs) (paths : list SegmentPath) (groups : list bytes) : option (list bytes) :=
  match paths with
  | [] => Some groups
  | p :: paths' =>
      match rd_stat fs (sp_path p) with
      | Ok KReg =>
          group ← path_group r (sp_path p);
          list_groups_loop r fs paths'
            (if existsb (λ g, beq g group) groups then groups else groups ++ [group])
      | _ => list_groups_loop r fs paths' groups
      end
  end.
(** The segments that the summaries look at, whatever the filters: for a single
    file its path even when it is in no group. *)
Definition unfiltered_paths {S} (r : Settings) : SM S (list SegmentPath) :=
  if rs_path_is_directory r then collect_segment_paths (without_groups r)
  else match add_segment_path (rs_path r) 0 [] with Some p => mret p | None => fail EUNSET end.
Definition rec_player_list_groups {S} (r : Settings) : SM S (list bytes) :=
  paths ← unfiltered_paths r;
  fs ← get_fs;
  match list_groups_loop r fs paths [] with
  | Some groups => mret (if (1 <? zlen groups) then qsort compare_group_names groups else groups)
  | None => fail EUNSET
  end.
End player.
Arguments entry_cb T : clear implicits.
