(* ===== verification/PlayerCursor.v ===== *)
(** * Cursor text and the store id (src/src/librecorder.c)

    A cursor is [rec1:<store>:<group>:<segment>:<frame>:<entry>] with hexadecimal
    numbers.  It is written with snprintf and read with sscanf, both modelled
    here for hexadecimal conversions. *)
From S2P Require Import Prelude CText Player.

Definition hexval (c : Z) : option Z :=
  if isdigit c then Some (c - 48)
  else if (97 <=? c) && (c <=? 102) then Some (c - 87)
  else if (65 <=? c) && (c <=? 70) then Some (c - 55)
  else None.

(** Leading hexadecimal digits: their value on top of [acc], whether there are
    any, and the rest. *)
Fixpoint hex_digits (acc : Z) (s : bytes) : Z * bool * bytes :=
  match s with
  | c :: s' =>
      match hexval c with
      | Some d => let '(v, _, r) := hex_digits (acc * 16 + d) s' in (v, true, r)
      | None => (acc, false, s)
      end
  | [] => (acc, false, s)
  end.

Definition split_sign (s : bytes) : bool * bytes :=
  match s with
  | c :: s' => if c =? 45 then (true, s') else if c =? 43 then (false, s') else (false, s)
  | [] => (false, s)
  end.
Definition skip_0x (s : bytes) : option bytes :=
  match s with
  | a :: b :: s' => if (a =? 48) && ((b =? 120) || (b =? 88)) then Some s' else None
  | _ => None
  end.
Definition clamp_u64 (neg : bool) (v : Z) : Z := if UINT64_MAX <? v then UINT64_MAX else if neg then u64 (- v) else v.

(** [strtoull(s, &end, 16)]: value, [end] and ERANGE.  A prefix "0x" without a
    digit behind it is the number 0 and the rest "x...". *)
Definition strtoull16 (s : bytes) : Z * bytes * bool :=
  let '(neg, u) := split_sign (skip_space s) in
  let '(v, any, rest) :=
    match skip_0x u with
    | Some t => let '(v, any, rest) := hex_digits 0 t in if any : bool then (v, true, rest) else (0, true, drop 1 u)
    | None => hex_digits 0 u
    end in
  if negb any then (0, s, false) else (clamp_u64 neg v, rest, UINT64_MAX <? v).

(** The sscanf conversion [%llx]: white space is skipped; a number without
    digits is a matching failure. *)
Definition scan_hex (s : bytes) : option (Z * bytes) :=
  let '(neg, u) := split_sign (skip_space s) in
  let '(v, any, rest) := hex_digits 0 (default u (skip_0x u)) in
  if any : bool then Some (clamp_u64 neg v, rest) else None.

(** The conversion [%63[^:]]. *)
Fixpoint scan_not_colon (n : nat) (s : bytes) : bytes * bytes :=
  match n, s with
  | S n', c :: s' => if c =? 58 then ([], s) else let '(a, b) := scan_not_colon n' s' in (c :: a, b)
  | _, _ => ([], s)
  end.
Fixpoint scan_literal (lit s : bytes) : option bytes :=
  match lit, s with
  | [], _ => Some s
  | a :: lit', b :: s' => if a =? b then scan_literal lit' s' else None
  | _ :: _, [] => None
  end.

Record CursorKey := mkCursorKey {
  ck_group : bytes;
  ck_segment_seq : Z;
  ck_frame_offset : Z;
  ck_frame_entry_index : Z;
}.
#[export] Instance CursorKey_eq_dec : EqDecision CursorKey.
Proof. solve_decision. Defined.

(** The store id and the location; the last conversion is an unsigned int, and a
    character behind it is a failure. *)
Definition parse_cursor (cursor : option bytes) : option (Z * CursorKey) :=
  s ← cursor;
  s ← scan_literal (C "rec1:") s;
  '(store, s) ← scan_hex s;
  s ← scan_literal (C ":") s;
  let '(group, s) := scan_not_colon 63 s in
  if zlen group =? 0 then None
  else
    s ← scan_literal (C ":") s;
    '(segment, s) ← scan_hex s;
    s ← scan_literal (C ":") s;
    '(frame, s) ← scan_hex s;
    s ← scan_literal (C ":") s;
    '(entry, tail) ← scan_hex s;
    match tail with
    | [] => if valid_group_name group then Some (store, mkCursorKey group segment frame (u32 entry)) else None
    | _ => None
    end.

(** ** Printing *)
Definition hexchar (d : Z) : Z := if d <? 10 then 48 + d else 87 + d.
Fixpoint print_hex_digits (fuel : nat) (v : Z) : bytes :=
  match fuel with
  | O => []
  | S fuel' => if v <? 16 then [hexchar v] else print_hex_digits fuel' (v / 16) ++ [hexchar (v mod 16)]
  end.
(** [%llx] and [%016llx]: 64 bits have at most 16 digits. *)
Definition print_hex (v : Z) : bytes := print_hex_digits 16 v.
Definition print_hex16 (v : Z) : bytes := replicate (16 - length (print_hex v)) 48 ++ print_hex v.

Definition cursor_text (store_id : Z) (k : CursorKey) : bytes :=
  C "rec1:" ++ print_hex16 store_id ++ C ":" ++ ck_group k ++ C ":" ++ print_hex (ck_segment_seq k) ++ C ":"
  ++ print_hex (ck_frame_offset k) ++ C ":" ++ print_hex (ck_frame_entry_index k).
(** [snprintf] into [cursor[192]]. *)
Definition format_cursor (store_id : Z) (k : CursorKey) : bytes := ztake 191 (cursor_text store_id k).

(** ** The store id *)

(** [fgets(text, 32, fp)]: up to 31 bytes, through the first newline; the string
    ends at a NUL.  [None] at the end of the file. *)
Fixpoint fgets_line (n : nat) (s : bytes) : bytes :=
  match n, s with
  | S n', c :: s' => if c =? 10 then [c] else c :: fgets_line n' s'
  | _, _ => []
  end.
Definition read_store_id (fs : ReadFs) (dir_path : bytes) : option Z :=
  let path := dir_path ++ C "/state/store-id" in
  if PATH_SIZE <=? zlen path then None
  else
    match rd_file fs path with
    | Err _ => None
    | Ok file =>
        let text := cstr (fgets_line 31 file) in
        if (zlen file =? 0) || negb (zlen text =? 17) then None
        else
          let '(value, end_, erange) := strtoull16 text in
          if erange || negb (match end_ with c :: _ => c =? 10 | [] => false end) then None else Some value
    end.

(** The directory itself, then its parent. *)
Definition load_store_id (fs : ReadFs) (path : bytes) (path_is_directory : bool) : option Z :=
  if PATH_SIZE <=? zlen path then None
  else
    let dir :=
      if path_is_directory then Some path
      else match rsplit 47 path with
           | None => None
           | Some ([], _) => Some [47]
           | Some (d, _) => Some d
           end in
    d0 ← dir;
    match read_store_id fs d0 with
    | Some id => Some id
    | None =>
        match rsplit 47 d0 with
        | None | Some ([], _) => None
        | Some (d1, _) => read_store_id fs d1
        end
    end.

(** ** Round trip *)
Definition is_hex (c : Z) : Prop := is_Some (hexval c).
Definition hex_value (acc : Z) (s : bytes) : Z := fold_left (λ a c, a * 16 + default 0 (hexval c)) s acc.
Definition no_hex (s : bytes) : Prop := match s with c :: _ => hexval c = None | [] => True end.

Lemma hexval_hexchar d : 0 <= d < 16 → hexval (hexchar d) = Some d.
Proof.
  intros Hd. unfold hexchar, hexval, isdigit. destruct (Z.ltb_spec d 10).
  - replace ((48 <=? 48 + d) && (48 + d <=? 57)) with true; [f_equal; lia|]. symmetry. apply andb_true_iff. rewrite !Z.leb_le. lia.
  - replace ((48 <=? 87 + d) && (87 + d <=? 57)) with false; [|symmetry; apply andb_false_iff; rewrite !Z.leb_gt; lia].
    replace ((97 <=? 87 + d) && (87 + d <=? 102)) with true; [f_equal; lia|]. symmetry. apply andb_true_iff. rewrite !Z.leb_le. lia.
Qed.

Lemma hex_digits_app acc s rest : Forall is_hex s → no_hex rest →
  hex_digits acc (s ++ rest) = (hex_value acc s, negb (zlen s =? 0), rest).
Proof.
  intros Hs Hr. revert acc. induction Hs as [|c s [d Hd] Hs IH]; intros acc.
  - cbn [app]. destruct rest as [|c rest]; cbn in *; [done|]. by rewrite Hr.
  - cbn [app hex_digits]. rewrite Hd, IH. replace (zlen (c :: s) =? 0) with false.
    { unfold hex_value. cbn [fold_left]. by rewrite Hd. }
    symmetry. apply Z.eqb_neq. rewrite zlen_cons. pose proof (zlen_nonneg s). lia.
Qed.

Lemma print_hex_digits_ok fuel v : 0 <= v < 16 ^ Z.of_nat fuel → (0 < fuel)%nat →
  Forall is_hex (print_hex_digits fuel v) ∧ hex_value 0 (print_hex_digits fuel v) = v ∧
  (0 < length (print_hex_digits fuel v) <= fuel)%nat.
Proof.
  revert v. induction fuel as [|fuel IH]; intros v Hv Hf; [lia|]. cbn [print_hex_digits].
  destruct (Z.ltb_spec v 16).
  { split; [constructor; [eexists; apply hexval_hexchar; lia|constructor]|]. unfold hex_value. cbn [fold_left length].
    rewrite hexval_hexchar by lia. change (default 0 (Some v)) with v. split; lia. }
  rewrite Nat2Z.inj_succ, Z.pow_succ_r in Hv by lia.
  destruct (IH (v / 16)) as (Hd & Hval & Hlen).
  { split; [apply Z.div_pos; lia|]. apply Z.div_lt_upper_bound; lia. }
  { destruct fuel; [|lia]. cbn in Hv. lia. }
  pose proof (Z.mod_pos_bound v 16 ltac:(lia)). pose proof (Z.div_mod v 16 ltac:(lia)).
  split_and!.
  - apply Forall_app. split; [done|]. constructor; [eexists; apply hexval_hexchar; lia|constructor].
  - unfold hex_value in *. rewrite fold_left_app, Hval. cbn [fold_left]. rewrite hexval_hexchar by lia. change (default 0 (Some (v mod 16))) with (v mod 16). lia.
  - rewrite length_app. cbn. lia.
  - rewrite length_app. cbn. lia.
Qed.

Lemma hex_chars c : is_hex c → isspace c = false ∧ c ≠ 45 ∧ c ≠ 43 ∧ c ≠ 120 ∧ c ≠ 88.
Proof.
  intros [d Hd]. unfold hexval in Hd.
  assert (48 <= c <= 57 ∨ 97 <= c <= 102 ∨ 65 <= c <= 70) as Hc.
  { destruct (isdigit c) eqn:H1; [apply isdigit_range in H1; lia|].
    destruct ((97 <=? c) && (c <=? 102)) eqn:H2; [apply andb_true_iff in H2; rewrite !Z.leb_le in H2; lia|].
    destruct ((65 <=? c) && (c <=? 70)) eqn:H3; [apply andb_true_iff in H3; rewrite !Z.leb_le in H3; lia|done]. }
  split; [|lia]. unfold isspace. apply orb_false_iff. split; [apply Z.eqb_neq; lia|].
  apply andb_false_iff. rewrite !Z.leb_gt. lia.
Qed.

Lemma scan_hex_digits s rest : Forall is_hex s → s ≠ [] → no_hex rest → (∀ c r, rest = c :: r → c ≠ 120 ∧ c ≠ 88) →
  scan_hex (s ++ rest) = Some (clamp_u64 false (hex_value 0 s), rest).
Proof.
  intros Hs Hne Hr Hx. destruct s as [|c s]; [done|]. pose proof Hs as [Hc Hs']%Forall_cons.
  destruct (hex_chars c Hc) as (Hsp & Hm & Hp & _). unfold scan_hex. cbn [app skip_space]. rewrite Hsp. unfold split_sign.
  destruct (Z.eqb_spec c 45); [done|]. destruct (Z.eqb_spec c 43); [done|].
  assert (H0x : skip_0x (c :: s ++ rest) = None).
  { destruct s as [|b s]; cbn.
    - destruct rest as [|b rest]; [done|]. destruct (Hx b rest eq_refl) as [H1 H2].
      destruct (Z.eqb_spec b 120); [done|]. destruct (Z.eqb_spec b 88); [done|]. by rewrite andb_false_r.
    - apply Forall_cons in Hs' as [Hb _]. destruct (hex_chars b Hb) as (_ & _ & _ & H1 & H2).
      destruct (Z.eqb_spec b 120); [done|]. destruct (Z.eqb_spec b 88); [done|]. by rewrite andb_false_r. }
  rewrite H0x. cbn [default from_option id]. change (c :: s ++ rest) with ((c :: s) ++ rest).
  change (default ((c :: s) ++ rest) None) with ((c :: s) ++ rest). rewrite hex_digits_app by done.
  replace (zlen (c :: s) =? 0) with false; [done|]. symmetry. apply Z.eqb_neq. rewrite zlen_cons. pose proof (zlen_nonneg s). lia.
Qed.

Lemma print_hex_ok v : is_u64 v → Forall is_hex (print_hex v) ∧ hex_value 0 (print_hex v) = v ∧ (0 < length (print_hex v) <= 16)%nat.
Proof. intros Hv. apply print_hex_digits_ok; [|lia]. unfold is_u64 in Hv. cbn. lia. Qed.

Lemma scan_print_hex v rest : is_u64 v → no_hex rest → (∀ c r, rest = c :: r → c ≠ 120 ∧ c ≠ 88) →
  scan_hex (print_hex v ++ rest) = Some (v, rest).
Proof.
  intros Hv Hr Hx. destruct (print_hex_ok v Hv) as (Hh & Hval & Hlen).
  rewrite scan_hex_digits; [|done|by destruct (print_hex v); [cbn in Hlen; lia|]|done|done]. rewrite Hval.
  unfold clamp_u64. destruct (Z.ltb_spec UINT64_MAX v); [unfold is_u64, UINT64_MAX in *; lia|done].
Qed.

Lemma hex_value_zeros n s : hex_value 0 (replicate n 48 ++ s) = hex_value 0 s.
Proof. induction n as [|n IH]; [done|]. cbn [replicate app]. unfold hex_value in *. cbn [fold_left]. exact IH. Qed.

Lemma scan_print_hex16 v rest : is_u64 v → no_hex rest → (∀ c r, rest = c :: r → c ≠ 120 ∧ c ≠ 88) →
  scan_hex (print_hex16 v ++ rest) = Some (v, rest).
Proof.
  intros Hv Hr Hx. destruct (print_hex_ok v Hv) as (Hh & Hval & Hlen). unfold print_hex16.
  rewrite scan_hex_digits; [| |intros [_ Hnil]%app_eq_nil; rewrite Hnil in Hlen; cbn in Hlen; lia|done|done].
  - rewrite hex_value_zeros, Hval. unfold clamp_u64. destruct (Z.ltb_spec UINT64_MAX v); [unfold is_u64, UINT64_MAX in *; lia|done].
  - apply Forall_app. split; [|done]. apply Forall_replicate. by exists 0.
Qed.

Lemma scan_literal_app lit s : scan_literal lit (lit ++ s) = Some s.
Proof. induction lit as [|a lit IH]; cbn; [by destruct s|]. by rewrite Z.eqb_refl. Qed.

Lemma scan_group n g rest : Forall (λ c, c ≠ 58) g → (length g <= n)%nat → (∀ c r, rest = c :: r → c = 58) →
  scan_not_colon n (g ++ rest) = (g, rest).
Proof.
  revert n. induction g as [|c g IH]; intros n Hg Hn Hr; cbn [app].
  - destruct n, rest as [|c rest]; cbn; try done. rewrite (Hr c rest) by done. done.
  - apply Forall_cons in Hg as [Hc Hg]. destruct n as [|n]; cbn in Hn; [lia|]. cbn [scan_not_colon].
    destruct (Z.eqb_spec c 58); [done|]. by rewrite (IH n Hg ltac:(lia) Hr).
Qed.

Lemma valid_group_no_colon g : valid_group_name g = true → Forall (λ c, c ≠ 58) g ∧ g ≠ [].
Proof.
  unfold valid_group_name. intros [[Hne _]%andb_true_iff Hall]%andb_true_iff. split.
  - apply Forall_forall. intros c Hc ->. rewrite forallb_forall in Hall. by specialize (Hall 58 (proj1 (list_elem_of_In _ _) Hc)).
  - intros ->. done.
Qed.

Lemma colon_stops rest : no_hex (C ":" ++ rest) ∧ (∀ c r, C ":" ++ rest = c :: r → c ≠ 120 ∧ c ≠ 88).
Proof. split; [done|]. cbn. intros c r [= <- _]. lia. Qed.

Definition key_ok (k : CursorKey) : Prop :=
  valid_group_name (ck_group k) = true ∧ zlen (ck_group k) < GROUP_SIZE ∧
  is_u64 (ck_segment_seq k) ∧ is_u64 (ck_frame_offset k) ∧ is_u32 (ck_frame_entry_index k).

Lemma cursor_text_length store k : is_u64 store → key_ok k → zlen (cursor_text store k) < 192.
Proof.
  intros Hst (_ & Hg & Hs & Hf & He). unfold cursor_text.
  assert (Hlen : ∀ v, is_u64 v → zlen (print_hex v) <= 16) by (intros v Hv; destruct (print_hex_ok v Hv) as (_ & _ & ?); unfold zlen; lia).
  assert (zlen (print_hex16 store) <= 16).
  { unfold print_hex16. rewrite zlen_app. unfold zlen at 1. rewrite length_replicate. destruct (print_hex_ok store Hst) as (_ & _ & ?).
    unfold zlen. lia. }
  pose proof (Hlen _ Hs). pose proof (Hlen _ Hf). pose proof (Hlen (ck_frame_entry_index k)) as H3.
  specialize (H3 ltac:(unfold is_u32, is_u64 in *; lia)). unfold GROUP_SIZE in Hg. rewrite !zlen_app.
  change (zlen (C "rec1:")) with 5. change (zlen (C ":")) with 1. lia.
Qed.

(** The printed text parses. *)
Lemma cursor_text_parses store k :
  is_u64 store → key_ok k → parse_cursor (Some (format_cursor store k)) = Some (store, k).
Proof.
  intros Hst Hk. pose proof (cursor_text_length store k Hst Hk) as Hlen. destruct Hk as (Hv & Hg & Hs & Hf & He).
  unfold format_cursor. rewrite ztake_ge by lia. unfold parse_cursor, cursor_text. cbn [mbind option_bind].
  destruct (valid_group_no_colon _ Hv) as [Hnc Hne].
  rewrite scan_literal_app. cbn [mbind option_bind].
  rewrite scan_print_hex16 by (done || apply colon_stops). cbn [mbind option_bind].
  rewrite scan_literal_app. cbn [mbind option_bind].
  rewrite (scan_group 63); [|done|unfold zlen, GROUP_SIZE in Hg; lia|cbn; by intros c r [= <- _]].
  destruct (Z.eqb_spec (zlen (ck_group k)) 0) as [H0|_].
  { destruct (ck_group k) as [|c g]; [done|]. rewrite zlen_cons in H0. pose proof (zlen_nonneg g). lia. }
  rewrite scan_literal_app. cbn [mbind option_bind].
  rewrite scan_print_hex by (done || apply colon_stops). cbn [mbind option_bind].
  rewrite scan_literal_app. cbn [mbind option_bind].
  rewrite scan_print_hex by (done || apply colon_stops). cbn [mbind option_bind].
  rewrite scan_literal_app. cbn [mbind option_bind].
  rewrite <- (app_nil_r (print_hex (ck_frame_entry_index k))).
  rewrite scan_print_hex; [|unfold is_u32, is_u64 in *; lia|done|done]. cbn [mbind option_bind].
  rewrite Hv, u32_id by done. by destruct k.
Qed.

(** C17: a cursor reads back.  The text that the reader writes for an entry fits
    its buffer and is parsed into the same store id and the same location. *)
Theorem cursor_parses_back store k :
  is_u64 store → key_ok k →
  zlen (cursor_text store k) < 192 ∧ parse_cursor (Some (format_cursor store k)) = Some (store, k).
Proof. intros Hst Hk. split; [by apply cursor_text_length|by apply cursor_text_parses]. Qed.

Lemma cursor_parses_back_witness :
  format_cursor 255 (mkCursorKey (C "urgent") 12 4096 3) = C "rec1:00000000000000ff:urgent:c:1000:3" ∧
  parse_cursor (Some (format_cursor 255 (mkCursorKey (C "urgent") 12 4096 3))) = Some (255, mkCursorKey (C "urgent") 12 4096 3).
Proof.
  split; [vm_compute; reflexivity|]. apply (cursor_parses_back 255 (mkCursorKey (C "urgent") 12 4096 3)); [split; vm_compute; (reflexivity || discriminate)|].
  split; [vm_compute; reflexivity|]. repeat split; vm_compute; (reflexivity || discriminate).
Defined.

(** Store ids are 64-bit numbers. *)
Lemma hexval_range c d : hexval c = Some d → 0 <= d < 16.
Proof.
  unfold hexval. intros H.
  destruct (isdigit c) eqn:H1; [apply isdigit_range in H1; simplify_eq; lia|]. clear H1.
  repeat case_match; simplify_eq; rewrite andb_true_iff, !Z.leb_le in *; lia.
Qed.
Lemma hex_digits_nonneg s acc : 0 <= acc → 0 <= (hex_digits acc s).1.1.
Proof.
  revert acc. induction s as [|c s IH]; intros acc Ha; cbn [hex_digits]; [done|].
  destruct (hexval c) as [d|] eqn:Hd; [|done]. pose proof (hexval_range _ _ Hd).
  specialize (IH (acc * 16 + d) ltac:(lia)). by destruct (hex_digits _ s) as [[v any] rest].
Qed.
Lemma clamp_u64_range neg v : 0 <= v → is_u64 (clamp_u64 neg v).
Proof.
  intros Hv. unfold clamp_u64. destruct (Z.ltb_spec UINT64_MAX v); [split; unfold UINT64_MAX; lia|].
  destruct neg; [apply u64_range|]. unfold is_u64, UINT64_MAX in *. lia.
Qed.
Lemma strtoull16_range s : is_u64 (strtoull16 s).1.1.
Proof.
  unfold strtoull16. destruct (split_sign (skip_space s)) as [neg u].
  assert (Hz : is_u64 0) by (split; lia). destruct (skip_0x u) as [t|].
  - pose proof (hex_digits_nonneg t 0 ltac:(lia)) as Ht. destruct (hex_digits 0 t) as [[v any] rest]. cbn in Ht.
    destruct any; cbn [negb fst]; by apply clamp_u64_range.
  - pose proof (hex_digits_nonneg u 0 ltac:(lia)) as Ht. destruct (hex_digits 0 u) as [[v any] rest]. cbn in Ht.
    destruct any; cbn [negb fst]; [by apply clamp_u64_range|done].
Qed.
Lemma read_store_id_range fs dir id : read_store_id fs dir = Some id → is_u64 id.
Proof.
  unfold read_store_id. intros H. repeat (case_match; try done).
  all: match goal with H : strtoull16 ?t = _ |- _ => pose proof (strtoull16_range t) as Hr; rewrite H in Hr end; by simplify_eq.
Qed.
Lemma load_store_id_range fs path is_dir id : load_store_id fs path is_dir = Some id → is_u64 id.
Proof.
  unfold load_store_id. case_match; [done|]. intros (d0 & _ & Hd)%bind_Some. revert Hd.
  destruct (read_store_id fs d0) as [i|] eqn:Hi; [intros [= <-]; by eapply read_store_id_range|].
  intros Hd. repeat (case_match; try done); by eapply read_store_id_range.
Qed.
