(* ===== verification/PlayerFollow.v ===== *)
(** * Following the newest segments, and group summaries (src/src/librecorder.c)

    Per group the newest segment with the end of its committed frames: a scan
    starts where the last one ended.  The summaries add up index records, or
    entries when there is no usable index. *)
From S2P Require Import Prelude Bytes Crypto Segment Chunk Index CText Player.

Record FollowSegment := mkFollowSegment {
  fs_group : bytes;
  fs_path : bytes;
  fs_segment_seq : Z;
  fs_committed_end : Z;
}.
(** The follow fields of [RecorderPlayer]. *)
Record Follow := mkFollow {
  fo_segments : list FollowSegment;
  fo_initialized : bool;
  fo_pending : bool;
  fo_topology_pending : bool;
}.
Definition set_fo_segments (l : list FollowSegment) (f : Follow) : Follow :=
  mkFollow l (fo_initialized f) (fo_pending f) (fo_topology_pending f).

Section follow.
Context `{F : FlatCC} `{QS : CLib}.

Definition find_follow_segment (r : Settings) (f : Follow) (path : bytes) : option FollowSegment :=
  group ← path_group r path;
  List.find (λ item, beq (fs_group item) group) (fo_segments f).

(** The item of the group is replaced in place; a new group is appended. *)
Fixpoint put_follow_segment (item : FollowSegment) (l : list FollowSegment) : list FollowSegment :=
  match l with
  | [] => [item]
  | x :: l' => if beq (fs_group x) (fs_group item) then item :: l' else x :: put_follow_segment item l'
  end.
Definition remember_follow_segment (r : Settings) (path : bytes) (segment_seq committed_end : Z) (f : Follow)
  : option Follow :=
  group ← path_group r path;
  match List.find (λ item, beq (fs_group item) group) (fo_segments f) with
  | Some item =>
      if segment_seq <? fs_segment_seq item then Some f
      else if fits_path path
      then Some (set_fo_segments (put_follow_segment (mkFollowSegment group path segment_seq committed_end) (fo_segments f)) f)
      else None
  | None =>
      if fits_path path
      then Some (set_fo_segments (put_follow_segment (mkFollowSegment group path segment_seq committed_end) (fo_segments f)) f)
      else None
  end.

Section scan.
Context {T : Type}.
(** The caller's data with the number of entries handed out so far. *)
Definition follow_scan_entry (callback : entry_cb T) : entry_cb (T * Z) :=
  λ entry ctx, let '(rv, t) := callback entry ctx.1 in (rv, (t, ctx.2 + 1)).

(** The follow fields travel with the caller's data. *)
Definition with_ctx {A} (m : SM (T * Z) A) : SM (Follow * (T * Z)) A :=
  λ s w, let '(res, ctx, w') := m s.2 w in (res, (s.1, ctx), w').
Definition scan_path_with_context (r : Settings) (path : bytes) (min_frame_offset : Z) (callback : entry_cb T)
  : SM (Follow * (T * Z)) Z :=
  with_ctx (scan_file r path (follow_scan_entry callback) min_frame_offset).
Definition remember (r : Settings) (p : SegmentPath) (committed_end : Z) : SM (Follow * (T * Z)) unit :=
  λ s w,
    match remember_follow_segment r (sp_path p) (sp_segment_seq p) committed_end s.1 with
    | Some f => (Some tt, (f, s.2), w)
    | None => (None, s, w)
    end.

(** The newest segments, from where the last scan of each ended. *)
Fixpoint follow_newest (r : Settings) (callback : entry_cb T) (paths : list SegmentPath) : SM (Follow * (T * Z)) unit :=
  match paths with
  | [] => mret tt
  | p :: paths' =>
      s ← get;
      let seen := find_follow_segment r s.1 (sp_path p) in
      match seen with
      | Some item =>
          if sp_segment_seq p <? fs_segment_seq item then follow_newest r callback paths'
          else
            committed_end ← scan_path_with_context r (sp_path p)
              (if sp_segment_seq p =? fs_segment_seq item then fs_committed_end item else 0) callback;
            _ ← remember r p committed_end;
            follow_newest r callback paths'
      | None =>
          committed_end ← scan_path_with_context r (sp_path p) 0 callback;
          _ ← remember r p committed_end;
          follow_newest r callback paths'
      end
  end.

(** Older segments, newest first, until there are enough entries. *)
Fixpoint follow_history (r : Settings) (callback : entry_cb T) (initial_entries : Z) (newest_first : list SegmentPath)
  : SM (Follow * (T * Z)) unit :=
  match newest_first with
  | [] => mret tt
  | p :: rest =>
      s ← get;
      if negb (s.2.2 <? initial_entries) then mret tt
      else
        match find_follow_segment r s.1 (sp_path p) with
        | Some item =>
            if fs_segment_seq item <=? sp_segment_seq p then follow_history r callback initial_entries rest
            else _ ← scan_path_with_context r (sp_path p) 0 callback; follow_history r callback initial_entries rest
        | None => _ ← scan_path_with_context r (sp_path p) 0 callback; follow_history r callback initial_entries rest
        end
  end.

Definition follow_body (r : Settings) (callback : entry_cb T) (initial_entries : Z) : SM (Follow * (T * Z)) unit :=
  s ← get;
  paths ← (if rs_path_is_directory r && fo_initialized s.1 && fo_topology_pending s.1
           then all_segment_paths r else latest_segment_paths r);
  _ ← follow_newest r callback paths;
  s ← get;
  _ ← when (negb (fo_initialized s.1) && (s.2.2 <? initial_entries) && rs_path_is_directory r)
        (history ← all_segment_paths r; follow_history r callback initial_entries (rev history));
  modify (λ s, (mkFollow (fo_segments s.1) true (fo_pending s.1) false, s.2)).

Definition rec_player_scan_follow (r : Settings) (callback : entry_cb T) (initial_entries : Z) : SM (Follow * T) unit :=
  λ s w, let '(res, (f, (t, _)), w') := follow_body r callback initial_entries (s.1, (s.2, 0)) w in (res, (f, t), w').
End scan.

Definition rec_player_follow_reset (f : Follow) : Follow := mkFollow [] false (fo_pending f) (fo_topology_pending f).

(** ** The ends of the newest segments, without their entries *)
Definition scan_segment_end {S} (r : Settings) (path : bytes) : SM S Z :=
  fs ← get_fs;
  match segment_scan_path_from_offset (rd_file fs path) (rs_decryptor r) None tt 0 with
  | ScanDone _ _ committed_end _ => mret committed_end
  | ScanFail _ e _ => fail e
  | ScanFuel => fail EUNSET
  end.

Fixpoint remember_ends (r : Settings) (paths : list SegmentPath) : SM Follow unit :=
  match paths with
  | [] => mret tt
  | p :: paths' =>
      committed_end ← scan_segment_end r (sp_path p);
      f ← get;
      match remember_follow_segment r (sp_path p) (sp_segment_seq p) committed_end f with
      | None => fail EUNSET
      | Some f' => _ ← modify (λ _, f'); remember_ends r paths'
      end
  end.
Definition initialize_tail_follow (r : Settings) : SM Follow unit :=
  paths ← latest_segment_paths r;
  _ ← remember_ends r paths;
  modify (λ f, mkFollow (fo_segments f) true false false).

(** ** New entries for the iterator

    [append_stored_entry] on a reader that only collects. *)
Definition append_stored_entry : entry_cb (list StoredEntry) := λ entry l, (0, l ++ [entry]).

(** The insertion sort of [append_pending_entries]: [entry] moves in front of
    the entries that are greater, from the back of the sorted part. *)
Fixpoint insert_back (order : RecorderPlayerOrder) (entry : StoredEntry) (sorted_rev : list StoredEntry) : list StoredEntry :=
  match sorted_rev with
  | [] => [entry]
  | x :: rest =>
      match compare_iterator_entries order entry x with
      | Lt => x :: insert_back order entry rest
      | _ => entry :: sorted_rev
      end
  end.
Definition sort_pending (order : RecorderPlayerOrder) (l : list StoredEntry) : list StoredEntry :=
  rev (fold_left (λ acc e, insert_back order e acc) l []).

Definition append_pending_entries (r : Settings) : SM (Follow * list StoredEntry) unit :=
  λ s w,
    let '(res, (f, pending), w') := rec_player_scan_follow r append_stored_entry 0 (s.1, []) w in
    match res with
    | None => (None, (f, s.2), w')
    | Some _ => (Some tt, (f, s.2 ++ sort_pending (rs_order r) pending), w')
    end.

(** ** Summaries of the groups *)
Record RecorderGroupStats := mkRecorderGroupStats {
  gs_name : bytes;
  gs_entry_count : Z;
  gs_disk_bytes : Z;
  gs_first_realtime_usec : Z;
  gs_last_realtime_usec : Z;
}.
#[export] Instance RecorderGroupStats_eq_dec : EqDecision RecorderGroupStats.
Proof. solve_decision. Defined.

Definition group_stats_add_entries (s : RecorderGroupStats) (count first last : Z) : Res RecorderGroupStats :=
  if count =? 0 then Ok s
  else if UINT64_MAX - gs_entry_count s <? count then Err EOVERFLOW
  else
    Ok (mkRecorderGroupStats (gs_name s) (gs_entry_count s + count) (gs_disk_bytes s)
          (if (gs_entry_count s =? 0) || (first <? gs_first_realtime_usec s) then first else gs_first_realtime_usec s)
          (if (gs_entry_count s =? 0) || (gs_last_realtime_usec s <? last) then last else gs_last_realtime_usec s)).
Definition stats_cb (r : Res RecorderGroupStats) (s : RecorderGroupStats) : Z * RecorderGroupStats :=
  match r with Ok s' => (0, s') | Err _ => (-1, s) end.
Definition group_stats_index_frame (frame : IndexFrame) (s : RecorderGroupStats) : Z * RecorderGroupStats :=
  stats_cb (group_stats_add_entries s (if_entry_count frame) (if_min_realtime_ts frame) (if_max_realtime_ts frame)) s.
Definition group_stats_entry : entry_cb RecorderGroupStats :=
  λ entry s, stats_cb (group_stats_add_entries s 1 (re_realtime_ts entry) (re_realtime_ts entry)) s.

Definition group_stats_add_file_bytes (s : RecorderGroupStats) (st_blocks : Z) : Res RecorderGroupStats :=
  if (st_blocks <? 0) || (UINT64_MAX / 512 <? st_blocks) then Err EOVERFLOW
  else if UINT64_MAX - st_blocks * 512 <? gs_disk_bytes s then Err EOVERFLOW
  else Ok (mkRecorderGroupStats (gs_name s) (gs_entry_count s) (gs_disk_bytes s + st_blocks * 512)
             (gs_first_realtime_usec s) (gs_last_realtime_usec s)).
Definition compare_group_stats (a b : RecorderGroupStats) : comparison := strcmp (gs_name a) (gs_name b).

Definition zero_stats (name : bytes) (disk_bytes : Z) : RecorderGroupStats := mkRecorderGroupStats name 0 disk_bytes 0 0.

(** One segment: its bytes and those of its index, then its entries. *)
Definition segment_stats (r : Settings) (fs : ReadFs) (path : bytes) : Res (bytes * RecorderGroupStats) :=
  match path_group r path, segment_index_path path PATH_SIZE with
  | Some group, Some index_path =>
      let? s := group_stats_add_file_bytes (zero_stats [] 0) (rd_blocks fs path) in
      let? s := match rd_stat fs index_path with
                | Ok KReg => group_stats_add_file_bytes s (rd_blocks fs index_path)
                | Ok _ => Ok s
                | Err ENOENT => Ok s
                | Err e => Err e
                end in
      match index_scan_frames (rd_file fs index_path) (rd_file fs path) group_stats_index_frame s with
      | (Ok _, s') => Ok (group, s')
      | (Err _, s') =>
          match rec_player_scan_file (without_filters r) fs path group_stats_entry
                  (zero_stats [] (gs_disk_bytes s')) 0 with
          | (Ok _, s'') => Ok (group, s'')
          | (Err e, _) => Err e
          end
      end
  | _, _ => Err EUNSET
  end.

(** Adding it to its group, which is appended when it is new. *)
Definition merge_stats (g s : RecorderGroupStats) : Res RecorderGroupStats :=
  if UINT64_MAX - gs_disk_bytes s <? gs_disk_bytes g then Err EOVERFLOW
  else
    group_stats_add_entries
      (mkRecorderGroupStats (gs_name g) (gs_entry_count g) (gs_disk_bytes g + gs_disk_bytes s)
         (gs_first_realtime_usec g) (gs_last_realtime_usec g))
      (gs_entry_count s) (gs_first_realtime_usec s) (gs_last_realtime_usec s).
Fixpoint add_to_group (group : bytes) (s : RecorderGroupStats) (groups : list RecorderGroupStats)
  : Res (list RecorderGroupStats) :=
  match groups with
  | [] => let? g := merge_stats (zero_stats group 0) s in Ok [g]
  | g :: groups' =>
      if beq (gs_name g) group then let? g' := merge_stats g s in Ok (g' :: groups')
      else let? rest := add_to_group group s groups' in Ok (g :: rest)
  end.

Fixpoint group_stats_loop (r : Settings) (fs : ReadFs) (paths : list SegmentPath) (groups : list RecorderGroupStats)
  : Res (list RecorderGroupStats) :=
  match paths with
  | [] => Ok groups
  | p :: paths' =>
      match rd_stat fs (sp_path p) with
      | Ok KReg =>
          let? (group, s) := segment_stats r fs (sp_path p) in
          let? groups' := add_to_group group s groups in
          group_stats_loop r fs paths' groups'
      | _ => group_stats_loop r fs paths' groups
      end
  end.
Definition rec_player_get_group_stats {S} (r : Settings) : SM S (list RecorderGroupStats) :=
  paths ← unfiltered_paths r;
  fs ← get_fs;
  groups ← lift (group_stats_loop r fs paths []);
  mret (if (1 <? zlen groups) then qsort compare_group_stats groups else groups).
End follow.
