(* ===== verification/PlayerSource.v ===== *)
(** * The position of the iterator in one group (src/src/librecorder.c)

    An [IteratorSource] walks the segments of a group in sequence order, a frame
    at a time through the index, or a whole segment at a time when there is no
    usable index.  Segment and frame positions are [size_t] values that wrap. *)
From S2P Require Import Prelude Bytes Crypto Segment Chunk Index CText Player.

Definition zlookup {A} (l : list A) (i : Z) : option A :=
  if (0 <=? i) && (i <? zlen l) then l !! Z.to_nat i else None.

(** The two readers are kept with the path they were opened with. *)
Record IteratorSource := mkIteratorSource {
  is_group : bytes;
  is_segments : list SegmentPath;
  is_segment_index : Z;
  is_frame_count : Z;
  is_frame_index : Z;
  is_segment_scan_fallback : bool;
  is_index_reader : option (bytes * IndexReader);
  is_frame_reader : option (bytes * SegmentFrameReader);
  is_entries : list StoredEntry;        (* NULL exactly when empty *)
  is_entry_index : Z;
}.
Definition set_segment_index (x : Z) (s : IteratorSource) : IteratorSource :=
  mkIteratorSource (is_group s) (is_segments s) x (is_frame_count s) (is_frame_index s)
    (is_segment_scan_fallback s) (is_index_reader s) (is_frame_reader s) (is_entries s)
    (is_entry_index s).
Definition set_frame_count (x : Z) (s : IteratorSource) : IteratorSource :=
  mkIteratorSource (is_group s) (is_segments s) (is_segment_index s) x (is_frame_index s)
    (is_segment_scan_fallback s) (is_index_reader s) (is_frame_reader s) (is_entries s)
    (is_entry_index s).
Definition set_frame_index (x : Z) (s : IteratorSource) : IteratorSource :=
  mkIteratorSource (is_group s) (is_segments s) (is_segment_index s) (is_frame_count s) x
    (is_segment_scan_fallback s) (is_index_reader s) (is_frame_reader s) (is_entries s)
    (is_entry_index s).
Definition set_segment_scan_fallback (x : bool) (s : IteratorSource) : IteratorSource :=
  mkIteratorSource (is_group s) (is_segments s) (is_segment_index s) (is_frame_count s)
    (is_frame_index s) x (is_index_reader s) (is_frame_reader s) (is_entries s) (is_entry_index s).
Definition set_entry_index (x : Z) (s : IteratorSource) : IteratorSource :=
  mkIteratorSource (is_group s) (is_segments s) (is_segment_index s) (is_frame_count s)
    (is_frame_index s) (is_segment_scan_fallback s) (is_index_reader s) (is_frame_reader s)
    (is_entries s) x.
Definition set_entries (entries : list StoredEntry) (entry_index : Z) (s : IteratorSource) : IteratorSource :=
  mkIteratorSource (is_group s) (is_segments s) (is_segment_index s) (is_frame_count s) (is_frame_index s)
    (is_segment_scan_fallback s) (is_index_reader s) (is_frame_reader s) entries entry_index.

Section source.
Context `{F : FlatCC} `{QS : CLib}.

Definition set_index_reader (x : option (bytes * IndexReader)) (s : IteratorSource) : IteratorSource :=
  mkIteratorSource (is_group s) (is_segments s) (is_segment_index s) (is_frame_count s) (is_frame_index s)
    (is_segment_scan_fallback s) x (is_frame_reader s) (is_entries s) (is_entry_index s).
Definition set_frame_reader (x : option (bytes * SegmentFrameReader)) (s : IteratorSource) : IteratorSource :=
  mkIteratorSource (is_group s) (is_segments s) (is_segment_index s) (is_frame_count s) (is_frame_index s)
    (is_segment_scan_fallback s) (is_index_reader s) x (is_entries s) (is_entry_index s).

(** A source set to zero, with its group and segments. *)
Definition new_source (group : bytes) (segments : list SegmentPath) : IteratorSource :=
  mkIteratorSource group segments 0 0 0 false None None [] 0.
Definition source_clear_frame : SM IteratorSource unit := modify (set_entries [] (-1)).
Definition source_has_current (s : IteratorSource) : bool :=
  (0 <=? is_entry_index s) && (is_entry_index s <? zlen (is_entries s)).
Definition source_current (s : IteratorSource) : option StoredEntry := zlookup (is_entries s) (is_entry_index s).
Definition current_path : SM IteratorSource bytes :=
  s ← get;
  match zlookup (is_segments s) (is_segment_index s) with Some p => mret (sp_path p) | None => fail EUNSET end.

Inductive Direction := FORWARD | REVERSE.
#[export] Instance Direction_eq_dec : EqDecision Direction.
Proof. solve_decision. Defined.
Definition edge_index (d : Direction) (count : Z) : Z := match d with FORWARD => 0 | REVERSE => count - 1 end.

(** ** Opening the index of the current segment *)

(** The rebuilt index replaces the file at the index path. *)
Definition put_index (path data : bytes) (fs : ReadFs) : ReadFs :=
  mkReadFs (rd_dir fs) (λ p, if beq p path then Ok KReg else rd_stat fs p) (rd_blocks fs)
    (λ p, if beq p path then Ok data else rd_file fs p) (rd_tmp fs).
Definition put_index_file {S} (path data : bytes) : SM S unit :=
  λ s w, (Some tt, s, mkWorld (put_index path data (w_fs w)) (w_errno w)).
Definition source_repair_index (r : Settings) (index_path : bytes) : SM IteratorSource unit := λ s w,
  (if negb (rs_repair_indexes r) then fail EUNSET
   else if negb (rs_force_repair_indexes r) && (is_segment_index s + 1 =? zlen (is_segments s)) then fail EAGAIN
   else
     segment_path ← current_path;
     fs ← get_fs;
     match rd_stat fs segment_path, rd_file fs segment_path,
           segment_scan_path (rd_file fs segment_path) (rs_decryptor r) None tt with
     | Ok _, Ok file, ScanDone _ footer committed_end _ =>
         if negb (sf_present footer) || negb (committed_end =? zlen file) then fail EAGAIN
         else
           data ← lift (index_rebuild_for_segment (rd_file fs segment_path) (rd_tmp fs index_path) (rs_decryptor r));
           put_index_file index_path data
     | _, _, _ => fail EAGAIN
     end) s w.

(** [index_reader_open(path, source->segments[source->segment_index].path, ...)] *)
Definition open_index (index_path : bytes) : SM IteratorSource IndexReader :=
  segment_path ← current_path;
  fs ← get_fs;
  lift (index_reader_open (rd_file fs index_path) (rd_file fs segment_path)).

Definition source_load_index (r : Settings) : SM IteratorSource unit :=
  _ ← modify (set_segment_scan_fallback false ∘ set_frame_count 0);
  segment_path ← current_path;
  match segment_index_path segment_path PATH_SIZE with
  | None => fail EUNSET
  | Some path =>
      s ← get;
      _ ← when (match is_index_reader s with Some (p, _) => negb (beq p path) | None => true end)
            (_ ← modify (set_index_reader None);
             opened ← attempt (open_index path);
             reader ← (match opened with
                       | Some reader => mret reader
                       | None => _ ← source_repair_index r path; open_index path
                       end);
             modify (set_index_reader (Some (path, reader))));
      modify (λ s, set_frame_count (index_reader_frame_count (snd <$> is_index_reader s)) s)
  end.

(** ** Loading frames *)
Definition append_source_entry : entry_cb (list StoredEntry) := λ entry l, (0, l ++ [entry]).
Definition scan_source_frame (group : bytes) : segment_frame_cb (list StoredEntry) :=
  λ header frame chunk l, scan_frame append_source_entry (fi_file_offset frame) group header frame chunk l.

(** The frame reader for the current segment, reopened when the path changed. *)
Definition source_frame_reader (r : Settings) : SM IteratorSource SegmentFrameReader :=
  path ← current_path;
  s ← get;
  match is_frame_reader s with
  | Some (p, reader) =>
      if beq p path then mret reader
      else
        _ ← modify (set_frame_reader None);
        fs ← get_fs;
        reader ← lift (segment_frame_reader_open (rd_file fs path) (rs_decryptor r));
        _ ← modify (set_frame_reader (Some (path, reader))); mret reader
  | None =>
      fs ← get_fs;
      reader ← lift (segment_frame_reader_open (rd_file fs path) (rs_decryptor r));
      _ ← modify (set_frame_reader (Some (path, reader))); mret reader
  end.

(** [true] when the frame was loaded, [false] when the unit filter excludes it. *)
Definition source_load_frame (r : Settings) (frame_index : Z) (d : Direction) : SM IteratorSource bool :=
  s ← get;
  if is_frame_count s <=? frame_index then fail EUNSET
  else
    _ ← source_clear_frame;
    match is_index_reader s with
    | None => fail EUNSET
    | Some (_, ireader) =>
        frame ← lift (index_reader_read_frame ireader frame_index);
        _ ← modify (set_frame_index frame_index);
        if negb (index_frame_may_contain_service frame (rs_unit_filter r)) then mret false
        else
          reader ← source_frame_reader r;
          let '(rc, e, entries) :=
            segment_frame_reader_scan reader (scan_source_frame (is_group s)) [] (if_file_offset frame) frame_index in
          _ ← modify (set_entries entries (-1));
          if negb (rc =? 0) then fail e
          else _ ← modify (set_entry_index (edge_index d (zlen entries))); mret true
    end.

(** [true] with entries loaded, [false] when the segment has no more of them. *)
Fixpoint load_indexed_loop (fuel : nat) (r : Settings) (frame_index : Z) (d : Direction) : SM IteratorSource bool :=
  match fuel with
  | O => fail EOTHER
  | S fuel' =>
      loaded ← source_load_frame r frame_index d;
      s ← get;
      if loaded && negb (zlen (is_entries s) =? 0) then mret true
      else
        match d with
        | FORWARD =>
            if is_frame_count s <=? frame_index + 1 then mret false
            else load_indexed_loop fuel' r (frame_index + 1) d
        | REVERSE =>
            if frame_index =? 0 then mret false else load_indexed_loop fuel' r (frame_index - 1) d
        end
  end.
Definition source_load_indexed_from (r : Settings) (frame_index : Z) (d : Direction) : SM IteratorSource bool :=
  s ← get; load_indexed_loop (S (Z.to_nat (is_frame_count s))) r frame_index d.

(** The scan of the whole segment into the source's entries. *)
Definition scan_into_entries (r : Settings) (path : bytes) : SM IteratorSource unit := λ s w,
  let '(res, entries) := rec_player_scan_file r (w_fs w) path append_source_entry (is_entries s) 0 in
  (_ ← modify (set_entries entries (is_entry_index s)); _ ← lift res; mret tt) s w.

Definition source_load_segment_fallback (r : Settings) (d : Direction) : SM IteratorSource bool :=
  _ ← source_clear_frame;
  path ← current_path;
  scanned ← attempt (scan_into_entries r path);
  match scanned with
  | None => e ← get_errno; if bool_decide (e = ENOENT) then mret false else fail EUNSET
  | Some _ =>
      s ← get;
      let entries := qsort compare_stored_entries (is_entries s) in
      _ ← modify (set_frame_count 0 ∘ set_segment_scan_fallback true
                  ∘ set_entries entries (edge_index d (zlen entries)));
      mret (negb (zlen entries =? 0))
  end.

(** First index from [i] whose entry satisfies [p]. *)
Fixpoint find_from (p : StoredEntry → bool) (i : Z) (l : list StoredEntry) : option Z :=
  match l with
  | [] => None
  | e :: l' => if p e then Some i else find_from p (i + 1) l'
  end.
Definition is_gt (c : comparison) : bool := match c with Gt => true | _ => false end.
Definition is_lt (c : comparison) : bool := match c with Lt => true | _ => false end.

Definition with_group (group : bytes) (e : RecorderEntry) : RecorderEntry :=
  mkRecorderEntry (re_boot_seq e) (re_boot_id e) (re_segment_seq e) (re_frame_offset e) (re_frame_entry_index e)
    (re_realtime_ts e) (re_monotonic_ts e) (re_monotonic_tie_order e) (re_pid e) (re_uid e) (re_gid e) (re_priority e)
    (re_errno_value e) (re_hostname e) (re_comm e) (re_unit e) (re_exe e) (re_message e) (re_message_id e)
    (re_fields e) group.

Definition source_position_fallback_after (r : Settings) (previous : RecorderEntry) (d : Direction) : SM IteratorSource bool :=
  s0 ← get;
  let key := with_group (is_group s0) previous in
  _ ← source_load_segment_fallback r d;
  s ← get;
  let found :=
    match d with
    | FORWARD => find_from (λ e, is_gt (compare_stored_entries e key)) 0 (is_entries s)
    | REVERSE =>
        j ← find_from (λ e, is_lt (compare_stored_entries e key)) 0 (rev (is_entries s));
        Some (zlen (is_entries s) - 1 - j)
    end in
  match found with
  | Some i => _ ← modify (set_entry_index i); mret true
  | None => _ ← source_clear_frame; mret false
  end.

(** First (or last) entry of the current segment. *)
Definition source_load_segment_edge (r : Settings) (d : Direction) : SM IteratorSource bool :=
  indexed ← attempt (source_load_index r);
  s ← get;
  match indexed with
  | Some _ =>
      if is_frame_count s =? 0 then mret false
      else
        rc ← attempt (source_load_indexed_from r (edge_index d (is_frame_count s)) d);
        match rc with
        | Some loaded => mret loaded
        | None => source_load_segment_fallback r d
        end
  | None => source_load_segment_fallback r d
  end.

(** To the next segment in the direction; [false] when there is none.  The
    counter moves in any case, and wraps below zero. *)
Definition next_segment (d : Direction) : SM IteratorSource bool :=
  s ← get;
  match d with
  | FORWARD =>
      _ ← modify (set_segment_index (u64 (is_segment_index s + 1)));
      mret (u64 (is_segment_index s + 1) <? zlen (is_segments s))
  | REVERSE =>
      _ ← modify (set_segment_index (u64 (is_segment_index s - 1)));
      mret (negb (is_segment_index s =? 0))
  end.

Fixpoint position_edge_loop (fuel : nat) (r : Settings) (d : Direction) : SM IteratorSource bool :=
  match fuel with
  | O => fail EOTHER
  | S fuel' =>
      rc ← source_load_segment_edge r d;
      if rc : bool then mret true
      else
        more ← next_segment d;
        if more : bool then position_edge_loop fuel' r d else mret false
  end.
Definition source_position_edge (r : Settings) (d : Direction) : SM IteratorSource bool :=
  s ← get;
  if zlen (is_segments s) =? 0 then mret false
  else
    _ ← modify (set_segment_index (edge_index d (zlen (is_segments s))));
    position_edge_loop (length (is_segments s)) r d.

(** ** Advancing

    [fuel] bounds the rounds of the loops that have no bound of their own: over
    the frames left in a segment, and over entries to skip.  Running out of it is
    a failure with EOTHER, which the code does not have. *)
Context (fuel : nat).

(** [++source->frame_index < source->frame_count] or [source->frame_index-- > 0]. *)
Definition next_frame (d : Direction) : SM IteratorSource bool :=
  s ← get;
  match d with
  | FORWARD =>
      _ ← modify (set_frame_index (u64 (is_frame_index s + 1)));
      mret (u64 (is_frame_index s + 1) <? is_frame_count s)
  | REVERSE =>
      _ ← modify (set_frame_index (u64 (is_frame_index s - 1)));
      mret (0 <? is_frame_index s)
  end.

(** The frames left in the segment: [true] with entries loaded, [false] to go on
    with the next segment. *)
Fixpoint advance_frames (n : nat) (r : Settings) (previous : RecorderEntry) (d : Direction) : SM IteratorSource bool :=
  match n with
  | O => fail EOTHER
  | S n' =>
      s ← get;
      if is_segment_scan_fallback s then mret false
      else
        go ← next_frame d;
        if negb go then mret false
        else
          s ← get;
          load_rc ← attempt (source_load_indexed_from r (is_frame_index s) d);
          match load_rc with
          | Some true => mret true
          | Some false => advance_frames n' r previous d
          | None =>
              rc ← source_position_fallback_after r previous d;
              if rc : bool then mret true else advance_frames n' r previous d
          end
  end.

Fixpoint advance_segments (n : nat) (r : Settings) (previous : RecorderEntry) (d : Direction) : SM IteratorSource bool :=
  match n with
  | O => fail EOTHER
  | S n' =>
      in_segment ← advance_frames fuel r previous d;
      if in_segment : bool then mret true
      else
        more ← next_segment d;
        if negb more then _ ← source_clear_frame; mret false
        else
          rc ← source_load_segment_edge r d;
          if rc : bool then mret true else advance_segments n' r previous d
  end.

Definition step_of (d : Direction) : Z := match d with FORWARD => 1 | REVERSE => -1 end.

Definition source_advance (r : Settings) (d : Direction) : SM IteratorSource bool :=
  s ← get;
  match is_entries s with
  | [] => mret false
  | e0 :: _ =>
      _ ← modify (set_entry_index (is_entry_index s + step_of d));
      if (0 <=? is_entry_index s + step_of d) && (is_entry_index s + step_of d <? zlen (is_entries s)) then mret true
      else
        let previous := match d with FORWARD => default e0 (last (is_entries s)) | REVERSE => e0 end in
        advance_segments (S (length (is_segments s))) r previous d
  end.

(** The loops [while (source_has_current(source) && ...) source_advance(...)]:
    skip the entries that satisfy [skip]. *)
Fixpoint advance_while (n : nat) (r : Settings) (skip : StoredEntry → bool) (d : Direction) : SM IteratorSource unit :=
  match n with
  | O => fail EOTHER
  | S n' =>
      s ← get;
      match source_current s with
      | None => mret tt
      | Some e =>
          if skip e
          then
            rc ← source_advance r d;
            if rc : bool then advance_while n' r skip d else mret tt
          else mret tt
      end
  end.

(** ** Seeking *)
Definition with_index_path {A} (path : bytes) (none : A) (f : bytes → A) : A :=
  match segment_index_path path PATH_SIZE with Some p => f p | None => none end.

(** An index search, retried once after a repair.  When the index path does not
    fit, [source_repair_index] is called with a buffer that was never written;
    the model then has no repair. *)
Definition search_index (path : bytes) (find : Res bytes → Res bytes → IndexFind) : SM IteratorSource IndexFind :=
  fs ← get_fs;
  let found := with_index_path path (FindError EUNSET) (λ p, find (rd_file fs p) (rd_file fs path)) in
  _ ← (match found with FindError e => attempt (fail (A := unit) e) | _ => mret None end);
  mret found.
Definition find_or_repair (r : Settings) (path : bytes) (i : Z) (find : Res bytes → Res bytes → IndexFind)
    : SM IteratorSource IndexFind :=
  found ← search_index path find;
  match found with
  | FindError _ =>
      _ ← modify (set_segment_index i);
      repaired ← attempt (with_index_path path (fail EUNSET) (source_repair_index r));
      match repaired with None => mret found | Some _ => search_index path find end
  | _ => mret found
  end.

(** The loop over the segments from number [i] on. *)
Fixpoint seek_realtime_loop (r : Settings) (usec : Z) (i : Z) (segments : list SegmentPath) : SM IteratorSource unit :=
  match segments with
  | [] => mret tt
  | p :: segments' =>
      find_rc ← find_or_repair r (sp_path p) i (λ a b, index_find_realtime_frame a b usec);
      match find_rc with
      | FindNone => seek_realtime_loop r usec (i + 1) segments'
      | FindError _ =>
          _ ← modify (set_segment_index i);
          _ ← source_load_segment_fallback r FORWARD;
          s ← get;
          match find_from (λ e, usec <=? re_realtime_ts e) 0 (is_entries s) with
          | Some j => modify (set_entry_index j)
          | None => seek_realtime_loop r usec (i + 1) segments'
          end
      | FindFrame _ frame_index =>
          _ ← modify (set_segment_index i);
          _ ← source_load_index r;
          loaded ← source_load_indexed_from r frame_index FORWARD;
          if negb loaded then seek_realtime_loop r usec (i + 1) segments'
          else
            s ← get;
            match find_from (λ e, usec <=? re_realtime_ts e) 0 (is_entries s) with
            | Some j => modify (set_entry_index j)
            | None => _ ← source_advance r FORWARD; mret tt
            end
      end
  end.
Definition source_seek_realtime (r : Settings) (usec : Z) : SM IteratorSource unit :=
  _ ← source_clear_frame;
  _ ← modify (set_frame_count 0);
  s ← get; seek_realtime_loop r usec 0 (is_segments s).

(** The least entry that is greater than [key], by its index. *)
Fixpoint least_after (order : RecorderPlayerOrder) (key : StoredEntry) (i : Z) (l : list StoredEntry)
    (best : option (Z * StoredEntry)) : option (Z * StoredEntry) :=
  match l with
  | [] => best
  | e :: l' =>
      let better :=
        is_gt (compare_iterator_entries order e key)
        && match best with None => true | Some (_, b) => is_lt (compare_iterator_entries order e b) end in
      least_after order key (i + 1) l' (if better then Some (i, e) else best)
  end.

Fixpoint seek_recorded_after_loop (r : Settings) (key : StoredEntry) (i : Z) (segments : list SegmentPath)
    : SM IteratorSource unit :=
  match segments with
  | [] => mret tt
  | p :: segments' =>
      let next := seek_recorded_after_loop r key (i + 1) segments' in
      fs ← get_fs;
      '(header, _, _) ← lift (segment_read_path_header (rd_file fs (sp_path p)));
      if sh_boot_seq header <? re_boot_seq key then next
      else
        _ ← modify (set_segment_index i);
        if re_boot_seq key <? sh_boot_seq header
        then rc ← source_load_segment_edge r FORWARD; if rc : bool then mret tt else next
        else
          find_rc ← find_or_repair r (sp_path p) i (λ a b, index_find_monotonic_frame a b (re_monotonic_ts key));
          match find_rc with
          | FindNone => next
          | FindError _ =>
              _ ← source_load_segment_fallback r FORWARD;
              s ← get;
              match least_after (rs_order r) key 0 (is_entries s) None with
              | Some (best, _) => modify (set_entry_index best)
              | None => next
              end
          | FindFrame _ frame_index =>
              _ ← source_load_index r;
              _ ← source_load_indexed_from r frame_index FORWARD;
              _ ← advance_while fuel r (λ e, negb (is_gt (compare_iterator_entries (rs_order r) e key))) FORWARD;
              s ← get;
              if source_has_current s then mret tt else next
          end
  end.
Definition source_seek_recorded_after (r : Settings) (key : StoredEntry) : SM IteratorSource unit :=
  _ ← source_clear_frame;
  _ ← modify (set_frame_count 0);
  s ← get; seek_recorded_after_loop r key 0 (is_segments s).

(** The entry at a location, with its realtime stamp. *)
Definition at_location (frame_offset frame_entry_index : Z) (e : StoredEntry) : bool :=
  (re_frame_offset e =? frame_offset) && (re_frame_entry_index e =? frame_entry_index).
Definition select_location (frame_offset frame_entry_index : Z) : SM IteratorSource (option Z) :=
  s ← get;
  match find_from (at_location frame_offset frame_entry_index) 0 (is_entries s) with
  | Some i =>
      _ ← modify (set_entry_index i);
      mret (re_realtime_ts <$> zlookup (is_entries s) i)
  | None => mret None
  end.

Fixpoint segment_number (segment_seq : Z) (i : Z) (segments : list SegmentPath) : option Z :=
  match segments with
  | [] => None
  | p :: segments' => if sp_segment_seq p =? segment_seq then Some i else segment_number segment_seq (i + 1) segments'
  end.

Definition source_seek_cursor (r : Settings) (segment_seq frame_offset frame_entry_index : Z) : SM IteratorSource Z :=
  s ← get;
  match segment_number segment_seq 0 (is_segments s) with
  | None => fail ENOENT
  | Some i =>
      _ ← modify (set_segment_index i);
      path ← current_path;
      indexed ← attempt (
        match segment_index_path path PATH_SIZE with
        | None => fail EUNSET
        | Some index_path =>
            fs ← get_fs;
            '(_, frame_index) ← lift (index_find_offset_frame (rd_file fs index_path) (rd_file fs path) frame_offset);
            _ ← source_load_index r;
            loaded ← source_load_frame r frame_index FORWARD;
            if loaded : bool then mret tt else fail EUNSET
        end);
      _ ← (match indexed with Some _ => mret true | None => source_load_segment_fallback r FORWARD end);
      found ← select_location frame_offset frame_entry_index;
      match found with
      | Some ts => mret ts
      | None =>
          s ← get;
          scanned ← (if is_segment_scan_fallback s then mret None else attempt (source_load_segment_fallback r FORWARD));
          found ← (match scanned with Some _ => select_location frame_offset frame_entry_index | None => mret None end);
          match found with Some ts => mret ts | None => fail ENOENT end
      end
  end.
End source.
