(* ===== verification/PlayerIter.v ===== *)
(** * The iterator of the reader library (src/src/librecorder.c)

    [rec_player_next] and [rec_player_previous] merge the groups' sources; seeks
    position them by time or by cursor; after [seek_tail] new entries come from
    the follow scans. *)
From S2P Require Import Prelude Bytes Crypto Segment Chunk Index CText Player PlayerCursor PlayerFollow PlayerSource.

(** The entry that a pointer refers to: one of the follow entries or one of a
    source's frame.  A pointer into a frame that was freed refers to what the
    source holds now; the code that keeps such a pointer is in error. *)
Inductive EntryRef :=
  | InFollow (i : Z)
  | InSource (source i : Z).

Section iter.
Context `{F : FlatCC} `{QS : CLib}.
Context (fuel : nat).

Record RecorderPlayer := mkRecorderPlayer {
  rp_settings : Settings;
  rp_order_changed : bool;
  rp_follow : Follow;
  rp_entries : list StoredEntry;   (* of the follow iteration *)
  rp_current : Z;   (* index into them, or SIZE_MAX *)
  rp_sources : list IteratorSource;
  rp_current_source : Z;
  rp_current_entry_ptr : option EntryRef;
  rp_current_valid : bool;
  rp_last_direction : option Direction;   (* ITERATOR_DIRECTION_NONE: None *)
  rp_cursor_pending : bool;
  rp_cursor_sources_pending : bool;
  rp_cursor : CursorKey;
  rp_inotify_fd : bool;   (* whether it is open *)
  rp_reliable_fd : bool;
}.
Definition set_settings (x : Settings) (s : RecorderPlayer) : RecorderPlayer :=
  mkRecorderPlayer x (rp_order_changed s) (rp_follow s) (rp_entries s) (rp_current s) (rp_sources s)
    (rp_current_source s) (rp_current_entry_ptr s) (rp_current_valid s) (rp_last_direction s)
    (rp_cursor_pending s) (rp_cursor_sources_pending s) (rp_cursor s) (rp_inotify_fd s) (rp_reliable_fd
    s).
Definition set_order_changed (x : bool) (s : RecorderPlayer) : RecorderPlayer :=
  mkRecorderPlayer (rp_settings s) x (rp_follow s) (rp_entries s) (rp_current s) (rp_sources s)
    (rp_current_source s) (rp_current_entry_ptr s) (rp_current_valid s) (rp_last_direction s)
    (rp_cursor_pending s) (rp_cursor_sources_pending s) (rp_cursor s) (rp_inotify_fd s) (rp_reliable_fd
    s).
Definition set_follow (x : Follow) (s : RecorderPlayer) : RecorderPlayer :=
  mkRecorderPlayer (rp_settings s) (rp_order_changed s) x (rp_entries s) (rp_current s) (rp_sources s)
    (rp_current_source s) (rp_current_entry_ptr s) (rp_current_valid s) (rp_last_direction s)
    (rp_cursor_pending s) (rp_cursor_sources_pending s) (rp_cursor s) (rp_inotify_fd s) (rp_reliable_fd
    s).
Definition set_current (x : Z) (s : RecorderPlayer) : RecorderPlayer :=
  mkRecorderPlayer (rp_settings s) (rp_order_changed s) (rp_follow s) (rp_entries s) x (rp_sources s)
    (rp_current_source s) (rp_current_entry_ptr s) (rp_current_valid s) (rp_last_direction s)
    (rp_cursor_pending s) (rp_cursor_sources_pending s) (rp_cursor s) (rp_inotify_fd s) (rp_reliable_fd
    s).
Definition set_sources (x : list IteratorSource) (s : RecorderPlayer) : RecorderPlayer :=
  mkRecorderPlayer (rp_settings s) (rp_order_changed s) (rp_follow s) (rp_entries s) (rp_current s) x
    (rp_current_source s) (rp_current_entry_ptr s) (rp_current_valid s) (rp_last_direction s)
    (rp_cursor_pending s) (rp_cursor_sources_pending s) (rp_cursor s) (rp_inotify_fd s) (rp_reliable_fd
    s).
Definition set_current_source (x : Z) (s : RecorderPlayer) : RecorderPlayer :=
  mkRecorderPlayer (rp_settings s) (rp_order_changed s) (rp_follow s) (rp_entries s) (rp_current s)
    (rp_sources s) x (rp_current_entry_ptr s) (rp_current_valid s) (rp_last_direction s)
    (rp_cursor_pending s) (rp_cursor_sources_pending s) (rp_cursor s) (rp_inotify_fd s) (rp_reliable_fd
    s).
Definition set_last_direction (x : option Direction) (s : RecorderPlayer) : RecorderPlayer :=
  mkRecorderPlayer (rp_settings s) (rp_order_changed s) (rp_follow s) (rp_entries s) (rp_current s)
    (rp_sources s) (rp_current_source s) (rp_current_entry_ptr s) (rp_current_valid s) x
    (rp_cursor_pending s) (rp_cursor_sources_pending s) (rp_cursor s) (rp_inotify_fd s) (rp_reliable_fd
    s).
Definition set_cursor_pending (x : bool) (s : RecorderPlayer) : RecorderPlayer :=
  mkRecorderPlayer (rp_settings s) (rp_order_changed s) (rp_follow s) (rp_entries s) (rp_current s)
    (rp_sources s) (rp_current_source s) (rp_current_entry_ptr s) (rp_current_valid s)
    (rp_last_direction s) x (rp_cursor_sources_pending s) (rp_cursor s) (rp_inotify_fd s)
    (rp_reliable_fd s).
Definition set_cursor_sources_pending (x : bool) (s : RecorderPlayer) : RecorderPlayer :=
  mkRecorderPlayer (rp_settings s) (rp_order_changed s) (rp_follow s) (rp_entries s) (rp_current s)
    (rp_sources s) (rp_current_source s) (rp_current_entry_ptr s) (rp_current_valid s)
    (rp_last_direction s) (rp_cursor_pending s) x (rp_cursor s) (rp_inotify_fd s) (rp_reliable_fd s).
Definition set_cursor (x : CursorKey) (s : RecorderPlayer) : RecorderPlayer :=
  mkRecorderPlayer (rp_settings s) (rp_order_changed s) (rp_follow s) (rp_entries s) (rp_current s)
    (rp_sources s) (rp_current_source s) (rp_current_entry_ptr s) (rp_current_valid s)
    (rp_last_direction s) (rp_cursor_pending s) (rp_cursor_sources_pending s) x (rp_inotify_fd s)
    (rp_reliable_fd s).
Definition set_entries_at (entries : list StoredEntry) (current : Z) (s : RecorderPlayer) : RecorderPlayer :=
  mkRecorderPlayer (rp_settings s) (rp_order_changed s) (rp_follow s) entries current (rp_sources s)
    (rp_current_source s) (rp_current_entry_ptr s) (rp_current_valid s) (rp_last_direction s)
    (rp_cursor_pending s) (rp_cursor_sources_pending s) (rp_cursor s) (rp_inotify_fd s) (rp_reliable_fd s).
(** [current_entry_ptr] and [current_valid], which are set together. *)
Definition set_current_entry (ptr : option EntryRef) (s : RecorderPlayer) : RecorderPlayer :=
  mkRecorderPlayer (rp_settings s) (rp_order_changed s) (rp_follow s) (rp_entries s) (rp_current s) (rp_sources s)
    (rp_current_source s) ptr (bool_decide (is_Some ptr)) (rp_last_direction s)
    (rp_cursor_pending s) (rp_cursor_sources_pending s) (rp_cursor s) (rp_inotify_fd s) (rp_reliable_fd s).

(** ** Resetting *)
Definition iterator_reset (s : RecorderPlayer) : RecorderPlayer :=
  mkRecorderPlayer (rp_settings s) (rp_order_changed s) (rp_follow s) (rp_entries s) (rp_current s) []
    SIZE_MAX None false None false false (rp_cursor s) (rp_inotify_fd s) (rp_reliable_fd s).
Definition clear_entries (s : RecorderPlayer) : RecorderPlayer :=
  iterator_reset (set_follow (mkFollow [] false false false) (set_entries_at [] SIZE_MAX s)).

(** [rec_player_open]: whether the watches could be added is the system's answer. *)
Definition rec_player_open (fs : ReadFs) (path : bytes) (inotify_ok watches_ok : bool) : option RecorderPlayer :=
  match rd_stat fs path with
  | Err _ => None
  | Ok kind =>
      let is_dir := bool_decide (kind = KDir) in
      Some (mkRecorderPlayer
              (mkSettings path is_dir (load_store_id fs path is_dir) None false false None [] RECORDER_ORDER_WALLCLOCK)
              false (mkFollow [] false false false) [] SIZE_MAX [] 0 None false None false false
              (mkCursorKey [] 0 0 0) inotify_ok (inotify_ok && watches_ok))
  end.

(** ** Settings

    [key] is what loading the private key gives; NULL clears it. *)
Definition update_settings (f : Settings → Settings) (s : RecorderPlayer) : RecorderPlayer :=
  set_settings (f (rp_settings s)) s.
Definition rec_player_set_private_key (path : option bytes) (s : RecorderPlayer) : Res unit * RecorderPlayer :=
  match path with
  | Some [] => (Err EUNSET, s)
  | _ =>
      match match path with None => Ok None | Some p => let? d := segment_decryptor_create p in Ok (Some d) end with
      | Err e => (Err e, s)
      | Ok d =>
          (Ok tt, update_settings (λ r, mkSettings (rs_path r) (rs_path_is_directory r) (rs_store_id r) d
             (rs_repair_indexes r) (rs_force_repair_indexes r) (rs_unit_filter r) (rs_group_filter r) (rs_order r))
             (clear_entries s))
      end
  end.
Definition rec_player_set_unit_filter (unit : option bytes) (s : RecorderPlayer) : Res () * RecorderPlayer :=
  match unit with
  | Some [] => (Err EUNSET, s)
  | _ =>
      (Ok tt, update_settings (λ r, mkSettings (rs_path r) (rs_path_is_directory r) (rs_store_id r) (rs_decryptor r)
         (rs_repair_indexes r) (rs_force_repair_indexes r) unit (rs_group_filter r) (rs_order r)) (clear_entries s))
  end.
Definition rec_player_set_group_filter (groups : list bytes) (s : RecorderPlayer) : Res () * RecorderPlayer :=
  if forallb (λ g, (zlen g <? GROUP_SIZE) && valid_group_name g) groups
  then (Ok tt, update_settings (λ r, mkSettings (rs_path r) (rs_path_is_directory r) (rs_store_id r) (rs_decryptor r)
          (rs_repair_indexes r) (rs_force_repair_indexes r) (rs_unit_filter r) groups (rs_order r)) (clear_entries s))
  else (Err EINVAL, s).
Definition rec_player_set_order (order : RecorderPlayerOrder) (s : RecorderPlayer) : RecorderPlayer :=
  if bool_decide (rs_order (rp_settings s) = order) then s
  else set_order_changed true (update_settings (λ r, mkSettings (rs_path r) (rs_path_is_directory r) (rs_store_id r)
         (rs_decryptor r) (rs_repair_indexes r) (rs_force_repair_indexes r) (rs_unit_filter r) (rs_group_filter r) order) s).
Definition rec_player_set_repair_indexes (enabled : bool) (s : RecorderPlayer) : RecorderPlayer :=
  update_settings (λ r, mkSettings (rs_path r) (rs_path_is_directory r) (rs_store_id r) (rs_decryptor r)
    enabled (rs_force_repair_indexes r) (rs_unit_filter r) (rs_group_filter r) (rs_order r)) s.
Definition rec_player_set_force_repair_indexes (enabled : bool) (s : RecorderPlayer) : RecorderPlayer :=
  update_settings (λ r, mkSettings (rs_path r) (rs_path_is_directory r) (rs_store_id r) (rs_decryptor r)
    (rs_repair_indexes r) enabled (rs_unit_filter r) (rs_group_filter r) (rs_order r)) s.

(** ** Running on parts of the reader *)
Definition on_source {A} (i : Z) (m : SM IteratorSource A) : SM RecorderPlayer A := λ s w,
  match zlookup (rp_sources s) i with
  | None => fail EUNSET s w
  | Some src =>
      let '(res, src', w') := m src w in (res, set_sources (<[Z.to_nat i := src']> (rp_sources s)) s, w')
  end.
Definition on_follow {A} (m : SM Follow A) : SM RecorderPlayer A := λ s w,
  let '(res, f, w') := m (rp_follow s) w in (res, set_follow f s, w').
(** A loop over all sources. *)
Fixpoint each_source_from (i : Z) (n : nat) (f : Z → SM RecorderPlayer unit) : SM RecorderPlayer unit :=
  match n with
  | O => mret tt
  | S n' => _ ← f i; each_source_from (i + 1) n' f
  end.
Definition each_source (f : Z → SM RecorderPlayer unit) : SM RecorderPlayer unit :=
  s ← get; each_source_from 0 (length (rp_sources s)) f.
Definition settings : SM RecorderPlayer Settings := s ← get; mret (rp_settings s).
Definition source_at (i : Z) : SM RecorderPlayer IteratorSource :=
  s ← get; match zlookup (rp_sources s) i with Some src => mret src | None => fail EUNSET end.

(** ** The sources *)
Fixpoint add_to_source (group : bytes) (p : SegmentPath) (sources : list IteratorSource) : list IteratorSource :=
  match sources with
  | [] => [new_source group [p]]
  | s :: sources' =>
      if beq (is_group s) group
      then mkIteratorSource (is_group s) (is_segments s ++ [p]) (is_segment_index s) (is_frame_count s) (is_frame_index s)
             (is_segment_scan_fallback s) (is_index_reader s) (is_frame_reader s) (is_entries s) (is_entry_index s) :: sources'
      else s :: add_to_source group p sources'
  end.
Fixpoint group_sources (r : Settings) (paths : list SegmentPath) (sources : list IteratorSource) : option (list IteratorSource) :=
  match paths with
  | [] => Some sources
  | p :: paths' => group ← path_group r (sp_path p); group_sources r paths' (add_to_source group p sources)
  end.
Definition iterator_collect_sources : SM RecorderPlayer unit :=
  _ ← modify iterator_reset;
  r ← settings;
  paths ← all_segment_paths r;
  match group_sources r paths [] with
  | Some sources => modify (set_sources sources)
  | None => fail EUNSET
  end.

Definition iterator_initialize (d : Direction) : SM RecorderPlayer unit :=
  _ ← iterator_collect_sources;
  r ← settings;
  done ← attempt (each_source (λ i, _ ← on_source i (source_position_edge r d); mret tt));
  match done with
  | Some _ => modify (set_last_direction (Some d))
  | None => _ ← modify iterator_reset; fail EUNSET
  end.

Definition toward (d : Direction) (c : comparison) : bool :=
  match d with FORWARD => is_lt c | REVERSE => is_gt c end.
(** The source whose entry comes next, the first of those that compare equal. *)
Fixpoint pick_loop (order : RecorderPlayerOrder) (d : Direction) (i : Z) (sources : list IteratorSource)
    (result : option (Z * StoredEntry)) : option (Z * StoredEntry) :=
  match sources with
  | [] => result
  | s :: sources' =>
      pick_loop order d (i + 1) sources'
        (match source_current s with
         | None => result
         | Some e =>
             match result with
             | None => Some (i, e)
             | Some (_, b) => if toward d (compare_iterator_entries order e b) then Some (i, e) else result
             end
         end)
  end.
Definition iterator_pick (d : Direction) : SM RecorderPlayer (option Z) :=
  s ← get; mret (fst <$> pick_loop (rs_order (rp_settings s)) d 0 (rp_sources s) None).

Definition deref (s : RecorderPlayer) (ref : EntryRef) : option StoredEntry :=
  match ref with
  | InFollow i => zlookup (rp_entries s) i
  | InSource j i => src ← zlookup (rp_sources s) j; zlookup (is_entries src) i
  end.
Definition current_entry (s : RecorderPlayer) : option StoredEntry :=
  if rp_current_valid s then rp_current_entry_ptr s ≫= deref s else None.

(** ** Seeking by position and time *)
Definition iterator_seek_realtime (usec : Z) : SM RecorderPlayer unit :=
  _ ← iterator_initialize FORWARD;
  r ← settings;
  _ ← each_source (λ i, on_source i (source_seek_realtime fuel r usec));
  modify (set_current_entry None).

Definition rec_player_seek_head : SM RecorderPlayer unit :=
  _ ← modify clear_entries;
  _ ← iterator_initialize FORWARD;
  modify (set_order_changed false).
Definition rec_player_seek_tail : SM RecorderPlayer unit :=
  _ ← modify clear_entries;
  r ← settings;
  done ← attempt (_ ← on_follow (initialize_tail_follow r); iterator_initialize REVERSE);
  match done with
  | None => _ ← modify clear_entries; fail EUNSET
  | Some _ => modify (set_order_changed false ∘ set_current 0 ∘ set_last_direction None)
  end.
Definition rec_player_seek_realtime_usec (usec : Z) : SM RecorderPlayer unit :=
  _ ← modify clear_entries;
  _ ← iterator_seek_realtime usec;
  modify (set_order_changed false).

(** ** Cursors *)
Definition not_greater (e : StoredEntry) (order : RecorderPlayerOrder) (key : StoredEntry) : bool :=
  negb (is_gt (compare_iterator_entries order e key)).
Definition not_less (e : StoredEntry) (order : RecorderPlayerOrder) (key : StoredEntry) : bool :=
  negb (is_lt (compare_iterator_entries order e key)).

(** Every source to its first entry at or after the cursor's. *)
Definition iterator_position_at_cursor (source_index : Z) : SM RecorderPlayer unit :=
  r ← settings;
  cursor_source ← source_at source_index;
  match source_current cursor_source with
  | None => fail EUNSET
  | Some cursor_entry =>
      _ ← each_source (λ i, on_source i
            (advance_while fuel fuel r (λ e, is_lt (compare_stored_entries e cursor_entry)) FORWARD));
      cursor_source ← source_at source_index;
      match source_current cursor_source with
      | Some e =>
          if bool_decide (compare_stored_entries e cursor_entry = Eq)
          then modify (set_last_direction None ∘ set_current_entry None ∘ set_current_source source_index)
          else fail EUNSET
      | None => fail EUNSET
      end
  end.
Definition iterator_seek_other_sources_realtime (cursor_source_index usec : Z) : SM RecorderPlayer unit :=
  r ← settings;
  each_source (λ i, if i =? cursor_source_index then mret tt else on_source i (source_seek_realtime fuel r usec)).

Fixpoint source_number (group : bytes) (i : Z) (sources : list IteratorSource) : option Z :=
  match sources with
  | [] => None
  | s :: sources' => if beq (is_group s) group then Some i else source_number group (i + 1) sources'
  end.

Definition iterator_materialize_cursor_sources : SM RecorderPlayer unit :=
  s ← get;
  if negb (rp_cursor_sources_pending s) then mret tt
  else
    let k := rp_cursor s in
    _ ← iterator_collect_sources;
    r ← settings;
    s ← get;
    match source_number (ck_group k) 0 (rp_sources s) with
    | None => fail ENOENT
    | Some source_index =>
        realtime_ts ← on_source source_index
          (source_seek_cursor r (ck_segment_seq k) (ck_frame_offset k) (ck_frame_entry_index k));
        _ ← (match rs_order r with
             | RECORDER_ORDER_RECORDED =>
                 source ← source_at source_index;
                 match source_current source with
                 | None => fail EUNSET
                 | Some cursor_entry =>
                     _ ← each_source (λ i, on_source i (source_seek_recorded_after fuel r cursor_entry));
                     modify (set_last_direction None ∘ set_current_entry None ∘ set_current_source source_index)
                 end
             | RECORDER_ORDER_WALLCLOCK =>
                 _ ← iterator_seek_other_sources_realtime source_index realtime_ts;
                 iterator_position_at_cursor source_index
             end);
        modify (set_cursor_sources_pending false)
    end.

(** The path of the cursor's segment: [None] when it does not fit. *)
Definition cursor_path (r : Settings) (k : CursorKey) : option SegmentPath :=
  let path := if rs_path_is_directory r
              then rs_path r ++ [47] ++ ck_group k ++ [47] ++ print_u64 (ck_segment_seq k) ++ C ".seg"
              else rs_path r in
  if fits_path path then Some (mkSegmentPath path (ck_segment_seq k)) else None.

Definition rec_player_seek_cursor_once (k : CursorKey) : SM RecorderPlayer unit :=
  r ← settings;
  match cursor_path r k with
  | None => fail EUNSET
  | Some path =>
      _ ← modify (λ s, set_follow (mkFollow [] false false false) (iterator_reset s));
      _ ← modify (set_sources [new_source (ck_group k) [path]]);
      found ← attempt (on_source 0
        (source_seek_cursor (without_filters r) (ck_segment_seq k) (ck_frame_offset k) (ck_frame_entry_index k)));
      match found with
      | None => _ ← modify iterator_reset; fail EUNSET
      | Some _ =>
          if group_allowed (rs_group_filter r) (ck_group k)
          then modify (set_order_changed false ∘ set_last_direction None ∘ set_current_entry None ∘ set_cursor k
                       ∘ set_cursor_sources_pending true ∘ set_cursor_pending true ∘ set_current_source 0)
          else
            source ← source_at 0;
            match with_group (ck_group k) <$> source_current source with
            | None => fail EUNSET
            | Some key =>
                _ ← (match rs_order r with
                     | RECORDER_ORDER_RECORDED =>
                         _ ← iterator_collect_sources;
                         each_source (λ i, on_source i (source_seek_recorded_after fuel r key))
                     | RECORDER_ORDER_WALLCLOCK =>
                         _ ← iterator_seek_realtime (re_realtime_ts key);
                         each_source (λ i, on_source i
                           (advance_while fuel fuel r (λ e, negb (is_gt (compare_stored_entries e key))) FORWARD))
                     end);
                modify (set_order_changed false ∘ set_last_direction (Some FORWARD))
            end
      end
  end.

Definition key_of (e : RecorderEntry) : CursorKey :=
  mkCursorKey (re_group e) (re_segment_seq e) (re_frame_offset e) (re_frame_entry_index e).

Definition rec_player_seek_cursor (cursor : option bytes) : SM RecorderPlayer unit :=
  r ← settings;
  match rs_store_id r, parse_cursor cursor with
  | Some my_store, Some (store_id, k) =>
      if negb (store_id =? my_store) then fail ESTALE
      else
        s ← get;
        if bool_decide (key_of <$> current_entry s = Some k)
        then modify (set_current_entry None ∘ set_cursor_sources_pending false ∘ set_cursor_pending true)
        else
          done ← attempt (rec_player_seek_cursor_once k);
          match done with
          | Some _ => mret tt
          | None =>
              e ← get_errno;
              _ ← modify iterator_reset;
              fail (if bool_decide (e = EUNSET) then ENOENT else e)
          end
  | _, _ => fail EINVAL
  end.

(** [None] is -1. *)
Definition rec_player_test_cursor (cursor : option bytes) (s : RecorderPlayer) : option bool :=
  match current_entry s, rs_store_id (rp_settings s), parse_cursor cursor with
  | Some e, Some my_store, Some (store_id, k) =>
      if store_id =? my_store then Some (bool_decide (key_of e = k)) else None
  | _, _, _ => None
  end.

(** ** Stepping *)
Definition reverse_source (r : Settings) : SM IteratorSource bool :=
  s ← get;
  if source_has_current s then source_advance fuel r REVERSE else source_position_edge r REVERSE.

Definition iterator_reposition_after_current (d : Direction) : SM RecorderPlayer unit :=
  s ← get;
  match current_entry s with
  | None => fail EUNSET
  | Some key =>
      _ ← (match rs_order (rp_settings s) with
           | RECORDER_ORDER_RECORDED =>
               _ ← iterator_collect_sources;
               r ← settings;
               each_source (λ i, on_source i (
                 _ ← source_seek_recorded_after fuel r key;
                 match d with
                 | FORWARD => mret tt
                 | REVERSE =>
                     _ ← reverse_source r;
                     advance_while fuel fuel r (λ e, not_less e (rs_order r) key) REVERSE
                 end))
           | RECORDER_ORDER_WALLCLOCK =>
               _ ← iterator_seek_realtime (re_realtime_ts key);
               r ← settings;
               each_source (λ i, on_source i (
                 match d with
                 | FORWARD => advance_while fuel fuel r (λ e, negb (is_gt (compare_stored_entries e key))) FORWARD
                 | REVERSE =>
                     _ ← advance_while fuel fuel r (λ e, is_lt (compare_stored_entries e key)) FORWARD;
                     _ ← reverse_source r; mret tt
                 end))
           end);
      modify (set_last_direction (Some d) ∘ set_current_entry None ∘ set_current_source SIZE_MAX)
  end.

Definition iterator_next_follow_entry : SM RecorderPlayer bool :=
  s ← get;
  _ ← when (fo_pending (rp_follow s) || (zlen (rp_entries s) <=? rp_current s))
        ((λ s w,
            let '(res, (f, entries), w') := append_pending_entries (rp_settings s) (rp_follow s, rp_entries s) w in
            match res with
            | None => (None, set_follow f s, w')
            | Some _ =>
                (Some tt, set_follow (mkFollow (fo_segments f) (fo_initialized f) false (fo_topology_pending f))
                            (set_entries_at entries (rp_current s) s), w')
            end) : SM RecorderPlayer unit);
  s ← get;
  if zlen (rp_entries s) <=? rp_current s then mret false
  else
    _ ← modify (set_last_direction (Some FORWARD) ∘ set_current_source SIZE_MAX
                ∘ set_current_entry (Some (InFollow (rp_current s))) ∘ set_current (rp_current s + 1));
    mret true.

(** What [rec_player_next] and [rec_player_previous] end with. *)
Definition select_pick (d : Direction) (none : SM RecorderPlayer bool) : SM RecorderPlayer bool :=
  pick ← iterator_pick d;
  match pick with
  | None => _ ← modify (set_current_entry None); none
  | Some i =>
      source ← source_at i;
      _ ← modify (set_last_direction (Some d) ∘ set_current_entry (Some (InSource i (is_entry_index source)))
                  ∘ set_current_source i);
      mret true
  end.
Definition advance_current (d : Direction) : SM RecorderPlayer unit :=
  s ← get; _ ← on_source (rp_current_source s) (source_advance fuel (rp_settings s) d); mret tt.

Definition rec_player_next : SM RecorderPlayer bool :=
  s ← get;
  if fo_initialized (rp_follow s) && negb (rp_current s =? SIZE_MAX)
     && ((rp_current s <? zlen (rp_entries s)) || negb (rp_current_valid s) || (rp_current_source s =? SIZE_MAX))
  then iterator_next_follow_entry
  else
    _ ← (if rp_cursor_pending s then modify (set_last_direction (Some FORWARD) ∘ set_cursor_pending false)
         else if rp_order_changed s && rp_current_valid s then
           _ ← iterator_materialize_cursor_sources;
           _ ← iterator_reposition_after_current FORWARD;
           modify (set_order_changed false)
         else if rp_cursor_sources_pending s && rp_current_valid s then
           _ ← iterator_materialize_cursor_sources;
           s ← get;
           when (bool_decide (rs_order (rp_settings s) = RECORDER_ORDER_WALLCLOCK)
                 && (rp_current_source s <? zlen (rp_sources s))) (advance_current FORWARD)
         else if bool_decide (rp_last_direction s = Some REVERSE) && rp_current_valid s then
           iterator_reposition_after_current FORWARD
         else if negb (bool_decide (rp_last_direction s = Some FORWARD)) then
           _ ← rec_player_seek_head; modify (set_order_changed false)
         else if rp_current_valid s then advance_current FORWARD
         else mret tt);
    select_pick FORWARD
      (s ← get; if fo_initialized (rp_follow s) then iterator_next_follow_entry else mret false).

Definition rec_player_previous : SM RecorderPlayer bool :=
  s ← get;
  _ ← (if rp_cursor_pending s then
         let cursor_entry :=
           match rp_current_entry_ptr s with
           | Some ref => deref s ref
           | None => src ← zlookup (rp_sources s) (rp_current_source s); source_current src
           end in
         match cursor_entry with
         | None => fail EUNSET
         | Some cursor_key =>
             _ ← iterator_materialize_cursor_sources;
             r ← settings;
             _ ← each_source (λ i, on_source i (
               _ ← reverse_source r;
               match rs_order r with
               | RECORDER_ORDER_RECORDED => advance_while fuel fuel r (λ e, not_less e (rs_order r) cursor_key) REVERSE
               | RECORDER_ORDER_WALLCLOCK => mret tt
               end));
             modify (set_order_changed false ∘ set_last_direction (Some REVERSE) ∘ set_current_entry None
                     ∘ set_cursor_pending false)
         end
       else if rp_order_changed s && rp_current_valid s then
         _ ← iterator_materialize_cursor_sources;
         _ ← iterator_reposition_after_current REVERSE;
         modify (set_order_changed false)
       else if bool_decide (rp_last_direction s = Some FORWARD) && rp_current_valid s then
         iterator_reposition_after_current REVERSE
       else if negb (bool_decide (rp_last_direction s = Some REVERSE)) then
         _ ← when (negb (rp_current_valid s) || (zlen (rp_sources s) =? 0)) rec_player_seek_tail;
         modify (set_order_changed false ∘ set_last_direction (Some REVERSE))
       else if rp_current_valid s then advance_current REVERSE
       else mret tt);
  select_pick REVERSE (mret false).

(** ** The current entry *)
Definition rec_player_get_entry (s : RecorderPlayer) : option RecorderEntry := current_entry s.

Definition format_data (field : bytes) (value : option bytes) : option bytes :=
  v ← value; Some (field ++ C "=" ++ v).
Definition format_data_u64 (field : bytes) (value : Z) : option bytes := format_data field (Some (print_u64 value)).

Definition rec_player_get_data (field : bytes) (s : RecorderPlayer) : option bytes :=
  e ← current_entry s;
  if beq field (C "MESSAGE") then format_data field (re_message e)
  else if beq field (C "PRIORITY") then format_data_u64 field (re_priority e)
  else if beq field (C "_PID") then format_data_u64 field (re_pid e)
  else if beq field (C "_UID") then format_data_u64 field (re_uid e)
  else if beq field (C "_GID") then format_data_u64 field (re_gid e)
  else if beq field (C "_HOSTNAME") then format_data field (re_hostname e)
  else if beq field (C "_COMM") then format_data field (re_comm e)
  else if beq field (C "_SYSTEMD_UNIT") then format_data field (re_unit e)
  else if beq field (C "_EXE") then format_data field (re_exe e)
  else if beq field (C "MESSAGE_ID") then format_data field (re_message_id e)
  else if beq field (C "ERRNO") then format_data_u64 field (re_errno_value e)
  else if beq field (C "__REALTIME_TIMESTAMP") then format_data_u64 field (re_realtime_ts e)
  else if beq field (C "_BOOT_ID") then format_data field (Some (re_boot_id e))
  else None.

Definition rec_player_get_realtime_usec (s : RecorderPlayer) : option Z := re_realtime_ts <$> current_entry s.
Definition rec_player_get_monotonic_usec (s : RecorderPlayer) : option (Z * bytes) :=
  e ← current_entry s; Some (re_monotonic_ts e, re_boot_id e).
Definition rec_player_get_cursor (s : RecorderPlayer) : option bytes :=
  e ← current_entry s;
  store_id ← rs_store_id (rp_settings s);
  if valid_group_name (re_group e) then Some (format_cursor store_id (key_of e)) else None.

(** ** Notifications

    The inotify descriptor: [read] gives events, EAGAIN, an end or an error. *)
Record InotifyEvent := mkInotifyEvent {
  ev_mask : Z;
  ev_name : option bytes;       (* NULL when [len] is 0 *)
}.
Inductive InotifyRead :=
  | ReadEvents (events : list InotifyEvent)
  | ReadAgain
  | ReadEnd
  | ReadError.

Definition IN_MODIFY : Z := 2.
Definition IN_CLOSE_WRITE : Z := 8.
Definition IN_MOVED_FROM : Z := 64.
Definition IN_MOVED_TO : Z := 128.
Definition IN_CREATE : Z := 256.
Definition IN_DELETE : Z := 512.
Definition IN_DELETE_SELF : Z := 1024.
Definition IN_MOVE_SELF : Z := 2048.
Definition IN_Q_OVERFLOW : Z := 16384.
Definition IN_IGNORED : Z := 32768.
Definition IN_ISDIR : Z := 1073741824.

Inductive ProcessResult := RECORDER_PROCESS_NOP | RECORDER_PROCESS_APPEND | RECORDER_PROCESS_INVALIDATE.
#[export] Instance ProcessResult_eq_dec : EqDecision ProcessResult.
Proof. solve_decision. Defined.

Definition is_segment_event_name (event : InotifyEvent) : bool :=
  match ev_name event with
  | None => false
  | Some name => (4 <? zlen name) && beq (zdrop (zlen name - 4) name) (C ".seg")
  end.
Definition topology_mask : Z := Z.lor (Z.lor IN_CREATE IN_DELETE) (Z.lor IN_MOVED_TO IN_MOVED_FROM).

Definition process_event (path_is_directory : bool) (result : ProcessResult) (event : InotifyEvent) : ProcessResult :=
  if has_flag (ev_mask event) (Z.lor (Z.lor IN_Q_OVERFLOW IN_DELETE_SELF) (Z.lor IN_MOVE_SELF IN_IGNORED))
  then RECORDER_PROCESS_INVALIDATE
  else if path_is_directory && has_flag (ev_mask event) IN_ISDIR
  then if has_flag (ev_mask event) topology_mask then RECORDER_PROCESS_INVALIDATE else result
  else if negb path_is_directory || is_segment_event_name event
  then
    if has_flag (ev_mask event) topology_mask then RECORDER_PROCESS_INVALIDATE
    else if negb (bool_decide (result = RECORDER_PROCESS_INVALIDATE)) && has_flag (ev_mask event) (Z.lor IN_MODIFY IN_CLOSE_WRITE)
    then RECORDER_PROCESS_APPEND
    else result
  else result.

(** The [for(;;)] loop: [inl] leaves the function. *)
Fixpoint process_reads (path_is_directory : bool) (reads : list InotifyRead) (result : ProcessResult)
  : option ProcessResult + ProcessResult :=
  match reads with
  | [] | ReadAgain :: _ => inr result
  | ReadEnd :: _ => inl (Some RECORDER_PROCESS_INVALIDATE)
  | ReadError :: _ => inl None
  | ReadEvents events :: reads' =>
      process_reads path_is_directory reads' (fold_left (process_event path_is_directory) events result)
  end.

Definition set_follow_pending (topology : bool) (s : RecorderPlayer) : RecorderPlayer :=
  set_follow (mkFollow (fo_segments (rp_follow s)) (fo_initialized (rp_follow s)) true
                (topology || fo_topology_pending (rp_follow s))) s.
Definition set_reliable_fd (x : bool) (s : RecorderPlayer) : RecorderPlayer :=
  mkRecorderPlayer (rp_settings s) (rp_order_changed s) (rp_follow s) (rp_entries s) (rp_current s) (rp_sources s)
    (rp_current_source s) (rp_current_entry_ptr s) (rp_current_valid s) (rp_last_direction s)
    (rp_cursor_pending s) (rp_cursor_sources_pending s) (rp_cursor s) (rp_inotify_fd s) x.

(** [watches_ok]: whether the directory watches could be added again. *)
Definition rec_player_process (reads : list InotifyRead) (watches_ok : bool) (s : RecorderPlayer)
  : option ProcessResult * RecorderPlayer :=
  if negb (rp_inotify_fd s) then (Some RECORDER_PROCESS_INVALIDATE, set_follow_pending true s)
  else
    match process_reads (rs_path_is_directory (rp_settings s)) reads RECORDER_PROCESS_NOP with
    | inl r => (r, s)
    | inr result =>
        let s1 := match result with
                  | RECORDER_PROCESS_NOP => s
                  | RECORDER_PROCESS_APPEND => set_follow_pending false s
                  | RECORDER_PROCESS_INVALIDATE =>
                      let s1 := set_follow_pending true s in
                      if watches_ok then s1 else set_reliable_fd false s1
                  end in
        (Some result, s1)
    end.

(** The deadline for polling: none with a reliable descriptor, else one second
    from now. *)
Definition rec_player_get_timeout (now_usec : Z) (s : RecorderPlayer) : Z :=
  if rp_reliable_fd s then UINT64_MAX else u64 (now_usec + 1000000).
Definition rec_player_get_events (s : RecorderPlayer) : bool := rp_inotify_fd s.
End iter.
