(* ===== verification/PlayerOrder.v ===== *)
(** * The orders of the reader

    Both comparisons of entries are total orders on what they compare, built
    from comparisons of fields ([cmp_ok]); merging sorted lists by taking the
    least head gives a sorted permutation ([merges]). *)
From S2P Require Import Prelude Bytes Crypto Segment Chunk Index CText Player.

Record cmp_ok {A} (cmp : A → A → comparison) : Prop := {
  cmp_opp : ∀ a b, cmp b a = CompOpp (cmp a b);
  cmp_eq_l : ∀ a b c, cmp a b = Eq → cmp a c = cmp b c;
  cmp_lt_trans : ∀ a b c, cmp a b = Lt → cmp b c = Lt → cmp a c = Lt;
}.

Lemma cmp_ok_proj {A B} (f : A → B) (cmp : B → B → comparison) : cmp_ok cmp → cmp_ok (λ a b, cmp (f a) (f b)).
Proof. intros [H1 H2 H3]. split; intros *; [apply H1|apply H2|apply H3]. Qed.
Lemma cmp_ok_Z : cmp_ok Z.compare.
Proof.
  split.
  - intros a b. apply Z.compare_antisym.
  - by intros a b c ->%Z.compare_eq.
  - intros a b c. rewrite !Z.compare_lt_iff. lia.
Qed.
Lemma cmp_ok_lex {A} (c1 c2 : A → A → comparison) : cmp_ok c1 → cmp_ok c2 → cmp_ok (λ a b, lex (c1 a b) (c2 a b)).
Proof.
  intros [O1 E1 T1] [O2 E2 T2]. split.
  - intros a b. rewrite O1. destruct (c1 a b); cbn; [apply O2|done|done].
  - intros a b c Hab. destruct (c1 a b) eqn:H1; cbn in Hab; [|done|done]. rewrite (E1 _ _ _ H1). destruct (c1 b c); [by apply E2|done|done].
  - intros a b c Hab Hbc. destruct (c1 a b) eqn:H1, (c1 b c) eqn:H2; cbn in *; try done.
    + rewrite (E1 _ _ _ H1), H2. cbn. by eapply T2.
    + by rewrite (E1 _ _ _ H1), H2.
    + assert (Hcb : c1 c b = Eq) by (by rewrite O1, H2). rewrite O1, (E1 _ _ _ Hcb), O1, H1. done.
    + by rewrite (T1 _ _ _ H1 H2).
Qed.
Lemma cmp_ok_strcmp : cmp_ok strcmp.
Proof.
  split.
  - intros a. induction a as [|x a IH]; intros [|y b]; cbn; try done. rewrite Z.compare_antisym, IH. by destruct (x ?= y).
  - intros a. induction a as [|x a IH]; intros [|y b] [|z c]; cbn; try done. destruct (Z.compare_spec x y) as [->| |]; cbn; try done.
    intros Hab. by rewrite (IH _ _ Hab).
  - intros a. induction a as [|x a IH]; intros [|y b] [|z c]; cbn; try done.
    destruct (Z.compare_spec x y) as [->|Hxy|]; cbn; try done.
    + destruct (y ?= z); cbn; [|done|done]. apply IH.
    + intros _. destruct (Z.compare_spec y z) as [->|Hyz|]; cbn; [| |done].
      * intros _. apply Z.compare_lt_iff in Hxy. by rewrite Hxy.
      * intros _. assert (Hxz : x < z) by lia. apply Z.compare_lt_iff in Hxz. by rewrite Hxz.
Qed.
Lemma strcmp_eq a b : strcmp a b = Eq → a = b.
Proof.
  revert b. induction a as [|x a IH]; intros [|y b]; cbn; try done.
  destruct (Z.compare_spec x y) as [->| |]; cbn; try done. by intros ->%IH.
Qed.
Lemma lex_eq a b : lex a b = Eq → a = Eq ∧ b = Eq.
Proof. by destruct a. Qed.

Lemma cmp_ok_field {A} (f : A → Z) : cmp_ok (λ a b, f a ?= f b).
Proof. apply (cmp_ok_proj f), cmp_ok_Z. Qed.
Lemma cmp_ok_location : cmp_ok compare_location.
Proof.
  apply cmp_ok_lex; [apply (cmp_ok_proj re_group), cmp_ok_strcmp|].
  apply cmp_ok_lex; [apply cmp_ok_field|]. apply cmp_ok_lex; apply cmp_ok_field.
Qed.
Lemma cmp_ok_stored : cmp_ok compare_stored_entries.
Proof. apply cmp_ok_lex; [apply cmp_ok_field|]. apply cmp_ok_lex; [apply cmp_ok_field|apply cmp_ok_location]. Qed.
Lemma cmp_ok_iterator order : cmp_ok (compare_iterator_entries order).
Proof.
  destruct order; [|apply cmp_ok_stored]. apply cmp_ok_lex; [apply cmp_ok_field|].
  apply cmp_ok_lex; [apply cmp_ok_field|]. apply cmp_ok_lex; [apply cmp_ok_field|apply cmp_ok_location].
Qed.
Lemma cmp_ok_segment_path : cmp_ok compare_segment_path.
Proof. apply (cmp_ok_proj sp_segment_seq), cmp_ok_Z. Qed.

(** Entries that compare equal have the same location. *)
Definition location (e : RecorderEntry) : bytes * Z * Z * Z :=
  (re_group e, re_segment_seq e, re_frame_offset e, re_frame_entry_index e).
Lemma compare_location_eq a b : compare_location a b = Eq → location a = location b.
Proof.
  unfold compare_location, location. intros (Hg & (Hs & (Hf & He)%lex_eq)%lex_eq)%lex_eq.
  apply strcmp_eq in Hg. apply Z.compare_eq in Hs, Hf, He. congruence.
Qed.
Lemma compare_iterator_eq order a b : compare_iterator_entries order a b = Eq → location a = location b.
Proof.
  destruct order; cbn.
  - intros (_ & (_ & (_ & H)%lex_eq)%lex_eq)%lex_eq. by apply compare_location_eq.
  - intros (_ & (_ & H)%lex_eq)%lex_eq. by apply compare_location_eq.
Qed.

(** ** Sorting by a comparison *)
Section order.
Context {QS : CLib} {A : Type} (cmp : A → A → comparison) (Hcmp : cmp_ok cmp).

Lemma cmp_refl a : cmp a a = Eq.
Proof. pose proof (cmp_opp _ Hcmp a a) as H. by destruct (cmp a a). Qed.
Lemma le_by_refl a : le_by cmp a a.
Proof. unfold le_by. by rewrite cmp_refl. Qed.
#[export] Instance le_by_trans : Transitive (le_by cmp).
Proof.
  unfold le_by. intros a b c Hab Hbc. destruct (cmp a b) eqn:H1; [by rewrite (cmp_eq_l _ Hcmp _ _ _ H1)| |done].
  destruct (cmp b c) eqn:H2; [| |done].
  - rewrite (cmp_opp _ Hcmp c a). assert (Hcb : cmp c b = Eq) by (by rewrite (cmp_opp _ Hcmp b c), H2).
    rewrite (cmp_eq_l _ Hcmp _ _ _ Hcb), (cmp_opp _ Hcmp a b), H1. done.
  - by rewrite (cmp_lt_trans _ Hcmp _ _ _ H1 H2).
Qed.
Lemma le_by_total a b : le_by cmp a b ∨ le_by cmp b a.
Proof. unfold le_by. rewrite (cmp_opp _ Hcmp a b). destruct (cmp a b); cbn; auto. Qed.
Lemma not_le_by a b : ¬ le_by cmp a b → cmp b a = Lt.
Proof. unfold le_by. rewrite (cmp_opp _ Hcmp a b). destruct (cmp a b); cbn; naive_solver. Qed.

Lemma qsort_sorts (Q : CLib_ok QS) l : qsort cmp l ≡ₚ l ∧ StronglySorted (le_by cmp) (qsort cmp l).
Proof. split; [apply qsort_perm|]. apply qsort_sorted; [apply Hcmp|apply _]. Qed.

(** ** Merging by the least head *)
Inductive merges : list (list A) → list A → Prop :=
  | merges_nil rems : Forall (λ l, l = []) rems → merges rems []
  | merges_cons rems i e rest out :
      rems !! i = Some (e :: rest) → (∀ j x l, rems !! j = Some (x :: l) → le_by cmp e x) →
      merges (<[i := rest]> rems) out → merges rems (e :: out).

Lemma concat_insert (rems : list (list A)) i e rest :
  rems !! i = Some (e :: rest) → concat rems ≡ₚ e :: concat (<[i := rest]> rems).
Proof.
  revert i. induction rems as [|l rems IH]; intros [|i] Hi; cbn in Hi; [done|done| |].
  - by injection Hi as ->.
  - change (<[S i := rest]> (l :: rems)) with (l :: <[i := rest]> rems). cbn [concat]. rewrite (IH _ Hi).
    by rewrite Permutation_middle.
Qed.

Lemma merges_perm rems out : merges rems out → out ≡ₚ concat rems.
Proof.
  induction 1 as [rems Hn|rems i e rest out Hi _ _ IH].
  - induction Hn as [|l rems -> _ IH]; done.
  - rewrite (concat_insert _ _ _ _ Hi). by rewrite IH.
Qed.

Lemma merges_sorted rems out : merges rems out → Forall (StronglySorted (le_by cmp)) rems → StronglySorted (le_by cmp) out.
Proof.
  induction 1 as [rems Hn|rems i e rest out Hi Hle Hm IH]; intros Hs; [constructor|].
  pose proof (Forall_lookup_1 _ _ _ _ Hs Hi) as Hei. apply StronglySorted_inv in Hei as [Hrest Hall].
  constructor; [apply IH; by apply Forall_insert|].
  rewrite (merges_perm _ _ Hm). apply Forall_concat. apply Forall_lookup. intros j l Hj.
  apply list_lookup_insert_Some in Hj as [(-> & <- & _)|(Hne & Hj)]; [done|].
  pose proof (Forall_lookup_1 _ _ _ _ Hs Hj) as Hl. destruct l as [|x l]; [constructor|].
  apply StronglySorted_inv in Hl as [_ Hl]. constructor; [by eapply Hle|].
  eapply Forall_impl; [exact Hl|]. intros y Hy. etrans; [by eapply Hle|done].
Qed.

(** Each list keeps its order. *)
Lemma merges_sublist rems out i l : merges rems out → rems !! i = Some l → sublist l out.
Proof.
  intros Hm. revert l. induction Hm as [rems Hn|rems j e rest out Hj _ _ IH]; intros l Hl.
  - rewrite Forall_lookup in Hn. by rewrite (Hn _ _ Hl).
  - destruct (decide (i = j)) as [->|Hne].
    + assert (l = e :: rest) as -> by congruence. apply sublist_skip. apply IH. rewrite list_lookup_insert_eq; [done|].
      by eapply lookup_lt_Some.
    + apply sublist_cons. apply IH. by rewrite list_lookup_insert_ne.
Qed.
End order.
