(* ===== verification/PlayerViews.v ===== *)
(** * What a source still has to deliver

    A segment's view is what loading it gives: the entries of its frames when
    its index opens, or its sorted entries when it has to be scanned.  A source
    positioned in a list of segments has a list of remaining entries, and moving
    forward takes the first one off ([advance_forward]). *)
From S2P Require Import Prelude Bytes Crypto Segment Chunk Index CText Player PlayerSource.

(** ** Steps of the monad *)
Section monad.
Context {S : Type}.
Lemma bind_ret {A B} (a : A) (f : A → SM S B) s w : (mret a ≫= f) s w = f a s w.
Proof. done. Qed.
Lemma bind_get {B} (f : S → SM S B) s w : (get ≫= f) s w = f s s w.
Proof. done. Qed.
Lemma bind_modify {B} g (f : unit → SM S B) s w : (modify g ≫= f) s w = f tt (g s) w.
Proof. done. Qed.
Lemma bind_get_fs {B} (f : ReadFs → SM S B) s w : (get_fs ≫= f) s w = f (w_fs w) s w.
Proof. done. Qed.
Lemma bind_get_errno {B} (f : Errno → SM S B) s w : (get_errno ≫= f) s w = f (w_errno w) s w.
Proof. done. Qed.
Lemma bind_lift_ok {A B} (a : A) (f : A → SM S B) s w : (lift (Ok a) ≫= f) s w = f a s w.
Proof. done. Qed.
Lemma bind_some {A B} (m : SM S A) (f : A → SM S B) s w a s' w' :
  m s w = (Some a, s', w') → (m ≫= f) s w = f a s' w'.
Proof. unfold mbind, SM_bind. by intros ->. Qed.
Lemma bind_none {A B} (m : SM S A) (f : A → SM S B) s w s' w' :
  m s w = (None, s', w') → (m ≫= f) s w = (None, s', w').
Proof. unfold mbind, SM_bind. by intros ->. Qed.
Lemma bind_attempt {A B} (m : SM S A) (f : option A → SM S B) s w r s' w' :
  m s w = (r, s', w') → (attempt m ≫= f) s w = f r s' w'.
Proof. unfold mbind, SM_bind, attempt. by intros ->. Qed.
Lemma bind_assoc {A B D} (m : SM S A) (f : A → SM S B) (g : B → SM S D) s w :
  ((m ≫= f) ≫= g) s w = (m ≫= λ a, f a ≫= g) s w.
Proof. unfold mbind, SM_bind. destruct (m s w) as [[[a|] s'] w']; done. Qed.
End monad.
(** Run the leading steps of a program. *)
Ltac sm := repeat (rewrite ?bind_assoc, ?bind_ret, ?bind_get, ?bind_modify, ?bind_get_fs, ?bind_get_errno, ?bind_lift_ok).

Lemma set_errno_fs e w : w_fs (set_errno e w) = w_fs w.
Proof. by destruct e. Qed.

Lemma zlookup_Some {A} (l : list A) (i : nat) x : l !! i = Some x → zlookup l (Z.of_nat i) = Some x.
Proof.
  intros Hi. unfold zlookup. pose proof (lookup_lt_Some _ _ _ Hi) as Hlt.
  replace ((0 <=? Z.of_nat i) && (Z.of_nat i <? zlen l)) with true; [by rewrite Nat2Z.id|].
  symmetry. apply andb_true_iff. unfold zlen. rewrite Z.leb_le, Z.ltb_lt. lia.
Qed.

Section views.
Context `{F : FlatCC} `{QS : CLib}.
Context (r : Settings) (fs : ReadFs) (group : bytes).

(** Frame [k] of a segment through its index: the unit filter may exclude it. *)
Definition frame_loads (path : bytes) (rd : IndexReader) (k : nat) (es : list StoredEntry) : Prop :=
  ∃ f, index_reader_read_frame rd (Z.of_nat k) = Ok f ∧
    if index_frame_may_contain_service f (rs_unit_filter r)
    then ∃ fr e, segment_frame_reader_open (rd_file fs path) (rs_decryptor r) = Ok fr ∧
           segment_frame_reader_scan fr (scan_source_frame group) [] (if_file_offset f) (Z.of_nat k) = (0, e, es)
    else es = [].

Inductive View :=
  | Indexed (frames : list (list StoredEntry))
  | Scanned (es : list StoredEntry).
Definition flatten (v : View) : list StoredEntry :=
  match v with Indexed frames => concat frames | Scanned es => es end.

(** An index that does not open is not repaired here. *)
Definition segment_view (p : SegmentPath) (v : View) : Prop :=
  match v with
  | Indexed frames =>
      ∃ ip rd, segment_index_path (sp_path p) PATH_SIZE = Some ip ∧
        index_reader_open (rd_file fs ip) (rd_file fs (sp_path p)) = Ok rd ∧
        ir_frame_count rd = zlen frames ∧ zlen frames < UINT64_MAX ∧
        ∀ k es, frames !! k = Some es → frame_loads (sp_path p) rd k es
  | Scanned es =>
      rs_repair_indexes r = false ∧
      (∀ ip, segment_index_path (sp_path p) PATH_SIZE = Some ip →
         ∃ e, index_reader_open (rd_file fs ip) (rd_file fs (sp_path p)) = Err e) ∧
      ∃ end_ l, rec_player_scan_file r fs (sp_path p) append_source_entry [] 0 = (Ok end_, l) ∧
        es = qsort compare_stored_entries l
  end.

Context (segs : list SegmentPath) (views : list View).

(** The open readers belong to the file system. *)
Record src_ok (s : IteratorSource) : Prop := {
  so_group : is_group s = group;
  so_segments : is_segments s = segs;
  so_index : ∀ ip rd, is_index_reader s = Some (ip, rd) → ∀ p, segment_index_path p PATH_SIZE = Some ip →
    index_reader_open (rd_file fs ip) (rd_file fs p) = Ok rd;
  so_frame : ∀ p fr, is_frame_reader s = Some (p, fr) → segment_frame_reader_open (rd_file fs p) (rs_decryptor r) = Ok fr;
}.

(** In segment [i], with its index loaded. *)
Definition in_indexed (s : IteratorSource) (i : nat) (p : SegmentPath) (frames : list (list StoredEntry)) : Prop :=
  segs !! i = Some p ∧ segment_view p (Indexed frames) ∧ is_segment_index s = Z.of_nat i ∧
  is_segment_scan_fallback s = false ∧ is_frame_count s = zlen frames ∧
  ∃ ip rd, segment_index_path (sp_path p) PATH_SIZE = Some ip ∧ is_index_reader s = Some (ip, rd).

Definition after (i : nat) : list StoredEntry := concat (map flatten (drop (S i) views)).

Inductive positioned (s : IteratorSource) : list StoredEntry → Prop :=
  | pos_indexed i p frames k es j :
      views !! i = Some (Indexed frames) → in_indexed s i p frames →
      frames !! k = Some es → is_frame_index s = Z.of_nat k → is_entries s = es →
      is_entry_index s = Z.of_nat j → (j < length es)%nat →
      positioned s (drop j es ++ concat (drop (S k) frames) ++ after i)
  | pos_scanned i es j :
      views !! i = Some (Scanned es) → (i < length segs)%nat → is_segment_index s = Z.of_nat i →
      is_segment_scan_fallback s = true → is_entries s = es →
      is_entry_index s = Z.of_nat j → (j < length es)%nat →
      positioned s (drop j es ++ after i)
  | pos_end : is_entries s = [] → positioned s [].

(** ** Loading *)

Lemma source_frame_reader_ok s w i p fr :
  w_fs w = fs → src_ok s → segs !! i = Some p → is_segment_index s = Z.of_nat i →
  segment_frame_reader_open (rd_file fs (sp_path p)) (rs_decryptor r) = Ok fr →
  ∃ s', source_frame_reader r s w = (Some fr, s', w) ∧ src_ok s' ∧
    s' = set_frame_reader (is_frame_reader s') s.
Proof.
  intros Hw Hs Hp Hi Hfr. unfold source_frame_reader.
  assert (Hcp : current_path s w = (Some (sp_path p), s, w)).
  { unfold current_path. sm. rewrite (so_segments _ Hs), Hi, (zlookup_Some _ _ _ Hp). done. }
  rewrite (bind_some _ _ _ _ _ _ _ Hcp). sm.
  assert (Hnew : ∀ s1, is_group s1 = is_group s → is_segments s1 = is_segments s → is_index_reader s1 = is_index_reader s →
            is_frame_reader s1 = Some (sp_path p, fr) → src_ok s1).
  { intros s1 H1 H2 H3 H4. destruct Hs as [Hg Hsg Hix Hf]. split; [by rewrite H1|by rewrite H2|by rewrite H3|].
    rewrite H4. intros ? ? [= <- <-]. done. }
  destruct (is_frame_reader s) as [[p0 fr0]|] eqn:Hr.
  - destruct (beq p0 (sp_path p)) eqn:Hb.
    + apply beq_true in Hb as ->. exists s. split.
      { pose proof (so_frame _ Hs _ _ Hr) as H0. rewrite Hfr in H0. by injection H0 as <-. }
      split; [done|]. rewrite Hr. by destruct s; cbn in *; subst.
    + sm. rewrite Hw, Hfr. sm. eexists. split; [reflexivity|]. split; [by apply Hnew|]. done.
  - sm. rewrite Hw, Hfr. sm. eexists. split; [reflexivity|]. split; [by apply Hnew|]. done.
Qed.

Lemma load_frame_ok s w i p frames k es d :
  w_fs w = fs → src_ok s → in_indexed s i p frames → frames !! k = Some es →
  ∃ b s', source_load_frame r (Z.of_nat k) d s w = (Some b, s', w) ∧ src_ok s' ∧ in_indexed s' i p frames ∧
    is_frame_index s' = Z.of_nat k ∧ is_entries s' = es ∧
    if b : bool then is_entry_index s' = edge_index d (zlen es) else es = [].
Proof.
  intros Hw Hs (Hp & Hv & Hsi & Hfb & Hfc & ip & rd & Hip & Hrd) Hk. pose proof Hv as Hv'.
  destruct Hv as (ip' & rd' & Hip' & Hopen & Hcnt & Hmax & Hfr). rewrite Hip in Hip'. injection Hip' as <-.
  assert (rd' = rd) as ->. { pose proof (so_index _ Hs _ _ Hrd _ Hip) as H0. congruence. }
  destruct (Hfr k es Hk) as (f & Hf & Hload). pose proof (lookup_lt_Some _ _ _ Hk) as Hlt.
  unfold source_load_frame. sm. rewrite Hfc. destruct (Z.leb_spec (zlen frames) (Z.of_nat k)) as [Hle|_]; [unfold zlen in Hle; lia|].
  unfold source_clear_frame. sm. rewrite Hrd, Hf. sm. cbn [set_entries set_frame_index].
  destruct (index_frame_may_contain_service f (rs_unit_filter r)); cbn [negb].
  - destruct Hload as (fr & e & Hfro & Hscan).
    match goal with |- context [(source_frame_reader r ≫= _) ?s1 _] => set (s0 := s1) end.
    assert (Hs0 : src_ok s0) by (destruct Hs; split; done).
    destruct (source_frame_reader_ok s0 w i p fr Hw Hs0 Hp Hsi Hfro) as (s' & Hrun & Hs' & Heq).
    rewrite (bind_some _ _ _ _ _ _ _ Hrun). rewrite (so_group _ Hs), Hscan. sm. cbn [Z.eqb negb]. sm.
    exists true. eexists. split; [reflexivity|]. rewrite Heq. split_and!; try done; cbn.
    + rewrite Heq in Hs'. destruct Hs'. split; done.
    + split_and!; try done. by exists ip, rd.
  - subst es. exists false. eexists. split; [reflexivity|]. split_and!; try done; cbn.
    + destruct Hs; split; done.
    + split_and!; try done. by exists ip, rd.
Qed.

(** At the first entry of frame [k]. *)
Definition at_frame (s : IteratorSource) (i : nat) (p : SegmentPath) (frames : list (list StoredEntry)) (k : nat) : Prop :=
  in_indexed s i p frames ∧ is_frame_index s = Z.of_nat k ∧ frames !! k = Some (is_entries s).

Lemma load_indexed_forward n : ∀ s w i p frames k,
  w_fs w = fs → src_ok s → in_indexed s i p frames → (k < length frames)%nat → (length frames - k <= n)%nat →
  ∃ b s', load_indexed_loop n r (Z.of_nat k) FORWARD s w = (Some b, s', w) ∧ src_ok s' ∧
    if b : bool
    then ∃ k', at_frame s' i p frames k' ∧ is_entries s' ≠ [] ∧ is_entry_index s' = 0 ∧
           is_entries s' ++ concat (drop (S k') frames) = concat (drop k frames)
    else at_frame s' i p frames (length frames - 1) ∧ is_entries s' = [] ∧ concat (drop k frames) = [].
Proof.
  induction n as [|n IH]; intros s w i p frames k Hw Hs Hin Hk Hn; [lia|]. cbn [load_indexed_loop].
  destruct (lookup_lt_is_Some_2 frames k Hk) as [es Hes].
  destruct (load_frame_ok s w i p frames k es FORWARD Hw Hs Hin Hes) as (b & s1 & Hrun & Hs1 & Hin1 & Hk1 & He1 & Hb).
  rewrite (bind_some _ _ _ _ _ _ _ Hrun). sm. rewrite (drop_S _ _ _ Hes). cbn [concat].
  destruct (b && negb (zlen (is_entries s1) =? 0)) eqn:Hc.
  - apply andb_true_iff in Hc as [-> Hne]. apply negb_true_iff, Z.eqb_neq in Hne.
    exists true, s1. split; [done|]. split; [done|]. exists k. split; [split_and!; [done|done|by rewrite He1]|].
    split; [intros H0; by rewrite H0 in Hne|]. split; [done|]. by rewrite He1.
  - assert (Hnil : es = []).
    { destruct b; [|done]. cbn in Hc. apply negb_false_iff, Z.eqb_eq in Hc. rewrite He1 in Hc. by destruct es. }
    assert (Hfc : is_frame_count s1 = zlen frames) by apply Hin1. rewrite Hfc. rewrite Hnil in *. clear Hnil.
    destruct (Z.leb_spec (zlen frames) (Z.of_nat k + 1)) as [Hle|Hlt]; unfold zlen in *.
    + exists false, s1. split; [done|]. split; [done|]. replace (length frames - 1)%nat with k by lia. split.
      { split_and!; [done|done|by rewrite He1]. }
      split; [done|]. rewrite drop_ge by lia. done.
    + replace (Z.of_nat k + 1) with (Z.of_nat (S k)) by lia.
      destruct (IH s1 w i p frames (S k) Hw Hs1 Hin1 ltac:(lia) ltac:(lia)) as (b' & s' & Hrun' & Hs' & Hb').
      exists b', s'. split; [done|]. split; [done|]. by destruct b'.
Qed.

Lemma at_frame_positioned s i p frames k j :
  views !! i = Some (Indexed frames) → at_frame s i p frames k → is_entry_index s = Z.of_nat j →
  (j < length (is_entries s))%nat →
  positioned s (drop j (is_entries s) ++ concat (drop (S k) frames) ++ after i).
Proof. intros Hv (Hin & Hk & Hes) Hj Hlt. by eapply pos_indexed. Qed.

Lemma current_path_ok s w i p : src_ok s → segs !! i = Some p → is_segment_index s = Z.of_nat i →
  current_path s w = (Some (sp_path p), s, w).
Proof. intros Hs Hp Hi. unfold current_path. sm. by rewrite (so_segments _ Hs), Hi, (zlookup_Some _ _ _ Hp). Qed.

(** Changes that keep the readers keep [src_ok]. *)
Lemma src_ok_frame s s' : src_ok s → is_group s' = is_group s → is_segments s' = is_segments s →
  is_index_reader s' = is_index_reader s → is_frame_reader s' = is_frame_reader s → src_ok s'.
Proof. intros [H1 H2 H3 H4] E1 E2 E3 E4. split; [by rewrite E1|by rewrite E2|by rewrite E3|by rewrite E4]. Qed.

Lemma segment_index_path_inj p q n ip :
  segment_index_path p n = Some ip → segment_index_path q n = Some ip → p = q.
Proof.
  assert (Hform : ∀ x, segment_index_path x n = Some ip →
            ∃ a, x = a ++ C ".seg" ∧ ip = a ++ C ".idx").
  { intros x Hx. unfold segment_index_path in Hx.
    destruct ((zlen x <? 5) || negb (beq (zdrop (zlen x - 4) x) (C ".seg")) || (n <? zlen x + 1)) eqn:Hc; [done|].
    apply orb_false_iff in Hc as [[_ Hb]%orb_false_iff _]. apply negb_false_iff, beq_true in Hb.
    injection Hx as <-. exists (ztake (zlen x - 4) x). split; [|done]. rewrite <- Hb. symmetry. apply ztake_zdrop. }
  intros (a & -> & Ha)%Hform (b & -> & Hb)%Hform. rewrite Ha in Hb. apply app_inv_tail in Hb. by subst.
Qed.

Lemma load_index_indexed s w i p frames :
  w_fs w = fs → src_ok s → segs !! i = Some p → is_segment_index s = Z.of_nat i → segment_view p (Indexed frames) →
  ∃ s', source_load_index r s w = (Some tt, s', w) ∧ src_ok s' ∧ in_indexed s' i p frames ∧ is_entries s' = is_entries s.
Proof.
  intros Hw Hs Hp Hi Hv. pose proof Hv as (ip & rd & Hip & Hopen & Hcnt & Hmax & _).
  unfold source_load_index. sm. cbn [compose].
  match goal with |- context [(current_path ≫= _) ?s1 _] => set (s0 := s1) end.
  assert (Hs0 : src_ok s0) by (by eapply src_ok_frame).
  rewrite (bind_some _ _ _ _ _ _ _ (current_path_ok s0 w i p Hs0 Hp Hi)), Hip. sm.
  assert (Hnew : ∀ s1, src_ok s1 → is_index_reader s1 = Some (ip, rd) → is_segment_index s1 = Z.of_nat i →
    is_segment_scan_fallback s1 = false → is_entries s1 = is_entries s →
    ∃ s', modify (λ s, set_frame_count (index_reader_frame_count (snd <$> is_index_reader s)) s) s1 w = (Some tt, s', w) ∧
      src_ok s' ∧ in_indexed s' i p frames ∧ is_entries s' = is_entries s).
  { intros s1 Hok1 Hr1 Hi1 Hf1 He1. eexists. split; [reflexivity|]. split; [by eapply src_ok_frame|]. split; [|done].
    split_and!; try done; cbn.
    - rewrite Hr1. cbn. by rewrite Hcnt.
    - by exists ip, rd. }
  destruct (match is_index_reader s0 with Some (p0, _) => negb (beq p0 ip) | None => true end) eqn:Hc.
  - cbn [when]. sm. unfold open_index.
    match goal with |- context [(attempt _ ≫= _) ?s1 _] => set (s2 := s1) end.
    assert (Hs2 : src_ok s2) by (destruct Hs; split; done).
    erewrite bind_attempt.
    2: { rewrite (bind_some _ _ _ _ _ _ _ (current_path_ok s2 w i p Hs2 Hp Hi)). sm. rewrite Hw, Hopen. reflexivity. }
    sm. apply Hnew; try done. destruct Hs as [Hg Hsg Hix Hf]. split; try done. cbn. intros ip' rd' [= <- <-] q Hq.
    by rewrite (segment_index_path_inj _ _ _ _ Hq Hip).
  - cbn [when]. sm. apply Hnew; try done. destruct (is_index_reader s0) as [[p0 rd0]|] eqn:Hr0; [|done].
    apply negb_false_iff, beq_true in Hc as ->. pose proof (so_index _ Hs0 _ _ Hr0 _ Hip) as H0. congruence.
Qed.

Lemma load_index_scanned s w i p es :
  w_fs w = fs → src_ok s → segs !! i = Some p → is_segment_index s = Z.of_nat i → segment_view p (Scanned es) →
  ∃ s' w', source_load_index r s w = (None, s', w') ∧ w_fs w' = fs ∧ src_ok s' ∧ is_segment_index s' = Z.of_nat i.
Proof.
  intros Hw Hs Hp Hi (Hrep & Hno & _). unfold source_load_index. sm. cbn [compose].
  match goal with |- context [(current_path ≫= _) ?s1 _] => set (s0 := s1) end.
  assert (Hs0 : src_ok s0) by (by eapply src_ok_frame).
  rewrite (bind_some _ _ _ _ _ _ _ (current_path_ok s0 w i p Hs0 Hp Hi)).
  destruct (segment_index_path (sp_path p) PATH_SIZE) as [ip|] eqn:Hip; [|by exists s0, w].
  destruct (Hno ip eq_refl) as [e Hopen]. sm.
  assert (Hc : match is_index_reader s0 with Some (p0, _) => negb (beq p0 ip) | None => true end = true).
  { destruct (is_index_reader s0) as [[p0 rd0]|] eqn:Hr0; [|done]. apply negb_true_iff, beq_false. intros ->.
    pose proof (so_index _ Hs0 _ _ Hr0 _ Hip) as H0. congruence. }
  rewrite Hc. cbn [when]. sm. unfold open_index.
  match goal with |- context [(attempt _ ≫= _) ?s1 _] => set (s2 := s1) end.
  assert (Hs2 : src_ok s2) by (destruct Hs; split; done).
  erewrite bind_attempt.
  2: { rewrite (bind_some _ _ _ _ _ _ _ (current_path_ok s2 w i p Hs2 Hp Hi)). sm. rewrite Hw, Hopen. reflexivity. }
  exists s2, (set_errno e w). split; [|by rewrite set_errno_fs].
  apply bind_none. apply bind_none. unfold source_repair_index. by rewrite Hrep.
Qed.

Lemma fallback_scanned d s w i p es :
  w_fs w = fs → src_ok s → segs !! i = Some p → is_segment_index s = Z.of_nat i → segment_view p (Scanned es) →
  ∃ s', source_load_segment_fallback r d s w = (Some (negb (zlen es =? 0)), s', w) ∧ src_ok s' ∧
    is_segment_index s' = Z.of_nat i ∧ is_segment_scan_fallback s' = true ∧ is_entries s' = es ∧
    is_entry_index s' = edge_index d (zlen es).
Proof.
  intros Hw Hs Hp Hi (_ & _ & end_ & l & Hscan & ->). unfold source_load_segment_fallback, source_clear_frame. sm.
  match goal with |- context [(current_path ≫= _) ?s1 _] => set (s0 := s1) end.
  assert (Hs0 : src_ok s0) by (by eapply src_ok_frame).
  rewrite (bind_some _ _ _ _ _ _ _ (current_path_ok s0 w i p Hs0 Hp Hi)).
  erewrite bind_attempt.
  2: { unfold scan_into_entries. rewrite Hw. cbn [s0 set_entries is_entries]. rewrite Hscan. sm. reflexivity. }
  sm. cbn. eexists. split; [reflexivity|]. split; [by eapply src_ok_frame|]. done.
Qed.

(** ** Moving forward *)
Context (Hviews : Forall2 segment_view segs views).

(** No frames are left in the current segment. *)
Definition exhausted (s : IteratorSource) : Prop :=
  is_segment_scan_fallback s = true ∨ (u64 (is_frame_index s + 1) <? is_frame_count s) = false.

Lemma view_at i p : segs !! i = Some p → ∃ v, views !! i = Some v ∧ segment_view p v.
Proof. intros Hp. by apply (Forall2_lookup_l _ _ _ _ _ Hviews Hp). Qed.

Lemma edge_forward s w i p v :
  w_fs w = fs → src_ok s → segs !! i = Some p → is_segment_index s = Z.of_nat i → views !! i = Some v → segment_view p v →
  ∃ b s' w', source_load_segment_edge r FORWARD s w = (Some b, s', w') ∧ w_fs w' = fs ∧ src_ok s' ∧
    if b : bool then positioned s' (flatten v ++ after i) ∧ flatten v ≠ []
    else flatten v = [] ∧ exhausted s' ∧ is_segment_index s' = Z.of_nat i ∧ (is_entries s = [] → is_entries s' = []).
Proof.
  intros Hw Hs Hp Hi Hvi Hv. unfold source_load_segment_edge. destruct v as [frames|es]; cbn [flatten].
  - destruct (load_index_indexed s w i p frames Hw Hs Hp Hi Hv) as (s1 & Hrun & Hs1 & Hin & He1).
    erewrite bind_attempt by exact Hrun. sm. assert (Hfc : is_frame_count s1 = zlen frames) by apply Hin.
    assert (Hsi : is_segment_index s1 = Z.of_nat i) by apply Hin. rewrite Hfc.
    destruct (Z.eqb_spec (zlen frames) 0) as [H0|H0].
    + exists false, s1, w. split; [done|]. split; [done|]. split; [done|]. destruct frames; [|done]. split; [done|].
      split; [|split; [done|by rewrite He1]]. right. rewrite Hfc. apply Z.ltb_ge. apply u64_range.
    + assert (Hlen : (0 < length frames)%nat) by (unfold zlen in H0; lia).
      destruct (load_indexed_forward (S (Z.to_nat (is_frame_count s1))) s1 w i p frames 0 Hw Hs1 Hin Hlen) as (b & s' & Hrun' & Hs' & Hb).
      { rewrite Hfc. unfold zlen. lia. }
      erewrite bind_attempt.
      2: { unfold source_load_indexed_from. sm. cbn [edge_index]. exact Hrun'. }
      exists b, s', w. split; [done|]. split; [done|]. split; [done|]. destruct b.
      * destruct Hb as (k' & Hat & Hne & Hidx & Hcat). rewrite drop_0 in Hcat. rewrite <- Hcat, <- app_assoc. split.
        -- apply (at_frame_positioned s' i p frames k' 0 Hvi Hat); [done|]. destruct (is_entries s'); [done|cbn; lia].
        -- destruct (is_entries s'); [done|]. done.
      * destruct Hb as (Hat & Hent & Hnil). rewrite drop_0 in Hnil. split; [done|]. destruct Hat as (Hin' & Hk & _).
        split; [|split; [by apply Hin'|done]]. right. destruct Hin' as (_ & Hv' & _ & _ & Hfc' & _). rewrite Hk, Hfc'.
        destruct Hv' as (_ & _ & _ & _ & _ & Hmax & _). apply Z.ltb_ge. rewrite u64_id; unfold is_u64, UINT64_MAX, zlen in *; lia.
  - destruct (load_index_scanned s w i p es Hw Hs Hp Hi Hv) as (s1 & w1 & Hrun & Hw1 & Hs1 & Hi1).
    erewrite bind_attempt by exact Hrun. sm.
    destruct (fallback_scanned FORWARD s1 w1 i p es Hw1 Hs1 Hp Hi1 Hv) as (s' & Hrun' & Hs' & Hi' & Hfb & He & Hidx).
    exists (negb (zlen es =? 0)), s', w1. split; [done|]. split; [done|]. split; [done|].
    destruct (Z.eqb_spec (zlen es) 0) as [H0|H0]; cbn [negb].
    + destruct es; [|done]. split; [done|]. split; [by left|done].
    + split; [|by intros ->]. change (es ++ after i) with (drop 0 es ++ after i).
      eapply pos_scanned; try done. { by eapply lookup_lt_Some. } destruct es; [done|cbn; lia].
Qed.

Lemma advance_frames_exhausted n s w prev : exhausted s → (0 < n)%nat →
  ∃ s', advance_frames n r prev FORWARD s w = (Some false, s', w) ∧
    s' = set_frame_index (is_frame_index s') s.
Proof.
  intros He Hn. destruct n as [|n]; [lia|]. cbn [advance_frames]. sm.
  destruct (is_segment_scan_fallback s) eqn:Hfb.
  { exists s. split; [done|]. by destruct s; cbn in *; subst. }
  destruct He as [He|He]; [congruence|]. unfold next_frame. sm. rewrite He. cbn [negb]. eexists. split; [reflexivity|]. done.
Qed.

Lemma after_step i v : views !! S i = Some v → after i = flatten v ++ after (S i).
Proof. intros Hv. unfold after. by rewrite (drop_S _ _ _ Hv). Qed.

Lemma next_segment_forward s w i : src_ok s → is_segment_index s = Z.of_nat i → zlen segs < UINT64_MAX →
  (i < length segs)%nat →
  next_segment FORWARD s w = (Some (bool_decide (S i < length segs)%nat), set_segment_index (Z.of_nat (S i)) s, w).
Proof.
  intros Hs Hi Hmax Hlt. unfold next_segment. sm. rewrite Hi, (so_segments _ Hs).
  rewrite u64_id by (unfold is_u64, UINT64_MAX, zlen in *; lia). replace (Z.of_nat i + 1) with (Z.of_nat (S i)) by lia.
  unfold mret, SM_ret. do 3 f_equal.
  destruct (bool_decide_reflect (S i < length segs)%nat); [apply Z.ltb_lt|apply Z.ltb_ge]; unfold zlen; lia.
Qed.

Context (Hmany : zlen segs < UINT64_MAX).

Lemma advance_segments_forward fuel n : ∀ s w i prev s1,
  (0 < fuel)%nat → advance_frames fuel r prev FORWARD s w = (Some false, s1, w) →
  w_fs w = fs → src_ok s1 → (i < length segs)%nat → is_segment_index s1 = Z.of_nat i →
  (length segs - i <= n)%nat →
  ∃ b s' w', advance_segments fuel n r prev FORWARD s w = (Some b, s', w') ∧ w_fs w' = fs ∧ src_ok s' ∧
    positioned s' (after i) ∧ (b = true ↔ after i ≠ []).
Proof.
  induction n as [|n IH]; intros s w i prev s1 Hf Hrun Hw Hs1 Hlt Hi1 Hn; [lia|]. cbn [advance_segments].
  rewrite (bind_some _ _ _ _ _ _ _ Hrun).
  rewrite (bind_some _ _ _ _ _ _ _ (next_segment_forward s1 w i Hs1 Hi1 Hmany Hlt)).
  assert (Hlen : length segs = length views) by (by eapply Forall2_length).
  destruct (bool_decide_reflect (S i < length segs)%nat) as [Hmore|Hend]; cbn [negb].
  - destruct (lookup_lt_is_Some_2 segs (S i) Hmore) as [p Hp]. destruct (view_at _ _ Hp) as (v & Hvi & Hv).
    match goal with |- context [(source_load_segment_edge r FORWARD ≫= _) ?s2 _] => set (s2' := s2) end.
    assert (Hs2 : src_ok s2') by (by eapply src_ok_frame).
    destruct (edge_forward s2' w (S i) p v Hw Hs2 Hp eq_refl Hvi Hv) as (b & s' & w' & Hrun' & Hw' & Hs' & Hb).
    rewrite (bind_some _ _ _ _ _ _ _ Hrun'), (after_step _ _ Hvi). destruct b.
    + destruct Hb as [Hpos Hne]. exists true, s', w'. do 4 (split; [done|]). split; [|done]. intros _.
      destruct (flatten v); done.
    + destruct Hb as (-> & Hex' & Hi' & _). cbn [app].
      destruct (advance_frames_exhausted fuel s' w' prev Hex' Hf) as (s3 & Hrun3 & Heq3).
      eapply IH; try done; [rewrite Heq3; by eapply src_ok_frame|by rewrite Heq3|lia].
  - unfold source_clear_frame. sm. exists false. eexists. exists w. split; [reflexivity|]. split; [done|].
    split; [by eapply src_ok_frame|].
    assert (Hnil : after i = []) by (unfold after; rewrite drop_ge by lia; done).
    rewrite Hnil. split; [|done]. by apply pos_end.
Qed.

Lemma advance_frames_forward fuel s w i p frames k prev :
  (2 <= fuel)%nat → w_fs w = fs → src_ok s → views !! i = Some (Indexed frames) → at_frame s i p frames k →
  ∃ b s', advance_frames fuel r prev FORWARD s w = (Some b, s', w) ∧ src_ok s' ∧
    if b : bool then positioned s' (concat (drop (S k) frames) ++ after i) ∧ concat (drop (S k) frames) ≠ []
    else concat (drop (S k) frames) = [] ∧ is_segment_index s' = Z.of_nat i.
Proof.
  intros Hf Hw Hs Hvi Hat. destruct fuel as [|fuel]; [lia|]. cbn [advance_frames].
  destruct Hat as (Hin & Hk & Hes). pose proof Hin as (Hp & Hv & Hi & Hfb & Hfc & Hix). sm. rewrite Hfb.
  pose proof (lookup_lt_Some _ _ _ Hes) as Hlt. destruct Hv as (_ & _ & _ & _ & _ & Hmax & _).
  unfold next_frame. sm. rewrite Hk, Hfc. replace (Z.of_nat k + 1) with (Z.of_nat (S k)) by lia.
  rewrite u64_id by (unfold is_u64, UINT64_MAX, zlen in *; lia).
  assert (Hs1 : src_ok (set_frame_index (Z.of_nat (S k)) s)) by (by eapply src_ok_frame).
  destruct (Z.ltb_spec (Z.of_nat (S k)) (zlen frames)) as [Hl|Hl]; unfold zlen in Hl; cbn [negb]; sm.
  - assert (Hin1 : in_indexed (set_frame_index (Z.of_nat (S k)) s) i p frames).
    { destruct Hin as (? & ? & ? & ? & ? & ?). split_and!; done. }
    destruct (load_indexed_forward (S (Z.to_nat (is_frame_count (set_frame_index (Z.of_nat (S k)) s)))) _ w i p frames (S k) Hw Hs1 Hin1)
      as (b & s' & Hrun' & Hs' & Hb); [lia|cbn; rewrite Hfc; unfold zlen; lia|].
    erewrite bind_attempt.
    2: { unfold source_load_indexed_from. sm. exact Hrun'. }
    destruct b.
    + destruct Hb as (k' & Hat' & Hne & Hidx & Hcat). exists true, s'. split; [done|]. split; [done|]. rewrite <- Hcat. split.
      * rewrite <- app_assoc. apply (at_frame_positioned s' i p frames k' 0 Hvi Hat'); [done|]. destruct (is_entries s'); [done|cbn; lia].
      * by destruct (is_entries s').
    + destruct Hb as (Hat' & _ & Hnil). assert (Hex : exhausted s').
      { right. destruct Hat' as ((_ & _ & _ & _ & Hfc' & _) & Hk' & _). rewrite Hk', Hfc'. apply Z.ltb_ge.
        unfold zlen in *. rewrite u64_id; unfold is_u64, UINT64_MAX in *; lia. }
      destruct (advance_frames_exhausted fuel s' w prev Hex ltac:(lia)) as (s2 & Hrun2 & Heq). exists false, s2. split; [done|].
      split; [rewrite Heq; by eapply src_ok_frame|]. split; [done|].
      destruct Hat' as ((_ & _ & Hi' & _) & _). by rewrite Heq.
  - exists false. eexists. split; [reflexivity|]. split; [by eapply src_ok_frame|]. rewrite drop_ge by lia. split; done.
Qed.

Lemma drop_cons {A} (l : list A) j x rest : (j < length l)%nat → drop j l = x :: rest → l !! j = Some x ∧ drop (S j) l = rest.
Proof.
  intros Hlt Hd. destruct (lookup_lt_is_Some_2 l j Hlt) as [y Hy]. rewrite (drop_S _ _ _ Hy) in Hd. injection Hd as -> ->. done.
Qed.

Lemma drop_not_nil {A} (l : list A) j : (j < length l)%nat → drop j l ≠ [].
Proof. intros Hlt H0. apply (f_equal length) in H0. rewrite length_drop in H0. cbn in H0. lia. Qed.

(** The head of what remains is the source's current entry. *)
Lemma positioned_current s rem : src_ok s → positioned s rem → source_current s = head rem ∧
  (source_has_current s = true ↔ rem ≠ []).
Proof.
  intros Hs Hp. unfold source_current, source_has_current.
  assert (Hgen : ∀ es j tl, is_entries s = es → is_entry_index s = Z.of_nat j → (j < length es)%nat →
    zlookup (is_entries s) (is_entry_index s) = head (drop j es ++ tl) ∧
    ((0 <=? is_entry_index s) && (is_entry_index s <? zlen (is_entries s)) = true ↔ drop j es ++ tl ≠ [])).
  { intros es j tl -> -> Hj. destruct (lookup_lt_is_Some_2 _ _ Hj) as [x Hx]. rewrite (zlookup_Some _ _ _ Hx), (drop_S _ _ _ Hx).
    split; [done|]. split; [done|]. intros _. apply andb_true_iff. unfold zlen. rewrite Z.leb_le, Z.ltb_lt. lia. }
  destruct Hp as [i p frames k es j ? ? ? ? He Hj Hlt|i es j ? ? ? ? He Hj Hlt|He]; [by apply Hgen|by apply Hgen|].
  rewrite He. unfold zlookup. change (zlen []) with 0. split.
  - by destruct ((0 <=? is_entry_index s) && (is_entry_index s <? 0)); [rewrite lookup_nil|].
  - split; [|done]. intros [?%Z.leb_le ?%Z.ltb_lt]%andb_true_iff. lia.
Qed.

(** One step forward takes the current entry off. *)
Lemma advance_forward fuel s w e rem :
  (2 <= fuel)%nat → w_fs w = fs → src_ok s → positioned s (e :: rem) →
  ∃ b s' w', source_advance fuel r FORWARD s w = (Some b, s', w') ∧ w_fs w' = fs ∧ src_ok s' ∧ positioned s' rem ∧
    (b = true ↔ rem ≠ []).
Proof.
  intros Hf Hw Hs Hp. assert (Hlen : length segs = length views) by (by eapply Forall2_length).
  unfold source_advance. sm. remember (e :: rem) as l eqn:Hl.
  destruct Hp as [i p frames k es j Hvi Hin Hk Hki He Hj Hlt|i es j Hvi Hilt Hi Hfb He Hj Hlt|He]; [| |done].
  - rewrite He. destruct es as [|e0 es']; [cbn in Hlt; lia|]. set (es := e0 :: es') in *. sm. rewrite Hj. cbn [step_of].
    replace (Z.of_nat j + 1) with (Z.of_nat (S j)) by lia.
    destruct (drop j es) as [|x rest] eqn:Hd; [by apply drop_not_nil in Hd|].
    destruct (drop_cons _ _ _ _ Hlt Hd) as [_ Hd']. cbn [app] in Hl. injection Hl as -> <-.
    set (s1 := set_entry_index (Z.of_nat (S j)) s). assert (Hs1 : src_ok s1) by (by eapply src_ok_frame).
    assert (Hat1 : at_frame s1 i p frames k).
    { destruct Hin as (? & ? & ? & ? & ? & ?). split; [split_and!; done|]. cbn. by rewrite He. }
    destruct (Z.ltb_spec (Z.of_nat (S j)) (zlen es)) as [Hn|Hn]; unfold zlen in Hn.
    + replace (0 <=? Z.of_nat (S j)) with true by (symmetry; apply Z.leb_le; lia). cbn [andb].
      exists true, s1, w. split; [done|]. split; [done|]. split; [done|]. split.
      * rewrite <- Hd'. rewrite <- He. apply (at_frame_positioned s1 i p frames k (S j) Hvi Hat1); [done|]. cbn. rewrite He. lia.
      * split; [|done]. intros _ [H0 _]%app_eq_nil. rewrite <- Hd' in H0. revert H0. apply drop_not_nil. lia.
    + rewrite andb_false_r. rewrite drop_ge in Hd' by lia. subst rest. cbn [app].
      set (prev := default e0 (last es)). rewrite (so_segments _ Hs).
      destruct (advance_frames_forward fuel s1 w i p frames k prev Hf Hw Hs1 Hvi Hat1) as (b & s2 & Hrun & Hs2 & Hb).
      destruct b.
      * cbn [advance_segments]. rewrite (bind_some _ _ _ _ _ _ _ Hrun). destruct Hb as [Hpos Hne].
        exists true, s2, w. do 4 (split; [done|]). split; [|done]. intros _. by destruct (concat _).
      * destruct Hb as [-> Hi2]. cbn [app].
        apply (advance_segments_forward fuel (S (length segs)) s1 w i prev s2); try done; [lia| |lia].
        rewrite Hlen. by eapply lookup_lt_Some.
  - rewrite He. destruct es as [|e0 es']; [cbn in Hlt; lia|]. set (es := e0 :: es') in *. sm. rewrite Hj. cbn [step_of].
    replace (Z.of_nat j + 1) with (Z.of_nat (S j)) by lia.
    destruct (drop j es) as [|x rest] eqn:Hd; [by apply drop_not_nil in Hd|].
    destruct (drop_cons _ _ _ _ Hlt Hd) as [_ Hd']. cbn [app] in Hl. injection Hl as -> <-.
    set (s1 := set_entry_index (Z.of_nat (S j)) s). assert (Hs1 : src_ok s1) by (by eapply src_ok_frame).
    destruct (Z.ltb_spec (Z.of_nat (S j)) (zlen es)) as [Hn|Hn]; unfold zlen in Hn.
    + replace (0 <=? Z.of_nat (S j)) with true by (symmetry; apply Z.leb_le; lia). cbn [andb].
      exists true, s1, w. split; [done|]. split; [done|]. split; [done|]. split.
      * rewrite <- Hd'. eapply pos_scanned; try done. lia.
      * split; [|done]. intros _ [H0 _]%app_eq_nil. rewrite <- Hd' in H0. revert H0. apply drop_not_nil. lia.
    + rewrite andb_false_r. rewrite drop_ge in Hd' by lia. subst rest. cbn [app].
      set (prev := default e0 (last es)). rewrite (so_segments _ Hs).
      destruct (advance_frames_exhausted fuel s1 w prev) as (s2 & Hrun & Heq); [by left|lia|].
      apply (advance_segments_forward fuel (S (length segs)) s1 w i prev s2); try done; [lia|rewrite Heq; by eapply src_ok_frame|by rewrite Heq|lia].
Qed.

Lemma position_edge_forward_loop n : ∀ s w i,
  w_fs w = fs → src_ok s → is_segment_index s = Z.of_nat i → is_entries s = [] → (i < length segs)%nat → (length segs - i <= n)%nat →
  ∃ b s' w', position_edge_loop n r FORWARD s w = (Some b, s', w') ∧ w_fs w' = fs ∧ src_ok s' ∧
    positioned s' (concat (map flatten (drop i views))).
Proof.
  induction n as [|n IH]; intros s w i Hw Hs Hi He Hlt Hn; [lia|]. cbn [position_edge_loop].
  assert (Hlen : length segs = length views) by (by eapply Forall2_length).
  destruct (lookup_lt_is_Some_2 segs i Hlt) as [p Hp]. destruct (view_at _ _ Hp) as (v & Hvi & Hv).
  destruct (edge_forward s w i p v Hw Hs Hp Hi Hvi Hv) as (b & s' & w' & Hrun & Hw' & Hs' & Hb).
  rewrite (bind_some _ _ _ _ _ _ _ Hrun), (drop_S _ _ _ Hvi). cbn [map concat]. destruct b.
  - destruct Hb as [Hpos _]. exists true, s', w'. done.
  - destruct Hb as (-> & _ & Hi' & He'). cbn [app].
    rewrite (bind_some _ _ _ _ _ _ _ (next_segment_forward s' w' i Hs' Hi' Hmany Hlt)).
    destruct (bool_decide_reflect (S i < length segs)%nat) as [Hmore|Hend].
    + apply IH; try done; [by eapply src_ok_frame|by apply He'|lia].
    + exists false. eexists. exists w'. split; [reflexivity|]. split; [done|]. split; [by eapply src_ok_frame|].
      rewrite drop_ge by lia. apply pos_end. by apply He'.
Qed.

Lemma position_edge_forward s w :
  w_fs w = fs → src_ok s → is_entries s = [] →
  ∃ b s' w', source_position_edge r FORWARD s w = (Some b, s', w') ∧ w_fs w' = fs ∧ src_ok s' ∧
    positioned s' (concat (map flatten views)).
Proof.
  intros Hw Hs He. unfold source_position_edge. sm. rewrite (so_segments _ Hs).
  destruct (Z.eqb_spec (zlen segs) 0) as [H0|H0].
  - exists false, s, w. split; [done|]. split; [done|]. split; [done|].
    assert (Hnil : segs = []) by (by destruct segs). assert (Hv : views = []).
    { destruct views; [done|]. rewrite Hnil in Hviews. inversion Hviews. }
    rewrite Hv. by apply pos_end.
  - cbn [edge_index]. apply (position_edge_forward_loop (length segs) _ w 0); try done; [by eapply src_ok_frame| |lia].
    unfold zlen in H0. lia.
Qed.
End views.
