(* ===== verification/PlayerIterProofs.v ===== *)
(** * Reading a store from its head

    The iterator's state is related to one list of remaining entries per group
    ([iter_at]); [rec_player_next] takes the least head off ([next_takes]), and
    reading until the end gives a merge of the groups. *)
From S2P Require Import Prelude Bytes Crypto Segment Chunk Index CText Player PlayerCursor PlayerFollow PlayerSource PlayerIter PlayerOrder PlayerViews.

Section reading.
Context `{F : FlatCC} `{QS : CLib}.
Context (fuel : nat) (r : Settings) (fs : ReadFs).

(** A group of the store: its name, its segments in order and their views. *)
Record GroupView := mkGroupView {
  gv_group : bytes;
  gv_segments : list SegmentPath;
  gv_views : list View;
}.
Definition group_view_ok (g : GroupView) : Prop :=
  Forall2 (segment_view r fs (gv_group g)) (gv_segments g) (gv_views g) ∧ zlen (gv_segments g) < UINT64_MAX.
Definition group_entries (g : GroupView) : list StoredEntry := concat (map flatten (gv_views g)).

Definition source_at_view (g : GroupView) (src : IteratorSource) (rem : list StoredEntry) : Prop :=
  src_ok r fs (gv_group g) (gv_segments g) src ∧
  positioned r fs (gv_group g) (gv_segments g) (gv_views g) src rem.

Context (groups : list GroupView) (Hgroups : Forall group_view_ok groups).

Definition sources_at (sources : list IteratorSource) (rems : list (list StoredEntry)) : Prop :=
  Forall3 source_at_view groups sources rems.

(** ** Picking *)
Lemma pick_spec order rems : ∀ gs sources i result,
  Forall3 source_at_view gs sources rems →
  ∃ out, pick_loop order FORWARD i sources result = out ∧
    (∀ k e l, rems !! k = Some (e :: l) → ∃ m b, out = Some (m, b) ∧ le_by (compare_iterator_entries order) b e) ∧
    (∀ m b, result = Some (m, b) → ∃ m' b', out = Some (m', b') ∧ le_by (compare_iterator_entries order) b' b) ∧
    (∀ m b, out = Some (m, b) → result = Some (m, b) ∨ ∃ k l, m = i + Z.of_nat k ∧ rems !! k = Some (b :: l)).
Proof.
  pose proof (cmp_ok_iterator order) as Hc.
  induction rems as [|rem rems IH]; intros gs sources i result H3; inversion H3 as [|g src rem' gs' srcs' rems' Hat H3']; subst; cbn [pick_loop].
  { eexists. split; [reflexivity|]. split_and!; [done| |auto]. intros m b ->. exists m, b. split; [done|]. by apply le_by_refl. }
  destruct Hat as [Hok Hpos]. destruct (positioned_current _ _ _ _ _ _ _ Hok Hpos) as [Hcur _]. rewrite Hcur.
  set (result' := match head rem with None => result | Some e => _ end).
  destruct (IH gs' srcs' (i + 1) result' H3') as (out & Hrun & Hheads & Hres & Hfrom). exists out. split; [done|].
  assert (Hstep : ∀ e, head rem = Some e → ∃ m b, result' = Some (m, b) ∧ le_by (compare_iterator_entries order) b e).
  { intros e He. unfold result'. rewrite He. destruct result as [[m b]|].
    - unfold toward, is_lt. destruct (compare_iterator_entries order e b) eqn:Hcmp.
      + exists m, b. split; [done|]. unfold le_by. by rewrite (cmp_opp _ Hc e b), Hcmp.
      + exists i, e. split; [done|]. by apply le_by_refl.
      + exists m, b. split; [done|]. unfold le_by. by rewrite (cmp_opp _ Hc e b), Hcmp.
    - exists i, e. split; [done|]. by apply le_by_refl. }
  split_and!.
  - intros [|k] e l Hk; cbn in Hk; [|by eapply Hheads]. injection Hk as ->.
    destruct (Hstep e eq_refl) as (m & b & Hr & Hle). destruct (Hres _ _ Hr) as (m' & b' & -> & Hle').
    exists m', b'. split; [done|]. by apply (le_by_trans _ Hc _ b).
  - intros m b ->. unfold result' in Hres. destruct (head rem) as [e|]; [|by eapply Hres].
    destruct (toward FORWARD (compare_iterator_entries order e b)) eqn:Ht; [|by eapply Hres].
    destruct (Hres _ _ eq_refl) as (m' & b' & -> & Hle'). exists m', b'. split; [done|].
    apply (le_by_trans _ Hc _ e); [done|]. unfold le_by. cbn in Ht. by destruct (compare_iterator_entries order e b).
  - intros m b Hout. destruct (Hfrom m b Hout) as [Hr|(k & l & -> & Hk)].
    + unfold result' in Hr. destruct rem as [|e rem]; cbn [head] in Hr; [by left|].
      assert (Hhere : Some (i, e) = Some (m, b) → ∃ k l, m = i + Z.of_nat k ∧ ((e :: rem) :: rems) !! k = Some (b :: l)).
      { intros [= <- <-]. exists 0%nat, rem. split; [lia|done]. }
      destruct result as [[m0 b0]|]; [destruct (toward _ _)|]; [right; by apply Hhere|by left|right; by apply Hhere].
    + right. exists (S k), l. split; [lia|done].
Qed.

Lemma Forall3_insert_mr {A B D} (P : A → B → D → Prop) (l : list A) (k : list B) (m : list D) i x y z :
  Forall3 P l k m → l !! i = Some x → P x y z → Forall3 P l (<[i := y]> k) (<[i := z]> m).
Proof.
  intros H. revert i. induction H as [|a b d l k m Hp H IH]; intros [|i] Hi Hxyz; cbn in *; try done.
  - injection Hi as ->. by constructor.
  - constructor; [done|]. by apply IH.
Qed.

(** ** The state while reading forward *)
Record iterating (s : RecorderPlayer) (rems : list (list StoredEntry)) : Prop := {
  itg_settings : rp_settings s = r;
  itg_follow : fo_initialized (rp_follow s) = false;
  itg_order : rp_order_changed s = false;
  itg_cursor : rp_cursor_pending s = false;
  itg_sources_pending : rp_cursor_sources_pending s = false;
  itg_direction : rp_last_direction s = Some FORWARD;
  itg_sources : sources_at (rp_sources s) rems;
}.
(** On the entry [e] of source [c]. *)
Definition on_entry (s : RecorderPlayer) (rems : list (list StoredEntry)) (c : nat) (e : StoredEntry) : Prop :=
  rp_current_valid s = true ∧ rp_current_source s = Z.of_nat c ∧ current_entry s = Some e ∧
  ∃ l, rems !! c = Some (e :: l).

Definition next_outcome (s : RecorderPlayer) (rems : list (list StoredEntry)) (b : bool) : Prop :=
  iterating s rems ∧
  if b then ∃ c e, on_entry s rems c e ∧
              ∀ j x l, rems !! j = Some (x :: l) → le_by (compare_iterator_entries (rs_order r)) e x
  else Forall (λ l, l = []) rems ∧ rp_current_valid s = false.

Lemma select_pick_spec s w rems :
  iterating s rems →
  ∃ b s', select_pick FORWARD (s ← get; if fo_initialized (rp_follow s) then iterator_next_follow_entry else mret false) s w
          = (Some b, s', w) ∧ next_outcome s' rems b.
Proof.
  intros Hs. pose proof (itg_sources _ _ Hs) as H3.
  destruct (pick_spec (rs_order r) rems _ _ 0 None H3) as (out & Hrun & Hheads & _ & Hfrom).
  unfold select_pick, iterator_pick. rewrite !bind_assoc, bind_get, bind_ret, (itg_settings _ _ Hs), Hrun.
  destruct out as [[m e]|]; cbn [fmap option_fmap option_map fst].
  - destruct (Hfrom m e eq_refl) as [?|(c & l & Hm & Hc)]; [done|]. rewrite Z.add_0_l in Hm. subst m.
    destruct (Forall3_lookup_r _ _ _ _ _ _ H3 Hc) as (g & src & Hg & Hsrc & Hat).
    unfold source_at. rewrite !bind_assoc, bind_get, (zlookup_Some _ _ _ Hsrc), bind_ret, bind_modify.
    exists true. eexists. split; [reflexivity|].
    assert (Hcur : source_current src = Some e).
    { destruct Hat as [Hok Hpos]. by destruct (positioned_current _ _ _ _ _ _ _ Hok Hpos) as [-> _]. }
    split; [destruct Hs; by split|]. exists c, e. split.
    + split_and!; [done|done| |by exists l].
      change (zlookup (rp_sources s) (Z.of_nat c) ≫= (λ src0, zlookup (is_entries src0) (is_entry_index src)) = Some e).
      rewrite (zlookup_Some _ _ _ Hsrc). exact Hcur.
    + intros j x l' Hj. destruct (Hheads _ _ _ Hj) as (m' & b' & [= <- <-] & Hle). done.
  - rewrite bind_modify, bind_get. cbn [rp_follow set_current_entry]. rewrite (itg_follow _ _ Hs).
    exists false. eexists. split; [reflexivity|]. split; [destruct Hs; by split|]. split; [|done].
    apply Forall_lookup. intros j [|x l] Hj; [done|]. destruct (Hheads _ _ _ Hj) as (m & b & ? & _). done.
Qed.

Lemma on_source_run {A} (m : SM IteratorSource A) s w c src a src' w' :
  rp_sources s !! c = Some src → m src w = (Some a, src', w') →
  on_source (Z.of_nat c) m s w = (Some a, set_sources (<[c := src']> (rp_sources s)) s, w').
Proof. intros Hc Hm. unfold on_source. by rewrite (zlookup_Some _ _ _ Hc), Hm, Nat2Z.id. Qed.

Lemma next_fresh s w rems : iterating s rems → rp_current_valid s = false →
  ∃ b s', rec_player_next fuel s w = (Some b, s', w) ∧ next_outcome s' rems b.
Proof.
  intros Hs Hv. unfold rec_player_next. rewrite bind_get, (itg_follow _ _ Hs). cbn [andb].
  rewrite (itg_cursor _ _ Hs), (itg_order _ _ Hs), (itg_sources_pending _ _ Hs), (itg_direction _ _ Hs), Hv. cbn [andb].
  rewrite !bool_decide_false by done. rewrite bool_decide_true by done. cbn [andb negb].
  rewrite bind_ret. by apply select_pick_spec.
Qed.

Lemma next_on_entry s w rems c e l :
  (2 <= fuel)%nat → w_fs w = fs → iterating s rems → on_entry s rems c e → rems !! c = Some (e :: l) →
  ∃ b s' w', rec_player_next fuel s w = (Some b, s', w') ∧ w_fs w' = fs ∧ next_outcome s' (<[c := l]> rems) b.
Proof.
  intros Hf Hw Hs (Hv & Hc & _ & _) Hl. unfold rec_player_next. rewrite bind_get, (itg_follow _ _ Hs). cbn [andb].
  rewrite (itg_cursor _ _ Hs), (itg_order _ _ Hs), (itg_sources_pending _ _ Hs), (itg_direction _ _ Hs), Hv. cbn [andb].
  rewrite bool_decide_false by done. rewrite bool_decide_true by done. cbn [andb negb].
  pose proof (itg_sources _ _ Hs) as H3. destruct (Forall3_lookup_r _ _ _ _ _ _ H3 Hl) as (g & src & Hg & Hsrc & Hok & Hpos).
  pose proof (Forall_lookup_1 _ _ _ _ Hgroups Hg) as [Hviews Hmany].
  destruct (advance_forward r fs (gv_group g) (gv_segments g) (gv_views g) Hviews Hmany fuel src w e l Hf Hw Hok Hpos)
    as (b & src' & w' & Hrun & Hw' & Hok' & Hpos' & _).
  unfold advance_current. rewrite !bind_assoc, bind_get, Hc, (itg_settings _ _ Hs).
  rewrite !bind_assoc, (bind_some _ _ _ _ _ _ _ (on_source_run _ _ _ _ _ _ _ _ Hsrc Hrun)), bind_ret.
  destruct (select_pick_spec (set_sources (<[c := src']> (rp_sources s)) s) w' (<[c := l]> rems)) as (b2 & s2 & Hrun2 & Hout).
  { destruct Hs. split; try done. cbn. eapply Forall3_insert_mr; [done|exact Hg|]. split; done. }
  by exists b2, s2, w'.
Qed.

(** ** Reading until the end *)
Fixpoint read_entries (n : nat) : SM RecorderPlayer (list RecorderEntry) :=
  match n with
  | O => fail EOTHER
  | S n' =>
      more ← rec_player_next fuel;
      if more : bool
      then
        s ← get;
        match rec_player_get_entry s with
        | None => fail EUNSET
        | Some e => rest ← read_entries n'; mret (e :: rest)
        end
      else mret []
  end.

(** What follows a call that left the reader on an entry or at the end. *)
Lemma read_rest n : ∀ s w rems,
  (2 <= fuel)%nat → w_fs w = fs → iterating s rems →
  (rp_current_valid s = false → (length (concat rems) < n)%nat →
   ∃ out s' w', read_entries n s w = (Some out, s', w') ∧ merges (compare_iterator_entries (rs_order r)) rems out) ∧
  (∀ c e l, on_entry s rems c e → rems !! c = Some (e :: l) → (length (concat rems) <= n)%nat →
   ∃ out s' w', read_entries n s w = (Some out, s', w') ∧ merges (compare_iterator_entries (rs_order r)) (<[c := l]> rems) out).
Proof.
  induction n as [|n IH]; intros s w rems Hf Hw Hs.
  { split; [lia|]. intros c e l _ Hl. pose proof (Permutation_length (concat_insert _ _ _ _ Hl)) as Hp. cbn in Hp. lia. }
  assert (Hgo : ∀ s1 w1 rems1 b, w_fs w1 = fs → next_outcome s1 rems1 b → (length (concat rems1) <= n)%nat →
    ∃ out s' w', (if b : bool
                  then s ← get; match rec_player_get_entry s with
                                | None => fail EUNSET
                                | Some e => rest ← read_entries n; mret (e :: rest)
                                end
                  else mret []) s1 w1 = (Some out, s', w') ∧ merges (compare_iterator_entries (rs_order r)) rems1 out).
  { intros s1 w1 rems1 b Hw1 [Hs1 Hb] Hlen. destruct b.
    - destruct Hb as (c & e & Hon & Hmin). pose proof Hon as (_ & _ & Hcur & l & Hc). rewrite bind_get. unfold rec_player_get_entry.
      rewrite Hcur. destruct (IH s1 w1 rems1 Hf Hw1 Hs1) as [_ Hrest].
      destruct (Hrest c e l Hon Hc Hlen) as (out & s' & w' & Hrun & Hm).
      exists (e :: out), s', w'. rewrite (bind_some _ _ _ _ _ _ _ Hrun). split; [done|]. by eapply merges_cons.
    - destruct Hb as [Hnil _]. exists [], s1, w1. split; [done|]. by apply merges_nil. }
  cbn [read_entries]. split.
  - intros Hv Hn. destruct (next_fresh s w rems Hs Hv) as (b & s' & Hrun & Hout). rewrite (bind_some _ _ _ _ _ _ _ Hrun).
    apply (Hgo s' w rems b); [done|done|lia].
  - intros c e l Hon Hl Hn. destruct (next_on_entry s w rems c e l Hf Hw Hs Hon Hl) as (b & s' & w' & Hrun & Hw' & Hout).
    rewrite (bind_some _ _ _ _ _ _ _ Hrun). apply (Hgo s' w' (<[c := l]> rems) b); [done|done|].
    pose proof (Permutation_length (concat_insert _ _ _ _ Hl)) as Hp. cbn in Hp. lia.
Qed.

(** ** Starting at the head *)
Definition fresh_source (g : GroupView) : IteratorSource := new_source (gv_group g) (gv_segments g).

Lemma position_all gt : ∀ gd sd s w,
  w_fs w = fs → rp_settings s = r → rp_sources s = sd ++ map fresh_source gt →
  Forall3 source_at_view gd sd (map group_entries gd) → Forall group_view_ok gt →
  ∃ s' w', each_source_from (Z.of_nat (length gd)) (length gt)
             (λ i, _ ← on_source i (source_position_edge r FORWARD); mret tt) s w = (Some tt, s', w') ∧
    w_fs w' = fs ∧ s' = set_sources (rp_sources s') s ∧
    Forall3 source_at_view (gd ++ gt) (rp_sources s') (map group_entries (gd ++ gt)).
Proof.
  induction gt as [|g gt IH]; intros gd sd s w Hw Hr Hsrc H3 Hok; cbn [length each_source_from].
  - exists s, w. split; [done|]. split; [done|]. split; [by destruct s|]. rewrite app_nil_r, Hsrc. cbn [map]. by rewrite app_nil_r.
  - apply Forall_cons in Hok as [[Hviews Hmany] Hok]. pose proof (Forall3_length_lm _ _ _ _ H3) as Hlen.
    assert (Hnew : src_ok r fs (gv_group g) (gv_segments g) (fresh_source g)) by (split; done).
    destruct (position_edge_forward r fs (gv_group g) (gv_segments g) (gv_views g) Hviews Hmany (fresh_source g) w Hw Hnew eq_refl)
      as (b & src' & w1 & Hrun & Hw1 & Hok' & Hpos).
    assert (Hat : rp_sources s !! length gd = Some (fresh_source g)).
    { rewrite Hsrc, Hlen. cbn [map]. by rewrite list_lookup_middle. }
    rewrite !bind_assoc, (bind_some _ _ _ _ _ _ _ (on_source_run _ _ _ _ _ _ _ _ Hat Hrun)), bind_ret.
    set (s1 := set_sources (<[length gd := src']> (rp_sources s)) s).
    destruct (IH (gd ++ [g]) (sd ++ [src']) s1 w1) as (s' & w' & Hrun' & Hw' & Heq & H3'); try done.
    + cbn. rewrite Hsrc, Hlen. cbn [map]. rewrite insert_app_r_alt by lia. rewrite Nat.sub_diag. cbn. by rewrite <- app_assoc.
    + rewrite map_app. apply Forall3_app; [done|]. cbn [map]. constructor; [split; done|constructor].
    + exists s', w'. rewrite length_app in Hrun'. cbn [length] in Hrun'.
      replace (Z.of_nat (length gd) + 1) with (Z.of_nat (length gd + 1)) by lia. split; [done|]. split; [done|].
      rewrite <- app_assoc in H3'. cbn [app] in H3'. split; [|done]. rewrite Heq. by destruct s.
Qed.

(** What listing the store gives: the paths in order, in these groups. *)
Definition store_lists (paths : list SegmentPath) : Prop :=
  (∀ (s : RecorderPlayer) w, w_fs w = fs → ∃ w', all_segment_paths r s w = (Some paths, s, w') ∧ w_fs w' = fs) ∧
  group_sources r paths [] = Some (map fresh_source groups).

Lemma seek_head_starts s w paths :
  w_fs w = fs → rp_settings s = r → store_lists paths →
  ∃ s' w', rec_player_seek_head s w = (Some tt, s', w') ∧ w_fs w' = fs ∧
    iterating s' (map group_entries groups) ∧ rp_current_valid s' = false.
Proof.
  intros Hw Hr [Hlist Hgrp]. unfold rec_player_seek_head, iterator_initialize, iterator_collect_sources, settings.
  sm. set (s1 := iterator_reset (clear_entries s)). assert (Hr1 : rp_settings s1 = r) by done. rewrite Hr1.
  destruct (Hlist s1 w Hw) as (w1 & Hrun & Hw1). rewrite (bind_some _ _ _ _ _ _ _ Hrun), Hgrp. sm.
  set (s2 := set_sources (map fresh_source groups) s1).
  destruct (position_all groups [] [] s2 w1 Hw1 Hr1 eq_refl ltac:(constructor) Hgroups) as (s3 & w3 & Hrun3 & Hw3 & Heq & H3).
  assert (Hr2 : rp_settings s2 = r) by done. rewrite Hr2.
  assert (Hall : attempt (each_source (λ i, _ ← on_source i (source_position_edge r FORWARD); mret tt)) s2 w1 = (Some (Some tt), s3, w3)).
  { unfold attempt, each_source. sm. cbn [rp_sources s2 set_sources]. rewrite length_map.
    change (Z.of_nat (length [])) with 0 in Hrun3. by rewrite Hrun3. }
  rewrite (bind_some _ _ _ _ _ _ _ Hall). sm.
  eexists. exists w3. split; [reflexivity|]. split; [done|]. rewrite Heq. split; [|done]. split; done.
Qed.

(** C13: reading a store from its head.  Whatever the state of the reader,
    [seek_head] and then [next] until it returns 0 deliver every entry of every
    group exactly once, as a merge of the groups by the least head: each group's
    entries stay in their order, and when each group is sorted so is the result. *)
Theorem reader_merges_groups s w paths n :
  w_fs w = fs → rp_settings s = r → store_lists paths → (2 <= fuel)%nat →
  (length (concat (map group_entries groups)) < n)%nat →
  ∃ out s' w', (_ ← rec_player_seek_head; read_entries n) s w = (Some out, s', w') ∧
    out ≡ₚ concat (map group_entries groups) ∧
    (∀ g, g ∈ groups → sublist (group_entries g) out) ∧
    (Forall (λ g, StronglySorted (le_by (compare_iterator_entries (rs_order r))) (group_entries g)) groups →
     StronglySorted (le_by (compare_iterator_entries (rs_order r))) out).
Proof.
  intros Hw Hr Hl Hf Hn. destruct (seek_head_starts s w paths Hw Hr Hl) as (s1 & w1 & Hrun & Hw1 & Hit & Hv).
  rewrite (bind_some _ _ _ _ _ _ _ Hrun). destruct (read_rest n s1 w1 _ Hf Hw1 Hit) as [Hfresh _].
  destruct (Hfresh Hv Hn) as (out & s' & w' & Hrun' & Hm). exists out, s', w'. split; [done|].
  split; [by eapply merges_perm|]. split.
  - intros g [i Hi]%list_elem_of_lookup. eapply merges_sublist; [done|]. by rewrite list_lookup_fmap, Hi.
  - intros Hs. eapply merges_sorted; [apply cmp_ok_iterator|done|]. by apply Forall_map.
Qed.
End reading.
