(* ===== verification/PlayerSegments.v ===== *)
(** * Reading a segment through its index or by a scan

    A segment whose frames scan cleanly to its end gives the reader the same
    entries either way: frame after frame through the index that a rebuild
    writes, or all at once.  A unit filter leaves frames out of the first, none
    with an entry of the unit. *)
From S2P Require Import Prelude Bytes Crypto Segment SegmentScan SegmentSpec SegmentSafety Chunk Index IndexProofs CText Player PlayerSource PlayerViews.

Abbreviation delivery := (SegmentHeader * SegmentFrameInfo * bytes)%type.

Lemma filter_none {A} (p : A → bool) l : (∀ x, x ∈ l → p x = false) → List.filter p l = [].
Proof.
  induction l as [|x l IH]; cbn; intros H; [done|]. rewrite (H x) by left. apply IH. intros y Hy. apply H. by right.
Qed.

Lemma each_entry_append es l : each_entry append_source_entry es l = (0, l ++ es).
Proof. revert l. induction es as [|e es IH]; intros l; cbn; [by rewrite app_nil_r|]. by rewrite IH, <- app_assoc. Qed.

Section segment.
Context `{F : FlatCC} `{!FlatCC_ok F} `{QS : CLib}.
Context (r : Settings) (fs : ReadFs) (group : bytes).

(** The entries of one delivered frame. *)
Definition delivered (d : delivery) : list StoredEntry := frame_entries d.1.1 d.1.2 group d.2.

(** A segment of the group whose scan gives the frames [ds] up to its last byte. *)
Record clean_segment (path data : bytes) (ds : list delivery) : Prop := {
  cs_file : rd_file fs path = Ok data;
  cs_bytes : bytes_ok data;
  cs_size : zlen data <= UINT32_MAX;
  cs_group : path_group r path = Some group;
  cs_allowed : group_allowed (rs_group_filter r) group = true;
  cs_scan : ∃ h ft, segment_scan_path (Ok data) (rs_decryptor r) (Some collect) [] = ScanDone h ft (zlen data) ds;
}.

Lemma scan_frame_append (d : delivery) off l :
  off <= fi_file_offset d.1.2 → scan_frame append_source_entry off group d.1.1 d.1.2 d.2 l = (0, l ++ delivered d).
Proof. intros Ho. unfold scan_frame. destruct (Z.ltb_spec (fi_file_offset d.1.2) off); [lia|]. apply each_entry_append. Qed.

Lemma run_scan_frames ds l :
  Forall (λ d : delivery, 0 <= fi_file_offset d.1.2) ds →
  run_cb (scan_frame append_source_entry 0 group) ds l = Some (l ++ concat (map delivered ds)).
Proof.
  intros H. revert l. induction H as [|[[h i] c] ds Ho _ IH]; intros l; cbn [run_cb map concat]; [by rewrite app_nil_r|].
  rewrite (scan_frame_append (h, i, c)) by done. cbn [Z.eqb]. by rewrite IH, <- app_assoc.
Qed.

(** The scan of a clean segment, for any callback that accepts every frame. *)
Lemma clean_scan {T} path data ds (cb : segment_frame_cb T) ctx ctx' :
  clean_segment path data ds → run_cb cb ds ctx = Some ctx' →
  ∃ h ft, segment_scan_path_from_offset (Ok data) (rs_decryptor r) (Some cb) ctx 0 = ScanDone h ft (zlen data) ctx'.
Proof.
  intros [_ Hok Hsz _ _ (h & ft & Hscan)] Hrun. exists h, ft. revert Hscan.
  unfold segment_scan_path, segment_scan_path_from_offset, segment_scan_impl. destruct (zlen data =? 0); [done|].
  destruct (segment_parse_header data (zlen data)) as [[[h0 off] e]|] eqn:Hp; [|done].
  destruct (scan_dek h0 e (rs_decryptor r) true) as [dek|] eqn:Hdk; [|done]. intros Hscan.
  destruct (parsed_nonwrap data (zlen data) h0 off e) as (Hoff & Hdl & Hhs & Hle); [done|lia|done|].
  assert (H0 : 0 <= off) by lia.
  destruct (loop_run_cb cb _ _ _ _ _ _ _ _ _ _ _ _ _ _ _ ctx ctx' Hok H0 Hscan) as (new & Hnew & _ & Hall).
  cbn [app] in Hnew. subst new. by destruct (Hall Hrun eq_refl).
Qed.

Lemma clean_chained path data ds : clean_segment path data ds →
  deliveries_fit ds ∧ Forall (λ d : delivery, 0 <= fi_file_offset d.1.2) ds ∧ zlen ds <= UINT32_MAX.
Proof.
  intros [_ Hok Hsz _ _ (h & ft & Hscan)]. revert Hscan.
  unfold segment_scan_path, segment_scan_path_from_offset, segment_scan_impl. destruct (zlen data =? 0); [done|].
  destruct (segment_parse_header data (zlen data)) as [[[h0 off] e]|] eqn:Hp; [|done].
  destruct (scan_dek h0 e (rs_decryptor r) true) as [dek|] eqn:Hdk; [|done]. intros Hscan.
  destruct (parsed_nonwrap data (zlen data) h0 off e) as (Hoff & Hdl & Hhs & Hle); [done|lia|done|].
  assert (H0 : 0 <= off) by lia.
  destruct (loop_run_cb collect _ _ _ _ _ _ _ _ _ _ _ _ _ _ _ [] [] Hok H0 Hscan) as (new & Hnew & Hch & _).
  cbn [app] in Hnew. subst new. pose proof (chained_fit off _ ds H0 Hsz Hch) as Hfit.
  pose proof (chained_count off _ ds Hch) as Hcnt. split; [done|]. split.
  - eapply Forall_impl; [exact Hfit|]. intros d [Hu _]. unfold is_u64 in Hu. lia.
  - unfold UINT32_MAX in *. lia.
Qed.

Lemma clean_scan_file path data ds l : clean_segment path data ds →
  rec_player_scan_file r fs path append_source_entry l 0 = (Ok (zlen data), l ++ concat (map delivered ds)).
Proof.
  intros Hc. pose proof Hc as [Hf _ _ Hg Ha _]. destruct (clean_chained _ _ _ Hc) as (_ & Hoffs & _).
  unfold rec_player_scan_file. rewrite Hg, Ha, Hf. cbn [negb].
  destruct (clean_scan path data ds (scan_frame append_source_entry 0 group) l _ Hc (run_scan_frames ds l Hoffs))
    as (h & ft & ->). done.
Qed.

(** The frames the unit filter lets through. *)
Definition indexed_entries (ds : list delivery) : list (list StoredEntry) :=
  map (λ d, if index_frame_may_contain_service (delivery_frame d) (rs_unit_filter r) then delivered d else []) ds.

(** Entries as the index sees them. *)
Lemma delivered_units d e : e ∈ delivered d →
  (re_realtime_ts e, re_monotonic_ts e, re_priority e, re_unit e) ∈ chunk_entries d.1.1 d.2.
Proof.
  unfold delivered, frame_entries, chunk_entries. destruct (has_flag _ _);
    intros (i & x & -> & Hx)%elem_of_lookup_imap; apply list_elem_of_lookup_2 in Hx; apply list_elem_of_fmap; by exists x.
Qed.

Lemma unit_frames_kept u ds : rs_unit_filter r = Some u →
  List.filter (λ e, bool_decide (re_unit e = Some u)) (concat (indexed_entries ds)) =
  List.filter (λ e, bool_decide (re_unit e = Some u)) (concat (map delivered ds)).
Proof.
  intros Hu. unfold indexed_entries. rewrite Hu. induction ds as [|d ds IH]; cbn [map concat]; [done|].
  rewrite !List.filter_app, IH. f_equal. destruct (index_frame_may_contain_service (delivery_frame d) (Some u)) eqn:Hm; [done|].
  symmetry. cbn [List.filter]. apply filter_none. intros e He. apply bool_decide_false. intros Hue.
  pose proof (delivered_units d e He) as Hin. apply (unit_may_be_contained _ d.1.2) in Hin. rewrite Hue in Hin.
  unfold delivery_frame in Hm. congruence.
Qed.
Lemma indexed_entries_all ds : rs_unit_filter r = None → indexed_entries ds = map delivered ds.
Proof. intros Hu. unfold indexed_entries. by rewrite Hu. Qed.

(** The index of [idx] opens for [data] with one record per frame. *)
Definition index_of (idx data : bytes) (ds : list delivery) : Prop :=
  index_open_read (Ok idx) (Ok data) = Ok (idx, zlen ds) ∧
  ∀ k d, ds !! k = Some d → index_pread_frame idx (Z.of_nat k) = Ok (delivery_frame d).

Lemma clean_indexed_view p data ds idx ip :
  clean_segment (sp_path p) data ds → index_of idx data ds →
  segment_index_path (sp_path p) PATH_SIZE = Some ip → rd_file fs ip = Ok idx →
  segment_view r fs group p (Indexed (indexed_entries ds)).
Proof.
  intros Hc [Hopen Hread] Hip Hidx. destruct (clean_chained _ _ _ Hc) as (_ & _ & Hmax).
  pose proof Hc as [Hf Hok Hsz _ _ (h & ft & Hscan)].
  destruct (scanned_reader_opens _ _ _ _ _ _ _ _ Hok Hsz Hscan) as [fr Hfr].
  exists ip, (mkIndexReader idx (zlen ds)). rewrite Hf, Hidx. unfold index_reader_open. rewrite Hopen. cbn [rbind].
  assert (Hlen : zlen (indexed_entries ds) = zlen ds) by (unfold zlen, indexed_entries; by rewrite length_map).
  split_and!; [done|done|by rewrite Hlen|rewrite Hlen; unfold UINT32_MAX, UINT64_MAX in *; lia|].
  intros k es Hk. unfold indexed_entries in Hk. rewrite list_lookup_fmap in Hk.
  destruct (ds !! k) as [[[h' frame] chunk]|] eqn:Hd; [|done]. cbn [fmap option_fmap option_map] in Hk. injection Hk as <-.
  exists (delivery_frame (h', frame, chunk)). unfold index_reader_read_frame. cbn [ir_frame_count ir_file].
  destruct (Z.leb_spec (zlen ds) (Z.of_nat k)) as [Hle|_]; [apply lookup_lt_Some in Hd; unfold zlen in Hle; lia|].
  rewrite (Hread _ _ Hd). split; [done|].
  destruct (index_frame_may_contain_service _ _); [|done]. exists fr, EUNSET. rewrite Hf. split; [done|].
  change (if_file_offset (delivery_frame (h', frame, chunk))) with (fi_file_offset frame).
  rewrite (reader_delivers _ _ _ _ _ _ _ _ _ _ _ (scan_source_frame group) [] Hok Hsz Hfr Hscan Hd).
  unfold scan_source_frame. by rewrite (scan_frame_append (h', frame, chunk)).
Qed.

Lemma clean_scanned_view p data ds :
  clean_segment (sp_path p) data ds → rs_repair_indexes r = false →
  (∀ ip, segment_index_path (sp_path p) PATH_SIZE = Some ip → ∃ e, index_reader_open (rd_file fs ip) (Ok data) = Err e) →
  segment_view r fs group p (Scanned (qsort compare_stored_entries (concat (map delivered ds)))).
Proof.
  intros Hc Hrep Hno. split; [done|]. rewrite (cs_file _ _ _ Hc). split; [done|].
  exists (zlen data), (concat (map delivered ds)). split; [|done]. by apply (clean_scan_file _ _ _ [] Hc).
Qed.

(** C16: index and scan agree.  For a segment whose scan commits its whole file,
    with the index that a rebuild wrote beside it, a source reads through the
    index one list of entries per frame; without a unit filter together they are
    exactly what a scan of the file delivers, in the same order, and with a
    filter no entry of the unit is left out. *)
Theorem index_reads_like_scan p data ds tmp idx ip :
  clean_segment (sp_path p) data ds → f_data tmp = [] → 52 + 83 * zlen ds <= f_budget tmp →
  index_rebuild_for_segment (Ok data) (Some tmp) (rs_decryptor r) = Ok idx →
  segment_index_path (sp_path p) PATH_SIZE = Some ip → rd_file fs ip = Ok idx →
  ∃ frames scanned,
    segment_view r fs group p (Indexed frames) ∧ length frames = length ds ∧
    rec_player_scan_file r fs (sp_path p) append_source_entry [] 0 = (Ok (zlen data), scanned) ∧
    match rs_unit_filter r with
    | None => concat frames = scanned
    | Some u => List.filter (λ e, bool_decide (re_unit e = Some u)) (concat frames) =
                List.filter (λ e, bool_decide (re_unit e = Some u)) scanned
    end.
Proof.
  intros Hc Htmp Hroom Hre Hip Hidx. exists (indexed_entries ds), (concat (map delivered ds)).
  pose proof Hc as [_ Hok Hsz _ _ (h & ft & Hscan)].
  destruct (rebuild_image data _ h ft ds tmp Hok Hsz Hscan Htmp Hroom) as (idx' & Hre' & Hopen & Hread).
  rewrite Hre in Hre'. injection Hre' as <-. split_and!.
  - by apply (clean_indexed_view p data ds idx ip).
  - unfold indexed_entries. by rewrite length_map.
  - by apply (clean_scan_file _ _ _ [] Hc).
  - destruct (rs_unit_filter r) as [u|] eqn:Hu; [by apply unit_frames_kept|]. by rewrite indexed_entries_all.
Qed.
End segment.
