(* ===== verification/PlayerMerge.v ===== *)
(** * Scanning all segments in wall-clock order (src/src/librecorder.c)

    [rec_player_scan_wallclock]: one source per segment, a binary heap of the
    sources by their current entries, and the least entry handed out until the
    heap is empty.  The heap array is the list of its used part. *)
From S2P Require Import Prelude Bytes Crypto Segment Chunk Index CText Player PlayerSource.

(** ** The heap *)
Section heap.
Context (less : nat → nat → bool).

Definition swap (i j : nat) (h : list nat) : list nat := <[i := h !!! j]> (<[j := h !!! i]> h).
Definition parent (i : nat) : nat := ((i - 1) / 2)%nat.

(** [wallclock_heap_sift_up]; [n] bounds the rounds, [index + 1] is enough. *)
Fixpoint wallclock_heap_sift_up (n : nat) (heap : list nat) (index : nat) : list nat :=
  match n with
  | O => heap
  | S n' =>
      if (index =? 0)%nat then heap
      else if negb (less (heap !!! index) (heap !!! parent index)) then heap
      else wallclock_heap_sift_up n' (swap index (parent index) heap) (parent index)
  end.

Definition smaller_of (heap : list nat) (candidate best : nat) : nat :=
  if (candidate <? length heap)%nat && less (heap !!! candidate) (heap !!! best) then candidate else best.

(** [wallclock_heap_sift_down] on the whole heap; [count] rounds are enough. *)
Fixpoint wallclock_heap_sift_down (n : nat) (heap : list nat) (index : nat) : list nat :=
  match n with
  | O => heap
  | S n' =>
      let left := (index * 2 + 1)%nat in
      let smallest := smaller_of heap (left + 1) (smaller_of heap left index) in
      if (smallest =? index)%nat then heap
      else wallclock_heap_sift_down n' (swap index smallest heap) smallest
  end.

Definition heap_push (heap : list nat) (i : nat) : list nat :=
  wallclock_heap_sift_up (S (length heap)) (heap ++ [i]) (length heap).
(** [heap[0] = heap[--heap_count]] *)
Definition drop_root (heap : list nat) : list nat :=
  match heap with
  | [] | [_] => []
  | _ :: rest => List.last rest O :: removelast rest
  end.
Definition heap_restore (heap : list nat) : list nat := wallclock_heap_sift_down (length heap) heap 0.
End heap.

Section merge.
Context `{F : FlatCC} `{QS : CLib}.

(** ** The segments *)
Record WallclockSegment := mkWallclockSegment {
  ws_path : SegmentPath;
  ws_min_realtime_ts : Z;
  ws_max_realtime_ts : Z;
  ws_needs_sort : bool;
  ws_entries : list StoredEntry;
}.
Definition zero_segment : WallclockSegment := mkWallclockSegment (mkSegmentPath [] 0) 0 0 false [].

Definition append_wallclock_entry : entry_cb (list StoredEntry) := λ entry l, (0, l ++ [entry]).

Definition wallclock_segment_metadata {S} (r : Settings) (segment : WallclockSegment) : SM S WallclockSegment :=
  fs ← get_fs;
  match segment_scan_path (rd_file fs (sp_path (ws_path segment))) (rs_decryptor r) None tt with
  | ScanDone header footer _ _ =>
      let min := sh_first_realtime_ts header in
      let max := if sf_present footer && negb (sf_last_realtime_ts footer =? 0)
                 then sf_last_realtime_ts footer else sh_first_realtime_ts header in
      mret (mkWallclockSegment (ws_path segment) min max
              (ws_needs_sort segment || (max <? min) || negb (sf_present footer)
               || has_flag (sf_footer_flags footer) SEGMENT_FOOTER_FLAG_REALTIME_NONMONOTONIC)
              (ws_entries segment))
  | ScanFail _ e _ => fail e
  | ScanFuel => fail EUNSET
  end.

Definition wallclock_sorted (segment : WallclockSegment) (entries : list StoredEntry) : WallclockSegment :=
  match entries with
  | [] => mkWallclockSegment (ws_path segment) (ws_min_realtime_ts segment) (ws_max_realtime_ts segment)
            (ws_needs_sort segment) []
  | e :: rest =>
      mkWallclockSegment (ws_path segment)
        (fold_left (λ m x, if re_realtime_ts x <? m then re_realtime_ts x else m) rest (re_realtime_ts e))
        (fold_left (λ m x, if m <? re_realtime_ts x then re_realtime_ts x else m) rest (re_realtime_ts e))
        (ws_needs_sort segment) (qsort compare_stored_entries entries)
  end.
Definition wallclock_load_segment {S} (r : Settings) (segment : WallclockSegment) : SM S WallclockSegment :=
  fs ← get_fs;
  match rec_player_scan_file r fs (sp_path (ws_path segment)) append_wallclock_entry (ws_entries segment) 0 with
  | (Err e, _) => fail e
  | (Ok _, entries) => mret (wallclock_sorted segment entries)
  end.

(** The loop over the paths.  A segment that is not kept leaves its slot, with
    its flag, to the next path. *)
Fixpoint wallclock_segments {S} (r : Settings) (paths : list SegmentPath) (slot : WallclockSegment)
  : SM S (list WallclockSegment) :=
  match paths with
  | [] => mret []
  | p :: paths' =>
      segment ← wallclock_segment_metadata r
        (mkWallclockSegment p (ws_min_realtime_ts slot) (ws_max_realtime_ts slot) (ws_needs_sort slot) (ws_entries slot));
      segment ← (if ws_needs_sort segment then wallclock_load_segment r segment else mret segment);
      if negb (zlen (ws_entries segment) =? 0) || negb (ws_min_realtime_ts segment =? 0)
      then rest ← wallclock_segments r paths' zero_segment; mret (segment :: rest)
      else wallclock_segments r paths' segment
  end.

(** ** The sources *)
Definition wallclock_prepare_source (r : Settings) (segment : WallclockSegment) : SM IteratorSource bool :=
  match path_group r (sp_path (ws_path segment)) with
  | None => fail EUNSET
  | Some group =>
      _ ← modify (λ _, set_entries [] (-1) (new_source group [ws_path segment]));
      if ws_needs_sort segment
      then
        let entries := ws_entries segment in
        _ ← modify (set_segment_scan_fallback true ∘ set_entries entries (if zlen entries =? 0 then -1 else 0));
        mret (negb (zlen entries =? 0))
      else
        indexed ← attempt (source_load_index r);
        s ← get;
        if bool_decide (is_Some indexed) && negb (is_frame_count s =? 0)
        then
          rc ← attempt (source_load_indexed_from r 0 FORWARD);
          match rc with
          | Some loaded => mret loaded
          | None => source_load_segment_fallback r FORWARD
          end
        else source_load_segment_fallback r FORWARD
  end.

Definition wallclock_heap_less (sources : list IteratorSource) (left right : nat) : bool :=
  match sources !! left ≫= source_current, sources !! right ≫= source_current with
  | Some a, Some b => is_lt (compare_stored_entries a b)
  | _, _ => false
  end.

Section run.
Context {T : Type}.
(** The two arrays and the caller's data. *)
Record Merge := mkMerge {
  mg_sources : list IteratorSource;
  mg_heap : list nat;
  mg_ctx : T;
}.
Definition with_source {A} (i : nat) (m : SM IteratorSource A) : SM Merge A := λ s w,
  match mg_sources s !! i with
  | None => fail EUNSET s w
  | Some src => let '(res, src', w') := m src w in (res, mkMerge (<[i := src']> (mg_sources s)) (mg_heap s) (mg_ctx s), w')
  end.
Definition set_heap (h : list nat) (s : Merge) : Merge := mkMerge (mg_sources s) h (mg_ctx s).

Fixpoint prepare_sources (r : Settings) (segments : list WallclockSegment) : SM Merge unit :=
  match segments with
  | [] => mret tt
  | segment :: segments' =>
      s ← get;
      let i := length (mg_sources s) in
      _ ← modify (λ s, mkMerge (mg_sources s ++ [new_source [] []]) (mg_heap s) (mg_ctx s));
      prepared ← with_source i (wallclock_prepare_source r segment);
      _ ← when prepared (modify (λ s, set_heap (heap_push (wallclock_heap_less (mg_sources s)) (mg_heap s) i) s));
      prepare_sources r segments'
  end.

(** [while (heap_count != 0)], for [n] rounds. *)
Fixpoint merge_loop (n fuel : nat) (r : Settings) (callback : entry_cb T) : SM Merge unit :=
  s ← get;
  match mg_heap s with
  | [] => mret tt
  | i :: _ =>
      match n with
      | O => fail EOTHER
      | S n' =>
          match mg_sources s !! i ≫= source_current with
          | None => fail EUNSET
          | Some entry =>
              let '(rv, ctx') := callback entry (mg_ctx s) in
              _ ← modify (λ s, mkMerge (mg_sources s) (mg_heap s) ctx');
              if negb (rv =? 0) then fail EUNSET
              else
                _ ← with_source i (source_advance fuel r FORWARD);
                s ← get;
                let heap := if default false (source_has_current <$> mg_sources s !! i) then mg_heap s else drop_root (mg_heap s) in
                _ ← modify (set_heap (heap_restore (wallclock_heap_less (mg_sources s)) heap));
                merge_loop n' fuel r callback
          end
      end
  end.

Definition rec_player_scan_wallclock (n fuel : nat) (r : Settings) (callback : entry_cb T) : SM T unit := λ ctx w,
  let '(res, s, w') :=
    (paths ← all_segment_paths r;
     segments ← wallclock_segments r paths zero_segment;
     _ ← prepare_sources r segments;
     merge_loop n fuel r callback) (mkMerge [] [] ctx) w in
  (res, mg_ctx s, w').
End run.
End merge.
Arguments Merge T : clear implicits.
