(* ===== verification/ReadBack.v ===== *)
(** * From the recorder to the reader

    The entries that a segment writer took are the entries that the reader library
    delivers of the closed file. *)
From S2P Require Import Prelude Bytes Crypto Segment SegmentImage SegmentSpec Chunk Index Entry CText Store Json Boots Config Modifiers Fallback Retention Writer WriterProofs Recorder RecorderProofs Intake IntakeProofs IntakeRounds Player PlayerSource PlayerSegments.

Section readback.
Context `{W : WriterLib} `{!WriterLib_ok W} `{!FlatCC_ok writer_flatcc} `{!OpenSSL_ok seg_openssl} `{QS : CLib}.

(** A delivered entry shows an entry of the log: the values are the same, in a
    compact segment those that it has room for. *)
Record shown (compact : bool) (h : SegmentHeader) (group : bytes) (e : LogEntry) (x : RecorderEntry) : Prop := {
  sw_stamps : (re_realtime_ts x, re_monotonic_ts x, re_monotonic_tie_order x) =
              (le_realtime_ts e, le_monotonic_ts e, le_monotonic_tie_order e);
  sw_source : (re_pid x, re_priority x, re_unit x) = (le_pid e, le_priority e, le_unit e);
  sw_message : re_message x = le_message e;
  sw_ids : compact = false → (re_uid x, re_gid x, re_errno_value x) = (le_uid e, le_gid e, le_errno_value e);
  sw_texts : compact = false →
    (re_hostname x, re_comm x, re_exe x, re_message_id x) = (le_hostname e, le_comm e, le_exe e, le_message_id e);
  sw_fields : compact = false →
    map (λ f, (rf_name f, rf_value f)) (re_fields x) = map (λ f, (jx_name f, default [] (jx_value f))) (le_extra_fields e);
  sw_segment : (re_boot_seq x, re_boot_id x, re_segment_seq x) = (sh_boot_seq h, sh_boot_id h, sh_segment_seq h);
  sw_group : re_group x = group;
}.

Lemma fields_shown fs l : serialize_fields fs = Some l →
  map (λ f, (rf_name f, rf_value f)) (map (λ f, mkRecorderField (fd_name f) (default [] (fd_value f))) l) =
  map (λ f, (jx_name f, default [] (jx_value f))) fs.
Proof.
  revert l. induction fs as [|f fs IH]; intros l; cbn [serialize_fields]; [by intros [= <-]|].
  destruct (jx_name f) as [name|] eqn:Hn; [|done]. destruct (serialize_fields fs) as [l'|]; [|done]. intros [= <-].
  cbn [map rf_name rf_value fd_name fd_value default from_option id]. rewrite Hn. f_equal. by apply IH.
Qed.

(** The table of an entry and what the reader makes of it. *)
Definition entry_of (h : SegmentHeader) (frame : SegmentFrameInfo) (group : bytes) (i : nat) (s : WriterProofs.StoredEntry)
    : RecorderEntry :=
  match s with StoredCompact item => compact_entry h frame group i item | StoredFull item => full_entry h frame group i item end.
Lemma entry_shown compact h frame group i e s :
  stored_of compact e = Some s → shown compact h group e (entry_of h frame group i s).
Proof.
  unfold stored_of. destruct compact.
  - intros [= <-]. by split.
  - unfold serialize_entry. destruct (serialize_fields (le_extra_fields e)) as [l|] eqn:Hl; [|done]. intros [= <-].
    split; try done. intros _. by apply fields_shown.
Qed.

Lemma frame_entries_stored h frame group chunk :
  frame_entries h frame group chunk = imap (entry_of h frame group) (entries_of_chunk h chunk).
Proof. unfold frame_entries, entries_of_chunk. destruct (has_flag _ _); by rewrite imap_fmap. Qed.

Lemma entries_shown compact h frame group ss : ∀ es k, mapM (stored_of compact) es = Some ss →
  Forall2 (shown compact h group) es (imap (λ i, entry_of h frame group (k + i)) ss).
Proof.
  induction ss as [|s ss IH]; intros [|e es] k Hm; cbn in Hm; try done.
  - destruct (stored_of compact e); [|done]. by destruct (mapM _ es).
  - destruct (stored_of compact e) as [s'|] eqn:Hs; [|done]. cbn in Hm. destruct (mapM (stored_of compact) es) as [ss'|] eqn:Hm'; [|done].
    injection Hm as -> ->. rewrite imap_cons. constructor; [rewrite Nat.add_0_r; by apply entry_shown|].
    erewrite imap_ext; [by apply (IH es (S k))|]. intros i x _. cbn. f_equal. lia.
Qed.

(** What the scan with [append_source_entry] leaves. *)
Lemma feed_reader h group dels : ∀ l, Forall (λ x : SegmentFrameInfo * bytes, 0 <= fi_file_offset x.1) dels →
  feed (scan_frame append_source_entry 0 group) h dels l = l ++ concat (map (λ x, frame_entries h x.1 group x.2) dels).
Proof.
  induction dels as [|[frame chunk] dels IH]; intros l Hd; cbn; [by rewrite app_nil_r|]. apply Forall_cons in Hd as [Ho Hd].
  unfold feed in IH. unfold scan_frame at 2. cbn [fst] in Ho. destruct (Z.ltb_spec (fi_file_offset frame) 0); [lia|].
  rewrite each_entry_append. cbn [snd]. rewrite IH by done. by rewrite <- app_assoc.
Qed.
Lemma append_total group : cb_total (scan_frame append_source_entry 0 group).
Proof. intros h frame chunk l. unfold scan_frame. destruct (_ <? _); [done|]. by rewrite each_entry_append. Qed.

Lemma chunks_shown compact h group dels : ∀ es,
  mapM (stored_of compact) es = Some (concat (map (entries_of_chunk h) dels.*2)) →
  Forall2 (shown compact h group) es (concat (map (λ x, frame_entries h x.1 group x.2) dels)).
Proof.
  induction dels as [|[frame chunk] dels IH]; intros es; cbn; intros Hm.
  { apply mapM_Some_1, Forall2_nil_inv_r in Hm as ->. constructor. }
  apply mapM_Some_1, Forall2_app_inv_r in Hm as (es1 & es2 & H1 & H2 & ->). apply Forall2_app.
  - rewrite frame_entries_stored. apply mapM_Some_2 in H1. by apply (entries_shown compact h frame group _ es1 0).
  - apply IH. by apply mapM_Some_2.
Qed.

Lemma scan_empty {T} d (cb : option (segment_frame_cb T)) ctx m h ft c t : segment_scan_impl [] (zlen (@nil Z)) d cb ctx m ≠ ScanDone h ft c t.
Proof. done. Qed.

(** Every file that scans to some entries is read as these entries. *)
Lemma scan_file_shown h compact data es ft r fs path group :
  scans_to h compact data (rs_decryptor r) es ft →
  rd_file fs path = Ok data → path_group r path = Some group → group_allowed (rs_group_filter r) group = true →
  ∃ out, rec_player_scan_file (F := writer_flatcc) r fs path append_source_entry [] 0 = (Ok (zlen data), out) ∧
    Forall2 (shown compact h group) es out.
Proof.
  intros (dels & Hm & Hoffs & Hscan) Hfile Hgroup Hallow. exists (concat (map (λ x, frame_entries h x.1 group x.2) dels)).
  split; [|by apply chunks_shown]. unfold rec_player_scan_file. rewrite Hgroup, Hallow, Hfile. cbn [negb].
  specialize (Hscan _ _ [] (append_total group)). unfold segment_scan_buffer in Hscan. unfold segment_scan_path_from_offset.
  destruct (Z.eqb_spec (zlen data) 0) as [Hz|_].
  - exfalso. assert (Hnil : data = []) by (destruct data; [done|]; rewrite zlen_cons in Hz; solve_len).
    rewrite Hnil in Hscan. by apply scan_empty in Hscan.
  - rewrite Hscan, feed_reader by done. done.
Qed.

(** C6: what was recorded is what is read.  When a writer that has taken the
    entries [es] closes its segment, and the reader library, with the key if the
    segment is encrypted, scans the file as a segment of a group that its filter
    allows, it reads the whole file and delivers exactly these entries, in order,
    each with the values that were recorded and the boot and number of the
    segment. *)
Theorem recorded_entries_read_back io now reason w w' es r fs path group :
  writer_holds w es → es ≠ [] → is_u32 reason → writer_close_segment io now reason w = (Ok tt, w') →
  opens (wf_encryptor (pw_file w)) (rs_decryptor r) →
  let data := f_data (wf_fp (pw_file w')) in
  zlen data <= UINT32_MAX → no_footer_inside data →
  rd_file fs path = Ok data → path_group r path = Some group → group_allowed (rs_group_filter r) group = true →
  ∃ out, rec_player_scan_file (F := writer_flatcc) r fs path append_source_entry [] 0 = (Ok (zlen data), out) ∧
    Forall2 (shown (ws_use_compact_entries (pw_segment w)) (writer_header w) group) es out.
Proof.
  intros Hw Hne Hr Hclose Hd data Hmax Hno.
  destruct (close_scans _ _ _ _ _ _ _ Hw Hne Hr Hclose Hd Hmax Hno) as (ft & _ & Hscan). by apply scan_file_shown with ft.
Qed.
End readback.

(** ** While the recorder runs *)
Section running.
Context `{RX : RegexLib} `{RM : !RegexMatch RX} `{W : WriterLib} `{J : Jansson}.
Context `{!WriterLib_ok W} `{!FlatCC_ok writer_flatcc} `{!OpenSSL_ok seg_openssl}.

(** C7: what was flushed is what readers see.  After the recorder, in any state
    that stands for the logs [gs], has flushed its writers, the open segment file
    of each group, read by the library while it is still being written, delivers
    exactly the entries of the open part of the group's log. *)
Theorem flushed_entries_visible ios ck it it' io gs i w g es r fs path group :
  flush_and_checkpoint ios io ck it = (Ok tt, it') → intake_ok (rs_decryptor r) it gs →
  length ios = length (r_writers (it_recorder it)) →
  r_writers (it_recorder it') !! i = Some w → gs !! i = Some g → gl_open g = Some es →
  let data := f_data (wf_fp (pw_file w)) in
  zlen data <= UINT32_MAX → no_footer_in data →
  rd_file fs path = Ok data → path_group r path = Some group → group_allowed (rs_group_filter r) group = true →
  ∃ out, rec_player_scan_file (F := writer_flatcc) r fs path append_source_entry [] 0 = (Ok (zlen data), out) ∧
    Forall2 (shown (ws_use_compact_entries (pw_segment w)) (writer_header w) group) es out.
Proof.
  intros H Hok Hl Hw Hg Hop data Hmax Hno. destruct (flush_all_flushed _ _ _ _ _ _ _ H Hok Hl) as [_ Hall].
  destruct (Hall i w g es Hw Hg Hop) as (Hh & Hp & Hd). apply scan_file_shown with zero_footer. by apply flushed_scans.
Qed.
End running.
