(* ===== verification/PlayerHeap.v ===== *)
(** * The binary heap of the wall-clock scan

    Sifting restores the heap order, keeps the elements, and the root of a heap
    is least. *)
From S2P Require Import Prelude Bytes Crypto Segment Chunk Index CText Player PlayerSource PlayerMerge.

Lemma parent_spec k : (0 < k)%nat → (2 * parent k + 1 <= k <= 2 * parent k + 2)%nat.
Proof.
  intros Hk. unfold parent. pose proof (Nat.div_mod (k - 1) 2 ltac:(lia)). pose proof (Nat.mod_upper_bound (k - 1) 2 ltac:(lia)). lia.
Qed.
Lemma parent_child k i : (0 < k)%nat → parent k = i ↔ k = (2 * i + 1)%nat ∨ k = (2 * i + 2)%nat.
Proof. intros Hk. pose proof (parent_spec k Hk). lia. Qed.

Section swap.
Context (h : list nat) (i j : nat) (Hi : (i < length h)%nat) (Hj : (j < length h)%nat).

Lemma length_swap : length (swap i j h) = length h.
Proof. unfold swap. by rewrite !length_insert. Qed.
Lemma swap_l : swap i j h !!! i = h !!! j.
Proof. unfold swap. apply list_lookup_total_insert_eq. by rewrite length_insert. Qed.
Lemma swap_r : swap i j h !!! j = h !!! i.
Proof.
  unfold swap. destruct (decide (i = j)) as [->|Hne]; [apply list_lookup_total_insert_eq; by rewrite length_insert|].
  rewrite list_lookup_total_insert_ne by done. by apply list_lookup_total_insert_eq.
Qed.
Lemma swap_other k : k ≠ i → k ≠ j → swap i j h !!! k = h !!! k.
Proof. intros. unfold swap. by rewrite !list_lookup_total_insert_ne by done. Qed.
Lemma swap_perm : swap i j h ≡ₚ h.
Proof.
  unfold swap. destruct (lookup_lt_is_Some_2 h i Hi) as [x Hx], (lookup_lt_is_Some_2 h j Hj) as [y Hy].
  rewrite (list_lookup_total_correct _ _ _ Hx), (list_lookup_total_correct _ _ _ Hy).
  destruct (decide (i = j)) as [->|Hne].
  { rewrite list_insert_insert_eq. assert (x = y) as -> by congruence. by rewrite list_insert_id. }
  apply Permutation_inj. split; [by rewrite !length_insert|].
  exists (λ k, if decide (k = i) then j else if decide (k = j) then i else k). split.
  - intros a b. repeat case_decide; congruence.
  - intros k. destruct (decide (k = i)) as [->|Hki].
    + rewrite list_lookup_insert_eq by (by rewrite length_insert). by rewrite Hy.
    + rewrite list_lookup_insert_ne by done. destruct (decide (k = j)) as [->|Hkj].
      * rewrite list_lookup_insert_eq by done. by rewrite Hx.
      * by rewrite list_lookup_insert_ne.
Qed.
End swap.

Section heap.
Context (less : nat → nat → bool) (P : nat → Prop).
(** [x] may stand above [y]. *)
Definition above (x y : nat) : Prop := less y x = false.
Context (Hrefl : ∀ x, above x x)
  (Hasym : ∀ x y, less x y = true → above x y)
  (Htrans : ∀ x y z, P x → P y → P z → above x y → above y z → above x z).

Definition heap_ok (h : list nat) : Prop := ∀ k, (0 < k < length h)%nat → above (h !!! parent k) (h !!! k).

Lemma total_P h k : Forall P h → (k < length h)%nat → P (h !!! k).
Proof. intros HP Hk. apply (Forall_lookup_total_1 P h k HP Hk). Qed.

Lemma heap_root h : Forall P h → heap_ok h → ∀ k, (k < length h)%nat → above (h !!! O) (h !!! k).
Proof.
  intros HP Hh k. induction (lt_wf k) as [k _ IH]. intros Hk. destruct (decide (k = O)) as [->|Hne]; [apply Hrefl|].
  pose proof (parent_spec k ltac:(lia)).
  apply (Htrans _ (h !!! parent k)); [apply total_P; [done|lia]..|apply IH; lia|apply Hh; lia].
Qed.

Lemma sift_up_ok n : ∀ h i,
  Forall P h → (i < length h)%nat → (i < n)%nat →
  (∀ k, (0 < k < length h)%nat → k ≠ i → above (h !!! parent k) (h !!! k)) →
  ((0 < i)%nat → ∀ c, (0 < c < length h)%nat → parent c = i → above (h !!! parent i) (h !!! c)) →
  heap_ok (wallclock_heap_sift_up less n h i) ∧ wallclock_heap_sift_up less n h i ≡ₚ h.
Proof.
  induction n as [|n IH]; intros h i HP Hi Hn Hup Hgrand; [lia|]. cbn [wallclock_heap_sift_up].
  destruct (Nat.eqb_spec i 0) as [->|Hi0]. { split; [|done]. intros k Hk. apply Hup; lia. }
  destruct (less (h !!! i) (h !!! parent i)) eqn:Hless; cbn [negb].
  2:{ split; [|done]. intros k Hk. destruct (decide (k = i)) as [->|Hne]; [exact Hless|by apply Hup]. }
  pose proof (parent_spec i ltac:(lia)) as Hp. set (p := parent i) in *.
  assert (Hpl : (p < length h)%nat) by lia. pose proof (swap_perm h i p Hi Hpl) as Hperm.
  assert (HPt : ∀ k, (k < length h)%nat → P (h !!! k)) by (intros; by apply total_P).
  destruct (IH (swap i p h) p) as [Hok Hperm'].
  - by rewrite Hperm.
  - by rewrite length_swap.
  - lia.
  - rewrite length_swap. intros k Hk Hkp. destruct (decide (k = i)) as [->|Hki].
    { fold p. rewrite swap_l, swap_r by done. by apply Hasym. }
    rewrite (swap_other h i p k) by done. destruct (decide (parent k = i)) as [Hpk|Hpk].
    { rewrite Hpk, swap_l by done. apply Hgrand; [lia|lia|done]. }
    destruct (decide (parent k = p)) as [Hpk'|Hpk'].
    { rewrite Hpk', swap_r by done. pose proof (Hup k Hk Hki) as Hab. rewrite Hpk' in Hab.
      apply (Htrans _ (h !!! p)); [by apply HPt|by apply HPt|apply HPt; lia|by apply Hasym|done]. }
    rewrite swap_other by done. by apply Hup.
  - rewrite length_swap. intros Hp0 c Hc Hpc. pose proof (parent_spec p Hp0).
    rewrite (swap_other h i p (parent p)) by lia. assert (Hab : above (h !!! parent p) (h !!! p)) by (apply Hup; lia).
    destruct (decide (c = i)) as [->|Hci]; [by rewrite swap_l|].
    pose proof (parent_spec c ltac:(lia)). rewrite swap_other by lia. pose proof (Hup c ltac:(lia) Hci) as Hab2. rewrite Hpc in Hab2.
    apply (Htrans _ (h !!! p)); [apply HPt; lia|by apply HPt|apply HPt; lia|done|done].
  - split; [done|]. by rewrite Hperm'.
Qed.

(** The child that is swapped up: least of the node and its children. *)
Lemma smallest_spec h i :
  Forall P h → (i < length h)%nat →
  let s := smaller_of less h (i * 2 + 1 + 1) (smaller_of less h (i * 2 + 1) i) in
  (s < length h)%nat ∧ (s = i ∨ s = (2 * i + 1)%nat ∨ s = (2 * i + 2)%nat) ∧
  (∀ k, (k < length h)%nat → k = i ∨ k = (2 * i + 1)%nat ∨ k = (2 * i + 2)%nat → above (h !!! s) (h !!! k)) ∧
  (s ≠ i → less (h !!! s) (h !!! i) = true ∨ above (h !!! s) (h !!! i)).
Proof.
  intros HP Hi. assert (HPt : ∀ k, (k < length h)%nat → P (h !!! k)) by (intros; by apply total_P).
  assert (Hstep : ∀ c b, (b < length h)%nat → let s := smaller_of less h c b in
    (s < length h)%nat ∧ (s = b ∨ s = c) ∧ above (h !!! s) (h !!! b) ∧ ((c < length h)%nat → above (h !!! s) (h !!! c))).
  { intros c b Hb. unfold smaller_of. destruct (Nat.ltb_spec c (length h)) as [Hc|Hc]; cbn [andb].
    - destruct (less (h !!! c) (h !!! b)) eqn:Hl.
      + split_and!; [done|by right|by apply Hasym|intros; apply Hrefl].
      + split_and!; [done|by left|apply Hrefl|done].
    - split_and!; [done|by left|apply Hrefl|lia]. }
  replace (i * 2 + 1 + 1)%nat with (2 * i + 2)%nat by lia. replace (i * 2 + 1)%nat with (2 * i + 1)%nat by lia.
  destruct (Hstep (2 * i + 1)%nat i Hi) as (Hm & Hmc & Hmi & Hml). set (m := smaller_of less h (2 * i + 1) i) in *.
  destruct (Hstep (2 * i + 2)%nat m Hm) as (Hs & Hsc & Hsm & Hsr). set (s := smaller_of less h (2 * i + 2) m) in *. cbv zeta.
  assert (Htr : ∀ k, (k < length h)%nat → above (h !!! m) (h !!! k) → above (h !!! s) (h !!! k)).
  { intros k Hk Ha. apply (Htrans _ (h !!! m)); auto. }
  split; [done|]. split; [clear -Hsc Hmc; lia|]. split.
  - intros k Hk [-> |[-> | ->]]; auto.
  - intros _. right. auto.
Qed.

Lemma sift_down_ok n : ∀ h i,
  Forall P h → (i < length h)%nat → (length h <= n + i)%nat →
  (∀ k, (0 < k < length h)%nat → parent k ≠ i → above (h !!! parent k) (h !!! k)) →
  ((0 < i)%nat → ∀ c, (0 < c < length h)%nat → parent c = i → above (h !!! parent i) (h !!! c)) →
  heap_ok (wallclock_heap_sift_down less n h i) ∧ wallclock_heap_sift_down less n h i ≡ₚ h.
Proof.
  induction n as [|n IH]; intros h i HP Hi Hn Hup Hgrand; [lia|]. cbn [wallclock_heap_sift_down].
  destruct (smallest_spec h i HP Hi) as (Hs & Hcase & Hleast & _).
  set (s := smaller_of less h (i * 2 + 1 + 1) (smaller_of less h (i * 2 + 1) i)) in *.
  destruct (Nat.eqb_spec s i) as [Heq|Hne].
  { split; [|done]. intros k Hk. destruct (decide (parent k = i)) as [Hpk|Hpk]; [|by apply Hup].
    rewrite Hpk, <- Heq. apply Hleast; [lia|]. right. by apply parent_child in Hpk; [|lia]. }
  assert (Hps : parent s = i) by (apply parent_child; lia).
  pose proof (swap_perm h i s Hi Hs) as Hperm.
  destruct (IH (swap i s h) s) as [Hok Hperm'].
  - by rewrite Hperm.
  - by rewrite length_swap.
  - rewrite length_swap. lia.
  - rewrite length_swap. intros k Hk Hpk. destruct (decide (k = s)) as [->|Hks].
    { rewrite Hps, swap_l, swap_r by done. apply Hleast; [done|by left]. }
    destruct (decide (parent k = i)) as [Hpi|Hpi].
    { rewrite Hpi, swap_l by done. pose proof (parent_spec k ltac:(lia)).
      rewrite swap_other by lia. apply Hleast; [lia|]. right. by apply parent_child in Hpi; [|lia]. }
    rewrite (swap_other h i s (parent k)) by done. destruct (decide (k = i)) as [->|Hki].
    { rewrite swap_l by done. apply Hgrand; [lia|lia|done]. }
    rewrite swap_other by done. by apply Hup.
  - rewrite length_swap. intros _ c Hc Hpc. rewrite Hps, swap_l by done. pose proof (parent_spec c ltac:(lia)).
    rewrite swap_other by lia. rewrite <- Hpc. apply Hup; [lia|]. rewrite Hpc. lia.
  - split; [done|]. by rewrite Hperm'.
Qed.

Lemma heap_push_ok h i : Forall P h → P i → heap_ok h → heap_ok (heap_push less h i) ∧ heap_push less h i ≡ₚ i :: h.
Proof.
  intros HP Hi Hh. unfold heap_push. destruct (sift_up_ok (S (length h)) (h ++ [i]) (length h)) as [Hok Hperm].
  - apply Forall_app. split; [done|by constructor].
  - rewrite length_app. cbn. lia.
  - lia.
  - rewrite length_app. cbn [length]. intros k Hk Hne. pose proof (parent_spec k ltac:(lia)).
    rewrite !lookup_total_app_l by lia. apply Hh. lia.
  - rewrite length_app. cbn [length]. intros H0 c Hc Hpc. pose proof (parent_spec c ltac:(lia)). lia.
  - split; [done|]. rewrite Hperm. by rewrite Permutation_app_comm.
Qed.

(** Only the root may be out of place. *)
Lemma heap_restore_ok h : Forall P h →
  (∀ k, (0 < k < length h)%nat → parent k ≠ O → above (h !!! parent k) (h !!! k)) →
  heap_ok (heap_restore less h) ∧ heap_restore less h ≡ₚ h.
Proof.
  intros HP Hh. unfold heap_restore. destruct h as [|x h]; [split; [|done]; intros k; cbn; lia|].
  apply sift_down_ok; [done|cbn; lia|lia|done|lia].
Qed.

Lemma drop_root_perm x h : drop_root (x :: h) ≡ₚ h.
Proof.
  unfold drop_root. destruct h as [|y h]; [done|].
  rewrite Permutation_cons_append. by rewrite <- (app_removelast_last O) by done.
Qed.
Lemma removelast_lookup (h : list nat) k : (S k < length h)%nat → removelast h !!! k = h !!! k.
Proof.
  revert k. induction h as [|x h IH]; intros k Hk; [cbn in Hk; lia|]. destruct h as [|y h]; [cbn in Hk; lia|].
  destruct k as [|k]; [done|]. change (removelast (x :: y :: h)) with (x :: removelast (y :: h)). cbn in Hk.
  apply (IH k). cbn. lia.
Qed.
Lemma drop_root_below x h k : (0 < k < length (drop_root (x :: h)))%nat → drop_root (x :: h) !!! k = (x :: h) !!! k.
Proof.
  intros Hk. pose proof (Permutation_length (drop_root_perm x h)) as Hl. unfold drop_root in *.
  destruct h as [|y h]; [cbn in Hk; lia|]. destruct k as [|k]; [lia|].
  change ((List.last (y :: h) 0%nat :: removelast (y :: h)) !!! S k) with (removelast (y :: h) !!! k).
  change ((x :: y :: h) !!! S k) with ((y :: h) !!! k). apply removelast_lookup. cbn [length] in *. lia.
Qed.
End heap.
