(* ===== verification/PlayerMergeProofs.v ===== *)
(** * The wall-clock scan merges the segments

    Every source of the scan stands for a list of remaining entries; a round
    hands out the head that the heap has at its root, which is least. *)
From S2P Require Import Prelude Bytes Crypto Segment SegmentScan SegmentSpec SegmentSafety Chunk Index IndexProofs CText Player PlayerSource PlayerOrder PlayerViews PlayerSegments PlayerMerge PlayerHeap.

Section merge.
Context `{F : FlatCC} `{!FlatCC_ok F} `{QS : CLib} `{!CLib_ok QS}.
Context (fuel : nat) (r : Settings) (fs : ReadFs) (Hfuel : (2 <= fuel)%nat).

(** ** Sources *)
Inductive merge_source (src : IteratorSource) : list StoredEntry → Prop :=
  | merge_viewed g segs views rem :
      Forall2 (segment_view r fs g) segs views → zlen segs < UINT64_MAX →
      src_ok r fs g segs src → positioned r fs g segs views src rem → merge_source src rem
  | merge_held p es j :
      is_segments src = [p] → is_segment_index src = 0 → is_segment_scan_fallback src = true →
      is_entries src = es → is_entry_index src = Z.of_nat j → (j < length es)%nat → merge_source src (drop j es)
  | merge_done : is_entries src = [] → merge_source src [].

Lemma merge_source_current src rem : merge_source src rem →
  source_current src = head rem ∧ (source_has_current src = true ↔ rem ≠ []).
Proof.
  intros [g segs views rem' Hv Hm Hok Hp|p es j Hs Hi Hf He Hj Hlt|He]; [by eapply positioned_current| |].
  - unfold source_current, source_has_current. rewrite He, Hj. destruct (lookup_lt_is_Some_2 _ _ Hlt) as [x Hx].
    rewrite (zlookup_Some _ _ _ Hx), (drop_S _ _ _ Hx). split; [done|]. split; [done|]. intros _.
    apply andb_true_iff. unfold zlen. rewrite Z.leb_le, Z.ltb_lt. lia.
  - unfold source_current, source_has_current, zlookup. rewrite He. change (zlen []) with 0.
    split; [by destruct (_ && _); [rewrite lookup_nil|]|]. split; [|done]. rewrite andb_true_iff, Z.leb_le, Z.ltb_lt. lia.
Qed.

Lemma merge_source_advance src w e rem : w_fs w = fs → merge_source src (e :: rem) →
  ∃ b src' w', source_advance fuel r FORWARD src w = (Some b, src', w') ∧ w_fs w' = fs ∧ merge_source src' rem.
Proof.
  intros Hw Hm. inversion Hm as [g segs views rem' Hv Hmany Hok Hp Heq|p es j Hs Hi Hf He Hj Hlt Heq|]; subst.
  - destruct (advance_forward r fs g segs views Hv Hmany fuel src w e rem Hfuel Hw Hok Hp)
      as (b & src' & w' & Hrun & Hw' & Hok' & Hp' & _).
    exists b, src', w'. split; [done|]. split; [done|]. by apply (merge_viewed _ g segs views).
  - unfold source_advance. sm. destruct (is_entries src) as [|e0 l] eqn:He; [cbn in Hlt; lia|]. set (es := e0 :: l) in *. sm.
    rewrite Hj. cbn [step_of]. replace (Z.of_nat j + 1) with (Z.of_nat (S j)) by lia.
    destruct (drop_cons _ _ _ _ Hlt Heq) as [_ <-].
    replace (0 <=? Z.of_nat (S j)) with true by (symmetry; apply Z.leb_le; lia). cbn [andb].
    destruct (Z.ltb_spec (Z.of_nat (S j)) (zlen es)) as [Hn|Hn]; unfold zlen in Hn.
    + eexists _, _, w. split; [reflexivity|]. split; [done|]. apply (merge_held _ p es (S j)); try done. lia.
    + rewrite Hs. cbn [length advance_segments].
      match goal with |- context [(advance_frames fuel r ?pv FORWARD ≫= _) ?s1 _] => set (s1' := s1); set (prev := pv) end.
      destruct (advance_frames_exhausted r fuel s1' w prev) as (s2 & Hrun & Heq2); [by left|lia|].
      rewrite (bind_some _ _ _ _ _ _ _ Hrun). unfold next_segment. sm. rewrite Heq2. cbn [is_segments is_segment_index set_frame_index s1' set_entry_index].
      rewrite Hs, Hi. change (zlen [p]) with 1. change (u64 (0 + 1) <? 1) with false. cbn [negb]. unfold source_clear_frame. sm.
      eexists _, _, w. split; [reflexivity|]. split; [done|]. rewrite drop_ge by lia. by apply merge_done.
Qed.

(** ** Preparing a source *)
Definition scans_empty (p : SegmentPath) : Prop :=
  ∃ end_, rec_player_scan_file r fs (sp_path p) append_source_entry [] 0 = (Ok end_, []).
(** What the source of a segment will deliver. *)
Definition segment_holds (segment : WallclockSegment) (rem : list StoredEntry) : Prop :=
  ∃ g, path_group r (sp_path (ws_path segment)) = Some g ∧
    if ws_needs_sort segment then rem = ws_entries segment
    else ∃ v, segment_view r fs g (ws_path segment) v ∧ flatten v = rem ∧
              (v = Indexed [] → scans_empty (ws_path segment)).

Lemma fallback_empty d s w p g :
  w_fs w = fs → src_ok r fs g [p] s → is_segment_index s = 0 → scans_empty p →
  ∃ s', source_load_segment_fallback r d s w = (Some false, s', w) ∧ is_entries s' = [].
Proof.
  intros Hw Hs Hi [end_ Hscan]. unfold source_load_segment_fallback, source_clear_frame. sm.
  match goal with |- context [(current_path ≫= _) ?s1 _] => set (s0 := s1) end.
  assert (Hs0 : src_ok r fs g [p] s0) by (by eapply src_ok_frame).
  rewrite (bind_some _ _ _ _ _ _ _ (current_path_ok r fs g [p] s0 w 0 p Hs0 eq_refl Hi)).
  erewrite bind_attempt.
  2: { unfold scan_into_entries. rewrite Hw. cbn [s0 set_entries is_entries]. rewrite Hscan. sm. reflexivity. }
  assert (Hnil : qsort compare_stored_entries [] = []) by (apply Permutation_nil; symmetry; apply qsort_perm).
  sm. cbn beta iota. sm. cbn [is_entries set_entries]. rewrite Hnil. eexists. split; [reflexivity|]. done.
Qed.

Lemma prepare_source_ok segment rem s w : w_fs w = fs → segment_holds segment rem →
  ∃ src w', wallclock_prepare_source r segment s w = (Some (negb (zlen rem =? 0)), src, w') ∧ w_fs w' = fs ∧ merge_source src rem.
Proof.
  intros Hw (g & Hg & Hrem). unfold wallclock_prepare_source. rewrite Hg. sm. destruct segment as [p mn mx needs es].
  cbn [ws_path ws_needs_sort ws_entries] in *. set (s0 := set_entries [] (-1) (new_source g [p])).
  destruct needs.
  - subst rem. sm. eexists _, w. split; [reflexivity|]. split; [done|]. destruct es as [|e es]; [by apply merge_done|].
    apply (merge_held _ p (e :: es) 0); done || (cbn; lia).
  - destruct Hrem as (v & Hv & Hflat & Hempty).
    assert (Hs0 : src_ok r fs g [p] s0) by (by split).
    assert (Hone : Forall2 (segment_view r fs g) [p] [v]) by (by constructor).
    destruct (edge_forward r fs g [p] [v] s0 w 0 p v Hw Hs0 eq_refl eq_refl eq_refl Hv)
      as (b & src & w' & Hrun & Hw' & Hsrc & Hb).
    assert (Hfin : ∃ src w', source_load_segment_edge r FORWARD s0 w = (Some (negb (zlen rem =? 0)), src, w') ∧
                     w_fs w' = fs ∧ merge_source src rem).
    { exists src, w'. rewrite Hrun. rewrite Hflat in Hb. split; [|split; [done|]].
      - do 3 f_equal. destruct b; [destruct Hb as [_ Hne]|destruct Hb as (-> & _)]; [by destruct rem|done].
      - destruct b.
        + destruct Hb as [Hp _]. change (after [v] 0) with (@nil StoredEntry) in Hp. rewrite app_nil_r in Hp.
          by apply (merge_viewed _ g [p] [v]).
        + destruct Hb as (-> & _ & _ & He). by apply merge_done, He. }
    destruct v as [frames|es'].
    + destruct (load_index_indexed r fs g [p] s0 w 0 p frames Hw Hs0 eq_refl eq_refl Hv) as (s1 & Hrun1 & Hs1 & Hin & He1).
      erewrite bind_attempt by exact Hrun1. sm. assert (Hfc : is_frame_count s1 = zlen frames) by apply Hin.
      rewrite bool_decide_true by done. cbn [andb]. rewrite Hfc. destruct frames as [|f0 frames].
      * cbn [negb]. change (zlen [] =? 0) with true. cbn [negb]. cbn in Hflat. subst rem.
        destruct (fallback_empty FORWARD s1 w p g Hw Hs1 ltac:(apply Hin) (Hempty eq_refl)) as (s2 & Hrun2 & He2).
        exists s2, w. split; [done|]. split; [done|]. by apply merge_done.
      * assert (H0 : (zlen (f0 :: frames) =? 0) = false) by (apply Z.eqb_neq; unfold zlen; cbn; lia).
        rewrite H0. cbn [negb]. destruct Hfin as (src2 & w2 & Hrun2 & Hw2 & Hm2). exists src2, w2. split; [|done].
        rewrite <- Hrun2. unfold source_load_segment_edge. erewrite (bind_attempt _ _ s0) by exact Hrun1.
        sm. rewrite Hfc, H0. cbn [edge_index]. done.
    + destruct (load_index_scanned r fs g [p] s0 w 0 p es' Hw Hs0 eq_refl eq_refl Hv) as (s1 & w1 & Hrun1 & Hw1 & Hs1 & Hi1).
      erewrite bind_attempt by exact Hrun1. sm. rewrite bool_decide_false by (by intros [? ?]). cbn [andb].
      destruct Hfin as (src2 & w2 & Hrun2 & Hw2 & Hm2). exists src2, w2. split; [|done].
      rewrite <- Hrun2. unfold source_load_segment_edge. erewrite (bind_attempt _ _ s0) by exact Hrun1. by sm.
Qed.

(** ** Collecting the segments *)
Definition must_sort (header : SegmentHeader) (footer : SegmentFooter) : bool :=
  let max := if sf_present footer && negb (sf_last_realtime_ts footer =? 0)
             then sf_last_realtime_ts footer else sh_first_realtime_ts header in
  (max <? sh_first_realtime_ts header) || negb (sf_present footer)
  || has_flag (sf_footer_flags footer) SEGMENT_FOOTER_FLAG_REALTIME_NONMONOTONIC.

(** A clean segment that is not left out, and what it contributes: sorted when
    the footer asks for it or there is no index, else in file order. *)
Definition wallclock_path (p : SegmentPath) (all rem : list StoredEntry) : Prop :=
  ∃ g data ds header footer,
    clean_segment r fs g (sp_path p) data ds ∧
    segment_scan_path (Ok data) (rs_decryptor r) None tt = ScanDone header footer (zlen data) tt ∧
    sh_first_realtime_ts header ≠ 0 ∧ all = concat (map (delivered g) ds) ∧
    if must_sort header footer then rem = qsort compare_stored_entries all
    else
      (∃ ip idx, segment_index_path (sp_path p) PATH_SIZE = Some ip ∧ rd_file fs ip = Ok idx ∧ index_of idx data ds ∧
                 rem = concat (indexed_entries r g ds)) ∨
      (rs_repair_indexes r = false ∧
       (∀ ip, segment_index_path (sp_path p) PATH_SIZE = Some ip → ∃ e, index_reader_open (rd_file fs ip) (Ok data) = Err e) ∧
       rem = qsort compare_stored_entries all).

Lemma clean_all path data ds g l : clean_segment r fs g path data ds →
  rec_player_scan_file r fs path append_wallclock_entry l 0 = (Ok (zlen data), l ++ concat (map (delivered g) ds)).
Proof. intros Hc. by apply clean_scan_file. Qed.

Lemma segment_kept {S} p all rem (s : S) w : w_fs w = fs → wallclock_path p all rem →
  ∃ meta segment,
    wallclock_segment_metadata r (mkWallclockSegment p 0 0 false []) s w = (Some meta, s, w) ∧
    (if ws_needs_sort meta then wallclock_load_segment r meta else mret meta) s w = (Some segment, s, w) ∧
    negb (zlen (ws_entries segment) =? 0) || negb (ws_min_realtime_ts segment =? 0) = true ∧
    segment_holds segment rem.
Proof.
  intros Hw (g & data & ds & header & footer & Hc & Hscan & H0 & Hall & Hrem).
  pose proof Hc as [Hf _ _ Hg _ _]. unfold wallclock_segment_metadata. sm. rewrite Hw. cbn [ws_path ws_needs_sort ws_entries].
  rewrite Hf, Hscan. cbn [orb]. change (_ || negb (sf_present footer) || _) with (must_sort header footer).
  set (meta := mkWallclockSegment p _ _ _ _). exists meta. destruct (must_sort header footer) eqn:Hm.
  - exists (wallclock_sorted meta all). split; [reflexivity|]. cbn [ws_needs_sort meta]. unfold wallclock_load_segment. sm.
    rewrite Hw. cbn [ws_path ws_entries meta]. rewrite (clean_all _ _ _ _ [] Hc), <- Hall. cbn [app]. split; [done|].
    assert (Hent : ws_entries (wallclock_sorted meta all) = qsort compare_stored_entries all ∧
              ws_needs_sort (wallclock_sorted meta all) = true ∧ ws_path (wallclock_sorted meta all) = p).
    { destruct all; [|done]. split_and!; [|done|done]. symmetry. apply Permutation_nil. symmetry. apply qsort_perm. }
    destruct Hent as (He & Hn & Hp). split.
    + destruct all as [|e all']; [|]. { by apply orb_true_iff; right; apply negb_true_iff, Z.eqb_neq. }
      apply orb_true_iff. left. rewrite He. apply negb_true_iff, Z.eqb_neq. unfold zlen.
      rewrite (Permutation_length (qsort_perm compare_stored_entries (e :: all'))). cbn. lia.
    + exists g. rewrite Hp, Hn, He. done.
  - exists meta. split; [reflexivity|]. split; [done|]. split.
    { apply orb_true_iff. right. by apply negb_true_iff, Z.eqb_neq. }
    exists g. split; [done|]. cbn [ws_needs_sort ws_path meta].
    destruct Hrem as [(ip & idx & Hip & Hidx & Hof & ->)|(Hrep & Hno & ->)].
    + exists (Indexed (indexed_entries r g ds)). split; [by apply (clean_indexed_view r fs g p data ds idx ip)|]. split; [done|].
      intros [= Hnil]. exists (zlen data). rewrite (clean_scan_file _ _ _ _ _ _ [] Hc).
      unfold indexed_entries in Hnil. apply map_eq_nil in Hnil. by rewrite Hnil.
    + eexists (Scanned _). split; [by apply (clean_scanned_view r fs g p data ds)|]. split; [by rewrite Hall|done].
Qed.

Lemma segments_kept {S} paths alls rems (s : S) w : w_fs w = fs → Forall3 wallclock_path paths alls rems →
  ∃ segments, wallclock_segments r paths zero_segment s w = (Some segments, s, w) ∧ Forall2 segment_holds segments rems.
Proof.
  intros Hw. induction 1 as [|p all rem paths alls rems Hp _ (segments & Hrun & Hholds)]; cbn [wallclock_segments].
  - exists []. split; [done|constructor].
  - destruct (segment_kept p all rem s w Hw Hp) as (meta & segment & Hm & Hl & Hk & Hh). cbn [zero_segment ws_min_realtime_ts ws_max_realtime_ts ws_needs_sort ws_entries].
    rewrite (bind_some _ _ _ _ _ _ _ Hm), (bind_some _ _ _ _ _ _ _ Hl), Hk, (bind_some _ _ _ _ _ _ _ Hrun).
    exists (segment :: segments). split; [done|]. by constructor.
Qed.

(** ** The heap over the sources *)
Definition waiting (rems : list (list StoredEntry)) (i : nat) : Prop := ∃ e l, rems !! i = Some (e :: l).

Lemma source_key sources rems i e l : Forall2 merge_source sources rems → rems !! i = Some (e :: l) →
  sources !! i ≫= source_current = Some e.
Proof.
  intros H2 Hi. destruct (Forall2_lookup_r _ _ _ _ _ H2 Hi) as (src & Hs & Hm). rewrite Hs. cbn.
  by destruct (merge_source_current _ _ Hm) as [-> _].
Qed.

Lemma less_refl sources x : above (wallclock_heap_less sources) x x.
Proof.
  unfold above, wallclock_heap_less. destruct (sources !! x ≫= source_current) as [e|]; [|done].
  by rewrite (cmp_refl _ cmp_ok_stored).
Qed.
Lemma less_asym sources x y : wallclock_heap_less sources x y = true → above (wallclock_heap_less sources) x y.
Proof.
  unfold above, wallclock_heap_less. destruct (sources !! x ≫= source_current) as [a|], (sources !! y ≫= source_current) as [b|]; try done.
  rewrite (cmp_opp _ cmp_ok_stored a b). by destruct (compare_stored_entries a b).
Qed.
Lemma above_le sources rems x y a b la lb : Forall2 merge_source sources rems →
  rems !! x = Some (a :: la) → rems !! y = Some (b :: lb) →
  above (wallclock_heap_less sources) x y ↔ le_by compare_stored_entries a b.
Proof.
  intros H2 Hx Hy. unfold above, wallclock_heap_less, le_by. rewrite (source_key _ _ _ _ _ H2 Hx), (source_key _ _ _ _ _ H2 Hy).
  rewrite (cmp_opp _ cmp_ok_stored a b). by destruct (compare_stored_entries a b).
Qed.
Lemma above_trans sources rems x y z : Forall2 merge_source sources rems →
  waiting rems x → waiting rems y → waiting rems z →
  above (wallclock_heap_less sources) x y → above (wallclock_heap_less sources) y z → above (wallclock_heap_less sources) x z.
Proof.
  intros H2 (a & la & Hx) (b & lb & Hy) (c & lc & Hz). rewrite (above_le _ _ _ _ _ _ _ _ H2 Hx Hy), (above_le _ _ _ _ _ _ _ _ H2 Hy Hz), (above_le _ _ _ _ _ _ _ _ H2 Hx Hz).
  apply (le_by_trans _ cmp_ok_stored).
Qed.
(** Sources other than [i] compare as before. *)
Lemma above_insert sources i src x y : x ≠ i → y ≠ i →
  above (wallclock_heap_less (<[i := src]> sources)) x y ↔ above (wallclock_heap_less sources) x y.
Proof. intros Hx Hy. unfold above, wallclock_heap_less. by rewrite !list_lookup_insert_ne by done. Qed.

Record merging {T} (s : Merge T) (rems : list (list StoredEntry)) : Prop := {
  mgi_sources : Forall2 merge_source (mg_sources s) rems;
  mgi_nodup : NoDup (mg_heap s);
  mgi_waiting : ∀ i, i ∈ mg_heap s ↔ waiting rems i;
  mgi_heap : heap_ok (wallclock_heap_less (mg_sources s)) (mg_heap s);
}.

Lemma merging_all {T} (s : Merge T) rems : merging s rems → Forall (waiting rems) (mg_heap s).
Proof. intros [_ _ Hw _]. apply Forall_forall. intros i. apply Hw. Qed.

(** The root of the heap has the least head. *)
Lemma merging_root {T} (s : Merge T) rems i heap e l j x lx :
  merging s rems → mg_heap s = i :: heap → rems !! i = Some (e :: l) → rems !! j = Some (x :: lx) → le_by compare_stored_entries e x.
Proof.
  intros Hm Hh Hi Hj. pose proof Hm as [H2 _ Hw Hok]. apply (above_le _ _ i j _ _ _ _ H2 Hi Hj).
  assert (Hin : j ∈ mg_heap s) by (apply Hw; by exists x, lx).
  apply list_elem_of_lookup in Hin as [k Hk]. pose proof (lookup_lt_Some _ _ _ Hk) as Hlt.
  rewrite <- (list_lookup_total_correct _ _ _ Hk). replace i with (mg_heap s !!! O) by (by rewrite Hh).
  apply (heap_root _ (waiting rems)); [apply less_refl|intros ???; by apply above_trans|by eapply merging_all|done|done].
Qed.

(** A new source goes into the heap when it has entries. *)
Lemma merging_push {T} (s : Merge T) rems src rem :
  merging s rems → merge_source src rem →
  let i := length (mg_sources s) in
  let s1 := mkMerge (mg_sources s ++ [src]) (mg_heap s) (mg_ctx s) in
  merging (if negb (zlen rem =? 0) then set_heap (heap_push (wallclock_heap_less (mg_sources s1)) (mg_heap s) i) s1 else s1) (rems ++ [rem]).
Proof.
  intros Hm Hsrc i s1. pose proof Hm as [H2 Hnd Hw Hok]. pose proof (Forall2_length _ _ _ H2) as Hlen.
  assert (H2' : Forall2 merge_source (mg_sources s ++ [src]) (rems ++ [rem])) by (apply Forall2_app; [done|by constructor]).
  assert (Hbelow : ∀ j, waiting rems j → (j < i)%nat) by (intros j (e & l & Hj); apply lookup_lt_Some in Hj; unfold i; lia).
  assert (Hw' : ∀ j, waiting (rems ++ [rem]) j ↔ waiting rems j ∨ (j = i ∧ rem ≠ [])).
  { intros j. unfold waiting. destruct (decide (j < i)%nat) as [Hj|Hj].
    - rewrite lookup_app_l by lia. split; [by left|]. intros [?|[-> _]]; [done|lia].
    - split.
      + intros (e & l & Hj'). right. destruct (decide (j = i)) as [->|Hne].
        * rewrite lookup_app_r in Hj' by lia. unfold i in Hj'. rewrite Hlen, Nat.sub_diag in Hj'. cbn in Hj'. split; [done|congruence].
        * apply lookup_lt_Some in Hj'. rewrite length_app in Hj'. cbn in Hj'. unfold i in *. lia.
      + intros [(e & l & Hj')|[-> Hne]]; [apply lookup_lt_Some in Hj'; unfold i in *; lia|].
        destruct rem as [|e l]; [done|]. exists e, l. unfold i. rewrite Hlen. by apply list_lookup_middle. }
  assert (Hok' : heap_ok (wallclock_heap_less (mg_sources s1)) (mg_heap s)).
  { intros k Hk. pose proof (parent_spec k ltac:(lia)). specialize (Hok k Hk). unfold above, wallclock_heap_less in *. cbn [mg_sources s1].
    assert (Hin : ∀ k', (k' < length (mg_heap s))%nat → (mg_heap s !!! k' < i)%nat).
    { intros k' Hk'. apply Hbelow, (Forall_lookup_total_1 _ _ k' (merging_all _ _ Hm) Hk'). }
    rewrite !lookup_app_l by (apply Hin; lia). done. }
  destruct (Z.eqb_spec (zlen rem) 0) as [H0|H0]; cbn [negb].
  - split; cbn; [done|done| |done]. intros j. rewrite Hw, Hw'. split; [by left|]. intros [?|[_ Hne]]; [done|]. by destruct rem.
  - assert (Hne : rem ≠ []) by (by intros ->).
    destruct (heap_push_ok (wallclock_heap_less (mg_sources s1)) (waiting (rems ++ [rem])) (less_asym _)
      (λ x y z, above_trans _ _ x y z H2') (mg_heap s) i) as [Hpok Hperm]; [|apply Hw'; by right|done|].
    { eapply Forall_impl; [by eapply merging_all|]. intros j Hj. apply Hw'. by left. }
    split; cbn [mg_sources mg_heap set_heap s1] in *; [done| | |done].
    + rewrite Hperm. apply NoDup_cons. split; [|done]. intros Hin%Hw%Hbelow. lia.
    + intros j. rewrite Hperm, elem_of_cons, Hw, Hw'. naive_solver.
Qed.

(** The root's source has moved on. *)
Lemma merging_advance {T} (s : Merge T) rems i heap e rest src (ctx : T) :
  merging s rems → mg_heap s = i :: heap → rems !! i = Some (e :: rest) → merge_source src rest →
  let sources := <[i := src]> (mg_sources s) in
  merging (mkMerge sources (heap_restore (wallclock_heap_less sources)
             (if source_has_current src then mg_heap s else drop_root (mg_heap s))) ctx) (<[i := rest]> rems).
Proof.
  intros Hm Hh Hi Hsrc sources. pose proof Hm as [H2 Hnd Hw Hok].
  assert (H2' : Forall2 merge_source sources (<[i := rest]> rems)) by (by apply Forall2_insert).
  assert (Hil : (i < length rems)%nat) by (by eapply lookup_lt_Some).
  rewrite Hh in Hnd. apply NoDup_cons in Hnd as [Hni Hnd].
  assert (Hw' : ∀ j, waiting (<[i := rest]> rems) j ↔ (j ≠ i ∧ waiting rems j) ∨ (j = i ∧ rest ≠ [])).
  { intros j. unfold waiting. destruct (decide (j = i)) as [->|Hne].
    - rewrite list_lookup_insert_eq by done. split.
      + intros (e' & l' & [= ->]). by right.
      + intros [[? _]|[_ Hr]]; [done|]. destruct rest as [|e' l']; [done|]. by exists e', l'.
    - rewrite list_lookup_insert_ne by done. split; [intros ?; by left|]. intros [[_ ?]|[-> _]]; done. }
  set (h := if source_has_current src then mg_heap s else drop_root (mg_heap s)).
  assert (Hperm : h ≡ₚ (if source_has_current src then i :: heap else heap)).
  { unfold h. rewrite Hh. destruct (source_has_current src); [done|]. apply drop_root_perm. }
  assert (Hin : ∀ j, j ∈ h ↔ waiting (<[i := rest]> rems) j).
  { intros j. rewrite Hperm, Hw', <- Hw, Hh, elem_of_cons. destruct (merge_source_current _ _ Hsrc) as [_ Hcur].
    destruct (source_has_current src).
    - rewrite elem_of_cons. assert (Hne : rest ≠ []) by (by apply Hcur). destruct (decide (j = i)); naive_solver.
    - assert (Hnil : rest = []) by (destruct rest; [done|]; discriminate (proj2 Hcur ltac:(done))). naive_solver. }
  destruct (heap_restore_ok (wallclock_heap_less sources) (waiting (<[i := rest]> rems)) (less_refl _) (less_asym _)
      (λ x y z, above_trans _ _ x y z H2') h) as [Hrok Hrperm].
  { apply Forall_forall. intros j. apply Hin. }
  { assert (Hat : ∀ k, (0 < k < length h)%nat → h !!! k = mg_heap s !!! k ∧ (k < length (mg_heap s))%nat).
    { intros k Hk. pose proof (Permutation_length Hperm) as Hl. unfold h in *. rewrite Hh in *.
      destruct (source_has_current src); [split; [done|lia]|]. split; [by apply drop_root_below|cbn [length]; lia]. }
    intros k Hk Hp. pose proof (parent_spec k ltac:(lia)). destruct (Hat k Hk) as [-> Hkl]. destruct (Hat (parent k) ltac:(lia)) as [-> Hpl].
    assert (Hni' : ∀ k, (0 < k < length (mg_heap s))%nat → mg_heap s !!! k ≠ i).
    { intros [|k'] Hk'; [lia|]. rewrite Hh in *. cbn. cbn in Hk'. intros Heq. apply Hni. rewrite <- Heq. apply list_elem_of_lookup_total_2. lia. }
    apply above_insert; [apply Hni'; lia|apply Hni'; lia|]. apply Hok. lia. }
  split; cbn [mg_sources mg_heap]; [done| | |done].
  - rewrite Hrperm, Hperm. destruct (source_has_current src); [by apply NoDup_cons|done].
  - intros j. by rewrite Hrperm, Hin.
Qed.

(** ** The whole scan *)
Lemma prepare_sources_ok {T} segments rems : Forall2 segment_holds segments rems →
  ∀ (s : Merge T) w done_, w_fs w = fs → merging s done_ →
  ∃ s' w', prepare_sources r segments s w = (Some tt, s', w') ∧ w_fs w' = fs ∧ mg_ctx s' = mg_ctx s ∧ merging s' (done_ ++ rems).
Proof.
  induction 1 as [|segment rem segments rems Hseg _ IH]; intros s w done_ Hw Hm; cbn [prepare_sources].
  - exists s, w. by rewrite app_nil_r.
  - sm. set (s1 := mkMerge (mg_sources s ++ [new_source [] []]) (mg_heap s) (mg_ctx s)).
    destruct (prepare_source_ok segment rem (new_source [] []) w Hw Hseg) as (src & w1 & Hrun & Hw1 & Hsrc).
    set (i := length (mg_sources s)).
    assert (Hws : with_source i (wallclock_prepare_source r segment) s1 w =
              (Some (negb (zlen rem =? 0)), mkMerge (mg_sources s ++ [src]) (mg_heap s) (mg_ctx s), w1)).
    { unfold with_source, i. cbn [mg_sources s1]. rewrite list_lookup_middle by done. rewrite Hrun.
      rewrite insert_app_r_alt by lia. by rewrite Nat.sub_diag. }
    rewrite (bind_some _ _ _ _ _ _ _ Hws). pose proof (merging_push s done_ src rem Hm Hsrc) as Hm'. cbv zeta in Hm'.
    fold i in Hm'. cbn [mg_sources] in Hm'.
    destruct (negb (zlen rem =? 0)) eqn:Hne; cbn [when]; sm;
      destruct (IH _ w1 _ Hw1 Hm') as (s' & w' & Hrun' & Hw' & Hctx & Hm''); rewrite <- app_assoc in Hm'';
      exists s', w'; split_and!; try done.
Qed.

Section callback.
Context {T : Type} (cb : entry_cb T) (Hcb : ∀ e t, (cb e t).1 = 0).

Lemma merge_loop_ok n : ∀ (s : Merge T) w rems,
  w_fs w = fs → merging s rems → (length (concat rems) <= n)%nat →
  ∃ out s' w', merge_loop n fuel r cb s w = (Some tt, s', w') ∧ w_fs w' = fs ∧
    mg_ctx s' = fold_left (λ t e, (cb e t).2) out (mg_ctx s) ∧ merges compare_stored_entries rems out.
Proof.
  induction n as [|n IH]; intros s w rems Hw Hm Hn; cbn [merge_loop]; sm; pose proof Hm as [H2 _ Hwait _].
  all: destruct (mg_heap s) as [|i heap] eqn:Hh.
  1, 3: exists [], s, w; split_and!; try done; apply merges_nil, Forall_lookup; intros j [|e l] Hj; [done|];
    assert (Hin : waiting rems j) by (by exists e, l); apply Hwait in Hin; by apply elem_of_nil in Hin.
  all: assert (Hi : waiting rems i) by (apply Hwait; by left); destruct Hi as (e & rest & Hi);
    pose proof (Permutation_length (concat_insert _ _ _ _ Hi)) as Hl; cbn [length] in Hl.
  { lia. }
  rewrite (source_key _ _ _ _ _ H2 Hi). destruct (cb e (mg_ctx s)) as [rv ctx'] eqn:Hc. pose proof (Hcb e (mg_ctx s)) as H0.
  rewrite Hc in H0. cbn in H0. subst rv. sm. cbn [Z.eqb negb].
  destruct (Forall2_lookup_r _ _ _ _ _ H2 Hi) as (src & Hsrc & Hms).
  destruct (merge_source_advance src w e rest Hw Hms) as (b & src' & w1 & Hrun & Hw1 & Hms').
  assert (Hws : with_source i (source_advance fuel r FORWARD) (mkMerge (mg_sources s) (mg_heap s) ctx') w =
            (Some b, mkMerge (<[i := src']> (mg_sources s)) (mg_heap s) ctx', w1)).
  { unfold with_source. cbn [mg_sources]. by rewrite Hsrc, Hrun. }
  rewrite (bind_some _ _ _ _ _ _ _ Hws). sm. cbn [mg_sources mg_heap set_heap mg_ctx].
  rewrite list_lookup_insert_eq by (by eapply lookup_lt_Some). cbn [fmap option_fmap option_map default option_rect].
  pose proof (merging_advance s rems i heap e rest src' ctx' Hm Hh Hi Hms') as Hm'. cbv zeta in Hm'.
  destruct (IH _ w1 _ Hw1 Hm' ltac:(lia)) as (out & s' & w' & Hrun' & Hw' & Hctx & Hmer).
  exists (e :: out), s', w'. split; [exact Hrun'|]. split; [done|]. split.
  - rewrite Hctx. cbn [mg_ctx fold_left]. by rewrite Hc.
  - eapply merges_cons; [exact Hi| |exact Hmer]. intros j x lx Hj. exact (merging_root s rems i heap e rest j x lx Hm Hh Hi Hj).
Qed.

(** Listing the store gives these paths, in this order. *)
Definition lists_paths (paths : list SegmentPath) : Prop :=
  ∀ S (s : S) w, w_fs w = fs → ∃ w', all_segment_paths r s w = (Some paths, s, w') ∧ w_fs w' = fs.

Lemma scan_paths_all paths alls rems : Forall3 wallclock_path paths alls rems → ∀ l w, w_fs w = fs →
  scan_paths r append_source_entry paths l w = (Some tt, l ++ concat alls, w).
Proof.
  induction 1 as [|p all rem paths alls rems Hp _ IH]; intros l w Hw; cbn [scan_paths concat]; [by rewrite app_nil_r|].
  destruct Hp as (g & data & ds & header & footer & Hc & _ & _ & -> & _).
  assert (Hs : scan_file r (sp_path p) append_source_entry 0 l w = (Some (zlen data), l ++ concat (map (delivered g) ds), w)).
  { unfold scan_file. by rewrite Hw, (clean_scan_file _ _ _ _ _ _ _ Hc). }
  rewrite (bind_some _ _ _ _ _ _ _ Hs), IH by done. by rewrite <- app_assoc.
Qed.

Lemma contributes_all p all rem : rs_unit_filter r = None → wallclock_path p all rem → rem ≡ₚ all.
Proof.
  intros Hu (g & data & ds & header & footer & _ & _ & _ & Hall & Hrem). destruct (must_sort header footer).
  { subst rem. apply qsort_perm. }
  destruct Hrem as [(ip & idx & _ & _ & _ & ->)|(_ & _ & ->)]; [|apply qsort_perm]. by rewrite indexed_entries_all, Hall.
Qed.

(** C15: the wall-clock scan is the sorted scan.  On a store of clean segments
    the scan that keeps a heap of one source per segment hands out, in an order
    that merges the segments, what they contribute: without a unit filter
    exactly the entries of the plain scan of all segments, each once, and in
    order of time as soon as the segments read in file order are in order. *)
Theorem wallclock_scan_merges ctx w paths alls rems n :
  w_fs w = fs → lists_paths paths → Forall3 wallclock_path paths alls rems → (length (concat rems) <= n)%nat →
  ∃ out w', rec_player_scan_wallclock n fuel r cb ctx w = (Some tt, fold_left (λ t e, (cb e t).2) out ctx, w') ∧
    out ≡ₚ concat rems ∧
    (∃ w'', rec_player_scan_all r append_source_entry [] w = (Some tt, concat alls, w'')) ∧
    (rs_unit_filter r = None → out ≡ₚ concat alls) ∧
    (Forall (StronglySorted (le_by compare_stored_entries)) rems → StronglySorted (le_by compare_stored_entries) out).
Proof.
  intros Hw Hlist H3 Hn. unfold rec_player_scan_wallclock.
  destruct (Hlist _ (mkMerge [] [] ctx) w Hw) as (w1 & Hrun1 & Hw1). rewrite (bind_some _ _ _ _ _ _ _ Hrun1).
  destruct (segments_kept paths alls rems (mkMerge [] [] ctx) w1 Hw1 H3) as (segments & Hrun2 & Hholds).
  rewrite (bind_some _ _ _ _ _ _ _ Hrun2).
  assert (Hm0 : merging (mkMerge [] [] ctx) []).
  { split; cbn; [constructor|constructor| |intros k; cbn; lia]. intros i. rewrite elem_of_nil. split; [done|].
    intros (e & l & ?). done. }
  destruct (prepare_sources_ok segments rems Hholds _ w1 [] Hw1 Hm0) as (s3 & w3 & Hrun3 & Hw3 & Hctx & Hm3).
  rewrite (bind_some _ _ _ _ _ _ _ Hrun3). cbn [app] in Hm3.
  destruct (merge_loop_ok n s3 w3 rems Hw3 Hm3 Hn) as (out & s4 & w4 & Hrun4 & _ & Hctx4 & Hmer).
  exists out, w4. rewrite Hrun4, Hctx4, Hctx. cbn [mg_ctx]. pose proof (merges_perm _ _ _ Hmer) as Hperm.
  split; [done|]. split; [done|]. split; [|split].
  - destruct (Hlist _ (@nil StoredEntry) w Hw) as (w5 & Hrun5 & Hw5). exists w5. unfold rec_player_scan_all.
    rewrite (bind_some _ _ _ _ _ _ _ Hrun5). by apply (scan_paths_all paths alls rems H3 []).
  - intros Hu. rewrite Hperm. clear -H3 Hu CLib_ok0. induction H3 as [|p all rem paths alls rems Hp _ IH]; [done|].
    cbn [concat]. by rewrite IH, (contributes_all p all rem Hu Hp).
  - intros Hs. by apply (merges_sorted _ cmp_ok_stored rems).
Qed.
End callback.
End merge.
