(* ===== verification/BatchReader.v ===== *)
(** * The batch reader (src/src/batch_reader.c)

    The program reads a store in batches and resumes every batch from the cursor
    of the last entry of the one before.  What standard output, the descriptor
    and the store answer is a list of answers; without an answer for the next
    wait the program is still waiting. *)
From S2P Require Import Prelude Bytes Crypto Segment Chunk Index CText Player PlayerCursor PlayerFollow PlayerSource PlayerIter.

(** ** Arguments *)
Record BatchOptions := mkBatchOptions {
  bo_follow : bool;
  bo_batch_size : Z;
  bo_order : RecorderPlayerOrder;
  bo_path : bytes;
}.
#[export] Instance BatchOptions_eq_dec : EqDecision BatchOptions.
Proof. solve_decision. Defined.
Definition with_follow (o : BatchOptions) : BatchOptions := mkBatchOptions true (bo_batch_size o) (bo_order o) (bo_path o).
Definition with_batch_size (n : Z) (o : BatchOptions) : BatchOptions := mkBatchOptions (bo_follow o) n (bo_order o) (bo_path o).
Definition with_wallclock (o : BatchOptions) : BatchOptions :=
  mkBatchOptions (bo_follow o) (bo_batch_size o) RECORDER_ORDER_WALLCLOCK (bo_path o).

Definition batch_size_arg (s : bytes) : option Z :=
  let '(value, end_, erange) := strtoull10 s in
  if erange || negb (beq end_ []) || (value =? 0) || (SIZE_MAX <? value) then None else Some value.

(** The arguments behind the program's name; [None] is the usage message. *)
Fixpoint parse_args (args : list bytes) (o : BatchOptions) : option BatchOptions :=
  match args with
  | [] => None
  | arg :: args' =>
      if negb (byte_at arg 0 =? 45)
      then match args' with [] => Some (mkBatchOptions (bo_follow o) (bo_batch_size o) (bo_order o) arg) | _ => None end
      else if beq arg (C "-f") then parse_args args' (with_follow o)
      else if beq arg (C "-b")
      then
        match args' with
        | [] => None
        | value :: args'' => n ← batch_size_arg value; parse_args args'' (with_batch_size n o)
        end
      else if beq arg (C "--sort")
      then
        match args' with
        | [] => None
        | value :: args'' => if beq value (C "wallclock") then parse_args args'' (with_wallclock o) else None
        end
      else if beq arg (C "--sort=wallclock") then parse_args args' (with_wallclock o)
      else None
  end.
Definition batch_args (args : list bytes) : option BatchOptions :=
  parse_args args (mkBatchOptions false 50 RECORDER_ORDER_RECORDED []).

Section batch.
Context `{F : FlatCC} `{QS : CLib}.
Context (fuel : nat).

(** ** Output *)
Definition entry_line (e : RecorderEntry) : bytes :=
  print_u64 (re_realtime_ts e) ++ C " " ++ re_group e ++ C ":" ++ print_u64 (re_segment_seq e) ++ C ":"
  ++ print_u64 (re_frame_offset e) ++ C ":" ++ print_u64 (re_frame_entry_index e) ++ C " "
  ++ default [] (re_message e) ++ [10].

(** ** Waiting *)

(** The store afterwards, and what became of the descriptor: nothing, or events
    to read with whether the watches could be renewed. *)
Record WaitAnswer := mkWaitAnswer {
  wa_fs : ReadFs;
  wa_revents : option (list InotifyRead * bool);
}.
(** Conversion to [int]. *)
Definition s32 (x : Z) : Z := let y := u32 x in if y <? 2147483648 then y else y - 4294967296.
(** The timeout of [poll] in milliseconds; [now] is [None] when the clock fails. *)
Definition wait_timeout_ms (deadline : Z) (now : option Z) : Z :=
  if deadline =? UINT64_MAX then -1
  else
    match now with
    | None => 1000
    | Some current => s32 (u64 ((if current <? deadline then deadline - current else 0) + 999) / 1000)
    end.
Definition wait_for_reader_change (a : WaitAnswer) (s : RecorderPlayer) : RecorderPlayer :=
  match wa_revents a with
  | Some (reads, watches_ok) => if rp_inotify_fd s then (rec_player_process reads watches_ok s).2 else s
  | None => s
  end.

(** ** The loop *)
Record Batch := mkBatch {
  ba_reader : RecorderPlayer;
  ba_cursor : option bytes;
  ba_entries : Z;
  ba_batches : Z;
  ba_resumes : Z;
  ba_rc : Z;
  ba_out : list bytes;                  (* the lines on standard output *)
  ba_stdout : list bool;                (* whether each [fflush] succeeds; then they all do *)
  ba_waits : list WaitAnswer;
}.
Inductive Message :=
  | CannotOpenOrSeek
  | CannotResume
  | CursorUnavailable
  | CannotPrint
  | IterationFailed
  | CannotRescan
  | CannotGetCursor.
#[export] Instance Message_eq_dec : EqDecision Message.
Proof. solve_decision. Defined.
(** [Finished] is the end through the summary, [Failed] a [goto out] with its
    message; the exit status is [ba_rc]. *)
Inductive Round :=
  | GoOn
  | Finished
  | Failed (m : Message)
  | Waiting.
#[export] Instance Round_eq_dec : EqDecision Round.
Proof. solve_decision. Defined.

Definition set_ba_reader (r : RecorderPlayer) (s : Batch) : Batch :=
  mkBatch r (ba_cursor s) (ba_entries s) (ba_batches s) (ba_resumes s) (ba_rc s) (ba_out s) (ba_stdout s) (ba_waits s).
Definition set_ba_cursor (c : option bytes) (s : Batch) : Batch :=
  mkBatch (ba_reader s) c (ba_entries s) (ba_batches s) (ba_resumes s) (ba_rc s) (ba_out s) (ba_stdout s) (ba_waits s).
Definition set_ba_rc (rc : Z) (s : Batch) : Batch :=
  mkBatch (ba_reader s) (ba_cursor s) (ba_entries s) (ba_batches s) (ba_resumes s) rc (ba_out s) (ba_stdout s) (ba_waits s).
Definition count_entry (s : Batch) : Batch :=
  mkBatch (ba_reader s) (ba_cursor s) (u64 (ba_entries s + 1)) (ba_batches s) (ba_resumes s) (ba_rc s) (ba_out s)
    (ba_stdout s) (ba_waits s).
Definition count_batch (s : Batch) : Batch :=
  mkBatch (ba_reader s) (ba_cursor s) (ba_entries s) (u64 (ba_batches s + 1)) (ba_resumes s) (ba_rc s) (ba_out s)
    (ba_stdout s) (ba_waits s).
(** [free(cursor); cursor = NULL; resumes++] *)
Definition resumed (s : Batch) : Batch :=
  mkBatch (ba_reader s) None (ba_entries s) (ba_batches s) (u64 (ba_resumes s + 1)) (ba_rc s) (ba_out s)
    (ba_stdout s) (ba_waits s).

(** A call on the reader; [None] is its failure. *)
Definition on_reader {A} (m : SM RecorderPlayer A) : SM Batch (option A) := λ s w,
  let '(res, reader, w') := m (ba_reader s) w in (Some res, set_ba_reader reader s, w').

(** 0, or -1 with nothing current or when the output fails. *)
Definition print_entry : SM Batch bool := λ s w,
  match rec_player_get_entry (ba_reader s) with
  | None => (Some false, s, w)
  | Some e =>
      (Some (match ba_stdout s with ok :: _ => ok | [] => true end),
       mkBatch (ba_reader s) (ba_cursor s) (ba_entries s) (ba_batches s) (ba_resumes s) (ba_rc s)
         (ba_out s ++ [entry_line e]) (tail (ba_stdout s)) (ba_waits s), w)
  end.

(** [rc = rec_player_next(reader)] *)
Definition batch_next : SM Batch Z :=
  more ← on_reader (rec_player_next fuel);
  let rc := match more with None => -1 | Some true => 1 | Some false => 0 end in
  _ ← modify (set_ba_rc rc); mret rc.

(** Resuming from the cursor of the last batch. *)
Definition resume_batch (cursor : bytes) : SM Batch Round :=
  sought ← on_reader (rec_player_seek_cursor fuel (Some cursor));
  match sought with
  | None => mret (Failed CannotResume)
  | Some _ =>
      more ← on_reader (rec_player_next fuel);
      s ← get;
      if bool_decide (more = Some true) && bool_decide (rec_player_test_cursor (Some cursor) (ba_reader s) = Some true)
      then _ ← modify resumed; mret GoOn
      else mret (Failed CursorUnavailable)
  end.

(** The entries of one batch, [n] rounds at most. *)
Fixpoint batch_entries (n : nat) (batch_size in_batch : Z) : SM Batch (Z * Round) :=
  match n with
  | O => fail EOTHER
  | S n' =>
      if negb (in_batch <? batch_size) then mret (in_batch, GoOn)
      else
        rc ← batch_next;
        if negb (0 <? rc) then mret (in_batch, GoOn)
        else
          printed ← print_entry;
          if negb printed then mret (in_batch, Failed CannotPrint)
          else _ ← modify count_entry; batch_entries n' batch_size (in_batch + 1)
  end.

(** [wait_for_reader_change]; [false] when there is no answer yet. *)
Definition batch_wait : SM Batch bool := λ s w,
  match ba_waits s with
  | [] => (Some false, s, w)
  | a :: waits =>
      (Some true,
       mkBatch (wait_for_reader_change a (ba_reader s)) (ba_cursor s) (ba_entries s) (ba_batches s) (ba_resumes s)
         (ba_rc s) (ba_out s) (ba_stdout s) waits,
       mkWorld (wa_fs a) (w_errno w))
  end.

(** What follows the entries of a batch. *)
Definition end_batch (o : BatchOptions) (in_batch : Z) : SM Batch Round :=
  s ← get;
  if ba_rc s <? 0 then mret (Failed IterationFailed)
  else if in_batch =? 0
  then
    if negb (bo_follow o) then mret Finished
    else
      waited ← batch_wait;
      if negb waited then mret Waiting
      else
        match ba_cursor s with
        | Some _ => mret GoOn
        | None =>
            sought ← on_reader rec_player_seek_head;
            mret (match sought with Some _ => GoOn | None => Failed CannotRescan end)
        end
  else
    _ ← modify count_batch;
    s ← get;
    let cursor := rec_player_get_cursor (ba_reader s) in
    if (bo_follow o || negb (ba_rc s =? 0)) && negb (bool_decide (is_Some cursor)) then mret (Failed CannotGetCursor)
    else
      _ ← when (bo_follow o || negb (ba_rc s =? 0)) (modify (set_ba_cursor cursor));
      if negb (ba_rc s =? 0) then mret GoOn
      else if negb (bo_follow o) then mret Finished
      else waited ← batch_wait; mret (if waited : bool then GoOn else Waiting).

Definition batch_round (n : nat) (o : BatchOptions) : SM Batch Round :=
  s ← get;
  ready ← (match ba_cursor s with None => mret GoOn | Some cursor => resume_batch cursor end);
  match ready with
  | GoOn =>
      '(in_batch, printed) ← batch_entries n (bo_batch_size o) 0;
      match printed with GoOn => end_batch o in_batch | stop => mret stop end
  | stop => mret stop
  end.

Fixpoint batch_loop (n : nat) (o : BatchOptions) : SM Batch Round :=
  match n with
  | O => fail EOTHER
  | S n' =>
      round ← batch_round (S n') o;
      match round with
      | GoOn => batch_loop n' o
      | Finished => _ ← modify (set_ba_rc 0); mret Finished
      | stop => mret stop
      end
  end.

(** [main] behind its arguments: the exit status is [ba_rc].  [None] when the
    store cannot be opened: the message of [CannotOpenOrSeek] and status 1. *)
Definition batch_main (n : nat) (o : BatchOptions) (inotify_ok watches_ok : bool) (stdout : list bool) (waits : list WaitAnswer)
    (w : World) : option (option Round * Batch) :=
  reader ← rec_player_open (w_fs w) (bo_path o) inotify_ok watches_ok;
  let s := mkBatch (rec_player_set_order (bo_order o) reader) None 0 0 0 1 [] stdout waits in
  let '(res, s', _) :=
    (sought ← on_reader rec_player_seek_head;
     match sought with None => mret (Failed CannotOpenOrSeek) | Some _ => batch_loop n o end) s w in
  Some (res, s').
End batch.
