(* ===== verification/BatchProofs.v ===== *)
(** * Reading in batches is reading

    Resuming from the cursor of the entry that was just returned puts the reader
    back into the state it was in, so the batch reader prints what plain reading
    delivers, whatever the size of its batches. *)
From S2P Require Import Prelude Bytes Crypto Segment Chunk Index CText Player PlayerCursor PlayerFollow PlayerSource PlayerIter PlayerViews PlayerIterProofs BatchReader.

(** ** Calls that leave the state alone *)
Section keeps.
Context {S : Type}.
Definition keeps {A} (m : SM S A) : Prop := ∀ s w, (m s w).1.2 = s.
Lemma keeps_ret {A} (a : A) : keeps (mret a).
Proof. done. Qed.
Lemma keeps_fail {A} e : keeps (fail (A := A) e).
Proof. done. Qed.
Lemma keeps_lift {A} (x : Res A) : keeps (lift x).
Proof. by destruct x. Qed.
Lemma keeps_get_fs : keeps get_fs.
Proof. done. Qed.
Lemma keeps_bind {A B} (m : SM S A) (f : A → SM S B) : keeps m → (∀ a, keeps (f a)) → keeps (m ≫= f).
Proof.
  intros Hm Hf s w. unfold mbind, SM_bind. specialize (Hm s w). destruct (m s w) as [[[a|] s'] w']; cbn in Hm; subst; [apply Hf|done].
Qed.
Lemma keeps_attempt {A} (m : SM S A) : keeps m → keeps (attempt m).
Proof. intros Hm s w. unfold attempt. specialize (Hm s w). by destruct (m s w) as [[? ?] ?]. Qed.
End keeps.
Ltac keeping := repeat (intros; first
  [ apply keeps_bind | apply keeps_attempt | apply keeps_lift | apply keeps_fail | apply keeps_ret | apply keeps_get_fs
  | match goal with |- keeps (match ?x with _ => _ end) => destruct x end ]).

Lemma keeps_collect_dir `{F : FlatCC} {S} dir paths : keeps (collect_segment_paths_in_dir (S := S) dir paths).
Proof. unfold collect_segment_paths_in_dir. keeping. Qed.
Lemma keeps_visit `{F : FlatCC} {S} r stat_first visit names : (∀ p l, keeps (visit p l)) → ∀ paths,
  keeps (visit_groups (S := S) r stat_first visit names paths).
Proof.
  intros Hv. induction names as [|name names IH]; intros paths; cbn [visit_groups]; [done|].
  destruct (child_path (rs_path r) name) as [path|]; [|done]. destruct (_ || _); [|done].
  apply keeps_bind; [apply keeps_get_fs|intros fs]. apply keeps_bind; [by apply keeps_attempt, keeps_lift|intros kind].
  destruct (_ && _); [|done]. by apply keeps_bind.
Qed.
Lemma keeps_all_paths `{F : FlatCC} `{QS : CLib} {S} r : keeps (all_segment_paths (S := S) r).
Proof.
  unfold all_segment_paths. apply keeps_bind; [|done].
  destruct (rs_path_is_directory r).
  - unfold collect_segment_paths. apply keeps_bind; [apply keeps_get_fs|intros fs]. apply keeps_bind; [apply keeps_lift|intros names].
    apply keeps_visit. intros. apply keeps_collect_dir.
  - unfold add_reader_file_path. keeping.
Qed.

Section batch.
Context `{F : FlatCC} `{QS : CLib}.
Context (fuel : nat) (r : Settings).

(** ** Reading forward *)
Record quiet (s : RecorderPlayer) : Prop := {
  qt_settings : rp_settings s = r;
  qt_follow : fo_initialized (rp_follow s) = false;
  qt_order : rp_order_changed s = false;
  qt_cursor : rp_cursor_pending s = false;
  qt_sources_pending : rp_cursor_sources_pending s = false;
  qt_direction : rp_last_direction s = Some FORWARD;
}.
(** On the entry that the merge picks. *)
Record standing (s : RecorderPlayer) (e : StoredEntry) : Prop := {
  st_quiet : quiet s;
  st_valid : rp_current_valid s = true;
  st_pick : pick_loop (rs_order r) FORWARD 0 (rp_sources s) None = Some (rp_current_source s, e);
  st_source : ∃ src, zlookup (rp_sources s) (rp_current_source s) = Some src ∧ source_current src = Some e ∧
                     rp_current_entry_ptr s = Some (InSource (rp_current_source s) (is_entry_index src));
}.
Lemma standing_entry s e : standing s e → current_entry s = Some e.
Proof.
  intros [_ Hv _ (src & Hsrc & He & Hp)]. unfold current_entry. rewrite Hv, Hp. cbn. by rewrite Hsrc.
Qed.

Lemma pick_loop_current order : ∀ sources i result j e,
  pick_loop order FORWARD i sources result = Some (j, e) → result = Some (j, e) ∨ (i <= j < i + zlen sources).
Proof.
  induction sources as [|src sources IH]; intros i result j e; cbn [pick_loop]; [by left|].
  intros [Hr|Hr]%IH; rewrite zlen_cons; [|right; lia]. pose proof (zlen_nonneg sources).
  destruct (source_current src) as [x|]; [|by left].
  destruct result as [[k y]|]; [destruct (toward _ _); [|by left]|]; injection Hr as <- <-; right; lia.
Qed.

(** The picked entry is the current one of its source. *)
Lemma pick_loop_source order : ∀ sources i result j e,
  pick_loop order FORWARD i sources result = Some (j, e) →
  result = Some (j, e) ∨ ∃ k src, j = i + Z.of_nat k ∧ sources !! k = Some src ∧ source_current src = Some e.
Proof.
  induction sources as [|src sources IH]; intros i result j e; cbn [pick_loop]; [by left|].
  intros [Hr|(k & s & -> & Hk & Hs)]%IH.
  2:{ right. exists (S k), s. split; [lia|done]. }
  destruct (source_current src) as [x|] eqn:Hx; [|by left].
  assert (Hhere : Some (i, x) = Some (j, e) → ∃ k s, j = i + Z.of_nat k ∧ (src :: sources) !! k = Some s ∧ source_current s = Some e).
  { intros [= <- <-]. exists O, src. split; [lia|done]. }
  destruct result as [[k y]|]; [destruct (toward _ _); [|by left]|]; right; by apply Hhere.
Qed.

Lemma select_pick_quiet s w : quiet s →
  match pick_loop (rs_order r) FORWARD 0 (rp_sources s) None with
  | Some (i, e) =>
      ∃ src, zlookup (rp_sources s) i = Some src ∧ source_current src = Some e ∧
        let s' := (set_last_direction (Some FORWARD) ∘ set_current_entry (Some (InSource i (is_entry_index src))) ∘ set_current_source i) s in
        select_pick FORWARD (s ← get; if fo_initialized (rp_follow s) then iterator_next_follow_entry else mret false) s w
          = (Some true, s', w) ∧ standing s' e
  | None =>
      select_pick FORWARD (s ← get; if fo_initialized (rp_follow s) then iterator_next_follow_entry else mret false) s w
        = (Some false, set_current_entry None s, w)
  end.
Proof.
  intros Hq. unfold select_pick, iterator_pick. rewrite !bind_assoc, bind_get, bind_ret, (qt_settings _ Hq).
  destruct (pick_loop (rs_order r) FORWARD 0 (rp_sources s) None) as [[i e]|] eqn:Hp; cbn [fmap option_fmap option_map fst].
  - destruct (pick_loop_source _ _ _ _ _ _ Hp) as [?|(k & src & Hk & Hs & He)]; [done|]. rewrite Z.add_0_l in Hk. subst i.
    exists src. rewrite (zlookup_Some _ _ _ Hs). split; [done|]. split; [done|]. unfold source_at.
    rewrite !bind_assoc, bind_get, (zlookup_Some _ _ _ Hs), bind_ret, bind_modify. split; [done|].
    split; [destruct Hq; by split|done|done|]. exists src. split; [exact (zlookup_Some _ _ _ Hs)|done].
  - rewrite bind_modify, bind_get. cbn [rp_follow set_current_entry]. by rewrite (qt_follow _ Hq).
Qed.

Lemma next_quiet s w b s1 w1 : quiet s → rec_player_next fuel s w = (Some b, s1, w1) →
  quiet s1 ∧ if b then ∃ e, standing s1 e else True.
Proof.
  intros Hq. unfold rec_player_next. rewrite bind_get, (qt_follow _ Hq). cbn [andb].
  rewrite (qt_cursor _ Hq), (qt_order _ Hq), (qt_sources_pending _ Hq), (qt_direction _ Hq). cbn [andb].
  rewrite bool_decide_false by done. rewrite bool_decide_true by done. cbn [andb negb].
  assert (Hsel : ∀ s0 w0, quiet s0 → select_pick FORWARD (s ← get; if fo_initialized (rp_follow s) then iterator_next_follow_entry else mret false) s0 w0
                            = (Some b, s1, w1) → quiet s1 ∧ if b then ∃ e, standing s1 e else True).
  { intros s0 w0 Hq0 Hrun. pose proof (select_pick_quiet s0 w0 Hq0) as Hs.
    destruct (pick_loop (rs_order r) FORWARD 0 (rp_sources s0) None) as [[i e]|].
    - destruct Hs as (src & _ & _ & Hrun' & Hst). rewrite Hrun in Hrun'. simplify_eq.
      split; [apply (st_quiet _ _ Hst)|]. by exists e.
    - rewrite Hrun in Hs. simplify_eq. split; [|done]. destruct Hq0. by split. }
  destruct (rp_current_valid s); [|rewrite bind_ret; by apply Hsel].
  unfold advance_current. rewrite !bind_assoc, bind_get, !bind_assoc. unfold on_source, mbind at 1, SM_bind.
  destruct (zlookup (rp_sources s) (rp_current_source s)) as [src|]; [|done].
  destruct (source_advance fuel (rp_settings s) FORWARD src w) as [[[b0|] src'] w'] eqn:Ha; [|done].
  refine (Hsel _ w' _). destruct Hq. by split.
Qed.

(** A step on one source changes nothing else. *)
Definition only_sources {A} (m : SM RecorderPlayer A) : Prop := ∀ s w, (m s w).1.2 = set_sources (rp_sources (m s w).1.2) s.
Lemma only_sources_each n : ∀ i (f : Z → SM RecorderPlayer unit), (∀ i, only_sources (f i)) → only_sources (each_source_from i n f).
Proof.
  induction n as [|n IH]; intros i f Hf s w; cbn [each_source_from]; [by destruct s|].
  unfold mbind, SM_bind. specialize (Hf i s w) as Hi. destruct (f i s w) as [[[[]|] s1] w1]; cbn in Hi |- *; [|done].
  rewrite (IH (i + 1) f Hf s1 w1). rewrite Hi. by destruct (each_source_from (i + 1) n f _ w1) as [[? ?] ?].
Qed.
Lemma only_sources_on {A} i (m : SM IteratorSource A) : only_sources (_ ← on_source i m; mret tt).
Proof.
  intros s w. unfold mbind, SM_bind, on_source. destruct (zlookup (rp_sources s) i) as [src|]; [|by destruct s].
  by destruct (m src w) as [[[a|] src'] w'].
Qed.

Lemma initialize_shape s w s1 w1 :
  rp_settings s = r → iterator_initialize FORWARD s w = (Some tt, s1, w1) →
  ∃ sources, s1 = set_last_direction (Some FORWARD) (set_sources sources (iterator_reset s)).
Proof.
  intros Hr. unfold iterator_initialize, iterator_collect_sources, settings. sm.
  set (s2 := iterator_reset s). assert (H2 : rp_settings s2 = r) by done. rewrite H2.
  unfold mbind at 1, SM_bind at 1. pose proof (keeps_all_paths r s2 w) as Hk.
  destruct (all_segment_paths r s2 w) as [[[paths|] s3] w3]; [|done]. cbn in Hk. subst s3.
  destruct (group_sources r paths []) as [sources|]; [|done]. sm.
  set (s4 := set_sources sources s2). assert (H4 : rp_settings s4 = r) by done. rewrite H4.
  unfold attempt, each_source. unfold mbind at 1, SM_bind at 1. rewrite bind_get.
  pose proof (only_sources_each (length (rp_sources s4)) 0 _ (λ i, only_sources_on i (source_position_edge r FORWARD)) s4 w3) as Ho.
  destruct (each_source_from 0 (length (rp_sources s4)) _ s4 w3) as [[[[]|] s5] w5]; [|done]. cbn in Ho.
  intros [= <- <-]. exists (rp_sources s5). rewrite Ho. done.
Qed.
Lemma seek_head_quiet s w s1 w1 : rp_settings s = r → rec_player_seek_head s w = (Some tt, s1, w1) → quiet s1.
Proof.
  intros Hr. unfold rec_player_seek_head. sm. unfold mbind at 1, SM_bind at 1.
  destruct (iterator_initialize FORWARD (clear_entries s) w) as [[[[]|] s2] w2] eqn:Hi; [|done].
  destruct (initialize_shape (clear_entries s) w s2 w2 Hr Hi) as [sources ->]. intros [= <- <-]. by split.
Qed.
Lemma only_sources_bare {A} i (m : SM IteratorSource A) : only_sources (on_source i m).
Proof.
  intros s w. unfold on_source. destruct (zlookup (rp_sources s) i) as [src|]; [|by destruct s].
  by destruct (m src w) as [[[a|] src'] w'].
Qed.
Lemma seek_realtime_quiet usec s w s1 w1 :
  rp_settings s = r → rec_player_seek_realtime_usec fuel usec s w = (Some tt, s1, w1) → quiet s1.
Proof.
  intros Hr. unfold rec_player_seek_realtime_usec, iterator_seek_realtime, settings. rewrite bind_modify, !bind_assoc.
  unfold mbind at 1, SM_bind at 1.
  destruct (iterator_initialize FORWARD (clear_entries s) w) as [[[[]|] s2] w2] eqn:Hi; [|done].
  destruct (initialize_shape (clear_entries s) w s2 w2 Hr Hi) as [sources ->]. rewrite !bind_assoc, bind_get, bind_ret, !bind_assoc.
  set (s3 := set_last_direction _ _). unfold each_source. rewrite !bind_assoc, bind_get. unfold mbind at 1, SM_bind at 1.
  pose proof (only_sources_each (length (rp_sources s3)) 0 _ (λ i, only_sources_bare i (source_seek_realtime fuel (rp_settings s3) usec)) s3 w2) as Ho.
  destruct (each_source_from 0 (length (rp_sources s3)) _ s3 w2) as [[[[]|] s5] w5]; [|done]. cbn in Ho.
  intros [= <- <-]. rewrite Ho. by split.
Qed.

(** ** Resuming from the entry just returned *)
Lemma resume_restores s e store w :
  standing s e → rs_store_id r = Some store → is_u64 store → key_ok (key_of e) →
  ∃ cursor s2,
    rec_player_get_cursor s = Some cursor ∧
    rec_player_seek_cursor fuel (Some cursor) s w = (Some tt, s2, w) ∧
    rec_player_next fuel s2 w = (Some true, s, w) ∧
    rec_player_test_cursor (Some cursor) s = Some true.
Proof.
  intros Hst Hid Hu Hk. pose proof (standing_entry _ _ Hst) as Hcur. pose proof Hst as [Hq Hv Hpick (src & Hsrc & Hse & Hptr)].
  pose proof (qt_settings _ Hq) as Hset. exists (format_cursor store (key_of e)).
  exists ((set_current_entry None ∘ set_cursor_sources_pending false ∘ set_cursor_pending true) s). split_and!.
  - unfold rec_player_get_cursor. rewrite Hcur, Hset, Hid. cbn. by rewrite (proj1 Hk : valid_group_name (re_group e) = true).
  - unfold rec_player_seek_cursor, settings. sm. rewrite Hset, Hid, cursor_text_parses, Z.eqb_refl by done. cbn [negb]. sm.
    rewrite Hcur. cbn [fmap option_fmap option_map]. by rewrite bool_decide_true.
  - set (s2 := (set_current_entry None ∘ _ ∘ _) s). assert (Hf2 : fo_initialized (rp_follow s2) = false) by apply (qt_follow _ Hq).
    assert (Hc2 : rp_cursor_pending s2 = true) by done. unfold rec_player_next. rewrite bind_get, Hf2, Hc2. cbn [andb]. sm.
    set (s3 := (set_last_direction (Some FORWARD) ∘ set_cursor_pending false) s2).
    assert (Hq3 : quiet s3) by (destruct Hq; by split). pose proof (select_pick_quiet s3 w Hq3) as Hsel.
    change (rp_sources s3) with (rp_sources s) in Hsel. rewrite Hpick in Hsel. destruct Hsel as (src' & Hsrc' & _ & Hrun & _).
    rewrite Hsrc in Hsrc'. injection Hsrc' as <-. rewrite Hrun. do 2 f_equal. destruct Hq as [_ _ _ H1 H2 H3].
    unfold s3, s2. destruct s; cbn in *. subst. done.
  - unfold rec_player_test_cursor. rewrite Hcur, Hset, Hid, cursor_text_parses, Z.eqb_refl by done. by rewrite bool_decide_true.
Qed.

(** ** One call at a time *)
Lemma read_step n reader w out sr wr :
  quiet reader → read_entries fuel n reader w = (Some out, sr, wr) →
  match out with
  | [] => rec_player_next fuel reader w = (Some false, sr, wr)
  | e :: rest => ∃ n' reader1 w1, rec_player_next fuel reader w = (Some true, reader1, w1) ∧ standing reader1 e ∧
                   read_entries fuel n' reader1 w1 = (Some rest, sr, wr)
  end.
Proof.
  intros Hq. destruct n as [|n]; [done|]. cbn [read_entries]. unfold mbind at 1, SM_bind at 1.
  destruct (rec_player_next fuel reader w) as [[[b|] s1] w1] eqn:Hnext; [|done].
  destruct (next_quiet _ _ _ _ _ Hq Hnext) as [_ Hb]. destruct b; [|by intros [= <- <- <-]].
  destruct Hb as [e He]. rewrite bind_get. unfold rec_player_get_entry. rewrite (standing_entry _ _ He).
  unfold mbind, SM_bind. destruct (read_entries fuel n s1 w1) as [[[rest|] s2] w2] eqn:Hrest; [|done].
  intros [= <- <- <-]. by exists n, s1, w1.
Qed.

(** The state after the entries [es]. *)
Definition after (s : Batch) (es : list RecorderEntry) (rc : Z) (reader : RecorderPlayer) : Batch :=
  mkBatch reader (ba_cursor s) (u64 (ba_entries s + zlen es)) (ba_batches s) (ba_resumes s) rc
    (ba_out s ++ map entry_line es) [] (ba_waits s).
Record printing (s : Batch) : Prop := {
  pr_quiet : quiet (ba_reader s);
  pr_stdout : ba_stdout s = [];
  pr_entries : is_u64 (ba_entries s);
}.
Lemma u64_add a b c : u64 (u64 (a + b) + c) = u64 (a + (b + c)).
Proof. unfold u64. by rewrite Zplus_mod_idemp_l, Z.add_assoc. Qed.
Lemma after_nil s reader : printing s → reader = ba_reader s → after s [] (ba_rc s) reader = s.
Proof.
  intros [_ H1 H2] ->. unfold after. cbn [map]. rewrite app_nil_r. change (zlen (A:=RecorderEntry) []) with 0. rewrite Z.add_0_r, u64_id by done.
  rewrite <- H1. by destruct s.
Qed.
Lemma after_cons s e es rc reader1 reader :
  after (after s [e] 1 reader1) es rc reader = after s (e :: es) rc reader.
Proof.
  unfold after. cbn [ba_cursor ba_entries ba_batches ba_resumes ba_out ba_waits map].
  rewrite u64_add, <- app_assoc, !zlen_cons. done.
Qed.

Lemma batch_next_run s w b reader w1 :
  rec_player_next fuel (ba_reader s) w = (Some b, reader, w1) →
  batch_next fuel s w = (Some (if b then 1 else 0), set_ba_rc (if b then 1 else 0) (set_ba_reader reader s), w1).
Proof. intros Hrun. unfold batch_next, on_reader, mbind, SM_bind. by rewrite Hrun. Qed.

Lemma batch_entries_step m bs k s w e reader w1 :
  printing s → k < bs → rec_player_next fuel (ba_reader s) w = (Some true, reader, w1) → standing reader e →
  batch_entries fuel (S m) bs k s w = batch_entries fuel m bs (k + 1) (after s [e] 1 reader) w1 ∧
  printing (after s [e] 1 reader).
Proof.
  intros [Hq Ho He] Hk Hrun Hst. split; [|split; [apply (st_quiet _ _ Hst)|done|apply u64_range]].
  cbn [batch_entries]. rewrite (proj2 (Z.ltb_lt k bs) Hk). cbn [negb].
  rewrite (bind_some _ _ _ _ _ _ _ (batch_next_run _ _ _ _ _ Hrun)). cbn [negb Z.ltb Z.compare].
  set (s1 := set_ba_rc 1 (set_ba_reader reader s)).
  assert (Hp : print_entry s1 w1 = (Some true, mkBatch reader (ba_cursor s) (ba_entries s) (ba_batches s) (ba_resumes s) 1
                 (ba_out s ++ [entry_line e]) [] (ba_waits s), w1)).
  { unfold print_entry, rec_player_get_entry. cbn [ba_reader s1 set_ba_rc set_ba_reader]. rewrite (standing_entry _ _ Hst).
    cbn [ba_stdout s1 set_ba_rc set_ba_reader]. rewrite Ho. done. }
  rewrite (bind_some _ _ _ _ _ _ _ Hp). cbn [negb]. sm. done.
Qed.

(** A batch that the reader ends, and one that is full. *)
Lemma batch_ends : ∀ out m n bs k s w sr wr,
  printing s → read_entries fuel n (ba_reader s) w = (Some out, sr, wr) → (length out < m)%nat → k + zlen out < bs →
  batch_entries fuel m bs k s w = (Some (k + zlen out, GoOn), after s out 0 sr, wr).
Proof.
  induction out as [|e out IH]; intros m n bs k s w sr wr Hp Hread Hm Hk; (destruct m as [|m]; [cbn in Hm; lia|]);
    pose proof (read_step _ _ _ _ _ _ (pr_quiet _ Hp) Hread) as Hstep.
  - change (zlen (A:=RecorderEntry) []) with 0 in *. cbn [batch_entries]. rewrite (proj2 (Z.ltb_lt k bs)) by lia. cbn [negb].
    rewrite (bind_some _ _ _ _ _ _ _ (batch_next_run _ _ _ _ _ Hstep)). cbn [negb Z.ltb Z.compare].
    rewrite Z.add_0_r. do 2 f_equal. destruct Hp as [_ Ho He]. unfold after, set_ba_rc, set_ba_reader.
    cbn [ba_reader ba_cursor ba_entries ba_batches ba_resumes ba_out ba_stdout ba_waits map].
    change (zlen (A:=RecorderEntry) []) with 0. by rewrite Z.add_0_r, u64_id, app_nil_r, Ho.
  - destruct Hstep as (n' & reader1 & w1 & Hrun & Hst & Hrest). rewrite zlen_cons in *. pose proof (zlen_nonneg out).
    destruct (batch_entries_step m bs k s w e reader1 w1 Hp ltac:(lia) Hrun Hst) as [-> Hp1].
    rewrite (IH m n' bs (k + 1) _ w1 sr wr Hp1 Hrest) by (cbn in Hm; lia).
    rewrite after_cons. by replace (k + 1 + zlen out) with (k + (1 + zlen out)) by lia.
Qed.
Lemma batch_fills : ∀ es rest m n bs k s w sr wr,
  printing s → read_entries fuel n (ba_reader s) w = (Some (es ++ rest), sr, wr) → (length es < m)%nat → k + zlen es = bs →
  ∃ n' reader w', batch_entries fuel m bs k s w = (Some (bs, GoOn), after s es (if es then ba_rc s else 1) reader, w') ∧
    read_entries fuel n' reader w' = (Some rest, sr, wr) ∧
    match last es with None => reader = ba_reader s | Some e => standing reader e end.
Proof.
  induction es as [|e es IH]; intros rest m n bs k s w sr wr Hp Hread Hm Hk; (destruct m as [|m]; [cbn in Hm; lia|]).
  - change (zlen (A:=RecorderEntry) []) with 0 in *. exists n, (ba_reader s), w. cbn [batch_entries]. rewrite (proj2 (Z.ltb_ge k bs)) by lia. cbn [negb].
    rewrite after_nil by done. rewrite Z.add_0_r in Hk. by subst.
  - pose proof (read_step _ _ _ _ _ _ (pr_quiet _ Hp) Hread) as Hstep. cbn [app] in Hstep.
    destruct Hstep as (n1 & reader1 & w1 & Hrun & Hst & Hrest). rewrite zlen_cons in *. pose proof (zlen_nonneg es).
    destruct (batch_entries_step m bs k s w e reader1 w1 Hp ltac:(lia) Hrun Hst) as [-> Hp1].
    destruct (IH rest m n1 bs (k + 1) _ w1 sr wr Hp1 Hrest) as (n' & reader & w' & -> & Hread' & Hlast); [cbn in Hm; lia|lia|].
    exists n', reader, w'. rewrite after_cons. split; [by destruct es|]. split; [done|].
    rewrite last_cons. destruct (last es); [done|by subst].
Qed.

(** ** Rounds *)
Lemma end_batch_last o k s w :
  bo_follow o = false → ba_rc s = 0 → end_batch o k s w = (Some Finished, if k =? 0 then s else count_batch s, w).
Proof.
  intros Hf Hrc. unfold end_batch. rewrite bind_get, Hrc, Hf. cbn [Z.ltb Z.compare negb orb andb Z.eqb].
  destruct (k =? 0); [done|]. sm.
  change (ba_rc (count_batch s)) with (ba_rc s). by rewrite Hrc.
Qed.
Lemma end_batch_full o k s w c :
  bo_follow o = false → ba_rc s = 1 → k ≠ 0 → rec_player_get_cursor (ba_reader s) = Some c →
  end_batch o k s w = (Some GoOn, set_ba_cursor (Some c) (count_batch s), w).
Proof.
  intros Hf Hrc Hk Hc. unfold end_batch. rewrite bind_get, Hrc, Hf. apply Z.eqb_neq in Hk. rewrite Hk. cbn [Z.ltb Z.compare].
  sm. change (ba_reader (count_batch s)) with (ba_reader s). change (ba_rc (count_batch s)) with (ba_rc s).
  rewrite Hc, Hrc. cbn [negb orb andb Z.eqb]. rewrite bool_decide_true by done. cbn [negb when]. by sm.
Qed.

Context (store : Z) (Hid : rs_store_id r = Some store) (Hu : is_u64 store).

(** Between rounds: nothing to resume, or the cursor of the current entry. *)
Definition at_cursor (s : Batch) : Prop :=
  ba_cursor s = None ∨
  ∃ e, standing (ba_reader s) e ∧ key_ok (key_of e) ∧ ba_cursor s = rec_player_get_cursor (ba_reader s).
Definition to_resume (s : Batch) : Z := match ba_cursor s with Some _ => 1 | None => 0 end.
Definition readied (s : Batch) : Batch :=
  mkBatch (ba_reader s) None (ba_entries s) (ba_batches s) (u64 (ba_resumes s + to_resume s)) (ba_rc s) (ba_out s)
    (ba_stdout s) (ba_waits s).
Lemma batch_ready s w :
  at_cursor s → is_u64 (ba_resumes s) →
  (match ba_cursor s with None => mret GoOn | Some cursor => resume_batch fuel cursor end : SM Batch Round) s w
    = (Some GoOn, readied s, w).
Proof.
  intros Hat Hn. unfold readied, to_resume. destruct Hat as [Hc|(e & Hst & Hk & Hc)].
  - rewrite Hc, Z.add_0_r, u64_id by done. by destruct s; cbn in *; subst.
  - destruct (resume_restores (ba_reader s) e store w Hst Hid Hu Hk) as (c & reader & Hget & Hseek & Hnext & Htest).
    rewrite Hc, Hget. unfold resume_batch, on_reader, mbind, SM_bind. rewrite Hseek. cbn [set_ba_reader ba_reader].
    rewrite Hnext. unfold get. cbn [set_ba_reader ba_reader]. rewrite Htest. by rewrite !bool_decide_true.
Qed.

(** The loop ends with everything printed, and with these counts. *)
Record summary (s : Batch) (out : list bytes) (entries batches resumes : Z) : Prop := {
  sum_out : ba_out s = out;
  sum_rc : ba_rc s = 0;
  sum_entries : ba_entries s = u64 entries;
  sum_batches : ba_batches s = u64 batches;
  sum_resumes : ba_resumes s = u64 resumes;
}.
Lemma batches_from o : ∀ m n out s w sr wr,
  bo_follow o = false → 1 <= bo_batch_size o → printing s → at_cursor s → is_u64 (ba_batches s) → is_u64 (ba_resumes s) →
  read_entries fuel n (ba_reader s) w = (Some out, sr, wr) → Forall (λ e, key_ok (key_of e)) out → (length out < m)%nat →
  ∃ s' w', batch_loop fuel m o s w = (Some Finished, s', w') ∧
    summary s' (ba_out s ++ map entry_line out) (ba_entries s + zlen out)
      (ba_batches s + (zlen out + bo_batch_size o - 1) / bo_batch_size o)
      (ba_resumes s + to_resume s + zlen out / bo_batch_size o).
Proof.
  set (bs := bo_batch_size o).
  induction m as [|m IH]; intros n out s w sr wr Hf Hbs Hp Hat Hb Hr Hread Hk Hm; [lia|].
  assert (Hp1 : printing (readied s)) by (destruct Hp; by split).
  cbn [batch_loop]. unfold batch_round. rewrite !bind_assoc, bind_get, !bind_assoc.
  rewrite (bind_some _ _ _ _ _ _ _ (batch_ready s w Hat Hr)), bind_assoc.
  destruct (Z.lt_ge_cases (zlen out) bs) as [Hlt|Hge].
  - rewrite (bind_some _ _ _ _ _ _ _ (batch_ends out (S m) n bs 0 (readied s) w sr wr Hp1 Hread Hm Hlt)). cbn beta iota.
    rewrite (bind_some _ _ _ _ _ _ _ (end_batch_last o _ (after (readied s) out 0 sr) wr Hf eq_refl)). cbn beta iota. sm. rewrite Z.add_0_l.
    do 2 eexists. split; [reflexivity|]. pose proof (zlen_nonneg out). rewrite (Z.div_small (zlen out)) by lia.
    destruct (Z.eqb_spec (zlen out) 0) as [Hz|Hz].
    + rewrite Hz, Z.add_0_l, (Z.div_small (bs - 1)), !Z.add_0_r by lia. split; try done; cbn; [by rewrite Hz, Z.add_0_r|by rewrite u64_id].
    + replace ((zlen out + bs - 1) / bs) with 1; [rewrite Z.add_0_r; by split|].
      apply (Z.div_unique_pos _ _ _ (zlen out - 1)); lia.
  - pose proof (take_drop (Z.to_nat bs) out) as Hsplit. set (es := take (Z.to_nat bs) out) in *. set (rest := drop (Z.to_nat bs) out) in *.
    assert (Hes : zlen es = bs) by (unfold es, zlen in *; rewrite length_take; lia). clearbody es rest.
    rewrite <- Hsplit in Hread, Hk. pose proof (f_equal length Hsplit) as Hlen. rewrite length_app in Hlen.
    destruct (batch_fills es rest (S m) n bs 0 (readied s) w sr wr Hp1 Hread) as (n' & reader & w' & Hrun & Hread' & Hlast);
      [lia|lia|]. rewrite (bind_some _ _ _ _ _ _ _ Hrun). cbn beta iota.
    apply Forall_app in Hk as [Hkes Hkrest]. destruct (last es) as [e|] eqn:Hle.
    2:{ apply last_None in Hle. rewrite Hle in Hes. unfold zlen in Hes. cbn [length Z.of_nat] in Hes. lia. }
    assert (Hke : key_ok (key_of e)).
    { apply last_Some in Hle as [es' Hes']. rewrite Hes', Forall_app, Forall_singleton in Hkes. apply Hkes. }
    destruct (resume_restores reader e store w' Hlast Hid Hu Hke) as (c & _ & Hget & _).
    replace (if es then ba_rc (readied s) else 1) with 1 by (destruct es; [unfold zlen in Hes; cbn [length Z.of_nat] in Hes; lia|done]).
    rewrite (bind_some _ _ _ _ _ _ _ (end_batch_full o bs (after (readied s) es 1 reader) w' c Hf eq_refl ltac:(lia) Hget)). cbn beta iota.
    destruct (IH n' rest (set_ba_cursor (Some c) (count_batch (after (readied s) es 1 reader))) w' sr wr) as (s' & w2 & Hloop & Hsum);
      try done; [split; [apply (st_quiet _ _ Hlast)|done|apply u64_range]|right; exists e; by split_and!|apply u64_range|apply u64_range|
                 unfold zlen in *; lia|].
    exists s', w2. split; [exact Hloop|]. destruct Hsum as [H1 H2 H3 H4 H5]. rewrite <- Hsplit, zlen_app, Hes, map_app, app_assoc.
    replace (bs + zlen rest + bs - 1) with (zlen rest + bs - 1 + 1 * bs) by lia.
    replace (bs + zlen rest) with (zlen rest + 1 * bs) at 2 by lia. rewrite !Z.div_add by lia.
    split; [exact H1|exact H2|rewrite H3|rewrite H4|rewrite H5].
    + change (u64 (u64 (ba_entries s + zlen es) + zlen rest) = u64 (ba_entries s + (bs + zlen rest))). by rewrite u64_add, Hes.
    + change (u64 (u64 (ba_batches s + 1) + (zlen rest + bs - 1) / bs) = u64 (ba_batches s + ((zlen rest + bs - 1) / bs + 1))).
      rewrite u64_add. f_equal. lia.
    + change (u64 (u64 (ba_resumes s + to_resume s) + 1 + zlen rest / bs) = u64 (ba_resumes s + to_resume s + (zlen rest / bs + 1))).
      rewrite <- Z.add_assoc, u64_add. f_equal. lia.
Qed.
End batch.

(** ** The program *)
Lemma parse_args_size args : ∀ o o', 1 <= bo_batch_size o → parse_args args o = Some o' → 1 <= bo_batch_size o'.
Proof.
  induction args as [args IH] using (induction_ltof1 _ length); unfold ltof in IH; intros o o' Ho.
  destruct args as [|arg args]; [done|]. cbn [parse_args].
  destruct (negb _); [by destruct args; [intros [= <-]|]|].
  destruct (beq arg (C "-f")); [apply IH; [cbn; lia|done]|].
  destruct (beq arg (C "-b")).
  { destruct args as [|value args]; [done|]. intros (size & Hsize & Hrest)%bind_Some. refine (IH args _ _ _ _ Hrest); [cbn; lia|].
    unfold batch_size_arg in Hsize. pose proof (strtoull_range value) as Hr. destruct (strtoull10 value) as [[v rest] erange].
    destruct (_ || _) eqn:Hb; [done|]. injection Hsize as <-. rewrite !orb_false_iff, Z.eqb_neq in Hb. destruct Hr. cbn in *. lia. }
  destruct (beq arg (C "--sort")).
  { destruct args as [|value args]; [done|]. destruct (beq value _); [|done]. apply IH; [cbn; lia|done]. }
  destruct (beq arg _); [|done]. apply IH; [cbn; lia|done].
Qed.
Lemma batch_args_size args o : batch_args args = Some o → 1 <= bo_batch_size o.
Proof. apply parse_args_size. cbn. lia. Qed.

(** C14: the batch reader prints what reading delivers.  If [seek_head] and then
    [next] until it returns 0 deliver the entries [out], then the program called
    with any batch size and without -f prints exactly one line per entry of
    [out], in that order, and ends with status 0: closing a batch with the
    cursor of its last entry and resuming there loses nothing and repeats
    nothing.  Its summary counts the entries, the batches and the resumes. *)
Theorem batches_print_all `{F : FlatCC} `{QS : CLib} fuel args o inotify_ok watches_ok waits w reader store n out sr wr m :
  batch_args args = Some o → bo_follow o = false →
  rec_player_open (w_fs w) (bo_path o) inotify_ok watches_ok = Some reader →
  rs_store_id (rp_settings reader) = Some store →
  (_ ← rec_player_seek_head; read_entries fuel n) (rec_player_set_order (bo_order o) reader) w = (Some out, sr, wr) →
  Forall (λ e, key_ok (key_of e)) out → (length out < m)%nat →
  ∃ s', batch_main fuel m o inotify_ok watches_ok [] waits w = Some (Some Finished, s') ∧
    ba_out s' = map entry_line out ∧ ba_rc s' = 0 ∧ ba_entries s' = u64 (zlen out) ∧
    ba_batches s' = u64 ((zlen out + bo_batch_size o - 1) / bo_batch_size o) ∧
    ba_resumes s' = u64 (zlen out / bo_batch_size o).
Proof.
  intros Hargs Hf Hopen Hid Hread Hk Hm. pose proof (batch_args_size _ _ Hargs) as Hbs.
  set (reader0 := rec_player_set_order (bo_order o) reader) in *.
  assert (Hid0 : rs_store_id (rp_settings reader0) = Some store).
  { unfold reader0, rec_player_set_order. by case_bool_decide. }
  assert (Hu : is_u64 store).
  { unfold rec_player_open in Hopen. destruct (rd_stat _ _) as [kind|]; [|done]. injection Hopen as <-. exact (load_store_id_range _ _ _ _ Hid). }
  unfold mbind at 1, SM_bind at 1 in Hread. destruct (rec_player_seek_head reader0 w) as [[[[]|] s1] w1] eqn:Hseek; [|done].
  pose proof (seek_head_quiet _ reader0 w s1 w1 eq_refl Hseek) as Hq.
  set (s0 := mkBatch reader0 None 0 0 0 1 [] [] waits).
  destruct (batches_from fuel _ store Hid0 Hu o m n out (set_ba_reader s1 s0) w1 sr wr Hf Hbs) as (s' & w' & Hloop & Hsum);
    [by split|by left|done|done|done|done|done|].
  exists s'. unfold batch_main. rewrite Hopen. cbn [mbind option_bind].
  unfold on_reader at 1, mbind at 1, SM_bind at 1. fold reader0. cbn [ba_reader]. rewrite Hseek. fold s0. rewrite Hloop.
  split; [done|]. by destruct Hsum.
Qed.
