(* ===== verification/PlayerDemo.v ===== *)
(** * A small store read

    A store of two groups, one segment with an index and two without: the
    hypotheses of the reader's properties hold together, and what some of its
    operations do in cases their descriptions leave out. *)
From S2P Require Import Prelude Bytes Crypto Segment SegmentImage SegmentScan SegmentWrite Models SegmentSpec SegmentSafety Chunk ChunkModel Index IndexProofs IndexSearch CText Player PlayerCursor PlayerFollow PlayerSource PlayerIter PlayerOrder PlayerViews PlayerIterProofs PlayerSegments PlayerMerge PlayerHeap PlayerMergeProofs BatchReader BatchProofs.

#[local] Existing Instance toy_lib.
#[local] Existing Instance toy_flatcc.
#[local] Existing Instance toy_flatcc_ok.

(** ** Sorting by insertion *)
Fixpoint insert_by {A} (cmp : A → A → comparison) (x : A) (l : list A) : list A :=
  match l with
  | [] => [x]
  | y :: l' => match cmp x y with Gt => y :: insert_by cmp x l' | _ => x :: l end
  end.
#[local] Instance toy_clib : CLib := { qsort A cmp l := foldr (insert_by cmp) [] l }.

Lemma insert_by_perm {A} (cmp : A → A → comparison) x l : insert_by cmp x l ≡ₚ x :: l.
Proof.
  induction l as [|y l IH]; [done|]. cbn. destruct (cmp x y); [done|done|]. rewrite IH. apply Permutation_swap.
Qed.
Lemma insert_by_sorted {A} (cmp : A → A → comparison) x l :
  (∀ a b, cmp b a = CompOpp (cmp a b)) → Transitive (le_by cmp) →
  StronglySorted (le_by cmp) l → StronglySorted (le_by cmp) (insert_by cmp x l).
Proof.
  intros Hop Htr. induction 1 as [|y l Hs IH Hall]; cbn; [by repeat constructor|].
  destruct (cmp x y) eqn:Hxy.
  1, 2: assert (Hle : le_by cmp x y) by (unfold le_by; by rewrite Hxy);
    constructor; [by constructor|]; constructor; [done|]; eapply Forall_impl; [exact Hall|]; intros z Hz; by etrans.
  constructor; [done|]. rewrite insert_by_perm. constructor; [|done]. unfold le_by. by rewrite (Hop x y), Hxy.
Qed.
#[local] Instance toy_clib_ok : CLib_ok toy_clib.
Proof.
  split.
  - intros A cmp l. cbn. induction l as [|x l IH]; [done|]. cbn. by rewrite insert_by_perm, IH.
  - intros A cmp l Hop Htr. cbn. induction l as [|x l IH]; cbn; [constructor|]. by apply insert_by_sorted.
Qed.

(** Sortedness by evaluation. *)
Fixpoint sorted_b {A} (cmp : A → A → comparison) (l : list A) : bool :=
  match l with
  | [] => true
  | x :: l' => forallb (λ y, negb (is_gt (cmp x y))) l' && sorted_b cmp l'
  end.
Lemma sorted_b_ok {A} (cmp : A → A → comparison) l : sorted_b cmp l = true → StronglySorted (le_by cmp) l.
Proof.
  induction l as [|x l IH]; cbn; [constructor|]. intros [Hx Hl]%andb_true_iff. constructor; [by apply IH|].
  apply Forall_forall. intros y Hy. rewrite forallb_forall in Hx. specialize (Hx y (proj1 (list_elem_of_In _ _) Hy)).
  unfold le_by. by destruct (cmp x y).
Qed.

(** ** The store *)
Definition numbered_header (seq : Z) : SegmentHeader :=
  let h := demo_header 4 in
  mkSegmentHeader (sh_flags h) seq (sh_boot_seq h) (sh_boot_id h) (sh_timezone h) (sh_first_realtime_ts h)
    (sh_first_monotonic_ts h) (sh_dict_len h).
Definition store_segment (seq : Z) (frames : list (list Z)) : bytes :=
  let '(_, fp1, enc1, _) := segment_write_header demo_file (numbered_header seq) [] None 0 in
  let '(_, fp2, _) := write_frames fp1 enc1 (log_requests frames) in
  f_data (segment_write_footer fp2 demo_footer).2.
Definition store_index (data : bytes) : bytes :=
  match index_rebuild_for_segment (Ok data) (Some demo_file) None with Ok i => i | Err _ => [] end.

Definition hi1 : bytes := store_segment 1 [[10; 40]; [50]].
Definition hi2 : bytes := store_segment 2 [[60]; [90; 80]].
Definition lo1 : bytes := store_segment 1 [[20; 30]; [70]].

(** Files by path, with the directories above them. *)
Definition fs_of (dirs : list (string * list string)) (files : list (string * bytes)) : ReadFs :=
  mkReadFs
    (λ p, match List.find (λ d, beq (C d.1) p) dirs with Some d => Ok (map C d.2) | None => Err ENOENT end)
    (λ p, if existsb (λ d, beq (C d.1) p) dirs then Ok KDir
          else if existsb (λ f, beq (C f.1) p) files then Ok KReg else Err ENOENT)
    (λ _, 8)
    (λ p, match List.find (λ f, beq (C f.1) p) files with Some f => Ok f.2 | None => Err ENOENT end)
    (λ _, None).
Definition demo_dirs : list (string * list string) :=
  [("/s", ["."; ".."; "state"; "hi"; "lo"]%string); ("/s/.", []); ("/s/..", []); ("/s/state", []);
   ("/s/hi", ["2.seg"; "1.idx"; "1.seg"]%string); ("/s/lo", ["1.seg"]%string)]%string.
Definition demo_fs : ReadFs :=
  fs_of demo_dirs [("/s/state/store-id", (C "0000000000000005" ++ [10])%list); ("/s/hi/1.seg", hi1); ("/s/hi/1.idx", store_index hi1); ("/s/hi/2.seg", hi2); ("/s/lo/1.seg", lo1)]%string.
Definition demo_settings (repair : bool) (order : RecorderPlayerOrder) : Settings :=
  mkSettings (C "/s") true (Some 5) None repair false None [] order.
Definition demo_reader (order : RecorderPlayerOrder) : RecorderPlayer :=
  mkRecorderPlayer (demo_settings false order) false (mkFollow [] false false false) [] SIZE_MAX [] 0 None false None false false
    (mkCursorKey [] 0 0 0) false false.
Definition demo_world : World := mkWorld demo_fs EUNSET.
Definition times {S} (x : option (list RecorderEntry) * S * World) : option (list Z) := map re_realtime_ts <$> x.1.1.

(** ** Its groups *)
Abbreviation wallclock := (demo_settings false RECORDER_ORDER_WALLCLOCK).
Definition scan_frames (data : bytes) : list delivery :=
  match segment_scan_path (Ok data) None (Some collect) [] with ScanDone _ _ _ ds => ds | _ => [] end.
Definition seg_path (path : string) (seq : Z) : SegmentPath := mkSegmentPath (C path) seq.
Definition indexed_view (group : string) (data : bytes) : View :=
  Indexed (indexed_entries wallclock (C group) (scan_frames data)).
Definition scanned_view (group : string) (data : bytes) : View :=
  Scanned (qsort compare_stored_entries (concat (map (delivered (C group)) (scan_frames data)))).
Definition demo_hi : GroupView :=
  mkGroupView (C "hi") [seg_path "/s/hi/1.seg" 1; seg_path "/s/hi/2.seg" 2] [indexed_view "hi" hi1; scanned_view "hi" hi2].
Definition demo_lo : GroupView := mkGroupView (C "lo") [seg_path "/s/lo/1.seg" 1] [scanned_view "lo" lo1].
Definition demo_paths : list SegmentPath :=
  [seg_path "/s/hi/1.seg" 1; seg_path "/s/lo/1.seg" 1; seg_path "/s/hi/2.seg" 2].

Lemma demo_clean group path data :
  rd_file demo_fs (C path) = Ok data → all_u8 data = true → zlen data <= UINT32_MAX →
  path_group wallclock (C path) = Some (C group) →
  match segment_scan_path (Ok data) None (Some collect) [] with ScanDone _ _ c _ => c =? zlen data | _ => false end = true →
  clean_segment wallclock demo_fs (C group) (C path) data (scan_frames data).
Proof.
  intros Hf Hok Hsz Hg Hs. split; try done; [by apply all_u8_ok|]. unfold scan_frames.
  change (rs_decryptor wallclock) with (None (A := SegmentDecryptor)).
  destruct (segment_scan_path (Ok data) None (Some collect) []) as [h ft c ds| |]; try done. apply Z.eqb_eq in Hs as ->. by exists h, ft.
Qed.
Ltac by_computing := vm_compute; first [reflexivity|discriminate].
Lemma hi1_clean : clean_segment wallclock demo_fs (C "hi") (C "/s/hi/1.seg") hi1 (scan_frames hi1).
Proof. apply demo_clean; by_computing. Qed.
Lemma hi2_clean : clean_segment wallclock demo_fs (C "hi") (C "/s/hi/2.seg") hi2 (scan_frames hi2).
Proof. apply demo_clean; by_computing. Qed.
Lemma lo1_clean : clean_segment wallclock demo_fs (C "lo") (C "/s/lo/1.seg") lo1 (scan_frames lo1).
Proof. apply demo_clean; by_computing. Qed.

Lemma hi1_index : index_of (store_index hi1) hi1 (scan_frames hi1).
Proof.
  split; [by_computing|]. intros k d Hd. destruct k as [|[|k]]; [vm_compute in Hd..|].
  1, 2: injection Hd as <-; by_computing.
  apply lookup_lt_Some in Hd. vm_compute in Hd. lia.
Qed.

Lemma demo_no_index path data ip0 :
  segment_index_path (C path) PATH_SIZE = Some ip0 → rd_file demo_fs ip0 = Err ENOENT →
  ∀ ip, segment_index_path (C path) PATH_SIZE = Some ip → ∃ e, index_reader_open (rd_file demo_fs ip) (Ok data) = Err e.
Proof. intros H0 Hf ip Hip. rewrite H0 in Hip. injection Hip as <-. rewrite Hf. by exists ENOENT. Qed.

Lemma demo_groups_ok : Forall (group_view_ok wallclock demo_fs) [demo_hi; demo_lo].
Proof.
  constructor; [|constructor; [|constructor]]; (split; [|by_computing]); cbn [gv_group gv_segments gv_views demo_hi demo_lo].
  - constructor; [|constructor; [|constructor]].
    + eapply clean_indexed_view; [exact hi1_clean|exact hi1_index|by_computing|by_computing].
    + eapply clean_scanned_view; [exact hi2_clean|done|]. eapply demo_no_index; by_computing.
  - constructor; [|constructor]. eapply clean_scanned_view; [exact lo1_clean|done|]. eapply demo_no_index; by_computing.
Qed.

Lemma demo_lists : store_lists wallclock demo_fs [demo_hi; demo_lo] demo_paths.
Proof.
  split; [|reflexivity]. intros s [f e]. cbn. intros ->. exists (mkWorld demo_fs e). split; [|done]. reflexivity.
Qed.

Example read_wallclock :
  times ((_ ← rec_player_seek_head; read_entries 5 20) (demo_reader RECORDER_ORDER_WALLCLOCK) demo_world) =
  Some [10; 20; 30; 40; 50; 60; 70; 80; 90].
Proof. vm_compute. reflexivity. Qed.
Example read_recorded :
  times ((_ ← rec_player_seek_head; read_entries 5 20) (demo_reader RECORDER_ORDER_RECORDED) demo_world) =
  Some [10; 20; 30; 40; 50; 60; 70; 80; 90].
Proof. vm_compute. reflexivity. Qed.

(** ** Witnesses *)
Lemma reader_merges_groups_witness :
  ∃ out, times ((_ ← rec_player_seek_head; read_entries 5 20) (demo_reader RECORDER_ORDER_WALLCLOCK) demo_world) = Some (map re_realtime_ts out) ∧
    length out = 9%nat ∧ StronglySorted (le_by compare_stored_entries) out.
Proof.
  destruct (reader_merges_groups 5 wallclock demo_fs [demo_hi; demo_lo] demo_groups_ok
    (demo_reader RECORDER_ORDER_WALLCLOCK) demo_world demo_paths 20) as (out & s' & w' & Hrun & Hperm & _ & Hs).
  - reflexivity.
  - reflexivity.
  - exact demo_lists.
  - lia.
  - vm_compute. lia.
  - exists out. unfold times. rewrite Hrun. split; [reflexivity|]. split; [rewrite Hperm; vm_compute; reflexivity|].
    apply Hs. constructor; [|constructor; [|constructor]]; apply sorted_b_ok; by_computing.
Defined.

Lemma index_reads_like_scan_witness :
  ∃ frames scanned, segment_view wallclock demo_fs (C "hi") (seg_path "/s/hi/1.seg" 1) (Indexed frames) ∧
    length frames = 2%nat ∧ concat frames = scanned ∧
    rec_player_scan_file wallclock demo_fs (C "/s/hi/1.seg") append_source_entry [] 0 = (Ok (zlen hi1), scanned).
Proof.
  destruct (index_reads_like_scan wallclock demo_fs (C "hi") (seg_path "/s/hi/1.seg" 1) hi1 (scan_frames hi1)
    demo_file (store_index hi1) (C "/s/hi/1.idx")) as (frames & scanned & H1 & H2 & H3 & H4).
  - exact hi1_clean.
  - reflexivity.
  - by_computing.
  - by_computing.
  - by_computing.
  - by_computing.
  - exists frames, scanned. split; [exact H1|]. split; [rewrite H2; by_computing|]. split; [exact H4|exact H3].
Defined.

Definition plain_entries (group : string) (data : bytes) : list StoredEntry :=
  concat (map (delivered (C group)) (scan_frames data)).
Lemma scanned_path path seq group data :
  clean_segment wallclock demo_fs (C group) (C path) data (scan_frames data) →
  match segment_scan_path (Ok data) None None tt with
  | ScanDone h ft c _ => negb (sh_first_realtime_ts h =? 0) && negb (must_sort h ft) && (c =? zlen data)
  | _ => false
  end = true →
  (∀ ip, segment_index_path (C path) PATH_SIZE = Some ip → ∃ e, index_reader_open (rd_file demo_fs ip) (Ok data) = Err e) →
  wallclock_path wallclock demo_fs (seg_path path seq) (plain_entries group data)
    (qsort compare_stored_entries (plain_entries group data)).
Proof.
  intros Hc Hs Hno. destruct (segment_scan_path (Ok data) None None tt) as [h ft c []| |] eqn:Hscan; try done.
  apply andb_true_iff in Hs as [[H0 Hm]%andb_true_iff Hz]. apply Z.eqb_eq in Hz as ->.
  exists (C group), data, (scan_frames data), h, ft. split; [exact Hc|]. split; [exact Hscan|].
  split; [by apply negb_true_iff, Z.eqb_neq in H0|]. split; [done|]. apply negb_true_iff in Hm. rewrite Hm. right. done.
Qed.

Lemma hi1_path :
  wallclock_path wallclock demo_fs (seg_path "/s/hi/1.seg" 1) (plain_entries "hi" hi1)
    (concat (indexed_entries wallclock (C "hi") (scan_frames hi1))).
Proof.
  destruct (segment_scan_path (Ok hi1) None None tt) as [h ft c []| |] eqn:Hscan; [|vm_compute in Hscan; discriminate..].
  exists (C "hi"), hi1, (scan_frames hi1), h, ft. split; [exact hi1_clean|].
  assert (Hb : match segment_scan_path (Ok hi1) None None tt with
    | ScanDone h ft c _ => negb (sh_first_realtime_ts h =? 0) && negb (must_sort h ft) && (c =? zlen hi1)
    | _ => false end = true) by by_computing.
  rewrite Hscan in Hb. apply andb_true_iff in Hb as [[H0 Hm]%andb_true_iff Hz]. apply Z.eqb_eq in Hz as ->.
  split; [exact Hscan|]. split; [by apply negb_true_iff, Z.eqb_neq in H0|]. split; [done|].
  apply negb_true_iff in Hm. rewrite Hm. left. exists (C "/s/hi/1.idx"), (store_index hi1).
  split; [by_computing|]. split; [by_computing|]. split; [exact hi1_index|done].
Qed.

Lemma demo_lists_paths : lists_paths wallclock demo_fs demo_paths.
Proof. intros S s [f e]. cbn. intros ->. exists (mkWorld demo_fs e). split; [|done]. reflexivity. Qed.

Lemma wallclock_scan_merges_witness :
  ∃ out, (rec_player_scan_wallclock 20 5 wallclock append_source_entry [] demo_world).1.1 = Some tt ∧
    (rec_player_scan_wallclock 20 5 wallclock append_source_entry [] demo_world).1.2 = out ∧
    length out = 9%nat ∧ StronglySorted (le_by compare_stored_entries) out.
Proof.
  destruct (wallclock_scan_merges 5 wallclock demo_fs ltac:(lia) append_source_entry (λ _ _, eq_refl) [] demo_world demo_paths
    [plain_entries "hi" hi1; plain_entries "lo" lo1; plain_entries "hi" hi2]
    [concat (indexed_entries wallclock (C "hi") (scan_frames hi1));
     qsort compare_stored_entries (plain_entries "lo" lo1); qsort compare_stored_entries (plain_entries "hi" hi2)] 20)
    as (out & w' & Hrun & Hperm & _ & _ & Hs).
  - reflexivity.
  - exact demo_lists_paths.
  - constructor; [exact hi1_path|]. constructor; [|constructor; [|constructor]];
      [eapply scanned_path; [exact lo1_clean|by_computing|eapply demo_no_index; by_computing]
      |eapply scanned_path; [exact hi2_clean|by_computing|eapply demo_no_index; by_computing]].
  - vm_compute. lia.
  - exists out. rewrite Hrun. split; [reflexivity|].
    assert (Hfold : ∀ l acc, fold_left (λ t e, (append_source_entry e t).2) l acc = acc ++ l).
    { induction l as [|e l IH]; intros acc; cbn; [by rewrite app_nil_r|]. by rewrite IH, <- app_assoc. }
    split; [by rewrite Hfold|]. split; [rewrite Hperm; vm_compute; reflexivity|].
    apply Hs. constructor; [|constructor; [|constructor; [|constructor]]]; apply sorted_b_ok; by_computing.
Defined.

(** ** Cases that the descriptions leave out *)
Fixpoint nexts (n : nat) : SM RecorderPlayer bool :=
  match n with O => mret true | S n' => _ ← nexts n'; rec_player_next 5 end.
Definition current_time : SM RecorderPlayer (option Z) := s ← get; mret (re_realtime_ts <$> rec_player_get_entry s).
Definition answer {S A} (x : option A * S * World) : option A := x.1.1.

(** Seeking a time no segment without an index reaches leaves that group on the
    first entry of its last segment. *)
Lemma seek_realtime_goes_before :
  times ((_ ← rec_player_seek_realtime_usec 5 100; read_entries 5 20) (demo_reader RECORDER_ORDER_WALLCLOCK) demo_world) =
    Some [20; 30; 60; 70; 80; 90].
Proof. vm_compute. reflexivity. Qed.

(** The step back from the last entry, 90, skips 60, 70 and 80: the seek behind
    an entry has the same gap. *)
Lemma previous_skips :
  answer ((_ ← rec_player_seek_head; _ ← nexts 9; last ← current_time; _ ← rec_player_previous 5; before ← current_time;
           mret (last, before)) (demo_reader RECORDER_ORDER_RECORDED) demo_world) = Some (Some 90, Some 50).
Proof. vm_compute. reflexivity. Qed.

(** After [previous], seeking the current entry's own cursor keeps the positions
    of the way back: [next] returns another entry. *)
Lemma cursor_after_previous :
  answer ((_ ← rec_player_seek_head; _ ← nexts 5; _ ← rec_player_previous 5; here ← current_time; s ← get;
           _ ← rec_player_seek_cursor 5 (rec_player_get_cursor s); _ ← rec_player_next 5; there ← current_time;
           mret (here, there)) (demo_reader RECORDER_ORDER_WALLCLOCK) demo_world) = Some (Some 40, Some 30).
Proof. vm_compute. reflexivity. Qed.

(** A change of the order right behind a cursor: [next] fails, and the one after
    it starts at the head. *)
Lemma order_after_cursor :
  answer ((_ ← rec_player_seek_head; _ ← nexts 5; s ← get; _ ← modify iterator_reset;
           _ ← rec_player_seek_cursor 5 (rec_player_get_cursor s); _ ← rec_player_next 5; here ← current_time;
           _ ← modify (rec_player_set_order RECORDER_ORDER_WALLCLOCK); more ← attempt (rec_player_next 5);
           _ ← rec_player_next 5; there ← current_time; mret (here, more, there))
          (demo_reader RECORDER_ORDER_RECORDED) demo_world) = Some (Some 50, None, Some 10).
Proof. vm_compute. reflexivity. Qed.

(** ** In batches of two *)
Definition batch_command : list bytes := [C "-b"; C "2"; C "/s"]%string.
Definition demo_options : BatchOptions := mkBatchOptions false 2 RECORDER_ORDER_RECORDED (C "/s").
Definition opened_reader : RecorderPlayer := default (demo_reader RECORDER_ORDER_RECORDED) (rec_player_open demo_fs (C "/s") false false).
Abbreviation plain_read := ((_ ← rec_player_seek_head; read_entries 5 20) (rec_player_set_order (bo_order demo_options) opened_reader) demo_world).
Definition plain_out : list RecorderEntry := default [] plain_read.1.1.
Definition key_okb (k : CursorKey) : bool :=
  valid_group_name (ck_group k) && (zlen (ck_group k) <? GROUP_SIZE)
  && forallb (λ x, (0 <=? x) && (x <? 18446744073709551616)) [ck_segment_seq k; ck_frame_offset k]
  && (0 <=? ck_frame_entry_index k) && (ck_frame_entry_index k <? 4294967296).
Lemma key_okb_ok k : key_okb k = true → key_ok k.
Proof.
  unfold key_okb. cbn [forallb]. rewrite !andb_true_iff, !Z.leb_le, !Z.ltb_lt. unfold key_ok, is_u64, is_u32. tauto.
Qed.

Lemma demo_opens : rec_player_open demo_fs (C "/s") false false = Some opened_reader.
Proof.
  assert (H : match rec_player_open demo_fs (C "/s") false false with Some _ => true | None => false end = true) by by_computing.
  unfold opened_reader. by destruct (rec_player_open demo_fs (C "/s") false false).
Qed.
Lemma demo_store_id : rs_store_id (rp_settings opened_reader) = Some 5.
Proof. by_computing. Qed.
Lemma plain_read_result : ∃ reader w, plain_read = (Some plain_out, reader, w).
Proof.
  assert (H : plain_read.1.1 = Some plain_out) by by_computing.
  destruct plain_read as [[out reader] w]. change (out = Some plain_out) in H. rewrite H. by exists reader, w.
Qed.
Lemma plain_keys : Forall (λ e, key_ok (key_of e)) plain_out.
Proof.
  assert (Hall : forallb (λ e, key_okb (key_of e)) plain_out = true) by by_computing.
  rewrite forallb_forall in Hall. apply Forall_forall. intros e He. apply key_okb_ok.
  exact (Hall e (proj1 (list_elem_of_In _ _) He)).
Qed.
Lemma plain_length : length plain_out = 9%nat.
Proof. by_computing. Qed.

Lemma batches_print_all_witness :
  batch_args batch_command = Some demo_options ∧
  ∃ s', batch_main 5 10 demo_options false false [] [] demo_world = Some (Some Finished, s') ∧
    length (ba_out s') = 9%nat ∧ ba_batches s' = 5 ∧ ba_resumes s' = 4.
Proof.
  split; [by_computing|]. destruct plain_read_result as (sr & wr & Hread).
  destruct (batches_print_all 5 batch_command demo_options false false [] demo_world opened_reader 5 20 plain_out sr wr 10)
    as (s' & Hrun & Hprinted & _ & _ & Hbatches & Hresumes);
    [by_computing|reflexivity|exact demo_opens|exact demo_store_id|exact Hread|exact plain_keys|rewrite plain_length; lia|].
  exists s'. split; [exact Hrun|]. rewrite Hprinted, length_map, Hbatches, Hresumes. unfold zlen. rewrite plain_length.
  split; [reflexivity|]. split; by_computing.
Defined.

(** With -f the program stops once it has read everything, with status 0: at the
    end of the store no entry is current, so there is no cursor to print. *)
Lemma follow_stops_at_end :
  match batch_main 5 10 (mkBatchOptions true 50 RECORDER_ORDER_RECORDED (C "/s")) false false [] [] demo_world with
  | Some (res, s) => bool_decide (res = Some (Failed CannotGetCursor)) && (ba_rc s =? 0) && (zlen (ba_out s) =? 9)
  | None => false
  end = true.
Proof. by_computing. Qed.
