(* ===== verification/ReadBackDemo.v ===== *)
(** * A recorded segment, read by the library

    The two entries that the recorder of RecorderDemo stored in a segment, in the
    file that it closed; and the file that the recorder of IntakeDemo is still
    writing after a round. *)
From S2P Require Import Prelude Bytes Crypto Segment SegmentSpec Models Chunk ChunkModel Index CText Entry Store Json Boots Config ConfigProofs Modifiers Fallback Retention Writer WriterProofs Recorder RecorderProofs RecorderDemo Intake IntakeProofs IntakeRounds IntakeDemo Player PlayerSource PlayerDemo ReadBack.

#[local] Existing Instance toy_openssl.
#[local] Existing Instance toy_openssl_ok.
#[local] Existing Instance toy_lib.
#[local] Existing Instance toy_flatcc.
#[local] Existing Instance toy_flatcc_ok.
#[local] Existing Instance toy_regex.
#[local] Existing Instance toy_jansson.
#[local] Existing Instance toy_writer.
#[local] Existing Instance toy_writer_ok.
#[local] Existing Instance toy_match.

Definition recorded_fs (data : bytes) : ReadFs := fs_of [("/s", ["rest"]%string); ("/s/rest", ["1.seg"]%string)]%string [("/s/rest/1.seg", data)]%string.
Definition store_reader : Settings := mkSettings (C "/s") true None None false false None [] RECORDER_ORDER_RECORDED.
Lemma recorded_entries_read_back_witness :
  let data := f_data (wf_fp (pw_file demo_closed.2)) in
  ∃ out, rec_player_scan_file store_reader (recorded_fs data) (C "/s/rest/1.seg") append_source_entry [] 0 = (Ok (zlen data), out) ∧
    map re_message out = [Some (C "first"); Some (C "second")] ∧ map re_realtime_ts out = [5000; 4700].
Proof.
  assert (Hr : demo_closed.1 = Ok tt) by (vm_compute; reflexivity).
  assert (Hmax : zlen (f_data (wf_fp (pw_file demo_closed.2))) <= UINT32_MAX) by (vm_compute; congruence).
  assert (Hno : no_footer_inside (f_data (wf_fp (pw_file demo_closed.2))))
    by (apply no_footer_inside_check; vm_compute; reflexivity).
  assert (Hd : opens (wf_encryptor (pw_file (writer3 demo_r2))) None) by (vm_compute; exact I).
  destruct demo_closed as [res w'] eqn:E. cbn [fst snd] in *. subst res.
  assert (Hne : [demo_e1; demo_e2] ≠ []) by discriminate. assert (Hrs : is_u32 7) by (unfold is_u32; lia).
  pose proof demo_holds as Hw. generalize dependent (writer3 demo_r2). intros w E Hd Hw.
  destruct (recorded_entries_read_back (W := toy_writer) _ _ _ _ _ _ store_reader (recorded_fs (f_data (wf_fp (pw_file w')))) (C "/s/rest/1.seg") (C "rest")
    Hw Hne Hrs E Hd Hmax Hno) as (out & Hscan & Hout).
  - reflexivity.
  - reflexivity.
  - reflexivity.
  - exists out. split; [exact Hscan|]. apply Forall2_cons_inv_l in Hout as (x1 & l1 & [Hs1 _ Hm1 _ _ _ _ _] & H1 & ->).
    apply Forall2_cons_inv_l in H1 as (x2 & l2 & [Hs2 _ Hm2 _ _ _ _ _] & H2 & ->). apply Forall2_nil_inv_l in H2 as ->.
    cbn [map]. rewrite Hm1, Hm2. injection Hs1 as -> _ _. injection Hs2 as -> _ _. split; reflexivity.
Defined.

Definition no_footer_in_b (data : bytes) : bool :=
  forallb (λ o, match footer_at (zdrop (Z.of_nat o) data) (zlen data - Z.of_nat o) with None => true | Some _ => false end)
    (seq 0 (length data)).
Lemma no_footer_in_check data : no_footer_in_b data = true → no_footer_in data.
Proof.
  unfold no_footer_in_b, no_footer_in. rewrite forallb_forall. intros H o [Ho Hlt].
  specialize (H (Z.to_nat o)). rewrite Z2Nat.id in H by done. destruct (footer_at _ _); [|done].
  discriminate H. apply in_seq. unfold zlen in Hlt. lia.
Qed.

(** After one round the group "urgent" has an entry in its open segment; the
    recorder flushes again. *)
Definition flush_again (it : Intake) : Res unit * Intake := flush_and_checkpoint (replicate 2 (good_flush, Ok tt)) (good_cursor "s=3") demo_clock it.
Definition urgent_data : bytes :=
  Eval vm_compute in
    match r_writers (it_recorder (flush_again (main_round (good_round "s=3") (intake_start three)).1.2).2) !! 0%nat with
    | Some w => f_data (wf_fp (pw_file w)) | None => []
    end.
Definition urgent_file (it : Intake) : bool :=
  bool_decide (length (r_writers (it_recorder it)) = 2%nat) &&
  match flush_again it with
  | (Ok _, it2) =>
      match r_writers (it_recorder it2) !! 0%nat with Some w => bool_decide (f_data (wf_fp (pw_file w)) = urgent_data) | None => false end
  | _ => false
  end.
Lemma after_round :
  ∃ it gs g es, intake_ok None it gs ∧ gs !! 0%nat = Some g ∧ gl_open g = Some es ∧ urgent_file it = true.
Proof.
  destruct (main_round (good_round "s=3") (intake_start three)) as [[ok it'] jobs] eqn:Hr.
  assert (Hok : (ok, option_map pw_open (r_writers (it_recorder it') !! 0%nat), urgent_file it') = (true, Some true, true)).
  { transitivity (let '(ok, it', _) := main_round (good_round "s=3") (intake_start three) in
      (ok, option_map pw_open (r_writers (it_recorder it') !! 0%nat), urgent_file it')); [by rewrite Hr|by vm_compute]. }
  injection Hok as -> Hopen Hfile.
  destruct (round_effect None (good_round "s=3") (intake_start three) it' jobs idle_logs Hr (intake_start_ok three)) as (gs' & Hres & _).
  - cbn. unfold UINT16_MAX. lia.
  - apply three_fine.
  - apply demo_clock_ok.
  - destruct intake_init_facts as [_ Hw]. cbn [it_recorder intake_start]. rewrite Hw. reflexivity.
  - unfold first_attempts. computed.
  - pose proof (rr_ok _ _ _ _ _ _ Hres) as Hio. pose proof Hio as [_ _ _ Hrep].
    destruct (r_writers (it_recorder it') !! 0%nat) as [w|] eqn:Hw; [|done]. injection Hopen as Hopen.
    destruct (Forall2_lookup_l _ _ _ _ _ Hrep Hw) as (g & Hg & Hgr). destruct Hgr as [_ Ho].
    clear Hr Hres. destruct (gl_open g) as [es|] eqn:He; [|destruct Ho as [Ho _]; rewrite Hopen in Ho; discriminate Ho].
    exists it', gs', g, es. split; [exact Hio|]. split; [exact Hg|]. split; [exact He|exact Hfile].
Qed.

Definition urgent_fs : ReadFs := recorded_fs urgent_data.
Abbreviation urgent_read := (rec_player_scan_file store_reader urgent_fs (C "/s/rest/1.seg") append_source_entry [] 0).
Lemma flushed_entries_visible_witness :
  ∃ es out, urgent_read = (Ok (zlen urgent_data), out) ∧ map re_message out = map le_message es ∧
    map re_message out = [Some (C "panic")].
Proof.
  destruct after_round as (it & gs & g & es & Hok & Hg & Hes & Hfile).
  assert (Hn : map re_message urgent_read.2 = [Some (C "panic")]) by by vm_compute.
  assert (Hmax : zlen urgent_data <= UINT32_MAX) by (vm_compute; congruence).
  assert (Hno : no_footer_in urgent_data) by (apply no_footer_in_check; by vm_compute).
  unfold urgent_file in Hfile. apply andb_true_iff in Hfile as [Hlen%bool_decide_eq_true Hfile].
  destruct (flush_again it) as [[[]|] it2] eqn:Hf; [|discriminate Hfile].
  destruct (r_writers (it_recorder it2) !! 0%nat) as [w|] eqn:Hlook; [|discriminate Hfile]. apply bool_decide_eq_true in Hfile.
  rewrite <- Hfile in Hmax, Hno. unfold flush_again in Hf.
  destruct (flushed_entries_visible (W := toy_writer) _ _ _ _ _ gs 0 w g es store_reader urgent_fs
    (C "/s/rest/1.seg") (C "rest") Hf Hok ltac:(rewrite Hlen; reflexivity) Hlook Hg Hes Hmax Hno) as (out & Hscan & Hout).
  - rewrite Hfile. reflexivity.
  - reflexivity.
  - reflexivity.
  - exists es, out. rewrite Hfile in Hscan. split; [exact Hscan|]. split.
    + clear -Hout. induction Hout as [|e x es out Hx _ IH]; [reflexivity|]. cbn [map]. f_equal; [apply (sw_message _ _ _ _ _ Hx)|exact IH].
    + transitivity (map re_message urgent_read.2); [|exact Hn]. apply (f_equal (map re_message)). symmetry. exact (f_equal snd Hscan).
Defined.
