(* ===== verification/Dirs.v ===== *)
(** * Creating directories (src/src/helper.c)

    [mkdir_p] over a small model of what the system does: a tree of directories
    and other files, and the call mkdir, which resolves a path name by name. *)
From S2P Require Import Prelude Bytes.

(** ** The tree and the call mkdir *)
Inductive Node := Directory | NotDirectory.

(** What each path, a list of names from the root, leads to; the root itself is
    always a directory. *)
Abbreviation Tree := (gmap (list bytes) Node).
Definition node_at (t : Tree) (p : list bytes) : option Node :=
  match p with [] => Some Directory | _ => t !! p end.

(** The names of a path: what lies between its slashes, without empty pieces. *)
Fixpoint pieces (current s : bytes) : list bytes :=
  match s with
  | [] => [current]
  | c :: s' => if c =? 47 then current :: pieces [] s' else pieces (current ++ [c]) s'
  end.
Definition names_of (path : bytes) : list bytes := List.filter (λ c, negb (zlen c =? 0)) (pieces [] path).

Fixpoint walk (t : Tree) (at_ : list bytes) (names : list bytes) : Res (list bytes) :=
  match names with
  | [] => Ok at_
  | c :: names' =>
      if beq c (C ".") then walk t at_ names'
      else if beq c (C "..") then walk t (removelast at_) names'
      else match node_at t (at_ ++ [c]) with
           | Some Directory => walk t (at_ ++ [c]) names'
           | Some NotDirectory => Err EOTHER
           | None => Err ENOENT
           end
  end.

Inductive Mkdir :=
  | Made (t : Tree)
  | Exists_                    (* EEXIST *)
  | Failed (e : Errno).

Section mkdir.
(** The working directory, and why the system refuses to make a directory
    (permissions, space, the length of a name). *)
Variables (cwd : list bytes) (deny : list bytes → option Errno).

Definition mkdir (t : Tree) (path : bytes) : Mkdir :=
  match path with
  | [] => Failed ENOENT
  | first :: _ =>
      match rev (names_of path) with
      | [] => Exists_
      | name :: parents =>
          match walk t (if first =? 47 then [] else cwd) (rev parents) with
          | Err e => Failed e
          | Ok parent =>
              if beq name (C ".") || beq name (C "..") then Exists_
              else
                match node_at t (parent ++ [name]) with
                | Some _ => Exists_
                | None => match deny (parent ++ [name]) with
                          | Some e => Failed e
                          | None => Made (<[parent ++ [name] := Directory]> t)
                          end
                end
          end
      end
  end.

(** ** [mkdir_p]

    What stands before each slash behind the first character. *)
Fixpoint slash_prefixes (before s : bytes) : list bytes :=
  match s with
  | [] => []
  | c :: s' => if c =? 47 then before :: slash_prefixes (before ++ [c]) s' else slash_prefixes (before ++ [c]) s'
  end.
Fixpoint make_all (paths : list bytes) (t : Tree) : Res unit * Tree :=
  match paths with
  | [] => (Ok tt, t)
  | path :: paths' =>
      match mkdir t path with
      | Made t' => make_all paths' t'
      | Exists_ => make_all paths' t
      | Failed e => (Err e, t)
      end
  end.

(** [None]: of an empty path the function looks at [tmp[-1]]. *)
Definition mkdir_p (path : bytes) (t : Tree) : option (Res unit * Tree) :=
  let tmp := ztake 511 path in
  if zlen tmp =? 0 then None
  else
    let tmp := match last tmp with Some c => if c =? 47 then ztake (zlen tmp - 1) tmp else tmp | None => tmp end in
    Some (make_all (match tmp with [] => [] | c :: s => slash_prefixes [c] s end ++ [tmp]) t).

(** ** Paths of plain names *)
Definition plain (c : bytes) : Prop := c ≠ [] ∧ Forall (λ b, b ≠ 47) c ∧ c ≠ C "." ∧ c ≠ C "..".
Definition slashed (names : list bytes) : bytes := concat (map (λ c, 47 :: c) names).

Lemma slashed_snoc names c : slashed (names ++ [c]) = slashed names ++ 47 :: c.
Proof. unfold slashed. rewrite map_app, concat_app. cbn. by rewrite app_nil_r. Qed.

Lemma pieces_app c : ∀ current s, Forall (λ b, b ≠ 47) c → pieces current (c ++ s) = pieces (current ++ c) s.
Proof.
  induction c as [|b c IH]; intros current s Hc; [by rewrite app_nil_r|]. apply Forall_cons in Hc as [Hb Hc].
  cbn [app pieces]. destruct (Z.eqb_spec b 47); [done|]. rewrite IH by done. by rewrite <- app_assoc.
Qed.
Lemma pieces_slashed names : ∀ current, Forall plain names → pieces current (slashed names) = current :: names.
Proof.
  induction names as [|c names IH]; intros current Hn; [done|]. apply Forall_cons in Hn as [Hc Hn].
  change (slashed (c :: names)) with (47 :: c ++ slashed names). cbn [pieces]. rewrite Z.eqb_refl.
  rewrite pieces_app by apply Hc. cbn [app]. by rewrite IH.
Qed.
Lemma names_slashed names : Forall plain names → names_of (slashed names) = names.
Proof.
  intros Hn. unfold names_of. rewrite pieces_slashed by done. cbn [List.filter]. change (zlen [] =? 0) with true. cbn [negb].
  induction Hn as [|c names [Hc _] _ IH]; [done|]. cbn [List.filter]. destruct (Z.eqb_spec (zlen c) 0).
  - destruct c; [done|]. rewrite zlen_cons in *. pose proof (zlen_nonneg c). lia.
  - cbn [negb]. by f_equal.
Qed.

Lemma slash_prefixes_app c : ∀ before s, Forall (λ b, b ≠ 47) c → slash_prefixes before (c ++ s) = slash_prefixes (before ++ c) s.
Proof.
  induction c as [|b c IH]; intros before s Hc; [by rewrite app_nil_r|]. apply Forall_cons in Hc as [Hb Hc].
  cbn [app slash_prefixes]. destruct (Z.eqb_spec b 47); [done|]. rewrite IH by done. by rewrite <- app_assoc.
Qed.

(** The paths that are made: the prefixes behind [done_], shortest first. *)
Fixpoint stages (done_ rest : list bytes) : list (list bytes) :=
  match rest with [] => [] | c :: rest' => (done_ ++ [c]) :: stages (done_ ++ [c]) rest' end.
Lemma prefixes_stages rest : ∀ done_ c, Forall plain rest →
  slash_prefixes (slashed (done_ ++ [c])) (slashed rest) ++ [slashed (done_ ++ [c]) ++ slashed rest]
  = slashed (done_ ++ [c]) :: map slashed (stages (done_ ++ [c]) rest).
Proof.
  induction rest as [|b rest IH]; intros done_ c Hr; [cbn; by rewrite app_nil_r|]. apply Forall_cons in Hr as [Hb Hr].
  change (slashed (b :: rest)) with (47 :: b ++ slashed rest). cbn [slash_prefixes]. rewrite Z.eqb_refl.
  rewrite slash_prefixes_app by apply Hb. cbn [app stages map]. f_equal.
  rewrite <- (app_assoc (slashed (done_ ++ [c])) [47] b).
  change ([47] ++ b) with (47 :: b). rewrite <- (slashed_snoc (done_ ++ [c]) b), <- IH by done.
  by rewrite (slashed_snoc (done_ ++ [c]) b), <- app_assoc.
Qed.

Lemma prefixes_all names : Forall plain names → names ≠ [] →
  match slashed names with [] => [] | c :: s => slash_prefixes [c] s end ++ [slashed names] = map slashed (stages [] names).
Proof.
  intros Hn Hne. destruct names as [|c names]; [done|]. apply Forall_cons in Hn as [Hc Hn].
  change (slashed (c :: names)) with (47 :: c ++ slashed names). cbn [app].
  rewrite slash_prefixes_app by apply Hc. cbn [stages map app].
  pose proof (prefixes_stages names [] c Hn) as H. cbn [app] in H. assert (Hs : slashed [c] = 47 :: c) by (unfold slashed; cbn; by rewrite app_nil_r).
  rewrite Hs in *. exact H.
Qed.

(** ** What the calls leave *)
Lemma walk_directories t names : ∀ at_, Forall plain names →
  (∀ q r, q ++ r = names → node_at t (at_ ++ q) = Some Directory) → walk t at_ names = Ok (at_ ++ names).
Proof.
  induction names as [|c names IH]; intros at_ Hn Hd; cbn [walk]; [by rewrite app_nil_r|]. apply Forall_cons in Hn as [Hc Hn].
  destruct Hc as (_ & _ & H1 & H2). rewrite (proj2 (beq_false c _) H1), (proj2 (beq_false c _) H2), (Hd [c] names) by done.
  rewrite IH; [by rewrite <- app_assoc|done|]. intros q r Hq. rewrite <- app_assoc. apply (Hd ([c] ++ q) r). cbn. by rewrite Hq.
Qed.

Lemma mkdir_stage t names c : Forall plain (names ++ [c]) → (∀ q r, q ++ r = names → node_at t q = Some Directory) →
  mkdir t (slashed (names ++ [c])) =
  match t !! (names ++ [c]) with
  | Some _ => Exists_
  | None => match deny (names ++ [c]) with Some e => Failed e | None => Made (<[names ++ [c] := Directory]> t) end
  end.
Proof.
  intros Hn Hd. pose proof Hn as [Hns [Hc _]%Forall_cons]%Forall_app. unfold mkdir.
  assert (Hne : ∃ s, slashed (names ++ [c]) = 47 :: s) by (destruct names; by eexists).
  rewrite names_slashed, rev_unit by done. destruct Hne as [s ->]. rewrite Z.eqb_refl, rev_involutive.
  rewrite (walk_directories t names []) by done. cbn [app]. destruct Hc as (_ & _ & H1 & H2).
  rewrite (proj2 (beq_false c _) H1), (proj2 (beq_false c _) H2). cbn [orb]. unfold node_at. by destruct names.
Qed.

(** [t'] is [t] with the missing prefixes of [names] that are longer than [n]. *)
Definition filled (n : nat) (names : list bytes) (t t' : Tree) : Prop :=
  ∀ q, t' !! q = if bool_decide (q `prefix_of` names ∧ (n < length q)%nat) && bool_decide (t !! q = None) then Some Directory else t !! q.

Lemma prefix_snoc (q p : list bytes) c : q `prefix_of` p ++ [c] → q `prefix_of` p ∨ q = p ++ [c].
Proof.
  intros [r Hr]. destruct r as [|x r _] using rev_ind; [right; by rewrite app_nil_r in Hr|].
  rewrite app_assoc in Hr. apply app_inj_tail in Hr as [-> _]. left. by exists r.
Qed.

(** One call: the tree that is left. *)
Definition with_directory (p : list bytes) (t : Tree) : Tree := match t !! p with Some _ => t | None => <[p := Directory]> t end.
Lemma with_directory_same p t q : q ≠ p → with_directory p t !! q = t !! q.
Proof. intros Hq. unfold with_directory. destruct (t !! p); [done|]. by rewrite lookup_insert_ne. Qed.
Lemma with_directory_there p t : with_directory p t !! p = Some (default Directory (t !! p)).
Proof. unfold with_directory. destruct (t !! p) eqn:H; [by rewrite H|]. apply (lookup_insert_eq). Qed.

Lemma make_stages rest : ∀ done_ t, Forall plain (done_ ++ rest) →
  (rest ≠ [] → ∀ q, q `prefix_of` done_ → node_at t q = Some Directory) →
  (∀ q r, q ++ r = done_ ++ rest → r ≠ [] → t !! q ≠ Some NotDirectory) →
  (∀ q, q `prefix_of` done_ ++ rest → t !! q = None → deny q = None) →
  ∃ t', make_all (map slashed (stages done_ rest)) t = (Ok tt, t') ∧ filled (length done_) (done_ ++ rest) t t'.
Proof.
  induction rest as [|c rest IH]; intros done_ t Hp Hd Hf Hdeny; cbn [stages map make_all].
  { exists t. split; [done|]. intros q. rewrite app_nil_r. case_bool_decide as Hq; [|done].
    destruct Hq as [Hq%prefix_length Hl]. lia. }
  rewrite (cons_middle c done_ rest), (app_assoc done_ [c] rest) in *. set (p := done_ ++ [c]) in *.
  assert (Hpre : p `prefix_of` p ++ rest) by by exists rest. assert (Hne : c :: rest ≠ []) by done.
  assert (Hcall : make_all (slashed p :: map slashed (stages p rest)) t = make_all (map slashed (stages p rest)) (with_directory p t)).
  { cbn [make_all]. unfold p. rewrite mkdir_stage; [|by apply Forall_app in Hp as []|intros q r Hq; apply (Hd Hne); by exists r].
    fold p. unfold with_directory. destruct (t !! p) eqn:Hn; [done|]. by rewrite (Hdeny p Hpre Hn). }
  cbn [make_all] in Hcall. rewrite Hcall. destruct (IH p (with_directory p t)) as (t' & Hm & Hfill).
  - done.
  - intros Hr q [Hq| ->]%prefix_snoc.
    + specialize (Hd Hne q Hq). destruct q as [|x q]; [done|]. cbn [node_at] in *. rewrite with_directory_same; [done|].
      intros Hqp. rewrite Hqp in Hq. apply prefix_length in Hq. unfold p in Hq. rewrite length_app in Hq. cbn in Hq. lia.
    + fold p. assert (Hpn : p ≠ []) by (unfold p; by destruct done_). destruct p as [|x p'] eqn:Hpe; [done|]. cbn [node_at].
      rewrite with_directory_there. f_equal. specialize (Hf (x :: p') rest eq_refl Hr). by destruct (t !! _) as [[]|].
  - intros q r Hq Hr. destruct (decide (q = p)) as [->|Hqp].
    + rewrite with_directory_there. specialize (Hf p r Hq Hr). by destruct (t !! p) as [[]|].
    + rewrite with_directory_same by done. by apply (Hf q r).
  - intros q Hq. destruct (decide (q = p)) as [->|Hqp]; [by rewrite with_directory_there|].
    rewrite with_directory_same by done. by apply Hdeny.
  - exists t'. split; [done|]. intros q. rewrite (Hfill q).
    assert (Hlp : length p = S (length done_)) by (unfold p; rewrite length_app; cbn; lia).
    destruct (decide (q = p)) as [->|Hqp].
    + rewrite with_directory_there. rewrite (bool_decide_eq_false_2 (@Some Node _ = None)) by done. rewrite andb_false_r.
      rewrite (bool_decide_eq_true_2 (p `prefix_of` _ ∧ _)); [|split; [done|lia]].
      destruct (t !! p) as [n|] eqn:Ht.
      * by rewrite (bool_decide_eq_false_2 (Some n = None)).
      * by rewrite (bool_decide_eq_true_2 (None = None)).
    + rewrite with_directory_same by done. destruct (t !! q) as [n|] eqn:Ht.
      { rewrite (bool_decide_eq_false_2 (Some n = None)) by done. by rewrite !andb_false_r. }
      erewrite bool_decide_ext; [done|]. split; intros [H1 H2]; split; try done; [lia|].
      destruct (decide (length q = S (length done_))) as [Hl|]; [|lia]. exfalso. apply Hqp.
      assert (Hp' : p `prefix_of` p ++ rest) by done. destruct H1 as [r1 H1]. destruct Hp' as [r2 Hr2].
      assert (Hlen : length q = length p) by lia.
      rewrite H1 in Hr2. by apply app_inj_1 in Hr2 as [-> _].
Qed.

(** Whatever the path and the answers, directories are only added. *)
Lemma mkdir_adds t path t' : mkdir t path = Made t' → t ⊆ t'.
Proof.
  unfold mkdir. destruct path as [|b path]; [done|]. destruct (rev _) as [|name parents]; [done|].
  destruct (walk _ _ _) as [parent|]; [|done]. destruct (_ || _); [done|]. destruct (node_at t (parent ++ [name])) eqn:Hn; [done|].
  destruct (deny _); [done|]. intros [= <-]. apply insert_subseteq. unfold node_at in Hn. by destruct parent.
Qed.
Lemma make_all_adds paths : ∀ t r t', make_all paths t = (r, t') → t ⊆ t'.
Proof.
  induction paths as [|path paths IH]; intros t r t'; cbn [make_all]; [by intros [= _ <-]|].
  destruct (mkdir t path) as [t1| |e] eqn:Hm; [|apply IH|by intros [= _ <-]].
  intros H%IH. apply mkdir_adds in Hm. by etrans.
Qed.
Lemma mkdir_p_adds path t r t' : mkdir_p path t = Some (r, t') → t ⊆ t'.
Proof. unfold mkdir_p. destruct (_ =? 0); [done|]. intros [= H]. by eapply make_all_adds. Qed.

(** C21: what [mkdir_p] makes.  On an absolute path of plain names that fits its
    512 bytes, with or without a slash at the end, it succeeds when no directory
    on the way is another file and the system refuses none that is missing; then
    exactly the missing prefixes of the path have become directories, and nothing
    else has changed. *)
Theorem mkdir_p_creates names trailing t :
  Forall plain names → names ≠ [] → (trailing = [] ∨ trailing = [47]) → zlen (slashed names ++ trailing) <= 511 →
  (∀ q r, q ++ r = names → r ≠ [] → t !! q ≠ Some NotDirectory) →
  (∀ q, q `prefix_of` names → t !! q = None → deny q = None) →
  ∃ t', mkdir_p (slashed names ++ trailing) t = Some (Ok tt, t') ∧
    ∀ q, t' !! q = if bool_decide (q `prefix_of` names ∧ q ≠ []) && bool_decide (t !! q = None) then Some Directory else t !! q.
Proof.
  intros Hp Hne Htr Hl Hf Hdeny. destruct (make_stages names [] t Hp) as (t' & Hm & Hfill); [|done..|].
  { intros _ q Hq%prefix_nil_inv. by subst q. }
  exists t'. split.
  - unfold mkdir_p. rewrite ztake_ge by done. assert (Hnn : zlen (slashed names ++ trailing) ≠ 0).
    { destruct names as [|c names]; [done|]. change (slashed (c :: names)) with (47 :: c ++ slashed names). solve_len. }
    rewrite (proj2 (Z.eqb_neq _ 0) Hnn).
    assert (Hcut : match last (slashed names ++ trailing) with
      | Some c => if c =? 47 then ztake (zlen (slashed names ++ trailing) - 1) (slashed names ++ trailing) else slashed names ++ trailing
      | None => slashed names ++ trailing end = slashed names).
    { destruct Htr as [-> | ->].
      - rewrite app_nil_r. destruct names as [|c names _] using rev_ind; [done|]. apply Forall_app in Hp as [_ [(Hc & Hs & _) _]%Forall_cons].
        rewrite slashed_snoc, last_app. destruct c as [|b c _] using rev_ind; [done|]. change (47 :: c ++ [b]) with ((47 :: c) ++ [b]).
        rewrite last_snoc. apply Forall_app in Hs as [_ [Hb _]%Forall_cons]. by destruct (Z.eqb_spec b 47).
      - rewrite last_snoc, Z.eqb_refl. rewrite zlen_app. change (zlen [47]) with 1. apply ztake_app_eq. lia. }
    rewrite Hcut, (prefixes_all names Hp Hne). by rewrite Hm.
  - intros q. rewrite (Hfill q). cbn [app length]. erewrite bool_decide_ext; [done|].
    split; intros [H1 H2]; split; try done; destruct q; cbn in *; try done; lia.
Qed.
End mkdir.
