(* ===== verification/Startup.v ===== *)
(** * Starting the recorder (src/src/recorder.c)

    The command line, the paths of the cursor files, the store id and the lock,
    the input, and [main] from the arguments to the exit status.  The system is
    the tree of directories ([mkdir_p]), the store below the log directory, the
    cursor files by path and the journal; what single calls answer is in
    [MainEnv].  The C library's getopt_long is modelled with its permutation of
    operands and its abbreviations. *)
From S2P Require Import Prelude Bytes Crypto Segment Models Chunk Index CText Entry Store Json Boots Config Modifiers Fallback Retention Writer Recorder Intake Player PlayerCursor Dirs.

(** ** Arguments *)
Record Option_ := mkOption { op_name : bytes; op_has_arg : bool; op_val : Z }.
Definition char (s : string) : Z := match C s with c :: _ => c | [] => 0 end.
Definition options : list Option_ :=
  [mkOption (C "last") false (char "1"); mkOption (C "cursor") true (char "c"); mkOption (C "namespace") true (char "n");
   mkOption (C "log-dir") true (char "l"); mkOption (C "config") true (char "C"); mkOption (C "fallback") false (char "F");
   mkOption (C "syslog-socket") true (char "s"); mkOption (C "kernel-path") true (char "k");
   mkOption (C "no-kmsg") false (char "K")].
(** "v1c:n:l:C:Fs:k:K". *)
Definition short_options : list (Z * bool) :=
  [(char "v", false); (char "1", false); (char "c", true); (char "n", true); (char "l", true); (char "C", true);
   (char "F", false); (char "s", true); (char "k", true); (char "K", false)].

(** What getopt_long returns: the option's character with its argument, or '?'. *)
Abbreviation Opt := (Z * option bytes)%type.
Definition bad_option : Opt := (char "?", None).

(** A long option by its name, or by a prefix that only one name has. *)
Definition find_option (key : bytes) : option Option_ :=
  match List.find (λ o, beq (op_name o) key) options with
  | Some o => Some o
  | None => match List.filter (λ o, beq (ztake (zlen key) (op_name o)) key) options with [o] => Some o | _ => None end
  end.

(** The options in one argument behind its dash, and the one that takes its
    argument from the next. *)
Fixpoint cluster (s : bytes) : list Opt * option Z :=
  match s with
  | [] => ([], None)
  | c :: s' =>
      match List.find (λ p : Z * bool, p.1 =? c) short_options with
      | None => let '(opts, open_) := cluster s' in (bad_option :: opts, open_)
      | Some (_, false) => let '(opts, open_) := cluster s' in ((c, None) :: opts, open_)
      | Some (_, true) => match s' with [] => ([], Some c) | _ => ([(c, Some s')], None) end
      end
  end.

(** An operand is passed over, "--" ends the options. *)
Fixpoint getopt_long (args : list bytes) : list Opt :=
  match args with
  | [] => []
  | arg :: args' =>
      match arg with
      | c1 :: c2 :: s =>
          if negb (c1 =? 45) then getopt_long args'
          else if c2 =? 45
          then
            match s with
            | [] => []
            | _ =>
                let '(key, value) := match split_at 61 s with Some (k, v) => (k, Some v) | None => (s, None) end in
                match find_option key with
                | None => bad_option :: getopt_long args'
                | Some o =>
                    if op_has_arg o
                    then
                      match value with
                      | Some v => (op_val o, Some v) :: getopt_long args'
                      | None => match args' with v :: args'' => (op_val o, Some v) :: getopt_long args'' | [] => [bad_option] end
                      end
                    else match value with Some _ => bad_option :: getopt_long args' | None => (op_val o, None) :: getopt_long args' end
                end
            end
          else
            match cluster (c2 :: s) with
            | (opts, None) => opts ++ getopt_long args'
            | (opts, Some c) => match args' with v :: args'' => opts ++ (c, Some v) :: getopt_long args'' | [] => opts ++ [bad_option] end
            end
      | _ => getopt_long args'
      end
  end.

(** The variables of [main], with [g_log_dir]. *)
Record RecorderArgs := mkRecorderArgs {
  ra_verbose : Z;
  ra_start_last : bool;
  ra_cursor_path : option bytes;
  ra_journal_namespace : option bytes;
  ra_log_dir : bytes;
  ra_config_path : option bytes;
  ra_fallback_mode : bool;
  ra_syslog_path : option bytes;
  ra_kernel_path : option bytes;
}.
Definition default_args (LOG_DIR : bytes) : RecorderArgs :=
  mkRecorderArgs 0 false None None LOG_DIR None false None (Some (C "/dev/kmsg")).

(** One turn of the switch; [None] is the return of 1. *)
Definition apply_option (o : Opt) (a : RecorderArgs) : option RecorderArgs :=
  let '(mkRecorderArgs v last cursor ns dir cfg fallback syslog kernel) := a in
  let '(opt, optarg) := o in
  if opt =? char "v" then Some (mkRecorderArgs (v + 1) last cursor ns dir cfg fallback syslog kernel)
  else if opt =? char "1" then Some (mkRecorderArgs v true cursor ns dir cfg fallback syslog kernel)
  else if opt =? char "c" then Some (mkRecorderArgs v last optarg ns dir cfg fallback syslog kernel)
  else if opt =? char "n" then Some (mkRecorderArgs v last cursor optarg dir cfg fallback syslog kernel)
  else if opt =? char "l"
  then if PATH_MAX <=? zlen (default [] optarg) then None
       else Some (mkRecorderArgs v last cursor ns (default [] optarg) cfg fallback syslog kernel)
  else if opt =? char "C" then Some (mkRecorderArgs v last cursor ns dir optarg fallback syslog kernel)
  else if opt =? char "F" then Some (mkRecorderArgs v last cursor ns dir cfg true syslog kernel)
  else if opt =? char "s" then Some (mkRecorderArgs v last cursor ns dir cfg true optarg kernel)
  else if opt =? char "k" then Some (mkRecorderArgs v last cursor ns dir cfg true syslog optarg)
  else if opt =? char "K" then Some (mkRecorderArgs v last cursor ns dir cfg true syslog None)
  else None.
Fixpoint apply_options (opts : list Opt) (a : RecorderArgs) : option RecorderArgs :=
  match opts with [] => Some a | o :: opts' => a' ← apply_option o a; apply_options opts' a' end.

Definition is_set {A} (o : option A) : bool := match o with Some _ => true | None => false end.
Definition parse_args (LOG_DIR : bytes) (args : list bytes) : option RecorderArgs :=
  a ← apply_options (getopt_long args) (default_args LOG_DIR);
  if ra_fallback_mode a && (ra_start_last a || is_set (ra_cursor_path a) || is_set (ra_journal_namespace a)) then None else Some a.

(** ** Paths *)
Definition build_log_path (path_size : Z) (log_dir suffix : bytes) : Res bytes := join_path_suffix path_size log_dir suffix.
Definition RECORDER_CURSOR_PATH : bytes := C "/run/recorder/journal.cursor".

(** What the system says of paths: tmpfs, write permission, XDG_RUNTIME_DIR. *)
Record PathEnv := mkPathEnv {
  pe_tmpfs : bytes → bool;
  pe_writable : bytes → bool;
  pe_xdg_runtime_dir : option bytes;
}.
Definition path_is_tmpfs (env : PathEnv) (path : bytes) : bool := pe_tmpfs env path.

Definition select_runtime_cursor_path (env : PathEnv) (path_size : Z) : option bytes :=
  if path_is_tmpfs env (C "/run") && (pe_writable env (C "/run/recorder") || pe_writable env (C "/run"))
  then if zlen RECORDER_CURSOR_PATH <? path_size then Some RECORDER_CURSOR_PATH else None
  else
    match pe_xdg_runtime_dir env with
    | Some dir =>
        if path_is_tmpfs env dir && pe_writable env dir
        then let path := dir ++ C "/recorder/journal.cursor" in if zlen path <? path_size then Some path else None
        else None
    | None => None
    end.

Definition with_namespace (path_size : Z) (path : bytes) (journal_namespace : option bytes) : Res bytes :=
  match journal_namespace with
  | None => Ok path
  | Some ns => let? p := join_path_suffix path_size path (C ".") in join_path_suffix path_size p ns
  end.

(** The part of [recorder_init] that chooses the cursor files. *)
Record CursorPaths := mkCursorPaths {
  cp_cursor_path : option bytes;         (* cursor_enabled *)
  cp_runtime_cursor_is_volatile : bool;
  cp_persistent_cursor_path : bytes;
}.
Definition cursor_paths (env : PathEnv) (log_dir : bytes) (journal_mode : bool) (cursor_path journal_namespace : option bytes)
    : Res CursorPaths :=
  let? base := build_log_path PATH_MAX log_dir (C "/state/journal.cursor") in
  let? persistent := with_namespace PATH_MAX base journal_namespace in
  if negb journal_mode then Ok (mkCursorPaths None false persistent)
  else
    match cursor_path with
    | Some path => if PATH_MAX <=? zlen path then Err EUNSET else Ok (mkCursorPaths (Some path) false persistent)
    | None =>
        match select_runtime_cursor_path env PATH_MAX with
        | None => Ok (mkCursorPaths None false persistent)
        | Some path => let? p := with_namespace PATH_MAX path journal_namespace in Ok (mkCursorPaths (Some p) true persistent)
        end
    end.

(** The directory that [ensure_cursor_parent] makes; the root counts as "/". *)
Definition ensure_cursor_parent (cwd : list bytes) (deny : list bytes → option Errno) (path : bytes) (t : Tree)
    : option (Res unit * Tree) :=
  match rsplit 47 path with
  | None => Some (Ok tt, t)
  | Some (parent, _) =>
      let parent := match parent with [] => C "/" | _ => parent end in
      if PATH_MAX <=? zlen parent then Some (Err EUNSET, t) else mkdir_p cwd deny parent t
  end.

(** ** The lock *)
Record LockIo := mkLockIo { lk_open : bool; lk_flock : bool }.
Definition recorder_acquire_store_lock (cwd : list bytes) (deny : list bytes → option Errno) (io : LockIo) (log_dir : bytes) (t : Tree)
    : option (Res unit * Tree) :=
  match build_log_path PATH_MAX log_dir (C "/state") with
  | Err e => Some (Err e, t)
  | Ok dir =>
      '(made, t1) ← mkdir_p cwd deny log_dir t;
      match made with
      | Err e => Some (Err e, t1)
      | Ok _ =>
          '(made, t2) ← mkdir_p cwd deny dir t1;
          match made with
          | Err e => Some (Err e, t2)
          | Ok _ =>
              match build_log_path 512 log_dir (C "/state/store.lock") with
              | Err e => Some (Err e, t2)
              | Ok _ => Some (if lk_open io && lk_flock io then Ok tt else Err EUNSET, t2)
              end
          end
      end
  end.

(** ** The store id

    The answers of getrandom. *)
Inductive Random := Interrupted | NoRandom | RandomValue (v : Z).
Fixpoint getrandom (answers : list Random) : option Z :=
  match answers with
  | Interrupted :: answers' => getrandom answers'
  | RandomValue v :: _ => Some v
  | _ => None
  end.

Record StoreIdIo := mkStoreIdIo {
  si_access : bool;              (* false: access fails with another errno than ENOENT *)
  si_read : bool;
  si_random : list Random;
  si_write : AtomicEnv;
  si_now : Z;
}.
Definition store_id_text_ok (raw : bytes) : bool :=
  let '(_, end_, erange) := strtoull16 (cstr raw) in
  negb erange && (match end_ with [] => true | c :: _ => c =? 10 end) && (zlen raw =? 17).

Definition ensure_store_id (io : StoreIdIo) (st : Store) : Res unit * Store :=
  if negb (si_access io) then (Err EUNSET, st)
  else
    match find_file (C "store-id") (st_state st) with
    | Some f => (if si_read io && store_id_text_ok (df_data f) then Ok tt else Err EUNSET, st)
    | None =>
        match getrandom (si_random io) with
        | None => (Err EUNSET, st)
        | Some v => after_write (si_write io) (si_now io) (C "store-id") (print_hex16 v ++ [10]) st
        end
    end.

(** ** The input without journald *)
Record SourceIo := mkSourceIo {
  so_socket : bool;              (* socket and SO_PASSCRED *)
  so_bind : bool;
  so_chmod : bool;
  so_fcntl : bool;
  so_kmsg : bool;
  so_hostname : option bytes;
  so_boot_id : option bytes;     (* /proc/sys/kernel/random/boot_id *)
}.
Definition SUN_PATH_SIZE : Z := 108.

(** [fallback_source_open] with the calls that make its descriptors, and whether
    it leaves the socket in the file system. *)
Definition open_fallback (io : SourceIo) (syslog_path kernel_path : option bytes) : Res FallbackSource * bool :=
  let opened :=
    match syslog_path with
    | None => (Ok false, false)
    | Some path =>
        if SUN_PATH_SIZE <=? zlen path then (Err ENAMETOOLONG, false)
        else if negb (so_socket io) || negb (so_bind io) then (Err EUNSET, false)
        else if negb (so_chmod io) || negb (so_fcntl io) then (Err EUNSET, true)
        else (Ok true, true)
    end in
  match opened with
  | (Err e, left_) => (Err e, left_)
  | (Ok syslog, _) =>
      if is_set kernel_path && negb (so_kmsg io) then (Err EUNSET, false)
      else (fallback_source_open syslog (is_set kernel_path) (so_hostname io) (so_boot_id io), syslog)
  end.

(** ** From the arguments to the exit *)
Section main.
Context `{RX : RegexLib} `{RM : !RegexMatch RX} `{W : WriterLib} `{J : Jansson} `{SJ : SdJournal}.

Record MainEnv := mkMainEnv {
  me_LOG_DIR : bytes;
  me_recorder_config : option bytes;            (* RECORDER_CONFIG *)
  me_config_file : bytes → Res bytes;
  me_readable : bytes → bool;
  me_config_dir : bytes;
  me_dropins : Res (list DropIn);
  me_cwd : list bytes;
  me_deny : list bytes → option Errno;
  me_lock : LockIo;
  me_open_journal : option bytes → bool;
  me_source : SourceIo;
  me_signals : bool;                            (* sigaction *)
  me_paths : PathEnv;
  me_store_id : StoreIdIo;
  me_start : StartIo;
  me_resume : ResumeIo;
  me_rounds : list (MainIo * list JournalEntry);                 (* until the shutdown, with the journal *)
  me_fallback_rounds : list (MainIo * StepIo * FallbackIo);      (* and without *)
  me_finish : FinishIo;
  me_clock : Clock;
}.

Record System := mkSystem {
  sy_tree : Tree;
  sy_store : Store;
  sy_files : gmap bytes bytes;                  (* the cursor files *)
  sy_journal : list JournalEntry;
}.
Definition with_tree (t : Tree) (sys : System) : System := mkSystem t (sy_store sys) (sy_files sys) (sy_journal sys).
Definition with_store (st : Store) (sys : System) : System := mkSystem (sy_tree sys) st (sy_files sys) (sy_journal sys).

Definition RECORDER_CONFIG_PATH : bytes := C "/etc/recorder.json".
Definition recorder_config_path (env : MainEnv) : bytes :=
  match me_recorder_config env with Some (c :: s) => c :: s | _ => RECORDER_CONFIG_PATH end.
Definition load_configuration (env : MainEnv) (a : RecorderArgs) : Res RecorderConfig :=
  let path := default (recorder_config_path env) (ra_config_path a) in
  let? cfg := recorder_config_load (me_readable env) (me_config_file env path) recorder_config_init in
  recorder_config_load_dropins (me_readable env) (me_config_dir env) (me_dropins env) cfg.

(** The journal is open, or the descriptors of the other input. *)
Inductive Input := Journal | Fallback_ (source : FallbackSource).
Definition open_input (env : MainEnv) (a : RecorderArgs) : option Input :=
  if ra_fallback_mode a
  then
    match (open_fallback (me_source env) (Some (default (C "/dev/log") (ra_syslog_path a))) (ra_kernel_path a)).1 with
    | Ok source => Some (Fallback_ source)
    | Err _ => None
    end
  else if me_open_journal env (ra_journal_namespace a) then Some Journal else None.

(** Directory and id are there when the rest of [recorder_init] begins. *)
Definition prepared (io : StartIo) : StartIo := mkStartIo (Ok tt) (sr_fs io) (sr_seq io) (sr_boots io) (sr_retention_boots io).

(** The whole of [recorder_init]: the paths of the cursor files, the directory
    and the id, then the store; [None] is the undefined access of [mkdir_p]. *)
Definition init_recorder (env : MainEnv) (a : RecorderArgs) (cfg : RecorderConfig) (sys : System)
    : option (Res (CursorPaths * Recorder) * System) :=
  match cursor_paths (me_paths env) (ra_log_dir a) (negb (ra_fallback_mode a)) (ra_cursor_path a) (ra_journal_namespace a) with
  | Err e => Some (Err e, sys)
  | Ok paths =>
      '(made, t) ← mkdir_p (me_cwd env) (me_deny env) (ra_log_dir a) (sy_tree sys);
      match made with
      | Err e => Some (Err e, with_tree t sys)
      | Ok _ =>
          let '(id, st) := ensure_store_id (me_store_id env) (sy_store sys) in
          let sys1 := with_store st (with_tree t sys) in
          match id with
          | Err e => Some (Err e, sys1)
          | Ok _ =>
              match recorder_init (prepared (me_start env)) cfg st with
              | Err e => Some (Err e, sys1)
              | Ok r => Some (Ok (paths, r), with_store (r_store r) sys1)
              end
          end
      end
  end.

Definition file_at (path : option bytes) (files : gmap bytes bytes) : option bytes := p ← path; files !! p.
Definition put_at (path : option bytes) (file : option bytes) (files : gmap bytes bytes) : gmap bytes bytes :=
  match path with
  | None => files
  | Some p => match file with Some data => <[p := data]> files | None => delete p files end
  end.

Definition first_intake (paths : CursorPaths) (journal_mode : bool) (r : Recorder) (files : gmap bytes bytes) : Intake :=
  mkIntake r tie_init false (is_set (cp_cursor_path paths)) journal_mode (cp_runtime_cursor_is_volatile paths) None true 0 None []
    (file_at (cp_cursor_path paths) files) (files !! cp_persistent_cursor_path paths).

(** One round of the loop without a journal; a broken input ends it. *)
Definition fallback_round (source : FallbackSource) (io : MainIo) (step : StepIo) (input : FallbackIo) (it : Intake)
    : bool * Intake * list ScriptJob :=
  let it0 := with_recorder (recorder_sample_clock (mi_boot1 io) (mi_realtime io) (mi_boot2 io) (it_recorder it)) it in
  let '(n, broke, it1, jobs) := recorder_step_fallback step (mi_clock io) (fallback_source_next source input) it0 in
  let it2 := if it_startup_catchup it1 && (0 <? n)
             then with_replay true (u64 (it_startup_replayed_entries it1 + n)) it1 else it1 in
  let '(res, it3) := flush_and_checkpoint (mi_flush io) (mi_cursor io) (mi_clock io) it2 in
  match res with
  | Err _ => (false, it3, jobs)
  | Ok _ => (negb broke, if 0 <? n then it3 else with_replay false (it_startup_replayed_entries it3) it3, jobs)
  end.
Fixpoint fallback_loop (source : FallbackSource) (rounds : list (MainIo * StepIo * FallbackIo)) (it : Intake)
    : Intake * list ScriptJob :=
  match rounds with
  | [] => (it, [])
  | (io, step, input) :: rounds' =>
      let '(ok, it1, jobs) := fallback_round source io step input it in
      if ok then let '(it2, jobs') := fallback_loop source rounds' it1 in (it2, jobs ++ jobs') else (it1, jobs)
  end.

(** The exit status, what the system holds then, and the script jobs. *)
Abbreviation MainResult := (Z * System * list ScriptJob)%type.
Definition refuse (sys : System) : option MainResult := Some (1, sys, []).

(** Behind [recorder_init]: the position, the loop, the shutdown. *)
Definition run_recorder (env : MainEnv) (a : RecorderArgs) (source : Input) (paths : CursorPaths) (r : Recorder) (sys : System)
    : MainResult :=
  let it0 := first_intake paths (negb (ra_fallback_mode a)) r (sy_files sys) in
  let finished '(it, jobs) :=
    let it' := finish (me_finish env) (me_clock env) it in
    (0, mkSystem (sy_tree sys) (r_store (it_recorder it'))
          (put_at (Some (cp_persistent_cursor_path paths)) (it_persistent_file it')
             (put_at (cp_cursor_path paths) (it_cursor_file it') (sy_files sys))) (sy_journal sys), jobs) in
  match source with
  | Fallback_ src => finished (fallback_loop src (me_fallback_rounds env) it0)
  | Journal =>
      match start_position (me_resume env) (ra_start_last a) (sy_journal sys) it0 with
      | None => (1, sys, [])
      | Some it => let '(_, it', jobs) := main_loop (me_rounds env) it in finished (it', jobs)
      end
  end.

Definition recorder_main (env : MainEnv) (args : list bytes) (sys : System) : option MainResult :=
  match parse_args (me_LOG_DIR env) args with
  | None => refuse sys
  | Some a =>
      match load_configuration env a with
      | Err _ => refuse sys
      | Ok cfg =>
          '(lock, t) ← recorder_acquire_store_lock (me_cwd env) (me_deny env) (me_lock env) (ra_log_dir a) (sy_tree sys);
          let sys1 := with_tree t sys in
          match lock with
          | Err _ => refuse sys1
          | Ok _ =>
              match open_input env a with
              | None => refuse sys1
              | Some source =>
                  if negb (me_signals env) then refuse sys1
                  else
                    '(started, sys2) ← init_recorder env a cfg sys1;
                    match started with
                    | Err _ => refuse sys2
                    | Ok (paths, r) => Some (run_recorder env a source paths r sys2)
                    end
              end
          end
      end
  end.
End main.
