(* ===== verification/StartupProofs.v ===== *)
(** * Starting the recorder: proofs

    The store id and its reader, the cursor files of two instances, the
    spellings of the options, and what a start that is refused leaves alone. *)
From S2P Require Import Prelude Bytes Crypto Segment Models Chunk Index CText Entry Store StoreProofs Json Boots Config Modifiers Fallback Retention Writer Recorder Intake Player PlayerCursor Dirs Startup.

(** ** The store id *)
Lemma strtoull16_digits s rest : Forall is_hex s → s ≠ [] → no_hex rest → (∀ c r, rest = c :: r → c ≠ 120 ∧ c ≠ 88) →
  strtoull16 (s ++ rest) = (clamp_u64 false (hex_value 0 s), rest, UINT64_MAX <? hex_value 0 s).
Proof.
  intros Hs Hne Hr Hx. destruct s as [|c s]; [done|]. pose proof Hs as [Hc Hs']%Forall_cons.
  destruct (hex_chars c Hc) as (Hsp & Hm & Hp & _). unfold strtoull16. cbn [app skip_space]. rewrite Hsp. unfold split_sign.
  destruct (Z.eqb_spec c 45); [done|]. destruct (Z.eqb_spec c 43); [done|].
  assert (H0x : skip_0x (c :: s ++ rest) = None).
  { destruct s as [|b s]; cbn.
    - destruct rest as [|b rest]; [done|]. destruct (Hx b rest eq_refl) as [H1 H2].
      destruct (Z.eqb_spec b 120); [done|]. destruct (Z.eqb_spec b 88); [done|]. by rewrite andb_false_r.
    - apply Forall_cons in Hs' as [Hb _]. destruct (hex_chars b Hb) as (_ & _ & _ & H1 & H2).
      destruct (Z.eqb_spec b 120); [done|]. destruct (Z.eqb_spec b 88); [done|]. by rewrite andb_false_r. }
  rewrite H0x. change (c :: s ++ rest) with ((c :: s) ++ rest). rewrite hex_digits_app by done.
  destruct (Z.eqb_spec (zlen (c :: s)) 0) as [Hz|_]; [rewrite zlen_cons in Hz; pose proof (zlen_nonneg s); lia|done].
Qed.

Lemma print_hex16_ok v : is_u64 v → Forall is_hex (print_hex16 v) ∧ hex_value 0 (print_hex16 v) = v ∧ length (print_hex16 v) = 16%nat.
Proof.
  intros Hv. destruct (print_hex_ok v Hv) as (Hh & Hval & Hlen). unfold print_hex16. split_and!.
  - apply Forall_app. split; [|done]. apply Forall_replicate. by exists 0.
  - by rewrite hex_value_zeros.
  - rewrite length_app, length_replicate. lia.
Qed.

Definition store_id_text (v : Z) : bytes := print_hex16 v ++ [10].
Lemma store_id_text_reads v : is_u64 v →
  strtoull16 (store_id_text v) = (v, [10], false) ∧ cstr (store_id_text v) = store_id_text v ∧
  fgets_line 31 (store_id_text v) = store_id_text v ∧ zlen (store_id_text v) = 17.
Proof.
  intros Hv. destruct (print_hex16_ok v Hv) as (Hh & Hval & Hlen). unfold store_id_text.
  assert (Hne : print_hex16 v ≠ []) by (intros H; by rewrite H in Hlen).
  split_and!.
  - rewrite strtoull16_digits; [|done|done|done|by intros c r [= <- <-]]. rewrite Hval. unfold clamp_u64.
    destruct (Z.ltb_spec UINT64_MAX v); [unfold is_u64, UINT64_MAX in *; lia|done].
  - apply cstr_no_zero. apply Forall_app. split; [|by repeat constructor]. eapply Forall_impl; [exact Hh|].
    intros c [d Hd] ->. by vm_compute in Hd.
  - assert (Hg : ∀ n s, Forall is_hex s → (length s < n)%nat → fgets_line n (s ++ [10]) = s ++ [10]).
    { induction n as [|n IH]; intros s Hs Hl; [lia|]. destruct s as [|c s]; [done|]. apply Forall_cons in Hs as [Hc Hs].
      cbn [app fgets_line length] in *. destruct (Z.eqb_spec c 10) as [->|_]; [by destruct Hc|]. rewrite IH by (done || lia). done. }
    apply Hg; [done|lia].
  - rewrite zlen_app. unfold zlen. rewrite Hlen. done.
Qed.

(** C20: the store id.  When the recorder gives a store its id, the 64 random
    bits are in the file [store-id] as a line that the reader library reads back
    as exactly this number, wherever it finds the store; every later start accepts
    the file, and an id that is there is never changed. *)
Theorem store_id_round_trip io st st' :
  ensure_store_id io st = (Ok tt, st') →
  match find_file (C "store-id") (st_state st) with
  | Some _ => st' = st
  | None => ∃ v f, getrandom (si_random io) = Some v ∧ find_file (C "store-id") (st_state st') = Some f ∧
      (is_u64 v →
        (∀ fs dir, zlen dir + 15 < PATH_SIZE → rd_file fs (dir ++ C "/state/store-id") = Ok (df_data f) →
           read_store_id fs dir = Some v) ∧
        ∀ io', si_access io' = true → si_read io' = true → ensure_store_id io' st' = (Ok tt, st'))
  end.
Proof.
  unfold ensure_store_id at 1. destruct (si_access io); [|done]. cbn [negb].
  destruct (find_file _ _) as [f|] eqn:Hf; [destruct (_ && _); [by intros [= <-]|done]|].
  destruct (getrandom _) as [v|] eqn:Hr; [|done]. intros H. exists v.
  assert (Hst : ∃ f, find_file (C "store-id") (st_state st') = Some f ∧ df_data f = store_id_text v).
  { apply after_write_ok in H as [_ Hw]. eexists. split; [exact Hw|done]. }
  destruct Hst as (f & Hfind & Hdata). exists f. split; [done|]. split; [done|]. intros Hv.
  destruct (store_id_text_reads v Hv) as (Hnum & Hc & Hg & Hl). split.
  - intros fs dir Hdir Hfile. unfold read_store_id. rewrite zlen_app. change (zlen (C "/state/store-id")) with 15.
    rewrite (proj2 (Z.leb_gt _ _)) by lia. rewrite Hfile, Hdata, Hg, Hc, Hl, Hnum. done.
  - intros io' Ha Hread. unfold ensure_store_id. rewrite Ha, Hfind, Hread, Hdata. unfold store_id_text_ok. by rewrite Hc, Hnum, Hl.
Qed.

(** ** The cursor files *)
Definition no_slash (s : bytes) : Prop := Forall (λ c, c ≠ 47) s.
Lemma last_part_unique s1 s2 : no_slash s1 → no_slash s2 → ∀ a b, a ++ 47 :: s1 = b ++ 47 :: s2 → a = b ∧ s1 = s2.
Proof.
  intros H1 H2. induction a as [|x a IH]; intros [|y b]; cbn [app]; intros H; [by injection H as ->|..].
  - injection H as <- ->. apply Forall_app in H1 as [_ [Hn _]%Forall_cons]. done.
  - injection H as -> <-. apply Forall_app in H2 as [_ [Hn _]%Forall_cons]. done.
  - injection H as -> H. by destruct (IH b H) as [-> ->].
Qed.

Definition namespace_suffix (ns : option bytes) : bytes := match ns with None => [] | Some n => 46 :: n end.
Definition namespace_ok (ns : option bytes) : Prop := match ns with None => True | Some n => no_slash n end.
Lemma with_namespace_ok size path ns p : with_namespace size path ns = Ok p → p = path ++ namespace_suffix ns.
Proof.
  unfold with_namespace, join_path_suffix. destruct ns as [n|]; [|intros [= <-]; by rewrite app_nil_r].
  destruct (_ || _); [done|]. cbn [rbind]. destruct (_ || _); [done|]. intros [= <-]. by rewrite <- app_assoc.
Qed.

(** Where the files are. *)
Definition persistent_dir (dir : bytes) : bytes := dir ++ C "/state".
Definition cursor_name (ns : option bytes) : bytes := C "journal.cursor" ++ namespace_suffix ns.
Lemma cursor_paths_ok env dir ns p : cursor_paths env dir true None ns = Ok p →
  cp_persistent_cursor_path p = (dir ++ C "/state") ++ 47 :: cursor_name ns ∧
  (∀ c, cp_cursor_path p = Some c → ∃ r, c = (r ++ C "/recorder") ++ 47 :: cursor_name ns ∧
     pe_tmpfs env r = true).
Proof.
  unfold cursor_paths, build_log_path, join_path_suffix at 1. destruct (_ || _); [done|]. cbn [rbind].
  destruct (with_namespace PATH_MAX _ ns) as [pp|] eqn:Hpp; [|done]. cbn [rbind negb].
  apply with_namespace_ok in Hpp. assert (Hper : pp = (dir ++ C "/state") ++ 47 :: cursor_name ns).
  { rewrite Hpp, <- !app_assoc. done. }
  destruct (select_runtime_cursor_path env PATH_MAX) as [path|] eqn:Hsel; [|by intros [= <-]].
  destruct (with_namespace PATH_MAX path ns) as [q|] eqn:Hq; [|done]. intros [= <-]. cbn. split; [done|].
  intros c [= <-]. apply with_namespace_ok in Hq as ->. unfold select_runtime_cursor_path in Hsel.
  destruct (path_is_tmpfs env (C "/run") && _) eqn:Hrun.
  { apply andb_true_iff in Hrun as [Ht _]. destruct (zlen RECORDER_CURSOR_PATH <? PATH_MAX); [|done]. injection Hsel as <-.
    exists (C "/run"). by split. }
  destruct (pe_xdg_runtime_dir env) as [r|]; [|done]. destruct (path_is_tmpfs env r && pe_writable env r) eqn:Hxdg; [|done]. apply andb_true_iff in Hxdg as [Ht _].
  destruct (_ <? PATH_MAX); [|done]. injection Hsel as <-. exists r. split; [|done]. by rewrite <- !app_assoc.
Qed.

Lemma cursor_name_inj ns1 ns2 : cursor_name ns1 = cursor_name ns2 → ns1 = ns2.
Proof. unfold cursor_name. intros H%app_inv_head. destruct ns1, ns2; cbn in H; congruence. Qed.
Lemma cursor_name_no_slash ns : namespace_ok ns → no_slash (cursor_name ns).
Proof.
  intros H. unfold cursor_name. apply Forall_app. split; [by repeat constructor|].
  destruct ns; [|constructor]. constructor; [done|exact H].
Qed.

Definition cursor_files (p : CursorPaths) : list bytes := option_list (cp_cursor_path p) ++ [cp_persistent_cursor_path p].

(** Instances with different namespaces never share a cursor file.  Without
    --cursor the file below /run or XDG_RUNTIME_DIR and the one in the state
    directory are different files, and for two instances whose namespaces differ,
    whatever their log directories, all these files are different. *)
Theorem namespaces_separate env dir1 dir2 ns1 ns2 p1 p2 :
  namespace_ok ns1 → namespace_ok ns2 →
  cursor_paths env dir1 true None ns1 = Ok p1 → cursor_paths env dir2 true None ns2 = Ok p2 →
  NoDup (cursor_files p1) ∧ (ns1 ≠ ns2 → cursor_files p1 ## cursor_files p2).
Proof.
  intros Hn1%cursor_name_no_slash Hn2%cursor_name_no_slash (Hp1 & Hc1)%cursor_paths_ok (Hp2 & Hc2)%cursor_paths_ok.
  assert (Hends : ∀ a b, a ++ C "/state" ≠ b ++ C "/recorder").
  { intros a b H. apply (f_equal last) in H. by rewrite !last_app in H. }
  split.
  - unfold cursor_files. destruct (cp_cursor_path p1) as [c|]; [|apply NoDup_singleton]. destruct (Hc1 c eq_refl) as (r & -> & _).
    cbn. apply NoDup_cons. split; [|apply NoDup_singleton]. rewrite Hp1, list_elem_of_singleton. intros H.
    apply last_part_unique in H as [H _]; [|done..]. by apply (Hends dir1 r).
  - intros Hne f Hf1 Hf2. assert (Hpart : ∀ p ns d, cp_persistent_cursor_path p = (d ++ C "/state") ++ 47 :: cursor_name ns →
      (∀ c, cp_cursor_path p = Some c → ∃ r, c = (r ++ C "/recorder") ++ 47 :: cursor_name ns ∧ pe_tmpfs env r = true) →
      f ∈ cursor_files p → ∃ a, f = a ++ 47 :: cursor_name ns).
    { intros p ns d Hp Hc. unfold cursor_files. rewrite elem_of_app, list_elem_of_singleton. intros [H| ->]; [|by rewrite Hp; eexists].
      destruct (cp_cursor_path p) as [c|]; [|by apply not_elem_of_nil in H]. apply list_elem_of_singleton in H as ->.
      destruct (Hc c eq_refl) as (r & -> & _). by eexists. }
    destruct (Hpart p1 ns1 dir1 Hp1 Hc1 Hf1) as [a Ha]. destruct (Hpart p2 ns2 dir2 Hp2 Hc2 Hf2) as [b Hb].
    rewrite Ha in Hb. apply last_part_unique in Hb as [_ Hb]; [|done..]. by apply Hne, cursor_name_inj.
Qed.

(** Without namespaces two instances share the volatile file, whatever their log
    directories. *)
Lemma instances_share_cursor env dir1 dir2 p1 p2 :
  cursor_paths env dir1 true None None = Ok p1 → cursor_paths env dir2 true None None = Ok p2 →
  cp_cursor_path p1 = cp_cursor_path p2.
Proof.
  unfold cursor_paths. destruct (build_log_path _ dir1 _) as [b1|]; [|done]. destruct (build_log_path _ dir2 _) as [b2|]; [|done].
  cbn. destruct (select_runtime_cursor_path _ _); cbn; by intros [= <-] [= <-].
Qed.

(** ** Options

    The ways to write one option. *)
Inductive spelled : list bytes → Opt → Prop :=
  | spelled_flag c : (c, false) ∈ short_options → spelled [[45; c]] (c, None)
  | spelled_attached c b v : (c, true) ∈ short_options → spelled [45 :: c :: b :: v] (c, Some (b :: v))
  | spelled_separate c v : (c, true) ∈ short_options → spelled [[45; c]; v] (c, Some v)
  | spelled_long o : o ∈ options → op_has_arg o = false → spelled [45 :: 45 :: op_name o] (op_val o, None)
  | spelled_long_attached o v : o ∈ options → op_has_arg o = true → spelled [45 :: 45 :: op_name o ++ 61 :: v] (op_val o, Some v)
  | spelled_long_separate o v : o ∈ options → op_has_arg o = true → spelled [45 :: 45 :: op_name o; v] (op_val o, Some v).

(** A command line and its options: operands may stand anywhere before "--", and
    flags may be joined with the option behind them. *)
Definition operand (w : bytes) : Prop := match w with c :: _ :: _ => c ≠ 45 | _ => True end.
Inductive command_line : list bytes → list Opt → Prop :=
  | line_end : command_line [] []
  | line_stop rest : command_line ([45; 45] :: rest) []
  | line_operand w args opts : operand w → command_line args opts → command_line (w :: args) opts
  | line_option ws o args opts : spelled ws o → command_line args opts → command_line (ws ++ args) (o :: opts)
  | line_joined c b s args opts : (c, false) ∈ short_options → b ≠ 45 →
      command_line ((45 :: b :: s) :: args) opts → command_line ((45 :: c :: b :: s) :: args) ((c, None) :: opts).

Lemma short_option_found c arg : (c, arg) ∈ short_options →
  List.find (λ p : Z * bool, p.1 =? c) short_options = Some (c, arg) ∧ c ≠ 45.
Proof. intros H. repeat (apply elem_of_cons in H as [[= -> ->]|H]; [by vm_compute|]). by apply not_elem_of_nil in H. Qed.
Lemma long_option_found o : o ∈ options →
  find_option (op_name o) = Some o ∧ split_at 61 (op_name o) = None ∧ op_name o ≠ [] ∧ ∀ v, split_at 61 (op_name o ++ 61 :: v) = Some (op_name o, v).
Proof. intros H. repeat (apply elem_of_cons in H as [->|H]; [by vm_compute|]). by apply not_elem_of_nil in H. Qed.

Lemma spelled_read ws o args : spelled ws o → getopt_long (ws ++ args) = o :: getopt_long args.
Proof.
  intros [c H|c b v H|c v H|o' H Ha|o' v H Ha|o' v H Ha].
  1-3: destruct (short_option_found _ _ H) as [Hf Hc]; cbn [app getopt_long]; change (45 =? 45) with true; cbn [negb];
       destruct (Z.eqb_spec c 45); [done|]; cbn [cluster]; by rewrite Hf.
  all: destruct (long_option_found o' H) as (Hf & Hs & Hne & Hsv); cbn [app getopt_long]; change (45 =? 45) with true; cbn [negb].
  - rewrite Hs, Hf, Ha. by destruct (op_name o').
  - rewrite Hsv, Hf, Ha. by destruct (op_name o').
  - rewrite Hs, Hf, Ha. by destruct (op_name o').
Qed.

(** The command line.  In whatever of its forms every option is written, with
    operands between them and flags joined, [main] gets exactly the options with
    their arguments, in their order. *)
Theorem options_read args opts : command_line args opts → getopt_long args = opts.
Proof.
  induction 1 as [|rest|w args opts Hw H IH|ws o args opts Hs H IH|c b s args opts Hc Hb H IH].
  - done.
  - done.
  - rewrite <- IH. destruct w as [|c1 [|c2 w]]; [done..|]. cbn [getopt_long]. cbn in Hw. by rewrite (proj2 (Z.eqb_neq c1 45) Hw).
  - by rewrite (spelled_read ws o args Hs), IH.
  - destruct (short_option_found _ _ Hc) as [Hf Hne]. cbn [getopt_long] in *. change (45 =? 45) with true in *. cbn [negb] in *.
    rewrite (proj2 (Z.eqb_neq b 45) Hb) in IH. rewrite (proj2 (Z.eqb_neq c 45) Hne).
    change (cluster (c :: b :: s)) with (match List.find (λ p : Z * bool, p.1 =? c) short_options with
      | None => let '(opts, open_) := cluster (b :: s) in (bad_option :: opts, open_)
      | Some (_, false) => let '(opts, open_) := cluster (b :: s) in ((c, None) :: opts, open_)
      | Some (_, true) => ([(c, Some (b :: s))], None) end).
    rewrite Hf. destruct (cluster (b :: s)) as [opts' [o|]]; cbn; [|by rewrite <- IH]. destruct args; by rewrite <- IH.
Qed.

(** ** Starts that are refused *)
Section main.
Context `{RX : RegexLib} `{RM : !RegexMatch RX} `{W : WriterLib} `{J : Jansson} `{SJ : SdJournal}.

Lemma lock_adds cwd deny io dir t r t' : recorder_acquire_store_lock cwd deny io dir t = Some (r, t') →
  t ⊆ t' ∧ (r = Ok tt → lk_flock io = true).
Proof.
  unfold recorder_acquire_store_lock. destruct (build_log_path PATH_MAX dir _) as [sd|]; [|by intros [= <- <-]].
  destruct (mkdir_p cwd deny dir t) as [[r1 t1]|] eqn:H1; [|done]. apply mkdir_p_adds in H1. cbn [mbind option_bind].
  destruct r1 as [u|]; [|by intros [= <- <-]].
  destruct (mkdir_p cwd deny sd t1) as [[r2 t2]|] eqn:H2; [|done]. apply mkdir_p_adds in H2. cbn [mbind option_bind].
  assert (H12 : t ⊆ t2) by by etrans. destruct r2 as [u2|]; [|by intros [= <- <-]].
  destruct (build_log_path 512 dir _) as [ld|]; intros [= <- <-]; [|done]. split; [done|].
  destruct (lk_open io), (lk_flock io); done.
Qed.

Lemma init_recorder_adds env a cfg sys res sys' : init_recorder env a cfg sys = Some (res, sys') →
  sy_tree sys ⊆ sy_tree sys' ∧ sy_files sys' = sy_files sys ∧ sy_journal sys' = sy_journal sys ∧
  ∀ paths r, res = Ok (paths, r) →
    cursor_paths (me_paths env) (ra_log_dir a) (negb (ra_fallback_mode a)) (ra_cursor_path a) (ra_journal_namespace a) = Ok paths.
Proof.
  unfold init_recorder. destruct (cursor_paths _ _ _ _ _) as [paths|]; [|by intros [= <- <-]].
  destruct (mkdir_p _ _ _ _) as [[made t]|] eqn:Hm; [|done]. apply mkdir_p_adds in Hm. cbn [mbind option_bind].
  destruct made; [|by intros [= <- <-]]. destruct (ensure_store_id _ _) as [[] st]; [|by intros [= <- <-]].
  destruct (recorder_init _ _ _) as [r|]; intros [= <- <-]; [|done]. split_and!; try done. by intros p' r' [= <- _].
Qed.

Lemma put_at_other p file files q : p ≠ Some q → put_at p file files !! q = files !! q.
Proof. intros Hp. destruct p as [p|]; [|done]. assert (p ≠ q) by congruence. destruct file; cbn; by rewrite ?lookup_insert_ne, ?lookup_delete_ne. Qed.

Lemma run_recorder_keeps env a source paths r sys status sys' jobs :
  run_recorder env a source paths r sys = (status, sys', jobs) →
  sy_tree sys' = sy_tree sys ∧ sy_journal sys' = sy_journal sys ∧
  ∀ q, q ∉ cursor_files paths → sy_files sys' !! q = sy_files sys !! q.
Proof.
  assert (Hput : ∀ c d q, q ∉ cursor_files paths →
    put_at (Some (cp_persistent_cursor_path paths)) c (put_at (cp_cursor_path paths) d (sy_files sys)) !! q = sy_files sys !! q).
  { intros c d q Hq. unfold cursor_files in Hq. rewrite elem_of_app, list_elem_of_singleton in Hq.
    rewrite !put_at_other; [done| |]; [|intros [= <-]; tauto]. intros H. rewrite H in Hq. cbn in Hq. rewrite list_elem_of_singleton in Hq. tauto. }
  unfold run_recorder. destruct source as [|src].
  - destruct (start_position _ _ _ _); [|by intros [= _ <- _]]. destruct (main_loop _ _) as [[b it'] jobs']. intros [= _ <- _]. split; [done|]. split; [done|]. intros q Hq. by apply Hput.
  - destruct (fallback_loop _ _ _) as [it' jobs']. intros [= _ <- _]. split; [done|]. split; [done|]. intros q Hq. by apply Hput.
Qed.

(** C19: only the process that holds the lock touches a store.  A run that ends
    either left the store and every cursor file as they were and ended with status
    1, or its options and configuration were accepted, it had the lock and its
    input was open; then at most its own cursor files have changed.  Directories
    are only added. *)
Theorem store_behind_lock env args sys status sys' jobs :
  recorder_main env args sys = Some (status, sys', jobs) →
  sy_tree sys ⊆ sy_tree sys' ∧ sy_journal sys' = sy_journal sys ∧ (status = 0 ∨ status = 1) ∧
  ((status = 1 ∧ sy_store sys' = sy_store sys ∧ sy_files sys' = sy_files sys ∧ jobs = []) ∨
   ∃ a cfg, parse_args (me_LOG_DIR env) args = Some a ∧ load_configuration env a = Ok cfg ∧ lk_flock (me_lock env) = true ∧
     is_Some (open_input env a) ∧
     ∀ q, sy_files sys' !! q ≠ sy_files sys !! q → ∃ paths,
       cursor_paths (me_paths env) (ra_log_dir a) (negb (ra_fallback_mode a)) (ra_cursor_path a) (ra_journal_namespace a) = Ok paths ∧
       q ∈ cursor_files paths).
Proof.
  unfold recorder_main, refuse. destruct (parse_args _ _) as [a|] eqn:Ha; [|intros [= <- <- <-]; auto 10].
  destruct (load_configuration env a) as [cfg|] eqn:Hcfg; [|intros [= <- <- <-]; auto 10].
  destruct (recorder_acquire_store_lock _ _ _ _ _) as [[lock t]|] eqn:Hl; [|done]. apply lock_adds in Hl as [Ht Hlock].
  cbn [mbind option_bind]. destruct lock as [[]|]; [|intros [= <- <- <-]; cbn; auto 10]. specialize (Hlock eq_refl).
  destruct (open_input env a) as [source|] eqn:Hin; [|intros [= <- <- <-]; cbn; auto 10].
  destruct (me_signals env); cbn [negb]; [|intros [= <- <- <-]; cbn; auto 10].
  destruct (init_recorder _ _ _ _) as [[started sys2]|] eqn:Hi; [|done]. cbn [mbind option_bind].
  apply init_recorder_adds in Hi as (Ht2 & Hf2 & Hj2 & Hp). cbn in Ht2, Hf2, Hj2.
  assert (Htree : sy_tree sys ⊆ sy_tree sys2) by by etrans.
  destruct started as [[paths r]|].
  - specialize (Hp paths r eq_refl). intros [= Hrun].
    assert (Hstatus : status = 0 ∨ status = 1).
    { unfold run_recorder in Hrun. destruct source.
      - destruct (start_position _ _ _ _); [|injection Hrun as <- _ _; by right]. destruct (main_loop _ _) as [[b it'] jobs'].
        injection Hrun as <- _ _. by left.
      - destruct (fallback_loop _ _ _) as [it' jobs']. injection Hrun as <- _ _. by left. }
    apply run_recorder_keeps in Hrun as (-> & -> & Hfiles). rewrite Hf2 in Hfiles. split; [done|]. split; [done|]. split; [done|].
    right. exists a, cfg. split_and!; try done. intros q Hq. exists paths. split; [done|].
    destruct (decide (q ∈ cursor_files paths)) as [|Hn]; [done|]. by destruct Hq; apply Hfiles.
  - intros [= <- <- <-]. split; [done|]. split; [done|]. split; [by right|]. right. exists a, cfg. split_and!; try done.
    intros q Hq. by rewrite Hf2 in Hq.
Qed.
End main.
