(* ===== verification/StartupDemo.v ===== *)
(** * Starts of a recorder

    Runs of [main] on a small system: with a journal, after a reboot, with a lock
    that another process holds.  Instances of the properties of the start, and
    what it does in cases that its descriptions leave out. *)
From S2P Require Import Prelude Bytes Crypto Segment Models SegmentSpec Chunk ChunkModel Index CText Entry Store Json Boots Config ConfigProofs Modifiers Fallback Retention RetentionProofs Writer Recorder Intake IntakeProofs IntakeRounds RecorderDemo IntakeDemo Player PlayerCursor Dirs Startup StartupProofs.

#[local] Existing Instance toy_openssl.
#[local] Existing Instance toy_openssl_ok.
#[local] Existing Instance toy_lib.
#[local] Existing Instance toy_flatcc.
#[local] Existing Instance toy_flatcc_ok.
#[local] Existing Instance toy_regex.
#[local] Existing Instance toy_jansson.
#[local] Existing Instance toy_writer.
#[local] Existing Instance toy_writer_ok.
#[local] Existing Instance toy_match.
#[local] Existing Instance toy_journal.
#[local] Existing Instance toy_journal_ok.
Ltac by_computing := vm_compute; first [reflexivity|discriminate].

(** ** Directories *)
Definition allow (p : list bytes) : option Errno := None.
Definition home_tree : Tree := {[ [C "home"] := Directory; [C "home"; C "notes"] := NotDirectory ]}.
Lemma mkdir_p_creates_witness :
  ∃ t', mkdir_p [] allow (C "/home/log/state/") home_tree = Some (Ok tt, t') ∧
    t' !! [C "home"; C "log"] = Some Directory ∧ t' !! [C "home"; C "notes"] = Some NotDirectory ∧ t' !! [C "log"] = None.
Proof.
  destruct (mkdir_p_creates [] allow [C "home"; C "log"; C "state"] [47] home_tree) as (t' & Hm & Ht).
  - repeat constructor; by vm_compute.
  - discriminate.
  - by right.
  - by vm_compute.
  - intros q r Hq Hr. destruct q as [|a [|b [|c q]]]; try (by vm_compute).
    + injection Hq as -> _. by vm_compute.
    + injection Hq as -> -> _. by vm_compute.
    + injection Hq as -> -> -> Hq. destruct q, r; try done. 
  - done.
  - exists t'. split; [exact Hm|]. rewrite !Ht. by vm_compute.
Defined.

(** The root directory is refused: without its slash it is the empty path, and
    mkdir answers ENOENT where EEXIST would be passed over.  A cursor file below
    the root can therefore never be written. *)
Lemma root_refused t : mkdir_p [] allow (C "/") t = Some (Err ENOENT, t).
Proof. reflexivity. Qed.
Lemma cursor_below_root_refused t : ensure_cursor_parent [] allow (C "/journal.cursor") t = Some (Err ENOENT, t).
Proof. reflexivity. Qed.
(** Of an empty path (an empty --log-dir) [mkdir_p] reads [tmp[-1]]. *)
Lemma empty_path_undefined t : mkdir_p [] allow [] t = None.
Proof. reflexivity. Qed.
(** A file in the place of the last directory is not noticed. *)
Lemma file_taken_for_directory :
  option_map (λ r, (r.1, r.2 !! [C "home"; C "notes"])) (mkdir_p [] allow (C "/home/notes") home_tree) = Some (Ok tt, Some NotDirectory).
Proof. by vm_compute. Qed.

(** ** The store id *)
Definition id_io (answers : list Random) : StoreIdIo := mkStoreIdIo true true answers good_write 1000.
Lemma store_id_round_trip_witness :
  ∃ st', ensure_store_id (id_io [Interrupted; RandomValue 3735928559]) (mkStore [] []) = (Ok tt, st') ∧
    ensure_store_id (id_io []) st' = (Ok tt, st').
Proof.
  destruct (ensure_store_id (id_io [Interrupted; RandomValue 3735928559]) (mkStore [] [])) as [r st'] eqn:H.
  assert (Hr : r = Ok tt) by (transitivity (ensure_store_id (id_io [Interrupted; RandomValue 3735928559]) (mkStore [] [])).1;
    [by rewrite H|by vm_compute]). subst r. exists st'. split; [reflexivity|].
  destruct (store_id_round_trip _ _ _ H) as (v & f & Hv & _ & Hid). injection Hv as <-.
  destruct Hid as [_ Hagain]; [unfold is_u64; lia|]. by apply Hagain.
Defined.
(** A file that the recorder accepts and the reader library does not: a line break
    within its 17 bytes ends the number.  Then there are no cursors. *)
Definition odd_store_id : bytes := C "5" ++ [10] ++ C "abcdefghijklmno".
Lemma odd_store_id_accepted :
  store_id_text_ok odd_store_id = true ∧ zlen (fgets_line 31 odd_store_id) = 2.
Proof. by vm_compute. Qed.

(** ** Options *)
Lemma options_read_witness :
  getopt_long (map C ["-vn"; "web"; "file"; "--log-dir=/var/x"; "--last"; "--"; "-v"]%string) =
    [(char "v", None); (char "n", Some (C "web")); (char "l", Some (C "/var/x")); (char "1", None)].
Proof.
  apply options_read. change (C "-vn") with (45 :: char "v" :: char "n" :: []). cbn [map].
  apply line_joined; [by left|by vm_compute|]. apply (line_option [45 :: char "n" :: []; C "web"] _ _ _).
  { apply spelled_separate. do 3 right. left. }
  apply line_operand; [by vm_compute|].
  apply (line_option [C "--log-dir=/var/x"]). { apply (spelled_long_attached (mkOption (C "log-dir") true (char "l")) (C "/var/x")); [|done]. do 3 right. left. }
  apply (line_option [C "--last"]). { apply (spelled_long (mkOption (C "last") false (char "1"))); [left|done]. }
  apply line_stop.
Defined.
(** Long names may be shortened as long as one option has the prefix. *)
Lemma shortened_names :
  getopt_long (map C ["--cu"; "p"; "--co"; "q"; "--no"]%string) =
    [(char "c", Some (C "p")); (char "C", Some (C "q")); (char "K", None)] ∧
  getopt_long (map C ["--c=p"; "--n=x"]%string) = [bad_option; bad_option].
Proof. by vm_compute. Qed.

(** ** Cursor files *)
Definition run_is_tmpfs : PathEnv := mkPathEnv (λ p, beq p (C "/run")) (λ _, true) None.
Definition paths_of (ns : option bytes) : Res CursorPaths := cursor_paths run_is_tmpfs (C "/var/log/r") true None ns.
Lemma namespaces_separate_witness :
  paths_of (Some (C "web")) = Ok (mkCursorPaths (Some (C "/run/recorder/journal.cursor.web")) true (C "/var/log/r/state/journal.cursor.web")) ∧
  match paths_of (Some (C "web")), paths_of None with
  | Ok p1, Ok p2 => NoDup (cursor_files p1) ∧ cursor_files p1 ## cursor_files p2
  | _, _ => False
  end.
Proof.
  split; [by_computing|]. destruct (paths_of (Some (C "web"))) as [p1|] eqn:H1; [|by vm_compute in H1].
  destruct (paths_of None) as [p2|] eqn:H2; [|by vm_compute in H2].
  destruct (namespaces_separate run_is_tmpfs (C "/var/log/r") (C "/var/log/r") (Some (C "web")) None p1 p2) as [Hn Hd];
    [by vm_compute; repeat constructor|done|exact H1|exact H2|]. split; [exact Hn|]. by apply Hd.
Defined.

(** The path of the temporary file of [atomic_write_text_file] has at most 511
    bytes: for a state file with a path of that length it is the file itself,
    which is then written in place; on a full disk a crash leaves a part of the
    text, and the program removes the file. *)
Lemma long_path_written_in_place w name : aw_dir_size w + zlen name = 511 → atomic_tmp_name w name = name.
Proof. intros H. unfold atomic_tmp_name, tmp_name. apply ztake_app_eq. lia. Qed.
Lemma long_path_left_in_part :
  (atomic_write_text_file (mkAtomicEnv 500 true true 2 true true true ENOSPC) 9 (C "segment_seq") (C "12345")
     [mkDirFile (C "segment_seq") (C "old") 1]).2 =
  [[mkDirFile (C "segment_seq") (C "old") 1]; [mkDirFile (C "segment_seq") [] 9]; [mkDirFile (C "segment_seq") (C "12") 9]; []].
Proof. by_computing. Qed.

(** ** Runs of [main] *)
Definition demo_source : SourceIo := mkSourceIo true true true true true (Some (C "host")) None.
Definition main_env (flock : bool) (rounds : list (MainIo * list JournalEntry)) (cursor : string) : MainEnv :=
  mkMainEnv (C "/l") None (λ _, Ok intake_text) (λ _, true) (C "/etc/recorder.d") (Err ENOENT) [] allow (mkLockIo true flock)
    (λ _, true) demo_source true run_is_tmpfs (id_io [RandomValue 5]) good_start good_resume rounds []
    (mkFinishIo (mkShutdownIo (replicate 2 (good_flush, Ok tt)) (replicate 2 (mkCloseIo good_flush (Ok tt))) good_fs good_write good_write good_write)
       (good_cursor cursor) (good_cursor cursor) true) demo_clock.
Definition empty_system (journal : list JournalEntry) : System := mkSystem ∅ (mkStore [] []) ∅ journal.
Definition later (more : list JournalEntry) (sys : System) : System := mkSystem (sy_tree sys) (sy_store sys) (sy_files sys) (sy_journal sys ++ more).

(** The status, the names of the state files and the cursor files. *)
Definition summary (r : option (Z * System * list ScriptJob)) : option (Z * list bytes * list (bytes * bytes)) :=
  '(status, sys, _) ← r; Some (status, map df_name (st_state (sy_store sys)), map_to_list (sy_files sys)).
Lemma first_run_and_reboot :
  let first := recorder_main (main_env true [(good_round "s=2", [])] "s=2") [] (empty_system [demo_j1; demo_j2]) in
  summary first = Some (0, map C ["store-id"; "segment_seq"; "boots"]%string, [(C "/l/state/journal.cursor", C "s=2" ++ [0])]) ∧
  match first with
  | Some (_, sys, _) =>
      let second := recorder_main (main_env true [(good_round "s=3", [])] "s=3") [] (later [demo_j3] sys) in
      summary second = Some (0, map C ["store-id"; "segment_seq"; "boots"]%string, [(C "/l/state/journal.cursor", C "s=3" ++ [0])]) ∧
      find_file (C "store-id") (match second with Some (_, s2, _) => st_state (sy_store s2) | None => [] end)
        = find_file (C "store-id") (st_state (sy_store sys))
  | None => False
  end.
Proof. split; [by_computing|]. vm_compute. split; reflexivity. Qed.

Lemma store_behind_lock_witness :
  ∃ sys', recorder_main (main_env false [] "s=2") (map C ["-n"; "web"]%string) (empty_system [demo_j1]) = Some (1, sys', []) ∧
    sy_store sys' = mkStore [] [] ∧ sy_files sys' = ∅ ∧ sy_tree sys' !! [C "l"; C "state"] = Some Directory.
Proof.
  destruct (recorder_main (main_env false [] "s=2") (map C ["-n"; "web"]%string) (empty_system [demo_j1])) as [[[status sys'] jobs]|] eqn:H.
  2:{ by vm_compute in H. }
  destruct (store_behind_lock _ _ _ _ _ _ H) as (_ & _ & _ & [(-> & Hst & Hf & ->)|(a & cfg & _ & _ & Hl & _)]).
  - exists sys'. split; [reflexivity|]. split; [exact Hst|]. split; [exact Hf|].
    transitivity (from_option (λ r, sy_tree r.1.2 !! [C "l"; C "state"]) None
      (recorder_main (main_env false [] "s=2") (map C ["-n"; "web"]%string) (empty_system [demo_j1])));
      [by rewrite H|by vm_compute].
  - discriminate Hl.
Defined.

(** Two rounds, a shutdown, a reboot that removes the volatile cursor file: the
    new process is given the fourth entry and no other. *)
Definition rebooted (file : option bytes) : Intake :=
  mkIntake intake_init tie_init false true true true None true 0 None [] None file.
Lemma reboot_resumes_witness :
  ∃ it' jobs it2, main_loop demo_rounds (intake_start [demo_j1; demo_j2]) = (true, it', jobs) ∧
    let done_ := finish (me_finish (main_env true [] "s=3")) demo_clock it' in
    it_cursor_file done_ = None ∧
    start_position good_resume false [demo_j1; demo_j2; demo_j3; demo_j4] (rebooted (it_persistent_file done_)) = Some it2 ∧
    upcoming it2 = [demo_j4].
Proof.
  destruct (main_loop demo_rounds (intake_start [demo_j1; demo_j2])) as [[ok it'] jobs] eqn:Hr.
  set (fin := me_finish (main_env true [] "s=3")). assert (Hok : (ok, it_cursor_enabled it', it_persistent_cursor_enabled it',
    it_runtime_cursor_is_volatile it', it_pending_cursor it', it_persistent_file it',
    (recorder_shutdown (fn_shutdown fin) demo_clock (it_recorder it')).1) = (true, true, true, true, Some (C "s=3"), None, true)).
  { transitivity (let '(ok, it', _) := main_loop demo_rounds (intake_start [demo_j1; demo_j2]) in (ok, it_cursor_enabled it',
      it_persistent_cursor_enabled it', it_runtime_cursor_is_volatile it', it_pending_cursor it', it_persistent_file it',
      (recorder_shutdown (fn_shutdown fin) demo_clock (it_recorder it')).1)); [by rewrite Hr|by vm_compute]. }
  injection Hok as -> Hen Hpe Hvol Hc Hpf Hs.
  assert (Hlen : length (rounds_trace demo_rounds (intake_start [demo_j1; demo_j2])) = 3%nat) by (vm_compute; reflexivity).
  destruct (reboot_resumes None demo_rounds _ it' jobs idle_logs [] [demo_j4] fin demo_clock good_resume
    (rebooted (it_persistent_file (finish fin demo_clock it'))) Hr demo_rounds_given) as (Hgone & gs' & it2 & _ & Hst & Hj).
  - unfold smooth. computed.
  - intros Hnil. by rewrite Hnil in Hlen.
  - exact Hen.
  - exact Hpe.
  - exact Hs.
  - intros c Hpc. rewrite Hc in Hpc. injection Hpc as <-. rewrite Hpf. by vm_compute.
  - apply distinct_check. vm_compute. reflexivity.
  - reflexivity.
  - reflexivity.
  - by right.
  - reflexivity.
  - reflexivity.
  - exists it', jobs, it2. split; [reflexivity|]. split; [by apply Hgone|]. split; [exact Hst|].
    set (seen := map fst (rounds_trace _ _)) in Hj. assert (Hseen : length seen = 3%nat) by (unfold seen; by rewrite length_map).
    clearbody seen. cbn [app] in Hj. apply (f_equal (drop 3)) in Hj.
    destruct seen as [|x1 [|x2 [|x3 [|]]]]; try discriminate Hseen. symmetry. exact Hj.
Defined.
