(* ===== verification/CliOptions.v ===== *)
(** * The options of the player (src/src/player.c)

    The command line, the numbers and times it holds, and the checks of
    [parse_options].  The C library's calendar is a parameter ([CTime]); [strtoul],
    [strtol] and [sscanf] are modelled. *)
From S2P Require Import Prelude Bytes CText Player PlayerCursor BatchReader.

(** ** Numbers *)
Definition INT32_MIN : Z := -2147483648.
Definition INT32_MAX : Z := 2147483647.

Definition parse_u32 (text : bytes) : option Z :=
  if byte_at text 0 =? 45 then None
  else
    let '(value, end_, erange) := strtoull10 text in
    if erange || negb (beq end_ []) || (UINT32_MAX <? value) then None else Some value.
Definition parse_i32 (text : bytes) : option Z :=
  let '(value, end_, erange) := strtol10 text in
  if erange || negb (beq end_ []) || (value <? INT32_MIN) || (INT32_MAX <? value) then None else Some value.

Definition parse_batch_size (text : bytes) : option Z :=
  if (zlen text =? 0) || (byte_at text 0 =? 45) then None
  else
    let '(value, end_, erange) := strtoull10 text in
    if erange || negb (beq end_ []) || (value =? 0) || (SIZE_MAX <? value) then None else Some value.

(** The count, and whether the lines are counted from the head. *)
Definition parse_line_count (text : bytes) : option (Z * bool) :=
  let from_head := byte_at text 0 =? 43 in
  let number := if from_head || (byte_at text 0 =? 45) then zdrop 1 text else text in
  if (zlen text =? 0) || (zlen number =? 0) then None
  else
    let '(count, end_, erange) := strtoull10 number in
    if erange || negb (beq end_ []) || (SIZE_MAX <? count) then None else Some (count, from_head).

(** ** Times *)

(** [struct tm] without the day of the week and of the year. *)
Record Tm := mkTm {
  tm_year : Z;                          (* since 1900 *)
  tm_mon : Z;                           (* from 0 *)
  tm_mday : Z;
  tm_hour : Z;
  tm_min : Z;
  tm_sec : Z;
  tm_isdst : Z;
}.
#[export] Instance Tm_eq_dec : EqDecision Tm.
Proof. solve_decision. Defined.
(** [localtime_r] and [mktime] in the zone of the process. *)
Class CTime := {
  localtime_r : Z → option Tm;
  mktime : Tm → Z;
}.

(** [sscanf]: what was stored for the conversions, in order; their number is the
    result (0 stands for the end of the input before the first one too). *)
Inductive Directive :=
  | Int                                 (* %d *)
  | AnyChar                             (* %c *)
  | Blank
  | Char (c : Z).
Definition scan_int (s : bytes) : option (Z * bytes) :=
  let '(neg, u) := split_sign (skip_space s) in
  let '(v, any, rest) := dec_digits 0 u in
  if any : bool
  then Some (s32 (if neg : bool then Z.max (- v) (-9223372036854775808) else Z.min v 9223372036854775807), rest)
  else None.
Fixpoint sscanf (format : list Directive) (s : bytes) : list Z :=
  match format with
  | [] => []
  | Int :: format' => match scan_int s with Some (v, s') => v :: sscanf format' s' | None => [] end
  | AnyChar :: format' => match s with c :: s' => c :: sscanf format' s' | [] => [] end
  | Blank :: format' => sscanf format' (skip_space s)
  | Char c :: format' => match s with x :: s' => if x =? c then sscanf format' s' else [] | [] => [] end
  end.

Definition date_format : list Directive := [Int; Char 45; Int; Char 45; Int].
Definition minute_format (separator : Directive) : list Directive := date_format ++ [separator; Int; Char 58; Int].
Definition second_format (separator : Directive) : list Directive := minute_format separator ++ [Char 58; Int].

(** The variables year to second after a call of [sscanf] with [n] of them, and
    the number of conversions. *)
Definition scan_into (n : nat) (format : list Directive) (text : bytes) (vars : list Z) : nat * list Z :=
  let stored := sscanf (format ++ [AnyChar]) text in
  (length stored, take n stored ++ drop (length (take n stored)) vars).

Definition parse_datetime_fields (text : bytes) : option Tm :=
  let '(n, v) := scan_into 6 (second_format Blank) text [0; 0; 0; 0; 0; 0] in
  let '(n, v) := if (n =? 6)%nat then (n, v) else scan_into 6 (second_format (Char 84)) text v in
  let '(n, v) :=
    if (n =? 6)%nat then (n, v)
    else
      let '(n, v) := scan_into 5 (minute_format Blank) text v in
      if (n =? 5)%nat then (n, v) else scan_into 5 (minute_format (Char 84)) text v in
  let '(n, v) := if (n =? 5)%nat || (n =? 6)%nat then (3%nat, v) else scan_into 3 date_format text v in
  if negb (n =? 3)%nat then None
  else
    match v with
    | [year; mon; day; hour; min; sec] =>
        if (year <? 1970) || (mon <? 1) || (12 <? mon) || (day <? 1) || (31 <? day)
           || (hour <? 0) || (23 <? hour) || (min <? 0) || (59 <? min) || (sec <? 0) || (60 <? sec) then None
        else Some (mkTm (year - 1900) (mon - 1) day hour min sec (-1))
    | _ => None
    end.

Definition parse_time_arg `{T : CTime} (text : bytes) : option Z :=
  let '(value, end_, erange) := strtoull10 text in
  if negb erange && beq end_ []
  then Some (if value <? 1000000000000 then u64 (value * 1000000) else value)
  else
    tm ← parse_datetime_fields text;
    let sec := mktime tm in
    if sec <? 0 then None else Some (u64 (u64 sec * 1000000)).

Definition is_cursor_arg (text : option bytes) : bool :=
  match text with Some t => beq (ztake 5 t) (C "rec1:") | None => false end.

(** ** The arguments as given *)
Record Args := mkArgs {
  ar_dir_path : option bytes;
  ar_file_path : option bytes;
  ar_unit_filter : option bytes;
  ar_groups : list bytes;
  ar_boot_filter : option bytes;
  ar_since_arg : option bytes;
  ar_until_arg : option bytes;
  ar_encryption_private_key : option bytes;
  ar_follow : bool;
  ar_list_boots : bool;
  ar_disk_usage : bool;
  ar_stats : bool;
  ar_rebuild_index : bool;
  ar_repair_indexes : bool;
  ar_force_repair : bool;
  ar_line_count : option (Z * bool);    (* [line_count] and [lines_from_head] *)
  ar_batch_size : option Z;
  ar_sanitize_output : bool;
  ar_json_output : bool;
  ar_sort_wallclock : bool;
}.
#[export] Instance Args_eq_dec : EqDecision Args.
Proof. solve_decision. Defined.
(** [memset], and the output is sanitized. *)
Definition no_args : Args :=
  mkArgs None None None [] None None None None false false false false false false false None None true false false.

Definition set_dir_path (v : bytes) (a : Args) : Args :=
  mkArgs (Some v) (ar_file_path a) (ar_unit_filter a) (ar_groups a) (ar_boot_filter a) (ar_since_arg a) (ar_until_arg a)
    (ar_encryption_private_key a) (ar_follow a) (ar_list_boots a) (ar_disk_usage a) (ar_stats a) (ar_rebuild_index a)
    (ar_repair_indexes a) (ar_force_repair a) (ar_line_count a) (ar_batch_size a) (ar_sanitize_output a) (ar_json_output a)
    (ar_sort_wallclock a).
Definition set_file_path (v : bytes) (a : Args) : Args :=
  mkArgs (ar_dir_path a) (Some v) (ar_unit_filter a) (ar_groups a) (ar_boot_filter a) (ar_since_arg a) (ar_until_arg a)
    (ar_encryption_private_key a) (ar_follow a) (ar_list_boots a) (ar_disk_usage a) (ar_stats a) (ar_rebuild_index a)
    (ar_repair_indexes a) (ar_force_repair a) (ar_line_count a) (ar_batch_size a) (ar_sanitize_output a) (ar_json_output a)
    (ar_sort_wallclock a).
Definition set_unit_arg (v : bytes) (a : Args) : Args :=
  mkArgs (ar_dir_path a) (ar_file_path a) (Some v) (ar_groups a) (ar_boot_filter a) (ar_since_arg a) (ar_until_arg a)
    (ar_encryption_private_key a) (ar_follow a) (ar_list_boots a) (ar_disk_usage a) (ar_stats a) (ar_rebuild_index a)
    (ar_repair_indexes a) (ar_force_repair a) (ar_line_count a) (ar_batch_size a) (ar_sanitize_output a) (ar_json_output a)
    (ar_sort_wallclock a).
Definition set_groups (v : list bytes) (a : Args) : Args :=
  mkArgs (ar_dir_path a) (ar_file_path a) (ar_unit_filter a) v (ar_boot_filter a) (ar_since_arg a) (ar_until_arg a)
    (ar_encryption_private_key a) (ar_follow a) (ar_list_boots a) (ar_disk_usage a) (ar_stats a) (ar_rebuild_index a)
    (ar_repair_indexes a) (ar_force_repair a) (ar_line_count a) (ar_batch_size a) (ar_sanitize_output a) (ar_json_output a)
    (ar_sort_wallclock a).
Definition set_boot_arg (v : bytes) (a : Args) : Args :=
  mkArgs (ar_dir_path a) (ar_file_path a) (ar_unit_filter a) (ar_groups a) (Some v) (ar_since_arg a) (ar_until_arg a)
    (ar_encryption_private_key a) (ar_follow a) (ar_list_boots a) (ar_disk_usage a) (ar_stats a) (ar_rebuild_index a)
    (ar_repair_indexes a) (ar_force_repair a) (ar_line_count a) (ar_batch_size a) (ar_sanitize_output a) (ar_json_output a)
    (ar_sort_wallclock a).
Definition set_bounds (since until : option bytes) (a : Args) : Args :=
  mkArgs (ar_dir_path a) (ar_file_path a) (ar_unit_filter a) (ar_groups a) (ar_boot_filter a) since until
    (ar_encryption_private_key a) (ar_follow a) (ar_list_boots a) (ar_disk_usage a) (ar_stats a) (ar_rebuild_index a)
    (ar_repair_indexes a) (ar_force_repair a) (ar_line_count a) (ar_batch_size a) (ar_sanitize_output a) (ar_json_output a)
    (ar_sort_wallclock a).
Definition set_key_arg (v : bytes) (a : Args) : Args :=
  mkArgs (ar_dir_path a) (ar_file_path a) (ar_unit_filter a) (ar_groups a) (ar_boot_filter a) (ar_since_arg a) (ar_until_arg a)
    (Some v) (ar_follow a) (ar_list_boots a) (ar_disk_usage a) (ar_stats a) (ar_rebuild_index a)
    (ar_repair_indexes a) (ar_force_repair a) (ar_line_count a) (ar_batch_size a) (ar_sanitize_output a) (ar_json_output a)
    (ar_sort_wallclock a).
(** What the program is asked to do. *)
Definition set_modes (follow list_boots disk_usage stats rebuild repair force : bool) (a : Args) : Args :=
  mkArgs (ar_dir_path a) (ar_file_path a) (ar_unit_filter a) (ar_groups a) (ar_boot_filter a) (ar_since_arg a) (ar_until_arg a)
    (ar_encryption_private_key a) (ar_follow a || follow) (ar_list_boots a || list_boots) (ar_disk_usage a || disk_usage)
    (ar_stats a || stats) (ar_rebuild_index a || rebuild) (ar_repair_indexes a || repair) (ar_force_repair a || force)
    (ar_line_count a) (ar_batch_size a) (ar_sanitize_output a) (ar_json_output a) (ar_sort_wallclock a).
Definition set_counts (lines : option (Z * bool)) (batch : option Z) (a : Args) : Args :=
  mkArgs (ar_dir_path a) (ar_file_path a) (ar_unit_filter a) (ar_groups a) (ar_boot_filter a) (ar_since_arg a) (ar_until_arg a)
    (ar_encryption_private_key a) (ar_follow a) (ar_list_boots a) (ar_disk_usage a) (ar_stats a) (ar_rebuild_index a)
    (ar_repair_indexes a) (ar_force_repair a) lines batch (ar_sanitize_output a) (ar_json_output a) (ar_sort_wallclock a).
Definition set_output (sanitize json wallclock : bool) (a : Args) : Args :=
  mkArgs (ar_dir_path a) (ar_file_path a) (ar_unit_filter a) (ar_groups a) (ar_boot_filter a) (ar_since_arg a) (ar_until_arg a)
    (ar_encryption_private_key a) (ar_follow a) (ar_list_boots a) (ar_disk_usage a) (ar_stats a) (ar_rebuild_index a)
    (ar_repair_indexes a) (ar_force_repair a) (ar_line_count a) (ar_batch_size a) sanitize json wallclock.

(** The parts between commas. *)
Fixpoint split_commas (s : bytes) : bytes * list bytes :=
  match s with
  | [] => ([], [])
  | c :: s' =>
      let '(part, parts) := split_commas s' in
      if c =? 44 then ([], part :: parts) else (c :: part, parts)
  end.
Definition add_group_option (value : bytes) (a : Args) : option Args :=
  let '(first, rest) := split_commas value in
  if negb (zlen value =? 0)
     && forallb (λ g, negb (zlen g =? 0) && (zlen g <? GROUP_SIZE) && valid_group_name g) (first :: rest)
  then Some (set_groups (ar_groups a ++ first :: rest) a) else None.
Definition line_count_option (value : bytes) (a : Args) : option Args :=
  lines ← parse_line_count value; Some (set_counts (Some lines) (ar_batch_size a) a).
Definition batch_size_option (value : bytes) (a : Args) : option Args :=
  size ← parse_batch_size value; Some (set_counts (ar_line_count a) (Some size) a).
Definition sort_option (value : bytes) (a : Args) : option Args :=
  if beq value (C "wallclock") then Some (set_output (ar_sanitize_output a) (ar_json_output a) true a) else None.

(** What an argument is: a flag, an option with its value behind the name, or an
    option whose value is the next argument. *)
Inductive Argument :=
  | AFlag (f : Args → Args)
  | AWith (value : bytes) (f : bytes → Args → option Args)
  | ANext (f : bytes → Args → option Args)
  | AUnknown.
Definition has_prefix (p s : bytes) : bool := beq (ztake (zlen p) s) p.
(** [strncmp(arg, "-n", 2) == 0 && arg[2] != '\0'] *)
Definition attached (p s : bytes) : bool := has_prefix p s && (zlen p <? zlen s).
Definition always (f : bytes → Args → Args) : bytes → Args → option Args := λ v a, Some (f v a).

Definition classify (arg : bytes) : Argument :=
  let named name := beq arg (C name) in
  let starts name := has_prefix (C name) arg in
  let joined name := attached (C name) arg in
  let since v a := set_bounds (Some v) (ar_until_arg a) a in
  let until v a := set_bounds (ar_since_arg a) (Some v) a in
  if named "-f" then AFlag (set_modes true false false false false false false)
  else if named "-n" then ANext line_count_option
  else if joined "-n" then AWith (zdrop 2 arg) line_count_option
  else if named "--batch-size" || named "-B" then ANext batch_size_option
  else if starts "--batch-size=" || starts "-B"
  then AWith (if byte_at arg 1 =? 66 then zdrop 2 arg else zdrop 13 arg) batch_size_option
  else if named "-D" then ANext (always set_dir_path)
  else if joined "-D" then AWith (zdrop 2 arg) (always set_dir_path)
  else if named "-i" then ANext (always set_file_path)
  else if joined "-i" then AWith (zdrop 2 arg) (always set_file_path)
  else if named "-u" then ANext (always set_unit_arg)
  else if joined "-u" then AWith (zdrop 2 arg) (always set_unit_arg)
  else if named "--group" then ANext add_group_option
  else if starts "--group=" then AWith (zdrop 8 arg) add_group_option
  else if named "-b" then ANext (always set_boot_arg)
  else if joined "-b" then AWith (zdrop 2 arg) (always set_boot_arg)
  else if named "--list-boots" then AFlag (set_modes false true false false false false false)
  else if named "--disk-usage" then AFlag (set_modes false false true false false false false)
  else if named "--stats" then AFlag (set_modes false false false true false false false)
  else if named "--rebuild-index" then AFlag (set_modes false false false false true false false)
  else if named "--repair-index" || named "--repair-indexes" then AFlag (set_modes false false false false false true false)
  else if named "--force-repair" then AFlag (set_modes false false false false false false true)
  else if named "--sanitize-output" then AFlag (λ a, set_output true (ar_json_output a) (ar_sort_wallclock a) a)
  else if named "--no-sanitize-output" then AFlag (λ a, set_output false (ar_json_output a) (ar_sort_wallclock a) a)
  else if named "--json" then AFlag (λ a, set_output (ar_sanitize_output a) true (ar_sort_wallclock a) a)
  else if named "--sort" then ANext sort_option
  else if starts "--sort=" then AWith (zdrop 7 arg) sort_option
  else if named "--since" then ANext (always since)
  else if starts "--since=" then AWith (zdrop 8 arg) (always since)
  else if named "--until" then ANext (always until)
  else if starts "--until=" then AWith (zdrop 8 arg) (always until)
  else if named "--encryption-private-key" then ANext (always set_key_arg)
  else if starts "--encryption-private-key=" then AWith (zdrop 25 arg) (always set_key_arg)
  else AUnknown.

Fixpoint parse_arguments (args : list bytes) (a : Args) : option Args :=
  match args with
  | [] => Some a
  | arg :: args' =>
      match classify arg with
      | AFlag f => parse_arguments args' (f a)
      | AWith value f => a' ← f value a; parse_arguments args' a'
      | ANext f => match args' with [] => None | value :: args'' => a' ← f value a; parse_arguments args'' a' end
      | AUnknown => None
      end
  end.

(** ** The combinations that are refused *)
Definition count_true (l : list bool) : nat := length (List.filter id l).
Definition lines_from_head (a : Args) : bool := match ar_line_count a with Some (_, h) => h | None => false end.
Definition is_set {A} (x : option A) : bool := match x with Some _ => true | None => false end.
Definition conflicting (a : Args) : bool :=
  (is_set (ar_dir_path a) && is_set (ar_file_path a))
  || (1 <? count_true [ar_disk_usage a; ar_stats a; ar_list_boots a; ar_rebuild_index a])%nat
  || (ar_repair_indexes a && ar_rebuild_index a)
  || (ar_force_repair a && negb (ar_repair_indexes a) && negb (ar_rebuild_index a))
  || (ar_force_repair a && ar_follow a)
  || (ar_stats a && ar_follow a)
  || (ar_follow a && lines_from_head a)
  || (negb (zlen (ar_groups a) =? 0) && (ar_disk_usage a || ar_list_boots a || ar_stats a))
  || (ar_rebuild_index a
      && (negb (is_set (ar_file_path a)) || ar_follow a || is_set (ar_unit_filter a) || negb (zlen (ar_groups a) =? 0)
          || is_set (ar_boot_filter a) || is_set (ar_since_arg a) || is_set (ar_until_arg a)))
  || (ar_follow a && (is_cursor_arg (ar_since_arg a) || is_cursor_arg (ar_until_arg a)))
  || (is_set (ar_batch_size a)
      && ((is_set (ar_line_count a) && negb (lines_from_head a)) || ar_disk_usage a || ar_stats a || ar_list_boots a
          || ar_rebuild_index a || ar_repair_indexes a || ar_force_repair a)).

(** [PlayerOptions]; the boot and the time at which following started are filled
    in by [main]. *)
Record PlayerOptions := mkPlayerOptions {
  po_args : Args;
  po_path : bytes;
  po_since_cursor : option bytes;
  po_until_cursor : option bytes;
  po_since_ts : option Z;
  po_until_ts : option Z;
  po_boot_id_filter : option bytes;
  po_boot_seq_filter : option Z;
  po_follow_start_ts : Z;
}.
#[export] Instance PlayerOptions_eq_dec : EqDecision PlayerOptions.
Proof. solve_decision. Defined.

(** One of --since and --until: a cursor or a time. *)
Definition parse_bound `{T : CTime} (arg : option bytes) : option (option bytes * option Z) :=
  match arg with
  | None => Some (None, None)
  | Some text =>
      if is_cursor_arg arg then Some (Some text, None) else ts ← parse_time_arg text; Some (None, Some ts)
  end.

Definition parse_options `{T : CTime} (LOG_DIR : bytes) (args : list bytes) : option PlayerOptions :=
  a ← parse_arguments args no_args;
  if conflicting a then None
  else
    let path := match ar_file_path a with
                | Some p => p
                | None => match ar_dir_path a with Some p => p | None => LOG_DIR end
                end in
    '(since_cursor, since_ts) ← parse_bound (ar_since_arg a);
    '(until_cursor, until_ts) ← parse_bound (ar_until_arg a);
    if match since_ts, until_ts with Some s, Some u => u <? s | _, _ => false end then None
    else Some (mkPlayerOptions a path since_cursor until_cursor since_ts until_ts None None 0).
