(* ===== verification/CliOutput.v ===== *)
(** * What the player prints (src/src/player.c)

    Matching and copying of entries, the text and JSON lines, and which of the
    collected entries are printed.  [strftime] is modelled in the C locale;
    printing a JSON document is a parameter (class [Jansson]).  Standard output
    travels with the [PrintContext]. *)
From S2P Require Import Prelude Bytes Crypto Segment CText Json Player CliOptions.

(** ** Times as text *)
Definition pad2 (v : Z) : bytes := [48 + v / 10; 48 + v mod 10].
Definition month_name (mon : Z) : bytes :=
  nth (Z.to_nat mon) (map C ["Jan"; "Feb"; "Mar"; "Apr"; "May"; "Jun"; "Jul"; "Aug"; "Sep"; "Oct"; "Nov"; "Dec"]%string) (C "?").
Definition clock_text (tm : Tm) : bytes := pad2 (tm_hour tm) ++ C ":" ++ pad2 (tm_min tm) ++ C ":" ++ pad2 (tm_sec tm).
(** "%b %d %H:%M:%S" and "%Y-%m-%d %H:%M:%S": both fit the buffers of 32 bytes. *)
Definition short_text (tm : Tm) : bytes := month_name (tm_mon tm) ++ C " " ++ pad2 (tm_mday tm) ++ C " " ++ clock_text tm.
Definition full_text (tm : Tm) : bytes :=
  print_u64 (tm_year tm + 1900) ++ C "-" ++ pad2 (tm_mon tm + 1) ++ C "-" ++ pad2 (tm_mday tm) ++ C " " ++ clock_text tm.

Section output.
Context `{T : CTime} `{J : Jansson}.

Definition format_realtime (realtime_ts : Z) : bytes :=
  match localtime_r (realtime_ts / 1000000) with Some tm => short_text tm | None => print_u64 realtime_ts end.
Definition format_realtime_full (realtime_ts : Z) : bytes :=
  match localtime_r (realtime_ts / 1000000) with Some tm => full_text tm | None => print_u64 realtime_ts end.

(** ** Entries *)

(** The copy of an entry, with [order] and [follow_new]. *)
Record PlayerEntry := mkPlayerEntry {
  pe_entry : RecorderEntry;
  pe_order : Z;
  pe_follow_new : bool;
}.
(** [strdup] ends every string at its first NUL. *)
Definition copy_player_entry (e : RecorderEntry) : RecorderEntry :=
  mkRecorderEntry (re_boot_seq e) (cstr (re_boot_id e)) (re_segment_seq e) (re_frame_offset e) (re_frame_entry_index e)
    (re_realtime_ts e) (re_monotonic_ts e) 0 (re_pid e) (re_uid e) (re_gid e) (re_priority e) (re_errno_value e)
    (cstr <$> re_hostname e) (cstr <$> re_comm e) (cstr <$> re_unit e) (cstr <$> re_exe e) (cstr <$> re_message e)
    (cstr <$> re_message_id e) (map (λ f, mkRecorderField (cstr <$> rf_name f) (rf_value f)) (re_fields e)) (cstr (re_group e)).

Record PrintContext := mkPrintContext {
  pc_unit_filter : option bytes;
  pc_boot_id_filter : option bytes;
  pc_boot_seq_filter : option Z;
  pc_since_ts : option Z;
  pc_until_ts : option Z;
  pc_min_frame_offset : Z;
  pc_follow_start_ts : Z;
  pc_initial_follow_scan : bool;
  pc_stream_output : bool;
  pc_sanitize_output : bool;
  pc_json_output : bool;
  pc_entries : list PlayerEntry;
  pc_entry_count : Z;                   (* of [pc_entries], or the number printed *)
  pc_stdout : bytes;
}.
Definition set_entries (l : list PlayerEntry) (count : Z) (pc : PrintContext) : PrintContext :=
  mkPrintContext (pc_unit_filter pc) (pc_boot_id_filter pc) (pc_boot_seq_filter pc) (pc_since_ts pc) (pc_until_ts pc)
    (pc_min_frame_offset pc) (pc_follow_start_ts pc) (pc_initial_follow_scan pc) (pc_stream_output pc)
    (pc_sanitize_output pc) (pc_json_output pc) l count (pc_stdout pc).
Definition write_stdout (text : bytes) (pc : PrintContext) : PrintContext :=
  mkPrintContext (pc_unit_filter pc) (pc_boot_id_filter pc) (pc_boot_seq_filter pc) (pc_since_ts pc) (pc_until_ts pc)
    (pc_min_frame_offset pc) (pc_follow_start_ts pc) (pc_initial_follow_scan pc) (pc_stream_output pc)
    (pc_sanitize_output pc) (pc_json_output pc) (pc_entries pc) (pc_entry_count pc) (pc_stdout pc ++ text).
Definition set_streaming (initial_follow_scan stream_output : bool) (pc : PrintContext) : PrintContext :=
  mkPrintContext (pc_unit_filter pc) (pc_boot_id_filter pc) (pc_boot_seq_filter pc) (pc_since_ts pc) (pc_until_ts pc)
    (pc_min_frame_offset pc) (pc_follow_start_ts pc) initial_follow_scan stream_output
    (pc_sanitize_output pc) (pc_json_output pc) (pc_entries pc) (pc_entry_count pc) (pc_stdout pc).

(** [strncmp] with the length of the filter. *)
Definition boot_matches (pc : PrintContext) (boot_seq : Z) (boot_id : bytes) : bool :=
  match pc_boot_seq_filter pc with
  | Some seq => boot_seq =? seq
  | None =>
      match pc_boot_id_filter pc with
      | None => true
      | Some filter => (0 <? zlen filter) && has_prefix filter (cstr boot_id)
      end
  end.
Definition entry_matches_values (pc : PrintContext) (realtime_ts : Z) (unit : option bytes) : bool :=
  match pc_since_ts pc with Some since => since <=? realtime_ts | None => true end
  && match pc_until_ts pc with Some until => realtime_ts <=? until | None => true end
  && match pc_unit_filter pc with
     | None => true
     | Some filter => match unit with Some u => beq (cstr u) filter | None => false end
     end.

(** ** One line *)
Definition hexdigit (d : Z) : Z := if d <? 10 then 48 + d else 55 + d.
Definition print_player_field (value : option bytes) (sanitize : bool) : bytes :=
  concat (map (λ c,
    if sanitize && (((c <? 32) && negb (c =? 10) && negb (c =? 9)) || (c =? 127))
    then C "\x" ++ [hexdigit (c / 16); hexdigit (c mod 16)] else [c]) (default [] value)).

(** [json_object_set_new] with NULL adds nothing. *)
Definition member (key : string) (value : option json) : list (bytes * json) :=
  match value with Some v => [(C key, v)] | None => [] end.
Definition integer (v : Z) : option json := Some (JInt (s64 v)).
Definition text_or_null (s : option bytes) : option json := match s with Some t => json_string t | None => Some JNull end.
Definition json_field (f : RecorderField) : json :=
  JObj (member "name" (text_or_null (rf_name f)) ++ member "value" (Some (JArr (map JInt (rf_value f))))).
Definition entry_object (e : RecorderEntry) : json :=
  JObj (member "boot_seq" (integer (re_boot_seq e)) ++ member "boot_id" (json_string (re_boot_id e))
    ++ member "segment_seq" (integer (re_segment_seq e)) ++ member "frame_offset" (integer (re_frame_offset e))
    ++ member "frame_entry_index" (integer (re_frame_entry_index e))
    ++ member "timestamp" (json_string (format_realtime (re_realtime_ts e)))
    ++ member "realtime_usec" (integer (re_realtime_ts e)) ++ member "monotonic_usec" (integer (re_monotonic_ts e))
    ++ member "pid" (integer (re_pid e)) ++ member "uid" (integer (re_uid e)) ++ member "gid" (integer (re_gid e))
    ++ member "priority" (integer (re_priority e)) ++ member "errno" (integer (re_errno_value e))
    ++ member "hostname" (text_or_null (re_hostname e)) ++ member "comm" (text_or_null (re_comm e))
    ++ member "unit" (text_or_null (re_unit e)) ++ member "exe" (text_or_null (re_exe e))
    ++ member "message" (json_string (default [] (re_message e))) ++ member "message_id" (text_or_null (re_message_id e))
    ++ member "group" (json_string (re_group e)) ++ member "fields" (Some (JArr (map json_field (re_fields e))))).
(** Nothing but a message on standard error when the document cannot be written. *)
Definition print_entry_json (e : RecorderEntry) : bytes :=
  match json_dumps (entry_object e) with Some text => text ++ [10] | None => [] end.

Definition text_of (s : option bytes) : bytes := default [] s.
Definition entry_identifier (e : RecorderEntry) : bytes :=
  let identifier := if zlen (text_of (re_comm e)) =? 0 then text_of (re_unit e) else text_of (re_comm e) in
  if zlen identifier =? 0
  then match rsplit 47 (text_of (re_exe e)) with Some (_, name) => name | None => text_of (re_exe e) end
  else identifier.
Definition print_entry (e : RecorderEntry) (sanitize_output json_output : bool) : bytes :=
  if json_output then print_entry_json e
  else
    let field s := print_player_field (Some s) sanitize_output in
    let hostname := text_of (re_hostname e) in
    let identifier := entry_identifier e in
    format_realtime (re_realtime_ts e)
    ++ (if negb (zlen hostname =? 0) && negb (beq hostname (C "-")) then C " " ++ field hostname else [])
    ++ (if zlen identifier =? 0 then C " "
        else C " " ++ field identifier
             ++ (if negb (re_pid e =? 0) then C "[" ++ print_u64 (re_pid e) ++ C "]: " else C ": "))
    ++ field (text_of (re_message e)) ++ [10].

(** ** Collecting, or printing as they come *)
Definition append_player_entry (e : RecorderEntry) (pc : PrintContext) : PrintContext :=
  set_entries
    (pc_entries pc ++ [mkPlayerEntry (copy_player_entry e) (pc_entry_count pc)
                         (pc_initial_follow_scan pc && (pc_follow_start_ts pc <=? re_realtime_ts e))])
    (pc_entry_count pc + 1) pc.
Definition matches (pc : PrintContext) (e : RecorderEntry) : bool :=
  (pc_min_frame_offset pc <=? re_frame_offset e) && boot_matches pc (re_boot_seq e) (re_boot_id e)
  && entry_matches_values pc (re_realtime_ts e) (re_unit e).
Definition print_record : entry_cb PrintContext := λ e pc,
  if negb (matches pc e) then (0, pc)
  else if pc_stream_output pc
  then (0, set_entries (pc_entries pc) (pc_entry_count pc + 1)
             (write_stdout (print_entry (copy_player_entry e) (pc_sanitize_output pc) (pc_json_output pc)) pc))
  else (0, append_player_entry e pc).

Definition compare_player_entries (a b : PlayerEntry) : comparison :=
  lex (re_realtime_ts (pe_entry a) ?= re_realtime_ts (pe_entry b)) (pe_order a ?= pe_order b).

(** ** Which of the collected entries are printed *)
Definition FOLLOW_INITIAL_ENTRY_COUNT : Z := 10.

(** [old_seen] entries from before the start were passed. *)
Fixpoint follow_selection (old_count initial_count old_seen : Z) (entries : list PlayerEntry) : list PlayerEntry :=
  match entries with
  | [] => []
  | e :: entries' =>
      (if pe_follow_new e || (old_count - old_seen <=? initial_count) then [e] else [])
      ++ follow_selection old_count initial_count (if pe_follow_new e then old_seen else old_seen + 1) entries'
  end.
Definition selected_entries (entries : list PlayerEntry) (line_count : option (Z * bool)) (initial_follow_scan : bool)
  : list PlayerEntry :=
  let count := zlen entries in
  if negb initial_follow_scan
  then
    match line_count with
    | None => entries
    | Some (n, true) => if n <? count then ztake n entries else entries
    | Some (n, false) => if n <? count then zdrop (count - n) entries else entries
    end
  else
    follow_selection (zlen (List.filter (λ e, negb (pe_follow_new e)) entries))
      (match line_count with Some (n, _) => n | None => FOLLOW_INITIAL_ENTRY_COUNT end) 0 entries.
Definition print_selected_entries (o : PlayerOptions) (initial_follow_scan : bool) (pc : PrintContext) : PrintContext :=
  write_stdout
    (concat (map (λ e, print_entry (pe_entry e) (ar_sanitize_output (po_args o)) (ar_json_output (po_args o)))
       (selected_entries (pc_entries pc) (ar_line_count (po_args o)) initial_follow_scan))) pc.
End output.
