(* ===== verification/CliBoots.v ===== *)
(** * The boots of a store, as the player lists them (src/src/player.c)

    The segments of all groups in the order of their numbers, one [BootInfo] per
    boot number or id, and the boot that -b selects.  The messages on standard
    error are not modelled. *)
From S2P Require Import Prelude Bytes Crypto Segment CText Boots Player CliOptions CliOutput.

Definition PATH_MAX : Z := 4096.
(** [base/name], with ENAMETOOLONG when it does not fit a buffer of [PATH_MAX]. *)
Definition join_path_component (base name : bytes) : option bytes :=
  if (PATH_MAX <=? zlen base) || (PATH_MAX - zlen base <=? zlen name) || (PATH_MAX - zlen base - zlen name <=? 1)
  then None else Some (base ++ [47] ++ name).

(** ** The two exchange sorts

    [for i, for j > i: if items[j] is less than items[i], swap them]: [x] is
    [items[i]], and the rest is passed once. *)
Section exchange.
Context {A : Type} (key : A → Z).
Fixpoint exchange_pass (x : A) (l : list A) : A * list A :=
  match l with
  | [] => (x, [])
  | y :: l' =>
      if key y <? key x
      then let '(m, rest) := exchange_pass y l' in (m, x :: rest)
      else let '(m, rest) := exchange_pass x l' in (m, y :: rest)
  end.
Fixpoint exchange_loop (n : nat) (l : list A) : list A :=
  match n, l with
  | S n', x :: l' => let '(m, rest) := exchange_pass x l' in m :: exchange_loop n' rest
  | _, _ => l
  end.
End exchange.
Definition sort_segment_files (items : list SegmentPath) : list SegmentPath := exchange_loop sp_segment_seq (length items) items.

(** ** Collecting the segments *)
Definition add_segment_file (path : bytes) (segment_seq : Z) (items : list SegmentPath) : option (list SegmentPath) :=
  if PATH_MAX <=? zlen path then None else Some (items ++ [mkSegmentPath path segment_seq]).

Fixpoint segments_in_dir (dir_path : bytes) (names : list bytes) (items : list SegmentPath) : option (list SegmentPath) :=
  match names with
  | [] => Some items
  | name :: names' =>
      match segment_seq_from_name name with
      | None => segments_in_dir dir_path names' items
      | Some seq =>
          path ← join_path_component dir_path name;
          items' ← add_segment_file path seq items;
          segments_in_dir dir_path names' items'
      end
  end.
Definition collect_segments_in_dir (fs : ReadFs) (dir_path : bytes) (items : list SegmentPath) : option (list SegmentPath) :=
  match rd_dir fs dir_path with Ok names => segments_in_dir dir_path names items | Err _ => None end.

Fixpoint log_segments_loop (fs : ReadFs) (root_path : bytes) (names : list bytes) (items : list SegmentPath)
  : option (list SegmentPath) :=
  match names with
  | [] => Some items
  | name :: names' =>
      if beq name (C ".") || beq name (C "..") then log_segments_loop fs root_path names' items
      else
        path ← join_path_component root_path name;
        items' ← match rd_stat fs path with
                 | Ok KReg =>
                     match segment_seq_from_name name with
                     | Some seq => add_segment_file path seq items
                     | None => Some items
                     end
                 | Ok KDir => if valid_group_name name then collect_segments_in_dir fs path items else Some items
                 | _ => Some items
                 end;
        log_segments_loop fs root_path names' items'
  end.
Definition collect_log_segments (fs : ReadFs) (root_path : bytes) : option (list SegmentPath) :=
  match rd_stat fs root_path, rd_dir fs root_path with
  | Ok KDir, Ok names => log_segments_loop fs root_path names []
  | _, _ => None
  end.

(** ** Boots *)
Record BootInfo := mkBootInfo {
  bi_boot_seq : Z;
  bi_boot_id : bytes;
  bi_first_realtime_ts : Z;
  bi_last_realtime_ts : Z;
  bi_first_segment_seq : Z;
}.
#[export] Instance BootInfo_eq_dec : EqDecision BootInfo.
Proof. solve_decision. Defined.
Definition sort_boots (boots : list BootInfo) : list BootInfo := exchange_loop bi_boot_seq (length boots) boots.

(** [find_boot]: the same number, or the same id. *)
Definition same_boot (boot_seq : Z) (boot_id : bytes) (b : BootInfo) : bool :=
  (bi_boot_seq b =? boot_seq) || beq (boot_key (bi_boot_id b)) (boot_key boot_id).
Definition last_realtime (header : SegmentHeader) (footer : SegmentFooter) : Z :=
  if sf_last_realtime_ts footer =? 0 then sh_first_realtime_ts header else sf_last_realtime_ts footer.
Definition widen_boot (header : SegmentHeader) (footer : SegmentFooter) (b : BootInfo) : BootInfo :=
  mkBootInfo (bi_boot_seq b) (bi_boot_id b)
    (if negb (sh_first_realtime_ts header =? 0)
        && ((bi_first_realtime_ts b =? 0) || (sh_first_realtime_ts header <? bi_first_realtime_ts b))
     then sh_first_realtime_ts header else bi_first_realtime_ts b)
    (if bi_last_realtime_ts b <? last_realtime header footer then last_realtime header footer else bi_last_realtime_ts b)
    (if sh_segment_seq header <? bi_first_segment_seq b then sh_segment_seq header else bi_first_segment_seq b).
Fixpoint add_boot (header : SegmentHeader) (footer : SegmentFooter) (boots : list BootInfo) : list BootInfo :=
  match boots with
  | [] =>
      [mkBootInfo (sh_boot_seq header) (boot_key (sh_boot_id header)) (sh_first_realtime_ts header)
         (last_realtime header footer) (sh_segment_seq header)]
  | b :: boots' =>
      if same_boot (sh_boot_seq header) (sh_boot_id header) b then widen_boot header footer b :: boots'
      else b :: add_boot header footer boots'
  end.

Section boots.
Context `{L : SegmentLib} `{T : CTime}.

Fixpoint boots_loop (fs : ReadFs) (items : list SegmentPath) (boots : list BootInfo) : option (list BootInfo) :=
  match items with
  | [] => Some boots
  | p :: items' =>
      match segment_scan_path (rd_file fs (sp_path p)) None None tt with
      | ScanDone header footer _ _ => boots_loop fs items' (add_boot header footer boots)
      | _ => None
      end
  end.
Definition collect_boots_from_segments (fs : ReadFs) (items : list SegmentPath) : option (list BootInfo) :=
  boots ← boots_loop fs items []; Some (sort_boots boots).

Definition collect_boots_for_path (fs : ReadFs) (path : bytes) : option (list BootInfo) :=
  match rd_stat fs path with
  | Err _ => None
  | Ok KDir => items ← collect_log_segments fs path; collect_boots_from_segments fs (sort_segment_files items)
  | Ok _ =>
      items ← add_segment_file path (default 0 (segment_seq_from_name path)) [];
      collect_boots_from_segments fs items
  end.

(** [printf] with a minimal width, to the left ([%-32s]) and to the right ([%4d]). *)
Definition pad_right (width : Z) (s : bytes) : bytes := s ++ repeat 32 (Z.to_nat (width - zlen s)).
Definition pad_left (width : Z) (s : bytes) : bytes := repeat 32 (Z.to_nat (width - zlen s)) ++ s.
Definition print_int (v : Z) : bytes := if v <? 0 then C "-" ++ print_u64 (- v) else print_u64 v.
Definition boot_line (idx : Z) (b : BootInfo) : bytes :=
  pad_left 4 (print_int idx) ++ C " " ++ pad_right 32 (bi_boot_id b) ++ C " " ++ format_realtime_full (bi_first_realtime_ts b)
  ++ C " - " ++ format_realtime_full (bi_last_realtime_ts b) ++ [10].
(** The exit status and standard output. *)
Definition print_boots (fs : ReadFs) (path : bytes) : Z * bytes :=
  match collect_boots_for_path fs path with
  | None => (1, [])
  | Some boots =>
      (0, pad_left 4 (C "idx") ++ C " " ++ pad_right 32 (C "boot-id") ++ C " " ++ pad_right 19 (C "first entry")
          ++ C " - last entry" ++ [10]
          ++ concat (imap (λ i b, boot_line (Z.of_nat i - zlen boots + 1) b) boots))
  end.

(** ** -b *)
Definition with_boot (id : option bytes) (seq : option Z) (o : PlayerOptions) : PlayerOptions :=
  mkPlayerOptions (po_args o) (po_path o) (po_since_cursor o) (po_until_cursor o) (po_since_ts o) (po_until_ts o)
    id seq (po_follow_start_ts o).
Definition resolve_boot_filter (fs : ReadFs) (o : PlayerOptions) : option PlayerOptions :=
  match ar_boot_filter (po_args o) with
  | None => Some (with_boot None None o)
  | Some filter =>
      match parse_i32 filter with
      | Some offset =>
          if offset <=? 0
          then
            boots ← collect_boots_for_path fs (po_path o);
            if (zlen boots =? 0) || ((offset <? 0) && (zlen boots <=? - offset)) then None
            else b ← boots !! Z.to_nat (zlen boots - 1 + offset); Some (with_boot None (Some (bi_boot_seq b)) o)
          else
            Some (match parse_u32 filter with Some seq => with_boot None (Some seq) o | None => with_boot (Some filter) None o end)
      | None =>
          Some (match parse_u32 filter with Some seq => with_boot None (Some seq) o | None => with_boot (Some filter) None o end)
      end
  end.
End boots.
