(* ===== verification/CliStats.v ===== *)
(** * Statistics, index repair and disk usage of the player (src/src/player.c)

    Counts and times per group, from the indexes where they can be used and from
    the segments where not; the rebuild of an index; the bytes that the files
    below a directory occupy.  The warnings on standard error are not modelled. *)
From S2P Require Import Prelude Bytes Crypto Segment Chunk Index CText Player PlayerSource PlayerIter CliOptions CliOutput CliBoots.

(** ** Counting *)
Record StatsGroup := mkStatsGroup {
  sg_name : bytes;
  sg_count : Z;
  sg_first_realtime_ts : Z;
  sg_last_realtime_ts : Z;
}.
#[export] Instance StatsGroup_eq_dec : EqDecision StatsGroup.
Proof. solve_decision. Defined.
Record StatsContext := mkStatsContext {
  sc_groups : list StatsGroup;
  sc_total_count : Z;
}.

Definition widen_group (count first last : Z) (g : StatsGroup) : StatsGroup :=
  mkStatsGroup (sg_name g) (u64 (sg_count g + count))
    (if (sg_count g =? 0) || (first <? sg_first_realtime_ts g) then first else sg_first_realtime_ts g)
    (if (sg_count g =? 0) || (sg_last_realtime_ts g <? last) then last else sg_last_realtime_ts g).
(** [stats_get_group] and the update; a new group's name must fit [name[64]]. *)
Fixpoint update_group (name : bytes) (count first last : Z) (groups : list StatsGroup) : option (list StatsGroup) :=
  match groups with
  | [] => if GROUP_SIZE <=? zlen name then None else Some [widen_group count first last (mkStatsGroup name 0 0 0)]
  | g :: groups' =>
      if beq (sg_name g) name then Some (widen_group count first last g :: groups')
      else rest ← update_group name count first last groups'; Some (g :: rest)
  end.
Definition stats_add (name : bytes) (count first last : Z) (stats : StatsContext) : option StatsContext :=
  if count =? 0 then Some stats
  else
    groups ← update_group name count first last (sc_groups stats);
    Some (mkStatsContext groups (u64 (sc_total_count stats + count))).

(** A callback's result: -1 and the data as they were, or 0. *)
Definition stats_rv (stats : StatsContext) (r : option StatsContext) : Z * StatsContext :=
  match r with Some stats' => (0, stats') | None => (-1, stats) end.
Definition collect_stats_frame (group : bytes) (frame : IndexFrame) (stats : StatsContext) : Z * StatsContext :=
  stats_rv stats (stats_add group (if_entry_count frame) (if_min_realtime_ts frame) (if_max_realtime_ts frame) stats).
Definition collect_stats_entry (group : bytes) : entry_cb StatsContext := λ entry stats,
  stats_rv stats (stats_add group 1 (re_realtime_ts entry) (re_realtime_ts entry) stats).
Fixpoint add_groups (scanned : list StatsGroup) (stats : StatsContext) : option StatsContext :=
  match scanned with
  | [] => Some stats
  | g :: scanned' =>
      stats' ← stats_add (sg_name g) (sg_count g) (sg_first_realtime_ts g) (sg_last_realtime_ts g) stats;
      add_groups scanned' stats'
  end.

Definition compare_stats_groups (a b : StatsGroup) : comparison := strcmp (sg_name a) (sg_name b).
Definition compare_disk_usage_groups (a b : bytes * Z) : comparison := strcmp a.1 b.1.

(** [stat] with [S_ISREG] or [S_ISDIR]. *)
Definition is_kind (fs : ReadFs) (path : bytes) (kind : Kind) : bool :=
  match rd_stat fs path with Ok k => bool_decide (k = kind) | Err _ => false end.

(** ** The newest segment of a directory *)
Fixpoint highest_sequence (names : list bytes) (highest : option Z) : option Z :=
  match names with
  | [] => highest
  | name :: names' =>
      highest_sequence names'
        (match segment_seq_from_name name with
         | None => highest
         | Some candidate =>
             match highest with
             | Some h => if h <? candidate then Some candidate else Some h
             | None => Some candidate
             end
         end)
  end.
Definition segment_is_latest (fs : ReadFs) (segment_path : bytes) : option bool :=
  let '(dir, name) := match rsplit 47 segment_path with Some (d, n) => (d, n) | None => ([], segment_path) end in
  sequence ← segment_seq_from_name name;
  if PATH_MAX <=? zlen dir then None
  else
    match rd_dir fs (if zlen dir =? 0 then C "." else dir) with
    | Err _ => None
    | Ok names => highest ← highest_sequence names None; Some (sequence =? highest)
    end.

Section stats.
Context `{F : FlatCC} `{QS : CLib} `{T : CTime}.

Definition repair_index_file {S} (segment_path index_path : bytes) (private_key : option bytes) (require_finalized : bool)
  : SM S unit :=
  decryptor ← lift (match private_key with None => Ok None | Some p => let? d := segment_decryptor_create p in Ok (Some d) end);
  fs ← get_fs;
  match rd_stat fs segment_path, rd_file fs segment_path, segment_scan_path (rd_file fs segment_path) decryptor None tt with
  | Ok _, Ok file, ScanDone _ footer committed_end _ =>
      if require_finalized && (negb (sf_present footer) || negb (committed_end =? zlen file)) then fail EAGAIN
      else
        data ← lift (index_rebuild_for_segment (rd_file fs segment_path) (rd_tmp fs index_path) decryptor);
        put_index_file index_path data
  | _, _, _ => fail EAGAIN
  end.

(** What an index adds, all of it or nothing. *)
Definition stats_scan_index (index_path segment_path group : bytes) : SM StatsContext unit := λ stats w,
  match index_scan_frames (rd_file (w_fs w) index_path) (rd_file (w_fs w) segment_path) (collect_stats_frame group)
          (mkStatsContext [] 0) with
  | (Ok _, scanned) =>
      match add_groups (sc_groups scanned) stats with
      | Some stats' => (Some tt, stats', w)
      | None => fail EUNSET stats w
      end
  | (Err e, _) => fail e stats w
  end.
Definition stats_scan_segment (r : Settings) (path group : bytes) : SM StatsContext unit :=
  _ ← scan_file r path (collect_stats_entry group) 0; mret tt.

(** What -D, -i and the repair options say. *)
Record StatsOptions := mkStatsOptions {
  so_private_key : option bytes;
  so_repair_indexes : bool;
  so_force_repair : bool;
}.
Definition stats_repair (o : StatsOptions) (segment_path index_path group : bytes) : SM StatsContext unit :=
  fs ← get_fs;
  match segment_is_latest fs segment_path with
  | Some latest =>
      if so_repair_indexes o && (so_force_repair o || negb latest)
      then _ ← repair_index_file segment_path index_path (so_private_key o) true; stats_scan_index index_path segment_path group
      else fail EUNSET
  | None => fail EUNSET
  end.
Definition stats_scan_segment_with_fallback (r : Settings) (o : StatsOptions) (segment_path group : bytes) : SM StatsContext unit :=
  match segment_index_path segment_path PATH_SIZE with
  | None => fail EUNSET
  | Some index_path =>
      indexed ← attempt (stats_scan_index index_path segment_path group);
      match indexed with
      | Some _ => mret tt
      | None =>
          repaired ← attempt (stats_repair o segment_path index_path group);
          match repaired with Some _ => mret tt | None => stats_scan_segment r segment_path group end
      end
  end.

Definition is_segment_name (name : bytes) : bool := (5 <=? zlen name) && beq (zdrop (zlen name - 4) name) (C ".seg").
Fixpoint stats_names (r : Settings) (o : StatsOptions) (path group : bytes) (names : list bytes) : SM StatsContext unit :=
  match names with
  | [] => mret tt
  | name :: names' =>
      fs ← get_fs;
      _ ← (match child_path path name with
           | Some child =>
               if is_segment_name name && is_kind fs child KReg
               then stats_scan_segment_with_fallback r o child group else mret tt
           | None => mret tt
           end);
      stats_names r o path group names'
  end.
Definition stats_scan_directory (r : Settings) (o : StatsOptions) (path group : bytes) : SM StatsContext unit :=
  fs ← get_fs;
  names ← lift (rd_dir fs path);
  stats_names r o path group names.
Fixpoint stats_groups (r : Settings) (o : StatsOptions) (path : bytes) (names : list bytes) : SM StatsContext unit :=
  match names with
  | [] => mret tt
  | name :: names' =>
      fs ← get_fs;
      _ ← (match child_path path name with
           | Some child =>
               if is_kind fs child KDir && valid_group_name name
               then stats_scan_directory r o child name else mret tt
           | None => mret tt
           end);
      stats_groups r o path names'
  end.
Definition scan_stats_path (r : Settings) (o : StatsOptions) (path : bytes) (is_directory : bool) : SM StatsContext unit :=
  if negb is_directory
  then
    match group_from_path path None with
    | Some group => stats_scan_segment_with_fallback r o path group
    | None => fail EUNSET
    end
  else fs ← get_fs; names ← lift (rd_dir fs path); stats_groups r o path names.

(** ** Printing *)
Definition widest (width : Z) (texts : list bytes) : Z := fold_left (λ w t, Z.max w (zlen t)) texts width.
Definition stats_text (groups : list StatsGroup) (total : Z) : bytes :=
  let label_width := widest (zlen (C "Group")) (map sg_name groups) in
  let count_width := widest (zlen (C "Lines")) (map (λ g, print_u64 (sg_count g)) groups) in
  let line label count := pad_right label_width label ++ C " " ++ pad_left count_width count in
  line (C "Group") (C "Lines") ++ C "  " ++ pad_right 19 (C "First entry") ++ C "  " ++ pad_right 19 (C "Latest timestamp") ++ [10]
  ++ concat (map (λ g,
       line (sg_name g) (print_u64 (sg_count g)) ++ C "  " ++ pad_right 19 (format_realtime_full (sg_first_realtime_ts g))
       ++ C "  " ++ pad_right 19 (format_realtime_full (sg_last_realtime_ts g)) ++ [10]) groups)
  ++ [10] ++ line (C "Total") (print_u64 total) ++ [10].

(** Reader and key of [print_stats] and [scan_log_root]. *)
Definition open_reader (fs : ReadFs) (o : PlayerOptions) (inotify_ok watches_ok : bool) : option RecorderPlayer :=
  reader ← rec_player_open fs (po_path o) inotify_ok watches_ok;
  match ar_encryption_private_key (po_args o) with
  | None => Some reader
  | Some key => match rec_player_set_private_key (Some key) reader with (Ok _, reader') => Some reader' | (Err _, _) => None end
  end.
Definition print_stats (o : PlayerOptions) (inotify_ok watches_ok : bool) (w : World) : Z * bytes * World :=
  match open_reader (w_fs w) o inotify_ok watches_ok with
  | None => (1, [], w)
  | Some reader =>
      let so := mkStatsOptions (ar_encryption_private_key (po_args o)) (ar_repair_indexes (po_args o)) (ar_force_repair (po_args o)) in
      let is_directory := is_set (ar_dir_path (po_args o)) || negb (is_set (ar_file_path (po_args o))) in
      match scan_stats_path (rp_settings reader) so (po_path o) is_directory (mkStatsContext [] 0) w with
      | (Some _, stats, w') => (0, stats_text (qsort compare_stats_groups (sc_groups stats)) (sc_total_count stats), w')
      | (None, _, w') => (1, [], w')
      end
  end.

(** ** --rebuild-index *)
Definition rebuild_index (o : PlayerOptions) (w : World) : Z * bytes * World :=
  match ar_file_path (po_args o), segment_index_path (po_path o) PATH_SIZE with
  | Some _, Some index_path =>
      let force := ar_force_repair (po_args o) in
      let refused := negb force && match segment_is_latest (w_fs w) (po_path o) with Some latest => latest | None => true end in
      if refused then (1, [], set_errno EAGAIN w)
      else
        match repair_index_file (po_path o) index_path (ar_encryption_private_key (po_args o)) (negb force) tt w with
        | (Some _, _, w') => (0, C "rebuilt " ++ index_path ++ [10], w')
        | (None, _, w') => (1, [], w')
        end
  | _, _ => (1, [], w)
  end.
End stats.

(** ** Disk usage

    [lstat] does not follow symbolic links, [rd_stat] does. *)
Section usage.
Context (lstat : bytes → Res Kind) (fs : ReadFs).
Definition file_bytes (path : bytes) : Z := u64 (rd_blocks fs path * 512).
Fixpoint children_usage (usage : bytes → option Z) (path : bytes) (names : list bytes) (total : Z) : option Z :=
  match names with
  | [] => Some total
  | name :: names' =>
      if beq name (C ".") || beq name (C "..") then children_usage usage path names' total
      else
        child ← child_path path name;
        child_bytes ← usage child;
        children_usage usage path names' (u64 (total + child_bytes))
  end.
(** [n] bounds the depth. *)
Fixpoint disk_usage_path (n : nat) (path : bytes) : option Z :=
  match lstat path with
  | Err _ => None
  | Ok KReg => Some (file_bytes path)
  | Ok KOther => Some 0
  | Ok KDir =>
      match n, rd_dir fs path with
      | S n', Ok names => children_usage (disk_usage_path n') path names 0
      | _, _ => None
      end
  end.

Fixpoint usage_groups (n : nat) (root_path : bytes) (names : list bytes) : option (list (bytes * Z)) :=
  match names with
  | [] => Some []
  | name :: names' =>
      match child_path root_path name with
      | Some path =>
          if valid_group_name name && is_kind fs path KDir
          then group_bytes ← disk_usage_path n path; rest ← usage_groups n root_path names'; Some ((name, group_bytes) :: rest)
          else usage_groups n root_path names'
      | None => usage_groups n root_path names'
      end
  end.
Definition usage_text (groups : list (bytes * Z)) (total : Z) : bytes :=
  let label_width := widest (zlen (C "Total")) groups.*1 in
  let value_width := widest (zlen (print_u64 total)) (map (λ g, print_u64 g.2) groups) in
  let line label value := pad_right label_width label ++ C ": " ++ pad_left value_width (print_u64 value) ++ C " bytes" ++ [10] in
  concat (map (λ g, line g.1 g.2) groups) ++ (if zlen groups =? 0 then [] else [10]) ++ line (C "Total") total.
Definition print_disk_usage `{CLib} (n : nat) (root_path : bytes) : Z * bytes :=
  match disk_usage_path n root_path, rd_dir fs root_path with
  | Some total, Ok names =>
      match usage_groups n root_path names with
      | Some groups => (0, usage_text (qsort compare_disk_usage_groups groups) total)
      | None => (1, [])
      end
  | _, _ => (1, [])
  end.
End usage.
