(* ===== verification/CliMain.v ===== *)
(** * The player's main program (src/src/player.c)

    One scan of the log, the loop that follows it, and [main].  Waiting for the
    reader is a list of answers, as in the batch reader; without an answer for
    the next wait the program is still waiting.  The messages on standard error
    are not modelled: a failure is its exit status. *)
From S2P Require Import Prelude Bytes Crypto Segment Chunk Index CText Json Player PlayerCursor PlayerFollow PlayerSource PlayerIter PlayerMerge BatchReader CliOptions CliOutput CliBoots CliStats.

Inductive Ending :=
  | Exited (status : Z)
  | StillWaiting.
#[export] Instance Ending_eq_dec : EqDecision Ending.
Proof. solve_decision. Defined.

Section main.
Context `{F : FlatCC} `{QS : CLib} `{T : CTime} `{J : Jansson}.
Context (fuel : nat).

(** The reader and what was printed or collected. *)
Record Run := mkRun {
  ru_reader : RecorderPlayer;
  ru_output : PrintContext;
  ru_waits : list WaitAnswer;
}.

Definition set_run_reader (r : RecorderPlayer) (s : Run) : Run := mkRun r (ru_output s) (ru_waits s).
Definition set_run_output (pc : PrintContext) (s : Run) : Run := mkRun (ru_reader s) pc (ru_waits s).
(** A call on the reader, and a scan with [print_record] as its callback. *)
Definition run_reader {A} (m : SM RecorderPlayer A) : SM Run A := λ s w,
  let '(res, reader, w') := m (ru_reader s) w in (res, set_run_reader reader s, w').
Definition run_scan (scan : Settings → SM PrintContext unit) : SM Run unit := λ s w,
  let '(res, pc, w') := scan (rp_settings (ru_reader s)) (ru_output s) w in (res, set_run_output pc s, w').
Definition run_follow (initial_entries : Z) : SM Run unit := λ s w,
  let '(res, (f, pc), w') :=
    rec_player_scan_follow (rp_settings (ru_reader s)) print_record initial_entries (rp_follow (ru_reader s), ru_output s) w in
  (res, mkRun (set_follow f (ru_reader s)) pc (ru_waits s), w').
Definition on_output (f : PrintContext → PrintContext) : SM Run unit := modify (λ s, set_run_output (f (ru_output s)) s).

(** [wait_for_reader_change]; [false] when there is no answer yet. *)
Definition player_wait : SM Run bool := λ s w,
  match ru_waits s with
  | [] => (Some false, s, w)
  | a :: waits => (Some true, mkRun (wait_for_reader_change a (ru_reader s)) (ru_output s) waits, mkWorld (wa_fs a) (w_errno w))
  end.

(** ** Reading with [next] *)

(** [rec_player_get_entry] and [print_record] behind a successful [next]. *)
Definition print_current : SM Run unit :=
  s ← get;
  match rec_player_get_entry (ru_reader s) with
  | None => fail EUNSET
  | Some entry => modify (set_run_output (print_record entry (ru_output s)).2)
  end.
Definition at_until (o : PlayerOptions) (s : Run) : bool :=
  match po_until_cursor o with
  | Some until => bool_decide (rec_player_test_cursor (Some until) (ru_reader s) = Some true)
  | None => false
  end.
Definition enough_lines (o : PlayerOptions) (s : Run) : bool :=
  match ar_line_count (po_args o) with Some (n, _) => n <=? pc_entry_count (ru_output s) | None => false end.

(** Why the entries of a batch ended: its size, [next] returned 0, or the last
    entry that is wanted. *)
Inductive BatchEnd := Full | AtEnd | Reached.
Fixpoint batch_lines (n : nat) (o : PlayerOptions) (batch_size in_batch : Z) (cursor : option bytes)
  : SM Run (BatchEnd * option bytes) :=
  match n with
  | O => fail EOTHER
  | S n' =>
      if negb (in_batch <? batch_size) then mret (Full, cursor)
      else
        more ← run_reader (rec_player_next fuel);
        if negb more then mret (AtEnd, cursor)
        else
          _ ← print_current;
          s ← get;
          match rec_player_get_cursor (ru_reader s) with
          | None => fail EUNSET
          | Some next_cursor =>
              if at_until o s || enough_lines o s then mret (Reached, Some next_cursor)
              else batch_lines n' o batch_size (in_batch + 1) (Some next_cursor)
          end
  end.

Definition resume_at (cursor : bytes) : SM Run unit :=
  _ ← run_reader (rec_player_seek_cursor fuel (Some cursor));
  more ← run_reader (rec_player_next fuel);
  s ← get;
  if (more : bool) && bool_decide (rec_player_test_cursor (Some cursor) (ru_reader s) = Some true) then mret tt
  else fail EUNSET.

(** The end of the first scan in batches when following. *)
Definition print_initial (o : PlayerOptions) : SM Run unit :=
  on_output (λ pc,
    if pc_initial_follow_scan pc
    then set_streaming false true (set_entries [] 0 (print_selected_entries o true pc)) else pc).

(** [Some true]: the last wanted entry was reached; [None]: still waiting. *)
Fixpoint batches (n : nat) (o : PlayerOptions) (batch_size : Z) (cursor : option bytes) : SM Run (option bool) :=
  match n with
  | O => fail EOTHER
  | S n' =>
      _ ← (match cursor with Some c => resume_at c | None => mret tt end);
      '(ended, cursor) ← batch_lines (S n') o batch_size 0 cursor;
      match ended with
      | Reached => mret (Some true)
      | Full => batches n' o batch_size cursor
      | AtEnd =>
          if negb (ar_follow (po_args o)) then mret (Some false)
          else
            _ ← print_initial o;
            waited ← player_wait;
            if waited : bool then batches n' o batch_size cursor else mret None
      end
  end.

Definition seek_start (o : PlayerOptions) (to_since : bool) : SM Run unit :=
  run_reader
    (match po_since_cursor o with
     | Some cursor => rec_player_seek_cursor fuel (Some cursor)
     | None =>
         match po_since_ts o with
         | Some ts => if to_since then rec_player_seek_realtime_usec fuel ts else rec_player_seek_head
         | None => rec_player_seek_head
         end
     end).
Definition no_lines (o : PlayerOptions) : bool := match ar_line_count (po_args o) with Some (n, _) => n =? 0 | None => false end.

(** The part of [scan_log_once] with --batch-size. *)
Definition scan_in_batches (n : nat) (o : PlayerOptions) (batch_size : Z) : SM Run Ending :=
  _ ← on_output (λ pc, set_streaming (pc_initial_follow_scan pc) (negb (ar_follow (po_args o))) pc);
  if no_lines o then mret (Exited 0)
  else
    ended ← attempt (_ ← seek_start o true; batches n o batch_size None);
    mret (match ended with
          | None => Exited 1
          | Some None => StillWaiting
          | Some (Some reached) => if is_set (po_until_cursor o) && negb reached then Exited 1 else Exited 0
          end).

(** [while (next > 0)] until the cursor of --until; whether it was reached. *)
Fixpoint read_until (n : nat) (o : PlayerOptions) : SM Run bool :=
  match n with
  | O => fail EOTHER
  | S n' =>
      more ← run_reader (rec_player_next fuel);
      if negb more then mret false
      else
        _ ← print_current;
        s ← get;
        if at_until o s then mret true else read_until n' o
  end.
Definition scan_between_cursors (n : nat) (o : PlayerOptions) : SM Run unit :=
  _ ← seek_start o false;
  reached ← read_until n o;
  if is_set (po_until_cursor o) && negb reached then fail EUNSET else mret tt.

(** ** [scan_log_once] *)
Definition new_output (o : PlayerOptions) (initial_follow_scan : bool) (out : bytes) : PrintContext :=
  let a := po_args o in
  let cursors := is_set (po_since_cursor o) || is_set (po_until_cursor o) in
  mkPrintContext (ar_unit_filter a) (po_boot_id_filter o) (po_boot_seq_filter o) (po_since_ts o) (po_until_ts o) 0
    (po_follow_start_ts o) initial_follow_scan
    (ar_sort_wallclock a && negb (ar_follow a) && negb (is_set (ar_line_count a)) && negb cursors)
    (ar_sanitize_output a) (ar_json_output a) [] 0 out.
Definition sort_entries (pc : PrintContext) : PrintContext :=
  set_entries (qsort compare_player_entries (pc_entries pc)) (pc_entry_count pc) pc.

(** The scan without batches.  The three conditions leave nothing for the last
    branch of the source. *)
Definition scan_plain (n : nat) (o : PlayerOptions) : SM Run unit :=
  let a := po_args o in
  let cursors := is_set (po_since_cursor o) || is_set (po_until_cursor o) in
  if ar_follow a
  then run_follow (match ar_line_count a with Some (count, _) => count | None => FOLLOW_INITIAL_ENTRY_COUNT end)
  else if cursors then scan_between_cursors n o
  else if ar_sort_wallclock a then run_scan (λ r, rec_player_scan_wallclock n fuel r print_record)
  else run_scan (λ r, rec_player_scan_all r print_record).

Definition scan_log_once (n : nat) (o : PlayerOptions) (follow_initialized : bool) : SM Run Ending :=
  let a := po_args o in
  let initial_follow_scan := ar_follow a && negb follow_initialized in
  _ ← on_output (λ pc, new_output o initial_follow_scan (pc_stdout pc));
  match ar_batch_size a with
  | Some batch_size => scan_in_batches n o batch_size
  | None =>
      scanned ← attempt (scan_plain n o);
      match scanned with
      | None => mret (Exited 1)
      | Some _ =>
          let preordered := negb (ar_follow a) && negb (is_set (po_since_cursor o) || is_set (po_until_cursor o)) in
          _ ← on_output (λ pc, if ar_sort_wallclock a && negb preordered then sort_entries pc else pc);
          _ ← on_output (λ pc, if pc_stream_output pc then pc else print_selected_entries o initial_follow_scan pc);
          mret (Exited 0)
      end
  end.

(** ** [scan_log_root] *)
Fixpoint scan_loop (rounds n : nat) (o : PlayerOptions) (follow_initialized : bool) : SM Run Ending :=
  match rounds with
  | O => fail EOTHER
  | S rounds' =>
      ending ← scan_log_once n o follow_initialized;
      if bool_decide (ending = Exited 0) && ar_follow (po_args o)
      then waited ← player_wait; if waited : bool then scan_loop rounds' n o (negb (is_set (ar_batch_size (po_args o)))) else mret StillWaiting
      else mret ending
  end.

Definition configure (o : PlayerOptions) (reader : RecorderPlayer) : option RecorderPlayer :=
  let a := po_args o in
  let reader := if ar_repair_indexes a then rec_player_set_repair_indexes true reader else reader in
  let reader := if ar_force_repair a then rec_player_set_force_repair_indexes true reader else reader in
  let reader := if is_set (ar_batch_size a) && ar_sort_wallclock a then rec_player_set_order RECORDER_ORDER_WALLCLOCK reader else reader in
  reader ← match ar_unit_filter a with
           | None => Some reader
           | Some unit => match rec_player_set_unit_filter (Some unit) reader with (Ok _, r) => Some r | (Err _, _) => None end
           end;
  match ar_groups a with
  | [] => Some reader
  | groups => match rec_player_set_group_filter groups reader with (Ok _, r) => Some r | (Err _, _) => None end
  end.

(** What the system answers. *)
Record Env := mkEnv {
  en_lstat : bytes → Res Kind;
  en_inotify_ok : bool;
  en_watches_ok : bool;
  en_realtime : option Z;               (* CLOCK_REALTIME in microseconds *)
  en_waits : list WaitAnswer;
}.
Definition scan_log_root (n : nat) (o : PlayerOptions) (env : Env) (w : World) : option (Ending * bytes * World) :=
  match open_reader (w_fs w) o (en_inotify_ok env) (en_watches_ok env) ≫= configure o with
  | None => Some (Exited 1, [], w)
  | Some reader =>
      let '(ending, s, w') := scan_loop n n o false (mkRun reader (new_output o false []) (en_waits env)) w in
      e ← ending; Some (e, pc_stdout (ru_output s), w')
  end.

(** ** [main]: exit status, standard output and the world afterwards *)
Definition with_follow_start (now : option Z) (o : PlayerOptions) : PlayerOptions :=
  mkPlayerOptions (po_args o) (po_path o) (po_since_cursor o) (po_until_cursor o) (po_since_ts o) (po_until_ts o)
    (po_boot_id_filter o) (po_boot_seq_filter o)
    (match now with Some t => if ar_follow (po_args o) then t else po_follow_start_ts o | None => po_follow_start_ts o end).
Definition exits (x : Z * bytes) (w : World) : option (Ending * bytes * World) := Some (Exited x.1, x.2, w).
Definition player_main (n depth : nat) (LOG_DIR : bytes) (args : list bytes) (env : Env) (w : World)
  : option (Ending * bytes * World) :=
  let failure := exits (1, []) w in
  match parse_options LOG_DIR args with
  | None => failure
  | Some o =>
      let a := po_args o in
      match rd_stat (w_fs w) (po_path o) with
      | Err _ => failure
      | Ok kind =>
          if ar_list_boots a then exits (print_boots (w_fs w) (po_path o)) w
          else if ar_rebuild_index a then let '(status, out, w') := rebuild_index o w in exits (status, out) w'
          else if ar_stats a
          then let '(status, out, w') := print_stats o (en_inotify_ok env) (en_watches_ok env) w in exits (status, out) w'
          else
            match resolve_boot_filter (w_fs w) o with
            | None => failure
            | Some o =>
                let o := with_follow_start (en_realtime env) o in
                match kind with
                | KDir =>
                    if ar_disk_usage a then exits (print_disk_usage (en_lstat env) (w_fs w) depth (po_path o)) w
                    else scan_log_root n o env w
                | _ =>
                    if ar_disk_usage a || is_set (ar_dir_path a)
                       || (is_set (ar_file_path a) && negb (bool_decide (kind = KReg))) || ar_follow a
                    then failure else scan_log_root n o env w
                end
            end
      end
  end.
End main.
