(* ===== verification/CliProofs.v ===== *)
(** * Properties of the player's options and output

    A printed time reads back; the accepted options fit together; a sanitized
    line holds no control characters; which of the collected lines are printed;
    the boots are listed in order and cover the segments. *)
From S2P Require Import Prelude Bytes Crypto Segment CText Json Boots Player PlayerCursor BatchReader CliOptions CliOutput CliBoots CliStats.

(** ** Times *)
Lemma s32_id v : INT32_MIN <= v <= INT32_MAX → s32 v = v.
Proof.
  unfold INT32_MIN, INT32_MAX, s32, u32. intros Hv. destruct (Z.lt_ge_cases v 0).
  - rewrite <- (Z.mod_add v 1), Z.mod_small by lia. destruct (Z.ltb_spec (v + 1 * 4294967296) 2147483648); lia.
  - rewrite Z.mod_small by lia. destruct (Z.ltb_spec v 2147483648); lia.
Qed.

(** Text that [%d] reads as [v]. *)
Definition reads_as (v : Z) (s : bytes) : Prop := all_digits s ∧ s ≠ [] ∧ digits_value 0 s = v.
Lemma digit_start c s : isdigit c = true → isspace c = false ∧ skip_space (c :: s) = c :: s ∧ split_sign (c :: s) = (false, c :: s).
Proof.
  intros Hc%isdigit_range. assert (Hs : isspace c = false).
  { unfold isspace. destruct (Z.eqb_spec c 32); [lia|]. destruct (Z.leb_spec 9 c), (Z.leb_spec c 13); cbn; try done; lia. }
  split; [done|]. cbn [skip_space split_sign]. rewrite Hs. split; [done|].
  destruct (Z.eqb_spec c 45); [lia|]. destruct (Z.eqb_spec c 43); [lia|]. done.
Qed.
Lemma scan_reads v s rest : reads_as v s → 0 <= v <= INT32_MAX → no_digit rest → scan_int (s ++ rest) = Some (v, rest).
Proof.
  intros (Hd & Hne & Hv) Hr Hn. destruct s as [|c s]; [done|]. pose proof Hd as Hd'. apply Forall_cons in Hd' as [Hc _].
  destruct (digit_start c (s ++ rest) Hc) as (_ & Hsk & Hsp). unfold scan_int. cbn [app]. rewrite Hsk, Hsp.
  change (c :: s ++ rest) with ((c :: s) ++ rest). rewrite dec_digits_app, Hv by done.
  replace (zlen (c :: s) =? 0) with false; [|symmetry; apply Z.eqb_neq; rewrite zlen_cons; pose proof (zlen_nonneg s); lia].
  unfold INT32_MAX in Hr. cbn [negb]. rewrite Z.min_l, s32_id by (unfold INT32_MIN, INT32_MAX; lia). done.
Qed.
Lemma pad2_reads v : 0 <= v < 100 → reads_as v (pad2 v).
Proof.
  intros Hv. pose proof (Z.div_mod v 10 ltac:(lia)). pose proof (Z.mod_pos_bound v 10 ltac:(lia)).
  assert (0 <= v / 10 < 10) by (split; [apply Z.div_pos; lia|apply Z.div_lt_upper_bound; lia]).
  split; [|split; [done|]].
  - constructor; [by apply isdigit_digit|]. constructor; [by apply isdigit_digit|constructor].
  - unfold digits_value, pad2. cbn [fold_left]. lia.
Qed.
Lemma print_reads v : is_u64 v → reads_as v (print_u64 v).
Proof.
  intros Hv. unfold is_u64 in Hv. destruct (print_digits_ok 20 v) as (Hd & Hval & Hne); [|lia|done].
  change (10 ^ Z.of_nat 20) with 100000000000000000000. lia.
Qed.

(** A calendar time as [localtime_r] gives it, between 1970 and the largest year
    that [%d] reads. *)
Definition tm_ok (tm : Tm) : Prop :=
  1970 <= tm_year tm + 1900 <= INT32_MAX ∧ 0 <= tm_mon tm <= 11 ∧ 1 <= tm_mday tm <= 31 ∧
  0 <= tm_hour tm <= 23 ∧ 0 <= tm_min tm <= 59 ∧ 0 <= tm_sec tm <= 60.
Definition unknown_dst (tm : Tm) : Tm :=
  mkTm (tm_year tm) (tm_mon tm) (tm_mday tm) (tm_hour tm) (tm_min tm) (tm_sec tm) (-1).

Lemma sscanf_int format v s rest :
  reads_as v s → 0 <= v <= INT32_MAX → no_digit rest → sscanf (Int :: format) (s ++ rest) = v :: sscanf format rest.
Proof. intros Hv Hr Hn. cbn [sscanf]. by rewrite scan_reads with (v := v). Qed.
Lemma sscanf_char format c s : sscanf (Char c :: format) (c :: s) = sscanf format s.
Proof. cbn [sscanf]. by rewrite Z.eqb_refl. Qed.

Ltac scanning := first [done | apply print_reads; unfold is_u64; lia | apply pad2_reads; lia | unfold INT32_MAX; lia].
Lemma full_text_fields tm : tm_ok tm →
  sscanf (second_format Blank ++ [AnyChar]) (full_text tm) =
    [tm_year tm + 1900; tm_mon tm + 1; tm_mday tm; tm_hour tm; tm_min tm; tm_sec tm].
Proof.
  intros (Hy & Hmo & Hd & Hh & Hmi & Hs). unfold INT32_MAX in Hy.
  unfold second_format, minute_format, date_format, full_text, clock_text. cbn [app].
  change (C "-") with [45]. change (C ":") with [58]. change (C " ") with [32]. cbn [app].
  rewrite (sscanf_int _ (tm_year tm + 1900)) by scanning.
  rewrite sscanf_char, (sscanf_int _ (tm_mon tm + 1)) by scanning.
  rewrite sscanf_char, (sscanf_int _ (tm_mday tm)) by scanning.
  change (sscanf (Blank :: ?f) (32 :: ?s)) with (sscanf f (skip_space s)).
  destruct (pad2_reads (tm_hour tm)) as (Hdig & _ & _); [lia|]. apply Forall_cons in Hdig as [Hc _].
  change (skip_space (pad2 (tm_hour tm) ++ ?s)) with (skip_space ((48 + tm_hour tm / 10) :: (48 + tm_hour tm mod 10) :: s)).
  rewrite (proj1 (proj2 (digit_start _ _ Hc))). change ((48 + tm_hour tm / 10) :: (48 + tm_hour tm mod 10) :: ?s) with (pad2 (tm_hour tm) ++ s).
  rewrite (sscanf_int _ (tm_hour tm)) by scanning.
  rewrite sscanf_char, (sscanf_int _ (tm_min tm)) by scanning.
  rewrite sscanf_char, <- (app_nil_r (pad2 (tm_sec tm))), (sscanf_int _ (tm_sec tm)) by scanning.
  done.
Qed.

Lemma full_text_parses tm : tm_ok tm → parse_datetime_fields (full_text tm) = Some (unknown_dst tm).
Proof.
  intros Htm. pose proof Htm as (Hy & Hmo & Hd & Hh & Hmi & Hs). unfold parse_datetime_fields, scan_into.
  rewrite full_text_fields by done. cbn [length Nat.eqb take drop app orb negb].
  repeat match goal with |- context [?a <? ?b] => rewrite (proj2 (Z.ltb_ge a b)) by lia end. cbn [orb].
  unfold unknown_dst. do 2 f_equal; lia.
Qed.

Lemma full_text_not_number tm : tm_ok tm → (strtoull10 (full_text tm)).1.2 ≠ [].
Proof.
  intros (Hy & _). unfold full_text. pose proof (strtoull_print (tm_year tm + 1900)) as Hp.
  unfold INT32_MAX in Hy. rewrite Hp; [done|unfold is_u64; lia|done].
Qed.

(** The time that the player prints in its tables of boots and statistics is
    accepted by --since and --until, and stands for the same second: with a
    calendar in which [mktime] inverts [localtime_r] there, the text reads back as
    the time rounded down to the second. *)
Theorem printed_time_parses `{T : CTime} ts tm :
  is_u64 ts → localtime_r (ts / 1000000) = Some tm → tm_ok tm → mktime (unknown_dst tm) = ts / 1000000 →
  parse_time_arg (format_realtime_full ts) = Some (ts - ts mod 1000000).
Proof.
  intros Hts Hl Htm Hm. unfold format_realtime_full, parse_time_arg. rewrite Hl. pose proof (full_text_not_number tm Htm) as Hn.
  destruct (strtoull10 (full_text tm)) as [[v rest] erange]. cbn in Hn. rewrite (proj2 (beq_false rest [])) by done.
  rewrite andb_false_r, full_text_parses by done. cbn [mbind option_bind]. rewrite Hm. unfold is_u64 in Hts.
  pose proof (Z.div_mod ts 1000000 ltac:(lia)). pose proof (Z.mod_pos_bound ts 1000000 ltac:(lia)).
  assert (0 <= ts / 1000000) by (apply Z.div_pos; lia). rewrite (proj2 (Z.ltb_ge _ 0)) by lia.
  rewrite (u64_id (ts / 1000000)) by (unfold is_u64; lia). rewrite u64_id by (unfold is_u64; lia). f_equal. lia.
Qed.

(** ** Options *)
Definition group_ok (g : bytes) : Prop := 1 <= zlen g < GROUP_SIZE ∧ valid_group_name g = true.
Record args_ok (a : Args) : Prop := {
  ao_groups : Forall group_ok (ar_groups a);
  ao_lines : ∀ n h, ar_line_count a = Some (n, h) → is_u64 n;
  ao_batch : ∀ n, ar_batch_size a = Some n → is_u64 n ∧ 1 <= n;
}.

Lemma parse_batch_size_range text n : parse_batch_size text = Some n → is_u64 n ∧ 1 <= n.
Proof.
  unfold parse_batch_size. destruct (_ || _); [done|]. pose proof (strtoull_range text) as Hr.
  destruct (strtoull10 text) as [[v rest] erange]. destruct (_ || _) eqn:Hb; [done|]. intros [= <-].
  rewrite !orb_false_iff, Z.eqb_neq in Hb. split; [done|]. destruct Hr. cbn in *. lia.
Qed.
Lemma parse_line_count_range text n h : parse_line_count text = Some (n, h) → is_u64 n.
Proof.
  unfold parse_line_count. cbv zeta. destruct (_ || (zlen _ =? 0)); [done|].
  match goal with |- context [strtoull10 ?t] => pose proof (strtoull_range t) as Hr; destruct (strtoull10 t) as [[v rest] erange] end.
  destruct (_ || _); [done|].
  by intros [= <- <-].
Qed.

Lemma line_count_option_ok v a a' : args_ok a → line_count_option v a = Some a' → args_ok a'.
Proof.
  intros [H1 H2 H3] ([n h] & Hn & Ha)%bind_Some. injection Ha as <-. split; [done| |done].
  intros n' h' [= <- <-]. by eapply parse_line_count_range.
Qed.
Lemma batch_size_option_ok v a a' : args_ok a → batch_size_option v a = Some a' → args_ok a'.
Proof.
  intros [H1 H2 H3] (n & Hn & Ha)%bind_Some. injection Ha as <-. split; [done|done|].
  intros n' [= <-]. by eapply parse_batch_size_range.
Qed.
Lemma add_group_option_ok v a a' : args_ok a → add_group_option v a = Some a' → args_ok a'.
Proof.
  intros [H1 H2 H3]. unfold add_group_option. destruct (split_commas v) as [first rest].
  destruct (_ && _) eqn:Hb; [|done]. intros [= <-]. split; [|done|done]. cbn [ar_groups set_groups].
  apply Forall_app. split; [done|]. apply andb_true_iff in Hb as [_ Hall]. rewrite forallb_forall in Hall.
  apply Forall_forall. intros g Hg. specialize (Hall g (proj1 (list_elem_of_In _ _) Hg)).
  rewrite !andb_true_iff, negb_true_iff, Z.eqb_neq, Z.ltb_lt in Hall. pose proof (zlen_nonneg g). split; [lia|tauto].
Qed.
Lemma sort_option_ok v a a' : args_ok a → sort_option v a = Some a' → args_ok a'.
Proof. unfold sort_option. destruct (beq _ _); [|done]. intros [H1 H2 H3] [= <-]. by split. Qed.
Lemma always_ok f v a a' : (∀ v a, args_ok a → args_ok (f v a)) → args_ok a → always f v a = Some a' → args_ok a'.
Proof. intros Hf Ha [= <-]. by apply Hf. Qed.

Lemma classify_ok arg :
  match classify arg with
  | AFlag f => ∀ a, args_ok a → args_ok (f a)
  | AWith _ f | ANext f => ∀ v a a', args_ok a → f v a = Some a' → args_ok a'
  | AUnknown => True
  end.
Proof.
  unfold classify.
  repeat match goal with |- context [if ?b then _ else _] => destruct b end;
    first [done | intros v a a' Ha;
      first [by apply line_count_option_ok | by apply batch_size_option_ok | by apply add_group_option_ok
            | by apply sort_option_ok | apply always_ok; [|done]; by intros ?? []; split]
    | by intros a []; split].
Qed.
Lemma parse_arguments_ok : ∀ args a a', args_ok a → parse_arguments args a = Some a' → args_ok a'.
Proof.
  induction args as [args IH] using (induction_ltof1 _ length); unfold ltof in IH; intros a a' Ha.
  destruct args as [|arg args]; cbn [parse_arguments]; [by intros [= <-]|].
  pose proof (classify_ok arg) as Hc. destruct (classify arg) as [f|value f|f|]; [| | |done].
  - apply IH; [cbn; lia|]. by apply Hc.
  - intros (a1 & H1 & H2)%bind_Some. refine (IH args _ _ _ _ H2); [cbn; lia|]. by eapply Hc.
  - destruct args as [|value args]; [done|]. intros (a1 & H1 & H2)%bind_Some. refine (IH args _ _ _ _ H2); [cbn; lia|]. by eapply Hc.
Qed.

(** The combinations of options that make sense together, mode by mode. *)
Record compatible (a : Args) : Prop := {
  cp_place : ar_dir_path a = None ∨ ar_file_path a = None;
  cp_modes : Z.b2z (ar_disk_usage a) + Z.b2z (ar_stats a) + Z.b2z (ar_list_boots a) + Z.b2z (ar_rebuild_index a) <= 1;
  cp_repair : ar_repair_indexes a = true → ar_rebuild_index a = false;
  cp_force : ar_force_repair a = true → ar_repair_indexes a = true ∨ ar_rebuild_index a = true;
  cp_follow : ar_follow a = true →
    ar_force_repair a = false ∧ ar_stats a = false ∧ ar_rebuild_index a = false ∧ (∀ n, ar_line_count a ≠ Some (n, true)) ∧
    is_cursor_arg (ar_since_arg a) = false ∧ is_cursor_arg (ar_until_arg a) = false;
  cp_groups : ar_groups a ≠ [] →
    ar_disk_usage a = false ∧ ar_list_boots a = false ∧ ar_stats a = false ∧ ar_rebuild_index a = false;
  cp_rebuild : ar_rebuild_index a = true →
    is_Some (ar_file_path a) ∧ ar_unit_filter a = None ∧ ar_boot_filter a = None ∧ ar_since_arg a = None ∧ ar_until_arg a = None;
  cp_batch : is_Some (ar_batch_size a) →
    (∀ n, ar_line_count a ≠ Some (n, false)) ∧ ar_disk_usage a = false ∧ ar_stats a = false ∧ ar_list_boots a = false ∧
    ar_rebuild_index a = false ∧ ar_repair_indexes a = false ∧ ar_force_repair a = false;
}.
(** What an argument of --since or --until means: a cursor or a time. *)
Inductive means `{T : CTime} : option bytes → option bytes → option Z → Prop :=
| means_nothing : means None None None
| means_cursor text : is_cursor_arg (Some text) = true → means (Some text) (Some text) None
| means_time text ts : is_cursor_arg (Some text) = false → parse_time_arg text = Some ts → means (Some text) None (Some ts).
Definition in_time_order (since until : option Z) : Prop := ∀ s u, since = Some s → until = Some u → s <= u.

Lemma is_set_spec {A} (x : option A) : is_set x = true ↔ is_Some x.
Proof. destruct x; cbn; split; [eauto|done|done|by intros []]. Qed.
Lemma is_set_none {A} (x : option A) : is_set x = false ↔ x = None.
Proof. by destruct x. Qed.
Lemma no_groups (l : list bytes) : (zlen l =? 0) = true ↔ l = [].
Proof. destruct l as [|x l]; [done|]. rewrite Z.eqb_eq. split; [|done]. pose proof (zlen_nonneg l). unfold zlen in *. cbn [length]. lia. Qed.
Lemma from_head_spec a : lines_from_head a = false ↔ ∀ n, ar_line_count a ≠ Some (n, true).
Proof.
  unfold lines_from_head. destruct (ar_line_count a) as [[n []]|]; split; try done.
  intros H. by destruct (H n).
Qed.
Lemma newest_lines_spec a : is_set (ar_line_count a) && negb (lines_from_head a) = false ↔ ∀ n, ar_line_count a ≠ Some (n, false).
Proof.
  unfold lines_from_head. destruct (ar_line_count a) as [[n []]|]; cbn; split; try done.
  intros H. by destruct (H n).
Qed.
Lemma one_mode b1 b2 b3 b4 : (1 <? count_true [b1; b2; b3; b4])%nat = false ↔ Z.b2z b1 + Z.b2z b2 + Z.b2z b3 + Z.b2z b4 <= 1.
Proof. destruct b1, b2, b3, b4; cbn; split; done. Qed.

Lemma andb_refused b c : b && c = false ↔ (b = true → c = false).
Proof. destruct b, c; cbn; split; auto. Qed.
Lemma orb_refused b c : b || c = false ↔ b = false ∧ c = false.
Proof. apply orb_false_iff. Qed.

(** The refusals of [parse_options] are exactly the combinations outside. *)
Lemma conflicting_compatible a : conflicting a = false ↔ compatible a.
Proof.
  unfold conflicting. rewrite !orb_refused, !andb_refused, !orb_refused, one_mode, from_head_spec, newest_lines_spec,
    !is_set_none, !is_set_spec, !negb_true_iff, !negb_false_iff, !is_set_spec, no_groups.
  split.
  - intros [[[[[[[[[[H1 H2] H3] H4] H5] H6] H7] H8] H9] H10] H11]. split.
    + destruct (ar_dir_path a); [right; eauto|by left].
    + done.
    + done.
    + intros Hf. rewrite Hf in H4. destruct (ar_repair_indexes a); [by left|right; by apply H4].
    + intros Hf. rewrite Hf in *. destruct (ar_force_repair a), (ar_stats a), (ar_rebuild_index a); intuition done.
    + intros Hg. rewrite <- no_groups, not_true_iff_false in Hg. destruct (ar_rebuild_index a); [|intuition].
      destruct H9 as [[[[_ H9] _] _] _]; [done|]. rewrite <- no_groups in H9. congruence.
    + intuition.
    + intuition.
  - intros [P M R F Fo G Re B].
    assert (Hp : is_Some (ar_dir_path a) → ar_file_path a = None) by (intros [d Hd]; destruct P; congruence).
    assert (Hfo : ∀ b, (ar_follow a = true → b = false) → b = true → ar_follow a = false) by (destruct (ar_follow a); naive_solver).
    assert (Hr : ar_rebuild_index a = true → ar_groups a = []).
    { intros H. destruct (ar_groups a); [done|]. destruct G as (_ & _ & _ & H'); congruence. }
    assert (Hg : (zlen (ar_groups a) =? 0) = false → ar_groups a ≠ []) by (rewrite <- no_groups; congruence).
    assert (Hf : ar_force_repair a && negb (ar_repair_indexes a) = true → ar_rebuild_index a = true).
    { intros [H1 H2%negb_true_iff]%andb_true_iff. destruct (F H1); congruence. }
    split_and!; try done; first [apply Hfo; tauto|by intros (_ & _ & _ & H & _)%Fo|intros H; specialize (Hg H); tauto|intros H; split_and!; first [tauto|by apply (Hfo (ar_rebuild_index a)); tauto]].
Qed.

Lemma parse_bound_means `{T : CTime} arg c t : parse_bound arg = Some (c, t) ↔ means arg c t.
Proof.
  unfold parse_bound. split.
  - destruct arg as [text|]; [|intros [= <- <-]; constructor].
    destruct (is_cursor_arg (Some text)) eqn:Hc; [intros [= <- <-]; by constructor|].
    intros (ts & Hts & [= <- <-])%bind_Some. by constructor.
  - destruct 1 as [|text Hc|text ts Hc Ht]; [done|by rewrite Hc|]. rewrite Hc, Ht. done.
Qed.
Lemma time_order_spec st ut :
  match st, ut with Some s, Some u => u <? s | _, _ => false end = false ↔ in_time_order st ut.
Proof.
  unfold in_time_order. destruct st as [s|], ut as [u|]; split; try done.
  - intros H ?? [= <-] [= <-]. by apply Z.ltb_ge.
  - intros H. apply Z.ltb_ge. by apply H.
Qed.

(** C24: which command lines [parse_options] accepts, and as what.  Accepted are
    exactly those whose arguments parse, whose options make sense together (every
    refusal of the code is one of the conditions of [compatible], and none is
    missing) and whose --since and --until are a cursor or a time, in time order
    when both are times.  What is accepted carries valid group names that fit their
    arrays and a batch size of at least 1; the path is the file, the directory or
    the default, and the bounds are what their arguments mean. *)
Theorem parsed_options_consistent `{T : CTime} LOG_DIR args :
  (is_Some (parse_options LOG_DIR args) ↔
    ∃ a sc st uc ut, parse_arguments args no_args = Some a ∧ compatible a ∧
      means (ar_since_arg a) sc st ∧ means (ar_until_arg a) uc ut ∧ in_time_order st ut) ∧
  (∀ o, parse_options LOG_DIR args = Some o →
    parse_arguments args no_args = Some (po_args o) ∧ args_ok (po_args o) ∧
    po_path o = default (default LOG_DIR (ar_dir_path (po_args o))) (ar_file_path (po_args o)) ∧
    means (ar_since_arg (po_args o)) (po_since_cursor o) (po_since_ts o) ∧
    means (ar_until_arg (po_args o)) (po_until_cursor o) (po_until_ts o)).
Proof.
  assert (Hdown : ∀ o, parse_options LOG_DIR args = Some o →
    parse_arguments args no_args = Some (po_args o) ∧ conflicting (po_args o) = false ∧
    po_path o = default (default LOG_DIR (ar_dir_path (po_args o))) (ar_file_path (po_args o)) ∧
    means (ar_since_arg (po_args o)) (po_since_cursor o) (po_since_ts o) ∧
    means (ar_until_arg (po_args o)) (po_until_cursor o) (po_until_ts o) ∧ in_time_order (po_since_ts o) (po_until_ts o)).
  { intros o (a & Ha & H)%bind_Some. destruct (conflicting a) eqn:Hc; [done|].
    apply bind_Some in H as ([sc st] & Hs & H). apply bind_Some in H as ([uc ut] & Hu & H).
    destruct (match st with Some _ => _ | None => _ end) eqn:Hb; [done|]. injection H as <-. cbn.
    split; [done|]. split; [done|]. split; [by destruct (ar_file_path a), (ar_dir_path a)|].
    split; [by apply parse_bound_means|]. split; [by apply parse_bound_means|]. by apply time_order_spec. }
  split; [split|].
  - intros [o Ho]. destruct (Hdown o Ho) as (Ha & Hc & _ & Hs & Hu & Hb). apply conflicting_compatible in Hc. eauto 10.
  - intros (a & sc & st & uc & ut & Ha & Hc & Hs & Hu & Hb). apply conflicting_compatible in Hc.
    apply parse_bound_means in Hs, Hu. apply time_order_spec in Hb. unfold parse_options.
    rewrite Ha. cbn [mbind option_bind]. rewrite Hc, Hs. cbn [mbind option_bind]. rewrite Hu. cbn [mbind option_bind]. rewrite Hb. eauto.
  - intros o Ho. destruct (Hdown o Ho) as (Ha & _ & Hp & Hs & Hu & _).
    split; [done|]. split; [|done]. refine (parse_arguments_ok _ _ _ _ Ha); by split.
Qed.

(** ** Control characters *)
Definition clean (c : Z) : Prop := (32 <= c ∧ c ≠ 127) ∨ c = 10 ∨ c = 9.
Lemma clean_text s : forallb (λ c, ((32 <=? c) && negb (c =? 127)) || (c =? 10) || (c =? 9)) s = true → Forall clean s.
Proof.
  rewrite forallb_forall. intros H. apply Forall_forall. intros c Hc. specialize (H c (proj1 (list_elem_of_In _ _) Hc)).
  rewrite !orb_true_iff, andb_true_iff, negb_true_iff, Z.leb_le, Z.eqb_neq, !Z.eqb_eq in H. unfold clean. tauto.
Qed.
Lemma hexdigit_clean d : 0 <= d < 16 → clean (hexdigit d).
Proof. intros Hd. unfold hexdigit, clean. destruct (Z.ltb_spec d 10); lia. Qed.
Lemma field_clean v : bytes_ok v → Forall clean (print_player_field (Some v) true).
Proof.
  intros Hv. unfold print_player_field. cbn [andb]. change (default [] (Some v)) with v. induction Hv as [|c v Hc Hv IH]; [constructor|]. cbn [map concat].
  apply Forall_app. split; [|done]. unfold is_u8 in Hc. destruct ((_ && _ && _) || _) eqn:Hb.
  - apply Forall_app. split; [by apply clean_text|]. pose proof (Z.div_mod c 16 ltac:(lia)). pose proof (Z.mod_pos_bound c 16 ltac:(lia)).
    assert (0 <= c / 16 < 16) by (split; [apply Z.div_pos; lia|apply Z.div_lt_upper_bound; lia]).
    constructor; [by apply hexdigit_clean|]. constructor; [by apply hexdigit_clean|constructor].
  - constructor; [|constructor]. rewrite orb_false_iff, !andb_false_iff, !negb_false_iff, Z.ltb_ge, Z.eqb_neq, !Z.eqb_eq in Hb. unfold clean. lia.
Qed.
(** Text without control characters is left alone. *)
Lemma field_unchanged v b : Forall clean v → print_player_field (Some v) b = v.
Proof.
  unfold print_player_field. change (default [] (Some v)) with v. induction 1 as [|c v Hc Hv IH]; [done|]. cbn [map concat]. rewrite IH.
  replace (_ && _) with false; [done|]. symmetry. apply andb_false_iff. right.
  rewrite orb_false_iff, !andb_false_iff, !negb_false_iff, Z.ltb_ge, Z.eqb_neq, !Z.eqb_eq. unfold clean in Hc. lia.
Qed.
Lemma digits_clean s : all_digits s → Forall clean s.
Proof. intros Hs. eapply Forall_impl; [exact Hs|]. intros c Hc%isdigit_range. left. lia. Qed.
Lemma print_u64_clean v : is_u64 v → Forall clean (print_u64 v).
Proof. intros Hv. apply digits_clean, (print_reads v Hv). Qed.

Definition entry_bytes_ok (e : RecorderEntry) : Prop :=
  Forall (λ s, bytes_ok (text_of s)) [re_hostname e; re_comm e; re_unit e; re_exe e; re_message e] ∧ is_u64 (re_pid e).
Lemma rsplit_app c : ∀ s a b, rsplit c s = Some (a, b) → s = a ++ [c] ++ b.
Proof.
  induction s as [|x s IH]; intros a b; cbn [rsplit]; [done|].
  destruct (rsplit c s) as [[a' b']|]; [intros [= <- <-]; cbn; by rewrite (IH a' b' eq_refl)|].
  destruct (Z.eqb_spec x c) as [->|]; [|done]. by intros [= <- <-].
Qed.
Lemma identifier_bytes e : entry_bytes_ok e → bytes_ok (entry_identifier e).
Proof.
  intros [Hall _]. rewrite !Forall_cons in Hall. destruct Hall as (_ & Hc & Hu & Hx & _). unfold entry_identifier.
  destruct (zlen _ =? 0); [|by destruct (zlen _ =? 0)]. destruct (rsplit 47 _) as [[a b]|] eqn:Hs; [|done].
  apply rsplit_app in Hs. unfold bytes_ok in *. rewrite Hs, !Forall_app in Hx. tauto.
Qed.

(** C23: a sanitized line cannot drive the terminal.  Whatever bytes the entry
    holds, the text line that the player prints with --sanitize-output (the
    default) has, behind the time, no control character other than tabs and
    newlines, and no DEL; and text that has none is printed as it is. *)
Theorem sanitized_line_clean `{T : CTime} `{J : Jansson} e :
  entry_bytes_ok e →
  ∃ rest, print_entry e true false = format_realtime (re_realtime_ts e) ++ rest ∧ Forall clean rest ∧
    (Forall clean (text_of (re_message e)) → ∃ before, rest = before ++ text_of (re_message e) ++ [10]).
Proof.
  intros He. pose proof (identifier_bytes e He) as Hi. destruct He as [Hall Hpid]. rewrite !Forall_cons in Hall.
  destruct Hall as (Hh & _ & _ & _ & Hm & _). unfold print_entry. eexists. split; [reflexivity|].
  assert (Hid : Forall clean (if zlen (entry_identifier e) =? 0 then C " "
        else C " " ++ print_player_field (Some (entry_identifier e)) true
             ++ (if negb (re_pid e =? 0) then C "[" ++ print_u64 (re_pid e) ++ C "]: " else C ": "))).
  { destruct (_ =? 0); [by apply clean_text|]. rewrite !Forall_app. split_and!; [by apply clean_text|by apply field_clean|].
    destruct (negb _); [|by apply clean_text]. rewrite !Forall_app. split_and!; [by apply clean_text|by apply print_u64_clean|by apply clean_text]. }
  split.
  - rewrite !Forall_app. split_and!; [|exact Hid|by apply field_clean|by apply clean_text].
    destruct (_ && _); [|constructor]. rewrite Forall_app. split; [by apply clean_text|by apply field_clean].
  - intros Hc. rewrite (field_unchanged _ true Hc). eexists. by rewrite !app_assoc.
Qed.

(** ** The lines of -n and -f *)
Definition is_old (e : PlayerEntry) : bool := negb (pe_follow_new e).
Lemma follow_selection_spec old n : ∀ l seen,
  seen + zlen (List.filter is_old l) = old →
  sublist (follow_selection old n seen l) l ∧
  List.filter pe_follow_new (follow_selection old n seen l) = List.filter pe_follow_new l ∧
  ∃ skipped, List.filter is_old l = skipped ++ List.filter is_old (follow_selection old n seen l) ∧
    zlen (List.filter is_old (follow_selection old n seen l)) = Z.min (Z.max n 0) (zlen (List.filter is_old l)).
Proof.
  induction l as [|e l IH]; intros seen Hseen; cbn [follow_selection List.filter].
  { split; [constructor|]. split; [done|]. exists []. split; [done|]. change (zlen (A:=PlayerEntry) []) with 0. lia. }
  unfold is_old in Hseen. cbn [List.filter] in Hseen. fold is_old in Hseen. destruct (pe_follow_new e) eqn:He; cbn [negb] in Hseen.
  - destruct (IH seen Hseen) as (H1 & H2 & skipped & H3 & H4). cbn [orb app].
    replace (is_old e) with false by (unfold is_old; by rewrite He).
    split; [by constructor|]. cbn [List.filter]. rewrite He. replace (is_old e) with false by (unfold is_old; by rewrite He).
    split; [by f_equal|]. by exists skipped.
  - rewrite zlen_cons in Hseen. destruct (IH (seen + 1) ltac:(lia)) as (H1 & H2 & skipped & H3 & H4). cbn [orb].
    replace (is_old e) with true by (unfold is_old; by rewrite He). rewrite zlen_cons. pose proof (zlen_nonneg (List.filter is_old l)).
    destruct (Z.leb_spec (old - seen) n) as [Hle|Hgt]; cbn [app].
    + split; [by constructor|]. cbn [List.filter]. rewrite He. replace (is_old e) with true by (unfold is_old; by rewrite He).
      split; [done|]. exists []. rewrite zlen_cons, H4. split; [|lia].
      cbn [app]. f_equal. rewrite H3 at 1. pose proof (f_equal zlen H3) as Hl. rewrite zlen_app, H4 in Hl.
      assert (Hz : zlen skipped = 0) by lia. destruct skipped; [done|]. rewrite zlen_cons in Hz. pose proof (zlen_nonneg skipped). lia.
    + split; [by constructor|]. split; [done|]. exists (e :: skipped). cbn [app]. rewrite <- H3. split; [done|]. lia.
Qed.

(** C22: the lines of -n.  Without -f, -n COUNT prints the last COUNT collected
    entries and -n +COUNT the first COUNT, or all when there are fewer, and
    without -n all are printed.  The first scan of -f prints, in the order of the
    scan, all entries that are newer than its start and the last COUNT (10 without
    -n) of the older ones. *)
Theorem printed_lines_selected entries lines :
  (∀ n h, lines = Some (n, h) → 0 <= n) →
  (lines = None → selected_entries entries lines false = entries) ∧
  (∀ n, lines = Some (n, true) → ∃ rest, entries = selected_entries entries lines false ++ rest ∧
     zlen (selected_entries entries lines false) = Z.min n (zlen entries)) ∧
  (∀ n, lines = Some (n, false) → ∃ skipped, entries = skipped ++ selected_entries entries lines false ∧
     zlen (selected_entries entries lines false) = Z.min n (zlen entries)) ∧
  let first := selected_entries entries lines true in
  let n := match lines with Some (n, _) => n | None => 10 end in
  sublist first entries ∧ List.filter pe_follow_new first = List.filter pe_follow_new entries ∧
  ∃ skipped, List.filter is_old entries = skipped ++ List.filter is_old first ∧
    zlen (List.filter is_old first) = Z.min n (zlen (List.filter is_old entries)).
Proof.
  intros Hn. split; [by intros ->|]. split; [|split].
  - intros n ->. specialize (Hn n true eq_refl). unfold selected_entries. cbn [negb]. destruct (Z.ltb_spec n (zlen entries)).
    + exists (zdrop n entries). unfold zlen, ztake, zdrop in *. rewrite take_drop, length_take. split; [done|lia].
    + exists []. rewrite app_nil_r. split; [done|lia].
  - intros n ->. specialize (Hn n false eq_refl). unfold selected_entries. cbn [negb]. destruct (Z.ltb_spec n (zlen entries)).
    + exists (ztake (zlen entries - n) entries). unfold zlen, ztake, zdrop in *. rewrite take_drop, length_drop. split; [done|lia].
    + exists []. split; [done|lia].
  - cbv zeta. unfold selected_entries. cbn [negb]. change (λ e, negb (pe_follow_new e)) with is_old.
    set (n := match lines with Some (n, _) => n | None => 10 end).
    replace (match lines with Some (n, _) => n | None => FOLLOW_INITIAL_ENTRY_COUNT end) with n by (by destruct lines as [[??]|]).
    assert (0 <= n) by (unfold n; destruct lines as [[k h]|]; [by apply (Hn k h)|lia]).
    destruct (follow_selection_spec (zlen (List.filter is_old entries)) n entries 0 ltac:(lia)) as (H1 & H2 & skipped & H3 & H4).
    split; [done|]. split; [done|]. exists skipped. rewrite H4. split; [done|lia].
Qed.

(** ** The exchange sort *)
Section exchange.
Context {A : Type} (key : A → Z).
Lemma exchange_pass_ok : ∀ l x m rest, exchange_pass key x l = (m, rest) →
  m :: rest ≡ₚ x :: l ∧ key m <= key x ∧ Forall (λ y, key m <= key y) rest.
Proof.
  induction l as [|y l IH]; intros x m rest; cbn [exchange_pass]; [by intros [= <- <-]; repeat constructor|].
  destruct (Z.ltb_spec (key y) (key x)) as [Hlt|Hge].
  - destruct (exchange_pass key y l) as [m' rest'] eqn:He. intros [= <- <-]. destruct (IH _ _ _ He) as (Hp & Hm & Hall).
    split; [rewrite <- Hp; apply Permutation_swap|]. split; [lia|]. constructor; [lia|done].
  - destruct (exchange_pass key x l) as [m' rest'] eqn:He. intros [= <- <-]. destruct (IH _ _ _ He) as (Hp & Hm & Hall).
    split; [|split; [lia|constructor; [lia|done]]].
    etrans; [apply Permutation_swap|]. rewrite Hp. apply Permutation_swap.
Qed.
Lemma exchange_loop_ok n : ∀ l, (length l <= n)%nat →
  exchange_loop key n l ≡ₚ l ∧ StronglySorted (λ a b, key a <= key b) (exchange_loop key n l).
Proof.
  induction n as [|n IH]; intros [|x l] Hn; cbn [exchange_loop]; [by repeat constructor|cbn in Hn; lia|by repeat constructor|].
  destruct (exchange_pass key x l) as [m rest] eqn:He. destruct (exchange_pass_ok _ _ _ _ He) as (Hp & _ & Hall).
  pose proof (Permutation_length Hp) as Hlen. destruct (IH rest) as [H1 H2]; [cbn in *; lia|].
  split; [by rewrite H1|]. constructor; [done|]. by rewrite H1.
Qed.
Lemma strongly_sorted_strict l :
  NoDup (map key l) → StronglySorted (λ a b, key a <= key b) l → StronglySorted (λ a b, key a < key b) l.
Proof.
  intros Hnd. induction 1 as [|x l Hs IH Hall]; [constructor|]. cbn in Hnd. apply NoDup_cons in Hnd as [Hx Hnd].
  constructor; [by apply IH|]. rewrite Forall_forall in Hall. apply Forall_forall. intros y Hy. specialize (Hall y Hy).
  assert (key x ≠ key y) by (intros Heq; apply Hx; rewrite Heq; by apply list_elem_of_fmap_2). lia.
Qed.
(** Behind the element at [i] there are exactly the greater ones. *)
Lemma greater_behind l : ∀ (i : nat) b, StronglySorted (λ a b, key a < key b) l → l !! i = Some b →
  List.filter (λ b', key b <? key b') l = drop (S i) l.
Proof.
  induction l as [|x l IH]; intros i b Hs Hb; [done|]. apply StronglySorted_inv in Hs as [Hs Hall]. cbn [List.filter].
  destruct i as [|i]; cbn in Hb.
  - injection Hb as <-. rewrite Z.ltb_irrefl. change (drop 1 (x :: l)) with l. clear IH Hs. induction Hall as [|y l Hy Hall IH]; [done|].
    cbn [List.filter]. rewrite (proj2 (Z.ltb_lt _ _) Hy). by f_equal.
  - rewrite Forall_forall in Hall. specialize (Hall b (list_elem_of_lookup_2 _ _ _ Hb)).
    rewrite (proj2 (Z.ltb_ge _ _)) by lia. exact (IH i b Hs Hb).
Qed.
End exchange.

(** ** Boots *)
Section boots.
Context `{L : SegmentLib}.

(** A segment's own range lies in the one of the boot. *)
Definition covers (header : SegmentHeader) (footer : SegmentFooter) (b : BootInfo) : Prop :=
  same_boot (sh_boot_seq header) (sh_boot_id header) b = true ∧
  last_realtime header footer <= bi_last_realtime_ts b ∧ bi_first_segment_seq b <= sh_segment_seq header ∧
  (sh_first_realtime_ts header ≠ 0 → bi_first_realtime_ts b ≠ 0 ∧ bi_first_realtime_ts b <= sh_first_realtime_ts header).

Lemma widen_keeps h ft b h' ft' : covers h' ft' b → covers h' ft' (widen_boot h ft b).
Proof.
  intros (H1 & H2 & H3 & H4). split; [exact H1|]. unfold widen_boot. cbn.
  split; [destruct (Z.ltb_spec (bi_last_realtime_ts b) (last_realtime h ft)); lia|].
  split; [destruct (Z.ltb_spec (sh_segment_seq h) (bi_first_segment_seq b)); lia|]. intros Hne. destruct (H4 Hne) as [H5 H6].
  destruct (_ && _) eqn:Hb; [|done]. rewrite andb_true_iff, negb_true_iff, Z.eqb_neq, orb_true_iff, Z.eqb_eq, Z.ltb_lt in Hb. lia.
Qed.
Lemma widen_covers h ft b : same_boot (sh_boot_seq h) (sh_boot_id h) b = true → covers h ft (widen_boot h ft b).
Proof.
  intros Hs. split; [exact Hs|]. unfold widen_boot. cbn.
  split; [destruct (Z.ltb_spec (bi_last_realtime_ts b) (last_realtime h ft)); lia|].
  split; [destruct (Z.ltb_spec (sh_segment_seq h) (bi_first_segment_seq b)); lia|]. intros Hne.
  destruct (_ && _) eqn:Hb; [lia|]. rewrite (proj2 (Z.eqb_neq _ 0) Hne) in Hb. cbn [negb andb] in Hb.
  rewrite orb_false_iff, Z.eqb_neq, Z.ltb_ge in Hb. lia.
Qed.
Lemma fresh_covers h ft :
  covers h ft (mkBootInfo (sh_boot_seq h) (boot_key (sh_boot_id h)) (sh_first_realtime_ts h) (last_realtime h ft) (sh_segment_seq h)).
Proof. split; [unfold same_boot; cbn; by rewrite Z.eqb_refl|]. cbn. repeat split; try lia; done. Qed.

Lemma add_boot_ok h ft boots :
  Exists (covers h ft) (add_boot h ft boots) ∧
  (∀ h' ft', Exists (covers h' ft') boots → Exists (covers h' ft') (add_boot h ft boots)) ∧
  (∀ s, s ∈ map bi_boot_seq (add_boot h ft boots) → s ∈ map bi_boot_seq boots ∨ s = sh_boot_seq h) ∧
  (NoDup (map bi_boot_seq boots) → NoDup (map bi_boot_seq (add_boot h ft boots))).
Proof.
  induction boots as [|b boots (IH1 & IH2 & IH3 & IH4)]; cbn [add_boot].
  { split; [left; apply fresh_covers|]. split; [by intros ?? H%Exists_nil|].
    split; [intros s Hs; cbn in Hs; right; set_solver|]. intros _. apply NoDup_singleton. }
  destruct (same_boot (sh_boot_seq h) (sh_boot_id h) b) eqn:Hs.
  - split; [left; by apply widen_covers|]. split; [intros h' ft' H; inversion H; subst; [left; by apply widen_keeps|by right]|].
    split; [intros s Hin; by left|done].
  - split; [by right|]. split; [intros h' ft' H; inversion H; subst; [by left|right; by apply IH2]|].
    split; [intros s; cbn; rewrite !elem_of_cons; intros [->|[H|H]%IH3]; auto|].
    cbn. rewrite !NoDup_cons. intros [Hb Hnd]. split; [|by apply IH4]. intros [H|H]%IH3; [done|].
    unfold same_boot in Hs. rewrite <- H, Z.eqb_refl in Hs. done.
Qed.

Lemma boots_loop_ok fs : ∀ items boots boots', boots_loop fs items boots = Some boots' → NoDup (map bi_boot_seq boots) →
  NoDup (map bi_boot_seq boots') ∧
  (∀ h ft, Exists (covers h ft) boots → Exists (covers h ft) boots') ∧
  (∀ p, p ∈ items → ∃ h ft c, segment_scan_path (rd_file fs (sp_path p)) None None tt = ScanDone h ft c tt ∧ Exists (covers h ft) boots').
Proof.
  induction items as [|p items IH]; intros boots boots'; cbn [boots_loop].
  { intros [= <-] Hnd. split; [done|]. split; [done|]. by intros p H%not_elem_of_nil. }
  destruct (segment_scan_path (rd_file fs (sp_path p)) None None tt) as [h ft c []| |] eqn:Hs; [|done..].
  intros Hl Hnd. destruct (add_boot_ok h ft boots) as (H1 & H2 & _ & H4). destruct (IH _ _ Hl (H4 Hnd)) as (G1 & G2 & G3).
  split; [done|]. split; [intros h' ft' H; by apply G2, H2|]. intros q [->|Hq]%elem_of_cons; [|by apply G3].
  exists h, ft, c. split; [done|]. by apply G2.
Qed.

(** The list of boots.  When the player lists the boots of some segments, the
    list is sorted by boot number without a number twice, and for each of the
    segments it holds a boot of the same number or id whose times and first
    segment cover that segment. *)
Theorem listed_boots_cover fs items boots :
  collect_boots_from_segments fs items = Some boots →
  StronglySorted (λ a b, bi_boot_seq a < bi_boot_seq b) boots ∧
  ∀ p, p ∈ items → ∃ h ft c, segment_scan_path (rd_file fs (sp_path p)) None None tt = ScanDone h ft c tt ∧
    Exists (covers h ft) boots.
Proof.
  intros (boots' & Hl & [= <-])%bind_Some. destruct (boots_loop_ok _ _ _ _ Hl (NoDup_nil_2)) as (H1 & _ & H3).
  destruct (exchange_loop_ok bi_boot_seq (length boots') boots' ltac:(lia)) as [Hp Hs]. unfold sort_boots.
  split; [apply strongly_sorted_strict; [|done]; by rewrite Hp|].
  intros p Hin. destruct (H3 p Hin) as (h & ft & c & Hscan & He). exists h, ft, c. split; [done|].
  apply Exists_exists in He as (b & Hb & Hc). apply Exists_exists. exists b. split; [by rewrite Hp|done].
Qed.

Lemma collected_sorted fs items boots :
  collect_boots_from_segments fs items = Some boots → StronglySorted (λ a b, bi_boot_seq a < bi_boot_seq b) boots.
Proof.
  intros (boots' & Hl & [= <-])%bind_Some. destruct (boots_loop_ok _ _ _ _ Hl (NoDup_nil_2)) as (H1 & _).
  destruct (exchange_loop_ok bi_boot_seq (length boots') boots' ltac:(lia)) as [Hp Hs]. unfold sort_boots.
  apply strongly_sorted_strict; [by rewrite Hp|done].
Qed.
Lemma boots_for_path_sorted fs path boots :
  collect_boots_for_path fs path = Some boots → StronglySorted (λ a b, bi_boot_seq a < bi_boot_seq b) boots.
Proof.
  unfold collect_boots_for_path. destruct (rd_stat fs path) as [[]|]; [| | |done]; intros (items & _ & H)%bind_Some; by eapply collected_sorted.
Qed.

(** -b -K.  A boot filter that reads as [-k] selects the boot with exactly
    [k] later boots, by number, among those of the path; it is refused exactly
    when there are not more than [k] boots. *)
Theorem boot_offset_selects fs o text k boots :
  ar_boot_filter (po_args o) = Some text → parse_i32 text = Some (- k) → 0 <= k →
  collect_boots_for_path fs (po_path o) = Some boots →
  match resolve_boot_filter fs o with
  | None => zlen boots <= k
  | Some o' => ∃ b, b ∈ boots ∧ o' = with_boot None (Some (bi_boot_seq b)) o ∧
                 zlen (List.filter (λ b', bi_boot_seq b <? bi_boot_seq b') boots) = k
  end.
Proof.
  intros Ht Hp Hk Hc. pose proof (boots_for_path_sorted _ _ _ Hc) as Hs. unfold resolve_boot_filter. rewrite Ht, Hp.
  rewrite (proj2 (Z.leb_le (- k) 0)) by lia. rewrite Hc. cbn [mbind option_bind]. rewrite Z.opp_involutive.
  destruct (_ || _) eqn:Hb.
  { rewrite orb_true_iff, andb_true_iff, Z.eqb_eq, Z.ltb_lt, Z.leb_le in Hb. lia. }
  rewrite orb_false_iff, andb_false_iff, Z.eqb_neq, Z.ltb_ge, Z.leb_gt in Hb. pose proof (zlen_nonneg boots).
  assert (Hlt : k < zlen boots) by lia. clear Hb. set (i := Z.to_nat (zlen boots - 1 + - k)).
  destruct (lookup_lt_is_Some_2 boots i) as [b Hi]; [unfold i, zlen in *; lia|]. rewrite Hi. cbn [mbind option_bind].
  exists b. split; [by eapply list_elem_of_lookup_2|]. split; [done|].
  rewrite (greater_behind bi_boot_seq boots i b Hs Hi). unfold zlen in *. rewrite length_drop. unfold i. lia.
Qed.
End boots.

(** ** Disk usage *)
Lemma children_usage_ext (u v : bytes → option Z) path : ∀ names total,
  (∀ name child, child_path path name = Some child → u child = v child) →
  children_usage u path names total = children_usage v path names total.
Proof.
  induction names as [|name names IH]; intros total H; cbn [children_usage]; [done|]. destruct (_ || _); [by apply IH|].
  destruct (child_path path name) as [child|] eqn:Hc; cbn [mbind option_bind]; [|done].
  rewrite (H name child Hc). destruct (v child); cbn [mbind option_bind]; [by apply IH|done].
Qed.
Lemma child_path_length a b p : child_path a b = Some p → zlen p < PATH_SIZE ∧ zlen a + 1 <= zlen p.
Proof.
  unfold child_path. cbn zeta. assert (Hl : zlen (a ++ [47] ++ b) = zlen a + 1 + zlen b).
  { rewrite !zlen_app. change (zlen [47]) with 1. lia. }
  destruct (Z.leb_spec PATH_SIZE (zlen (a ++ [47] ++ b))); [done|]. intros Hp. assert (p = a ++ [47] ++ b) as -> by congruence.
  pose proof (zlen_nonneg b). lia.
Qed.

(** Measuring the disk usage ends.  A path below 512 bytes grows at every
    level, so 512 levels are enough, whatever the directories hold: more depth
    never changes the result. *)
Theorem disk_usage_depth lstat fs path n :
  (512 <= n)%nat → disk_usage_path lstat fs n path = disk_usage_path lstat fs 512 path.
Proof.
  assert (Hdeep : ∀ n m path, PATH_SIZE - zlen path <= Z.of_nat n → PATH_SIZE - zlen path <= Z.of_nat m →
    (0 < n)%nat → (0 < m)%nat → disk_usage_path lstat fs n path = disk_usage_path lstat fs m path).
  { induction n0 as [|n0 IH]; intros [|m] p Hn Hm Hn0 Hm0; [lia..|]. cbn [disk_usage_path].
    destruct (lstat p) as [[]|]; try done. destruct (rd_dir fs p) as [names|]; [|done]. apply children_usage_ext.
    intros name child Hc%child_path_length. apply IH; unfold PATH_SIZE in *; lia. }
  intros Hn. pose proof (zlen_nonneg path). apply Hdeep; unfold PATH_SIZE; lia.
Qed.
