(* ===== verification/CliBatch.v ===== *)
(** * The size of the batches changes nothing

    With --batch-size the player reads entries one by one, takes the cursor of
    each and resumes from it behind every batch.  The result is that of one pass
    over what the library delivers without batches, whatever their size. *)
From S2P Require Import Prelude Bytes Crypto Segment Chunk Index CText Json Player PlayerCursor PlayerFollow PlayerSource PlayerIter PlayerViews PlayerIterProofs BatchReader BatchProofs CliOptions CliOutput CliBoots CliStats CliMain.

Section batch.
Context `{F : FlatCC} `{QS : CLib} `{T : CTime} `{J : Jansson}.
Context (fuel : nat) (r : Settings) (store : Z) (Hid : rs_store_id r = Some store) (Hu : is_u64 store).
Context (o : PlayerOptions) (Hfollow : ar_follow (po_args o) = false).

(** ** The reference: one pass over the entries *)
Definition until_entry (e : RecorderEntry) : bool :=
  match po_until_cursor o with
  | Some until => match parse_cursor (Some until) with Some (id, k) => (id =? store) && bool_decide (key_of e = k) | None => false end
  | None => false
  end.
Definition enough (pc : PrintContext) : bool :=
  match ar_line_count (po_args o) with Some (n, _) => n <=? pc_entry_count pc | None => false end.
Fixpoint one_pass (pc : PrintContext) (entries : list RecorderEntry) : BatchEnd * PrintContext :=
  match entries with
  | [] => (AtEnd, pc)
  | e :: rest =>
      let pc' := (print_record e pc).2 in
      if until_entry e || enough pc' then (Reached, pc') else one_pass pc' rest
  end.

(** ** One entry *)
Lemma run_reader_bind {A B} (m : SM RecorderPlayer A) (f : A → SM Run B) s w a reader w' :
  m (ru_reader s) w = (Some a, reader, w') → (run_reader m ≫= f) s w = f a (set_run_reader reader s) w'.
Proof. intros Hm. unfold run_reader, mbind, SM_bind. by rewrite Hm. Qed.
Lemma print_current_bind {B} (f : unit → SM Run B) s w e :
  standing r (ru_reader s) e → (print_current ≫= f) s w = f tt (set_run_output (print_record e (ru_output s)).2 s) w.
Proof.
  intros Hst. unfold print_current. rewrite bind_assoc, bind_get. unfold rec_player_get_entry. rewrite (standing_entry _ _ _ Hst). by sm.
Qed.
Lemma at_until_standing s e : standing r (ru_reader s) e → at_until o s = until_entry e.
Proof.
  intros Hst. unfold at_until, until_entry. destruct (po_until_cursor o) as [until|]; [|done]. unfold rec_player_test_cursor.
  rewrite (standing_entry _ _ _ Hst), (qt_settings _ _ (st_quiet _ _ _ Hst)), Hid.
  destruct (parse_cursor (Some until)) as [[id k]|]; [|done]. destruct (id =? store); [|done].
  cbn [andb]. case_bool_decide; case_bool_decide; simplify_eq; done.
Qed.
Lemma standing_cursor reader e : standing r reader e → key_ok (key_of e) →
  rec_player_get_cursor reader = Some (format_cursor store (key_of e)).
Proof.
  intros Hst Hk. unfold rec_player_get_cursor. rewrite (standing_entry _ _ _ Hst), (qt_settings _ _ (st_quiet _ _ _ Hst)), Hid. cbn.
  by rewrite (proj1 Hk : valid_group_name (re_group e) = true).
Qed.

Lemma batch_line m bs k cursor s w e reader w1 :
  k < bs → rec_player_next fuel (ru_reader s) w = (Some true, reader, w1) → standing r reader e → key_ok (key_of e) →
  let pc' := (print_record e (ru_output s)).2 in
  batch_lines fuel (S m) o bs k cursor s w =
    if until_entry e || enough pc' then (Some (Reached, rec_player_get_cursor reader), mkRun reader pc' (ru_waits s), w1)
    else batch_lines fuel m o bs (k + 1) (rec_player_get_cursor reader) (mkRun reader pc' (ru_waits s)) w1.
Proof.
  intros Hk Hrun Hst Hkey pc'. cbn [batch_lines]. rewrite (proj2 (Z.ltb_lt k bs) Hk). cbn [negb].
  rewrite (run_reader_bind _ _ _ _ _ _ _ Hrun). cbn [negb].
  rewrite (print_current_bind _ (set_run_reader reader s) w1 e Hst), bind_get.
  set (s2 := set_run_output _ _). change (ru_reader s2) with reader. rewrite (standing_cursor _ _ Hst Hkey).
  rewrite (at_until_standing s2 e Hst). change (enough_lines o s2) with (enough pc'). by destruct (_ || _).
Qed.

(** ** One batch *)
Definition batch_post (bs k : Z) (cursor : option bytes) (out : list RecorderEntry) (s : Run) (sr : RecorderPlayer) (wr : World)
    (ended : BatchEnd) (cursor' : option bytes) (reader : RecorderPlayer) (pc' : PrintContext) (w' : World) : Prop :=
  match ended with
  | Full =>
      ∃ rest n', one_pass (ru_output s) out = one_pass pc' rest ∧ zlen rest + (bs - k) = zlen out ∧
        read_entries fuel n' reader w' = (Some rest, sr, wr) ∧ Forall (λ e, key_ok (key_of e)) rest ∧
        (k = bs ∧ reader = ru_reader s ∧ cursor' = cursor ∨
         ∃ e, standing r reader e ∧ key_ok (key_of e) ∧ cursor' = rec_player_get_cursor reader)
  | _ => one_pass (ru_output s) out = (ended, pc')
  end.
Lemma batch_lines_ok : ∀ out m n bs k cursor s w sr wr,
  quiet r (ru_reader s) → read_entries fuel n (ru_reader s) w = (Some out, sr, wr) → Forall (λ e, key_ok (key_of e)) out →
  (length out < m)%nat → k <= bs →
  ∃ ended cursor' reader pc' w',
    batch_lines fuel m o bs k cursor s w = (Some (ended, cursor'), mkRun reader pc' (ru_waits s), w') ∧
    batch_post bs k cursor out s sr wr ended cursor' reader pc' w'.
Proof.
  induction out as [|e out IH]; intros m n bs k cursor s w sr wr Hq Hread Hkeys Hm Hk; (destruct m as [|m]; [cbn in Hm; lia|]);
    (destruct (Z.eq_dec k bs) as [->|Hne];
      [exists Full, cursor, (ru_reader s), (ru_output s), w; split;
        [cbn [batch_lines]; rewrite Z.ltb_irrefl; by destruct s
        |eexists; exists n; split_and!; [reflexivity|lia|exact Hread|done|by left]]|]);
    pose proof (read_step _ _ _ _ _ _ _ _ Hq Hread) as Hstep.
  - exists AtEnd, cursor, sr, (ru_output s), wr. split; [|done]. cbn [batch_lines]. rewrite (proj2 (Z.ltb_lt k bs)) by lia.
    cbn [negb]. by rewrite (run_reader_bind _ _ _ _ _ _ _ Hstep).
  - destruct Hstep as (n' & reader & w1 & Hrun & Hst & Hrest). apply Forall_cons in Hkeys as [Hkey Hkeys].
    set (pc' := (print_record e (ru_output s)).2). pose proof (batch_line m bs k cursor s w e reader w1 ltac:(lia) Hrun Hst Hkey) as Hline.
    cbv zeta in Hline. fold pc' in Hline. rewrite Hline. unfold batch_post. cbn [one_pass]. fold pc'.
    destruct (until_entry e || enough pc').
    { by exists Reached, (rec_player_get_cursor reader), reader, pc', w1. }
    destruct (IH m n' bs (k + 1) (rec_player_get_cursor reader) (mkRun reader pc' (ru_waits s)) w1 sr wr) as
      (ended & cursor' & reader' & pc2 & w' & Hgo & Hpost); [apply (st_quiet _ _ _ Hst)|done|done|cbn in Hm; lia|lia|].
    exists ended, cursor', reader', pc2, w'. split; [exact Hgo|]. destruct ended; [|done|done].
    destruct Hpost as (rest & n2 & H1 & H2 & H3 & H4 & H5). exists rest, n2. rewrite zlen_cons. split_and!; [done|lia|done|done|].
    right. destruct H5 as [(_ & -> & ->)|H5]; [by exists e|done].
Qed.

(** ** All batches *)
Lemma resume_bind {B} (f : unit → SM Run B) s w e cursor :
  standing r (ru_reader s) e → key_ok (key_of e) → rec_player_get_cursor (ru_reader s) = Some cursor →
  (resume_at fuel cursor ≫= f) s w = f tt s w.
Proof.
  intros Hst Hk Hc. destruct (resume_restores fuel r (ru_reader s) e store w Hst Hid Hu Hk) as (c & reader & Hget & Hseek & Hnext & Htest).
  rewrite Hget in Hc. injection Hc as ->. unfold resume_at. rewrite bind_assoc.
  rewrite (run_reader_bind _ _ _ _ _ _ _ Hseek), bind_assoc.
  rewrite (run_reader_bind _ _ (set_run_reader reader s) _ _ _ _ Hnext), bind_assoc, bind_get.
  set (s2 := set_run_reader _ _). change (ru_reader s2) with (ru_reader s). rewrite Htest, bool_decide_true by done.
  cbn [andb]. rewrite bind_ret. unfold s2. by destruct s.
Qed.
Lemma batches_ok bs : 1 <= bs → ∀ m n out cursor s w sr wr,
  quiet r (ru_reader s) → read_entries fuel n (ru_reader s) w = (Some out, sr, wr) → Forall (λ e, key_ok (key_of e)) out →
  (length out < m)%nat →
  (cursor = None ∨ ∃ e, standing r (ru_reader s) e ∧ key_ok (key_of e) ∧ cursor = rec_player_get_cursor (ru_reader s)) →
  ∃ reader w', batches fuel m o bs cursor s w =
    (Some (Some (match (one_pass (ru_output s) out).1 with Reached => true | _ => false end)),
     mkRun reader (one_pass (ru_output s) out).2 (ru_waits s), w').
Proof.
  intros Hbs. induction m as [|m IH]; intros n out cursor s w sr wr Hq Hread Hkeys Hm Hc; [lia|].
  destruct (batch_lines_ok out (S m) n bs 0 cursor s w sr wr Hq Hread Hkeys Hm ltac:(lia)) as
    (ended & cursor' & reader & pc' & w' & Hlines & Hpost).
  assert (Hgo : ∀ B (f : unit → SM Run B), ((match cursor with Some c => resume_at fuel c | None => mret tt end) ≫= f) s w = f tt s w).
  { intros B f. destruct Hc as [->|(e & Hst & Hk & ->)]; [by sm|]. rewrite (standing_cursor _ _ Hst Hk).
    apply (resume_bind f s w e); [done|done|]. by apply standing_cursor. }
  cbn [batches]. rewrite Hgo, (bind_some _ _ _ _ _ _ _ Hlines). cbn beta iota. rewrite Hfollow. cbn [negb].
  destruct ended.
  - destruct Hpost as (rest & n' & H1 & H2 & H3 & H4 & H5). rewrite H1.
    destruct H5 as [(? & _)|(e & Hst & Hk & Hcur)]; [lia|].
    destruct (IH n' rest cursor' (mkRun reader pc' (ru_waits s)) w' sr wr) as (reader2 & w2 & Hrun);
      [apply (st_quiet _ _ _ Hst)|done|done|unfold zlen in *; lia|right; by exists e|].
    exists reader2, w2. exact Hrun.
  - unfold batch_post in Hpost. rewrite Hpost. by exists reader, w'.
  - unfold batch_post in Hpost. rewrite Hpost. by exists reader, w'.
Qed.

(** What is read without batches: from the time of --since, or from the head. *)
Definition plain_reading (n : nat) : SM RecorderPlayer (list RecorderEntry) :=
  _ ← (match po_since_ts o with Some ts => rec_player_seek_realtime_usec fuel ts | None => rec_player_seek_head end);
  read_entries fuel n.
End batch.

(** C18: the size of the batches does not matter.  If the library, without batches
    and in the order the run has set, delivers the entries [out] from --since or
    from the head, then one and the same output is printed with every batch size:
    that of one pass over [out] which stops at the cursor of --until or when
    -n +COUNT lines are printed; the run fails exactly when --until names a cursor
    that was not met.  The filters apply to every entry alike.  This compares batch
    sizes with each other: a run without --batch-size need not print this, since
    without --sort it does not order by the wall clock (CliDemo). *)
Theorem batch_size_irrelevant `{F : FlatCC} `{QS : CLib} `{T : CTime} `{J : Jansson} fuel o s w store n out sr wr m :
  ar_follow (po_args o) = false → po_since_cursor o = None → no_lines o = false →
  rs_store_id (rp_settings (ru_reader s)) = Some store → is_u64 store →
  plain_reading fuel o n (ru_reader s) w = (Some out, sr, wr) →
  Forall (λ e, key_ok (key_of e)) out → (length out < m)%nat →
  let pc := set_streaming (pc_initial_follow_scan (ru_output s)) true (ru_output s) in
  let '(ended, pc') := one_pass store o pc out in
  ∀ bs, 1 <= bs → ∃ reader w', scan_in_batches fuel m o bs s w =
    (Some (Exited (if is_set (po_until_cursor o) && negb (match ended with Reached => true | _ => false end) then 1 else 0)),
     mkRun reader pc' (ru_waits s), w').
Proof.
  intros Hf Hsc Hnl Hid Hu Hplain Hkeys Hm pc. destruct (one_pass store o pc out) as [ended pc'] eqn:Hpass. intros bs Hbs.
  set (reader0 := ru_reader s) in *. unfold plain_reading in Hplain. unfold mbind at 1, SM_bind at 1 in Hplain.
  set (seek := match po_since_ts o with Some ts => rec_player_seek_realtime_usec fuel ts | None => rec_player_seek_head end) in *.
  destruct (seek reader0 w) as [[[[]|] s1] w1] eqn:Hseek; [|done].
  assert (Hq : quiet (rp_settings reader0) s1).
  { unfold seek in Hseek. destruct (po_since_ts o); [by eapply seek_realtime_quiet|by eapply seek_head_quiet]. }
  unfold scan_in_batches, on_output. rewrite bind_modify, Hnl, Hf. cbn [negb]. fold pc.
  set (s2 := set_run_output pc s).
  assert (Hstart : seek_start fuel o true s2 w = (Some tt, set_run_reader s1 s2, w1)).
  { unfold seek_start, run_reader. rewrite Hsc. change (ru_reader s2) with reader0. fold seek. by rewrite Hseek. }
  destruct (batches_ok fuel (rp_settings reader0) store Hid Hu o Hf bs Hbs m n out None (set_run_reader s1 s2) w1 sr wr Hq Hplain Hkeys Hm
    ltac:(by left)) as (reader & w' & Hrun).
  change (ru_output (set_run_reader s1 s2)) with pc in Hrun. rewrite Hpass in Hrun. cbn [fst snd] in Hrun.
  exists reader, w'.
  assert (Hboth : (_ ← seek_start fuel o true; batches fuel m o bs None) s2 w = batches fuel m o bs None (set_run_reader s1 s2) w1).
  { by rewrite (bind_some _ _ _ _ _ _ _ Hstart). }
  rewrite Hrun in Hboth. rewrite (bind_attempt _ _ _ _ _ _ _ Hboth). cbn beta iota. by destruct ended, (is_set (po_until_cursor o)).
Qed.
