(* ===== verification/CliDemo.v ===== *)
(** * The player on a small store

    Instances of the player's properties, and what the program does in cases its
    descriptions leave out. *)
From S2P Require Import Prelude Bytes Crypto Segment SegmentImage SegmentScan SegmentWrite Models SegmentSpec SegmentSafety Chunk ChunkModel Index CText Json Boots Player PlayerCursor PlayerFollow PlayerSource PlayerIter PlayerIterProofs PlayerMerge BatchReader BatchProofs PlayerDemo CliOptions CliOutput CliBoots CliStats CliMain CliProofs CliBatch.

#[local] Existing Instance toy_lib.
#[local] Existing Instance toy_flatcc.
#[local] Existing Instance toy_flatcc_ok.
#[local] Existing Instance toy_clib.
#[local] Existing Instance toy_jansson.
Ltac by_computing := vm_compute; first [reflexivity|discriminate].

(** ** Calendars *)

(** January 1970 in UTC. *)
Definition january : CTime := {|
  localtime_r sec :=
    if (0 <=? sec) && (sec <? 2678400)
    then Some (mkTm 70 0 (sec / 86400 + 1) (sec mod 86400 / 3600) (sec mod 3600 / 60) (sec mod 60) 0) else None;
  mktime tm := (tm_mday tm - 1) * 86400 + tm_hour tm * 3600 + tm_min tm * 60 + tm_sec tm;
|}.
Lemma printed_time_parses_witness :
  format_realtime_full (T := january) 788645000123 = C "1970-01-10 03:04:05" ∧
  parse_time_arg (T := january) (format_realtime_full (T := january) 788645000123) = Some 788645000000.
Proof.
  split; [by_computing|].
  rewrite (printed_time_parses (T := january) 788645000123 (mkTm 70 0 10 3 4 5 0)); [reflexivity|unfold is_u64; lia|reflexivity| |reflexivity].
  unfold tm_ok, INT32_MAX. cbn. lia.
Defined.

(** Without a calendar, times are printed as numbers. *)
#[local] Instance no_calendar : CTime := { localtime_r _ := None; mktime _ := -1 }.

(** A time with a T in it is accepted with anything behind it: the format without
    seconds takes the rest for the character that must not be there, and six
    conversions look like a complete time. *)
Lemma garbage_behind_time :
  parse_datetime_fields (C "2024-01-02T03:04:05 tomorrow") = Some (mkTm 124 0 2 3 4 5 (-1)) ∧
  parse_datetime_fields (C "2024-01-02T03:04Z") = Some (mkTm 124 0 2 3 4 0 (-1)) ∧
  parse_datetime_fields (C "2024-01-02 03:04:05Z") = None ∧ parse_datetime_fields (C "2024-01-02 03:04Z") = None.
Proof. by vm_compute. Qed.
(** An empty value is the time 0. *)
Lemma empty_time_is_zero : parse_time_arg [] = Some 0.
Proof. by vm_compute. Qed.

(** ** Options *)
Definition demo_command : list bytes := map C ["-n"; "+5"; "-B2"; "--group=hi,lo"; "--until=100"; "--json"]%string.
Lemma parsed_options_consistent_witness :
  match parse_options (C "/s") demo_command with
  | Some o => Forall group_ok (ar_groups (po_args o)) ∧ po_path o = C "/s" ∧ po_until_ts o = Some 100000000
  | None => False
  end.
Proof.
  destruct (parse_options (C "/s") demo_command) as [o|] eqn:Ho; [|by vm_compute in Ho].
  destruct (proj2 (parsed_options_consistent (C "/s") demo_command) o Ho) as (_ & Ha & Hpath & _).
  assert (Hfacts : option_map (λ o, (ar_dir_path (po_args o), ar_file_path (po_args o), po_until_ts o)) (parse_options (C "/s") demo_command)
            = Some (None, None, Some 100000000)) by by_computing.
  rewrite Ho in Hfacts. injection Hfacts as Hd Hf Hu. split; [apply (ao_groups _ Ha)|]. rewrite Hpath, Hf, Hd. by split.
Defined.
(** [--disk-usage -f] is accepted; [--stats -f] is not. *)
Lemma disk_usage_follows :
  is_Some (parse_options (C "/s") (map C ["--disk-usage"; "-f"]%string)) ∧
  parse_options (C "/s") (map C ["--stats"; "-f"]%string) = None.
Proof. split; [by eexists; vm_compute|by_computing]. Qed.

(** ** Lines *)
Definition line_entry (ts pid : Z) (comm message : bytes) : RecorderEntry :=
  mkRecorderEntry 1 (C "b") 1 64 0 ts ts 0 pid 0 0 6 0 None (Some comm) None None (Some message) None [] (C "hi").
Definition escape_entry : RecorderEntry := line_entry 10 7 (C "sh") ([27] ++ C "[2J" ++ [127]).
Lemma sanitized_line_clean_witness :
  print_entry escape_entry true false = C "10 sh[7]: \x1B[2J\x7F" ++ [10] ∧
  ∃ rest, print_entry escape_entry true false = format_realtime 10 ++ rest ∧ Forall clean rest.
Proof.
  split; [by_computing|]. destruct (sanitized_line_clean escape_entry) as (rest & H1 & H2 & _).
  - split; [|by vm_compute]. repeat constructor; try done; unfold is_u8; lia.
  - by exists rest.
Defined.

Definition collected (ts : Z) (new : bool) : PlayerEntry := mkPlayerEntry (line_entry ts 7 (C "sh") (C "m")) ts new.
Lemma printed_lines_selected_witness :
  let l := [collected 1 false; collected 2 false; collected 3 true; collected 4 false] in
  map pe_order (selected_entries l (Some (1, false)) true) = [3; 4] ∧
  ∃ skipped, l = skipped ++ selected_entries l (Some (2, false)) false ∧ zlen (selected_entries l (Some (2, false)) false) = 2.
Proof.
  intros l. split; [by_computing|].
  destruct (printed_lines_selected l (Some (2, false))) as (_ & _ & H & _); [by intros n h [= <- _]|].
  destruct (H 2 eq_refl) as (skipped & H1 & H2). exists skipped. split; [exact H1|]. rewrite H2. reflexivity.
Defined.

(** ** Boots *)
Definition boot_segment (seq boot : Z) (id : string) : bytes :=
  let h := numbered_header seq in
  let '(_, fp1, enc1, _) := segment_write_header demo_file
    (mkSegmentHeader (sh_flags h) seq boot (C id) (sh_timezone h) (1000 * seq) (sh_first_monotonic_ts h) (sh_dict_len h)) [] None 0 in
  f_data (segment_write_footer fp1 (mkSegmentFooter 0 0 0 (1000 * seq + 500) 0 true)).2.
Definition boots_fs : ReadFs :=
  fs_of [("/s", ["."; ".."; "hi"]%string); ("/s/hi", ["3.seg"; "1.seg"; "2.seg"]%string)]%string
    [("/s/hi/1.seg", boot_segment 1 4 "a"); ("/s/hi/2.seg", boot_segment 2 5 "b"); ("/s/hi/3.seg", boot_segment 3 5 "b")]%string.
Definition boot_items : list SegmentPath := [seg_path "/s/hi/1.seg" 1; seg_path "/s/hi/2.seg" 2; seg_path "/s/hi/3.seg" 3].
Definition demo_boots : list BootInfo := [mkBootInfo 4 (C "a") 1000 1500 1; mkBootInfo 5 (C "b") 2000 3500 2].
Lemma listed_boots_cover_witness :
  collect_boots_from_segments boots_fs boot_items = Some demo_boots ∧
  StronglySorted (λ a b, bi_boot_seq a < bi_boot_seq b) demo_boots.
Proof.
  assert (H : collect_boots_from_segments boots_fs boot_items = Some demo_boots) by by_computing.
  split; [exact H|]. exact (proj1 (listed_boots_cover boots_fs boot_items demo_boots H)).
Defined.

Definition boot_options (filter : string) : PlayerOptions :=
  mkPlayerOptions (set_boot_arg (C filter) no_args) (C "/s") None None None None None None 0.
Lemma boot_offset_selects_witness :
  match resolve_boot_filter boots_fs (boot_options "-1") with Some o => po_boot_seq_filter o | None => None end = Some 4 ∧
  match resolve_boot_filter boots_fs (boot_options "-1") with
  | None => zlen demo_boots <= 1
  | Some o' => ∃ b, b ∈ demo_boots ∧ o' = with_boot None (Some (bi_boot_seq b)) (boot_options "-1") ∧
                 zlen (List.filter (λ b', bi_boot_seq b <? bi_boot_seq b') demo_boots) = 1
  end.
Proof.
  split; [by_computing|]. apply (boot_offset_selects boots_fs (boot_options "-1") (C "-1") 1 demo_boots); [done|by_computing|lia|by_computing].
Defined.

(** ** Disk usage *)
Lemma disk_usage_depth_witness :
  disk_usage_path (rd_stat demo_fs) demo_fs 600 (C "/s") = disk_usage_path (rd_stat demo_fs) demo_fs 512 (C "/s").
Proof. apply (disk_usage_depth (rd_stat demo_fs) demo_fs (C "/s") 600). lia. Defined.

(** ** In batches *)
Definition filtered_options : PlayerOptions :=
  mkPlayerOptions (set_counts (Some (4, true)) (Some 3) no_args) (C "/s") None None None (Some 60) None None 0.
Abbreviation demo_run :=
  (mkRun (rec_player_set_order (bo_order demo_options) opened_reader) (new_output filtered_options false []) []).
Lemma demo_order_keeps_id : rs_store_id (rp_settings (rec_player_set_order (bo_order demo_options) opened_reader)) = Some 5.
Proof. by_computing. Qed.
Abbreviation demo_pass :=
  (one_pass 5 filtered_options (set_streaming (pc_initial_follow_scan (ru_output demo_run)) true (ru_output demo_run)) plain_out).
Definition sshd_line (ts : Z) : bytes := print_u64 ts ++ C " sshd.service[42]: up" ++ [10].
Lemma demo_pass_result : pc_stdout demo_pass.2 = concat (map sshd_line [10; 20; 30; 40]).
Proof. by_computing. Qed.
Lemma batch_size_irrelevant_witness :
  ∃ pc, (∀ bs, 1 <= bs → ∃ reader w, scan_in_batches 5 10 filtered_options bs demo_run demo_world = (Some (Exited 0), mkRun reader pc [], w)) ∧
    pc_stdout pc = concat (map sshd_line [10; 20; 30; 40]).
Proof.
  destruct plain_read_result as (sr & wr & Hread).
  pose proof (batch_size_irrelevant 5 filtered_options demo_run demo_world 5 20 plain_out sr wr 10 eq_refl eq_refl eq_refl
    demo_order_keeps_id ltac:(unfold is_u64; lia) Hread plain_keys ltac:(rewrite plain_length; lia)) as H.
  cbv zeta in H. pose proof demo_pass_result as Hout. destruct demo_pass as [ended pc'].
  exists pc'. split; [exact H|exact Hout].
Defined.

(** ** Cases that the descriptions leave out *)
Definition env_at (now : Z) (waits : list WaitAnswer) : Env := mkEnv (rd_stat demo_fs) false false (Some now) waits.
Definition run_player (fs : ReadFs) (args : list string) (env : Env) : option (Ending * bytes) :=
  match player_main 5 40 3 (C "/s") (map C args) env (mkWorld fs EUNSET) with Some (e, out, _) => Some (e, out) | None => None end.
Definition prints (fs : ReadFs) (args : list string) (env : Env) (ending : Ending) (times : list Z) : bool :=
  match run_player fs args env with
  | Some (e, out) => bool_decide (e = ending) && beq out (concat (map sshd_line times))
  | None => false
  end.
Lemma plain_player :
  prints demo_fs [] (env_at 1000 []) (Exited 0) [10; 40; 50; 20; 30; 70; 60; 90; 80] = true ∧
  prints demo_fs ["--sort"; "wallclock"]%string (env_at 1000 []) (Exited 0) [10; 20; 30; 40; 50; 60; 70; 80; 90] = true ∧
  prints demo_fs ["-n"; "2"]%string (env_at 1000 []) (Exited 0) [90; 80] = true.
Proof. split_and!; by_computing. Qed.

(** -f without --sort collects the newest segment of every group first and the
    older ones behind: they are printed in that order, and the last seven of it
    are not the newest seven. *)
Lemma follow_prints_history_last :
  prints demo_fs ["-f"; "-n"; "7"]%string (env_at 1000 []) StillWaiting [70; 60; 90; 80; 10; 40; 50] = true.
Proof. by_computing. Qed.

(** A newer segment appears while the player follows. *)
Definition hi3 : bytes := store_segment 3 [[100; 110; 120]].
Definition grown_fs : ReadFs :=
  fs_of (map (λ d, if String.eqb d.1 "/s/hi" then ("/s/hi", ["2.seg"; "1.idx"; "1.seg"; "3.seg"]) else d) demo_dirs)%string
    [("/s/state/store-id", (C "0000000000000005" ++ [10])%list); ("/s/hi/1.seg", hi1); ("/s/hi/1.idx", store_index hi1);
     ("/s/hi/2.seg", hi2); ("/s/hi/3.seg", hi3); ("/s/lo/1.seg", lo1)]%string.
Definition grows : list WaitAnswer := [mkWaitAnswer grown_fs None].
(** -n limits every later scan as well: of three new entries -n 2 prints the last
    two, -n 0 prints none. *)
Lemma follow_limits_new_entries :
  prints demo_fs ["-f"; "--sort"; "wallclock"]%string (env_at 95 grows) StillWaiting
    [10; 20; 30; 40; 50; 60; 70; 80; 90; 100; 110; 120] = true ∧
  prints demo_fs ["-f"; "--sort"; "wallclock"; "-n"; "2"]%string (env_at 95 grows) StillWaiting [80; 90; 110; 120] = true ∧
  prints demo_fs ["-f"; "--sort"; "wallclock"; "-n"; "0"]%string (env_at 95 grows) StillWaiting [] = true.
Proof. split_and!; by_computing. Qed.

(** With --batch-size a store that is empty at first is never looked at again. *)
Definition empty_fs : ReadFs :=
  fs_of (map (λ d, if String.eqb d.1 "/s/hi" || String.eqb d.1 "/s/lo" then (d.1, []) else d) demo_dirs)%string
    [("/s/state/store-id", (C "0000000000000005" ++ [10])%list)]%string.
Lemma batches_miss_first_entries :
  prints empty_fs ["-f"; "-B2"]%string (env_at 5 [mkWaitAnswer demo_fs None; mkWaitAnswer demo_fs None]) StillWaiting [] = true ∧
  prints empty_fs ["-f"; "--sort"; "wallclock"]%string (env_at 5 [mkWaitAnswer demo_fs None]) StillWaiting [20; 30; 60; 70; 80; 90] = true.
Proof. split_and!; by_computing. Qed.

(** A message that is not UTF-8 is left out of the JSON line. *)
Lemma json_drops_message :
  json_object_get (entry_object (J := {| json_loads _ := None; json_dumps _ := None; json_utf8 s := forallb (λ b, b <? 128) s |})
    (line_entry 10 7 (C "sh") [195; 40])) (C "message") = None.
Proof. by vm_compute. Qed.
