(* ===== verification/Received.v ===== *)
(** * The echo of received entries (src/src/recorder.c)

    With -vv the recorder prints each entry of the journal that a pass has
    received, in the form of the player's lines.  The calendar is the class
    [CTime]; [strftime] is modelled in the C locale, as in CliOutput. *)
From S2P Require Import Prelude Bytes Segment CText Entry Modifiers CliOptions CliOutput CliProofs.

Definition print_journal_field (value : option bytes) (sanitize : bool) : bytes :=
  match value with
  | None => []
  | Some v =>
      concat (map (λ c,
        if sanitize && (((c <? 32) && negb (c =? 10) && negb (c =? 9)) || (c =? 127))
        then C "\x" ++ [hexdigit (c / 16); hexdigit (c mod 16)] else [c]) v)
  end.

(** What follows the last slash: the loop looks at the characters from the end. *)
Fixpoint basename_loop (n : nat) (v : bytes) : bytes :=
  match n with
  | O => v
  | S i => if nth i v 0 =? 47 then drop n v else basename_loop i v
  end.
Definition journal_basename_field (value : option bytes) : option bytes :=
  match value with
  | None => None
  | Some v => if zlen v =? 0 then Some v else Some (basename_loop (length v) v)
  end.

Section received.
Context `{T : CTime}.

Definition received_identifier (j : option JournalEntry) : option bytes :=
  let identifier := journal_field_nonempty (journal_get_field j (C "_COMM")) in
  let unit_ := journal_field_nonempty (journal_get_field j (C "_SYSTEMD_UNIT")) in
  let exe := journal_field_nonempty (journal_get_field j (C "_EXE")) in
  let identifier1 := match identifier with Some i => Some i | None => unit_ end in
  match identifier1, exe with
  | None, Some e => journal_basename_field (Some e)
  | _, _ => identifier1
  end.

(** The text on standard output. *)
Definition recorder_print_received_entry (j : JournalEntry) (sanitize_output : bool) : bytes :=
  let js := Some j in
  let hostname := journal_field_nonempty (journal_get_field js (C "_HOSTNAME")) in
  let message := journal_field_nonempty (journal_get_field js (C "MESSAGE")) in
  let pid := journal_get_u32 js (C "_PID") in
  let identifier := received_identifier js in
  format_realtime (je_realtime j)
  ++ (match hostname with Some _ => C " " ++ print_journal_field hostname sanitize_output | None => [] end)
  ++ (match identifier with
      | Some _ =>
          C " " ++ print_journal_field identifier sanitize_output
          ++ (if negb (pid =? 0) then C "[" ++ print_u64 pid ++ C "]: " else C ": ")
          ++ print_journal_field message sanitize_output ++ [10]
      | None => C " " ++ print_journal_field message sanitize_output ++ [10]
      end).

(** ** The two printers of a field are one *)
Lemma print_journal_field_player value sanitize :
  print_journal_field value sanitize = print_player_field value sanitize.
Proof. by destruct value. Qed.

(** ** Basenames *)
Lemma basename_loop_spec v : ∀ n, (n ≤ length v)%nat →
  ∃ dir base, v = dir ++ base ∧ basename_loop n v = base ∧
    (dir = [] ∨ ∃ d, dir = d ++ [47]) ∧ 47 ∉ take (n - length dir) base.
Proof.
  induction n as [|i IH]; intros Hn; cbn [basename_loop].
  - exists [], v. split_and!; [done|done|by left|]. cbn. apply not_elem_of_nil.
  - assert (Hi : (i < length v)%nat) by lia. destruct (lookup_lt_is_Some_2 v i Hi) as [x Hx].
    rewrite (nth_lookup_Some v i 0 x Hx). destruct (Z.eqb_spec x 47) as [->|Hne].
    + exists (take (S i) v), (drop (S i) v). split_and!; [by rewrite take_drop|done| |].
      * right. exists (take i v). by apply take_S_r.
      * rewrite length_take, Nat.min_l by lia. rewrite Nat.sub_diag. apply not_elem_of_nil.
    + destruct IH as (dir & base & Hv & Hb & Hd & Hs); [lia|]. exists dir, base. split_and!; [done|done|done|].
      destruct (decide (length dir ≤ i)%nat) as [Hle|Hgt].
      * rewrite Nat.sub_succ_l by lia. assert (Hbx : base !! (i - length dir)%nat = Some x).
        { rewrite Hv, lookup_app_r in Hx by lia. done. }
        rewrite (take_S_r _ _ _ Hbx), elem_of_app, list_elem_of_singleton. intros [H|H]; [done|by subst].
      * replace (S i - length dir)%nat with O by lia. apply not_elem_of_nil.
Qed.

(** The basename is the end of the path behind the last slash, or the path when
    there is none. *)
Lemma journal_basename_spec v :
  ∃ dir base, v = dir ++ base ∧ journal_basename_field (Some v) = Some base ∧
    (dir = [] ∨ ∃ d, dir = d ++ [47]) ∧ 47 ∉ base.
Proof.
  destruct (basename_loop_spec v (length v) (le_n _)) as (dir & base & Hv & Hb & Hd & Hs).
  assert (Hl : take (length v - length dir) base = base).
  { rewrite Hv at 1. rewrite length_app. replace (_ + _ - _)%nat with (length base) by lia. apply take_ge. lia. }
  rewrite Hl in Hs. exists dir, base. split_and!; [done| |done|done]. unfold journal_basename_field.
  destruct (Z.eqb_spec (zlen v) 0) as [Hz|Hz]; [|by rewrite Hb].
  assert (v = []) as -> by (destruct v; [done|unfold zlen in Hz; cbn in Hz; lia]). by subst base.
Qed.
End received.
